(** * CppON: the value tree of MicroCPPON, its numeric cells, parsers,
      serializers and tree algorithms

    A shallow embedding of [src/CppON.hpp] and [src/CppON.cpp].  The file
    first gives the definitions, each one following the C++ function whose
    name it carries, and then the theorems about them. *)

From Stdlib Require Import ZArith List String Ascii Bool Lia Floats DecimalString.
From Stdlib Require DecimalZ DecimalPos DecimalFacts.
From Stdlib Require Import Sorted Permutation RelationClasses.
From Stdlib Require OrdersEx.
Import ListNotations.
Local Open Scope Z_scope.
Set Warnings "-inexact-float,-register-all".

(* ====================================================================== *)
(** * Part I.  Definitions                                                *)
(* ====================================================================== *)

(** ** The value model ([class CppON] and its seven subclasses)

    Every node is allocated with [new]; [self] is the address of the node.
    The address is part of the model because [COArray::operator==] compares
    the element pointers of two vectors.  [siz], [unSigned], [precision],
    [order] and [data] are the members of the C++ classes.  An integer cell
    is kept as the unsigned bit pattern of its [siz] bytes.  A [std::map] is
    kept as an association list sorted by key, which is the order in which
    its iterators walk it.  Every constructor of [COMap] allocates the
    [std::map] and only the destructor releases it, so the [data] of a map
    is always there; the [data] of an array and of a double may be [NULL],
    as [COArray::at] and [CODouble::operator=] provide for. *)

Definition ptr := N.
Bind Scope N_scope with ptr.

Inductive CppON : Type :=
| COInteger (self : ptr) (siz : Z) (unSigned : bool) (data : Z)
| CODouble  (self : ptr) (precision : Z) (data : option float)
| COString  (self : ptr) (data : string)
| CONull    (self : ptr)
| COBoolean (self : ptr) (data : bool)
| COMap     (self : ptr) (order : list string) (data : list (string * CppON))
| COArray   (self : ptr) (data : option (list CppON)).

Inductive CppONType : Type :=
| UNKNOWN_CPPON_OBJ_TYPE
| INTEGER_CPPON_OBJ_TYPE
| DOUBLE_CPPON_OBJ_TYPE
| STRING_CPPON_OBJ_TYPE
| NULL_CPPON_OBJ_TYPE
| BOOLEAN_CPPON_OBJ_TYPE
| MAP_CPPON_OBJ_TYPE
| ARRAY_CPPON_OBJ_TYPE.

Inductive CppONOperator : Type :=
| CPPON_ADD
| CPPON_SUBTRACT
| CPPON_MULTIPLY
| CPPON_DIVIDE.

Definition type (n : CppON) : CppONType :=
  match n with
  | COInteger _ _ _ _ => INTEGER_CPPON_OBJ_TYPE
  | CODouble _ _ _ => DOUBLE_CPPON_OBJ_TYPE
  | COString _ _ => STRING_CPPON_OBJ_TYPE
  | CONull _ => NULL_CPPON_OBJ_TYPE
  | COBoolean _ _ => BOOLEAN_CPPON_OBJ_TYPE
  | COMap _ _ _ => MAP_CPPON_OBJ_TYPE
  | COArray _ _ => ARRAY_CPPON_OBJ_TYPE
  end.

Definition address (n : CppON) : ptr :=
  match n with
  | COInteger p _ _ _ | CODouble p _ _ | COString p _ | CONull p
  | COBoolean p _ | COMap p _ _ | COArray p _ => p
  end.

Definition CppONType_eqb (a b : CppONType) : bool :=
  match a, b with
  | UNKNOWN_CPPON_OBJ_TYPE, UNKNOWN_CPPON_OBJ_TYPE
  | INTEGER_CPPON_OBJ_TYPE, INTEGER_CPPON_OBJ_TYPE
  | DOUBLE_CPPON_OBJ_TYPE, DOUBLE_CPPON_OBJ_TYPE
  | STRING_CPPON_OBJ_TYPE, STRING_CPPON_OBJ_TYPE
  | NULL_CPPON_OBJ_TYPE, NULL_CPPON_OBJ_TYPE
  | BOOLEAN_CPPON_OBJ_TYPE, BOOLEAN_CPPON_OBJ_TYPE
  | MAP_CPPON_OBJ_TYPE, MAP_CPPON_OBJ_TYPE
  | ARRAY_CPPON_OBJ_TYPE, ARRAY_CPPON_OBJ_TYPE => true
  | _, _ => false
  end.

(** The static predicates [CppON::isMap( CppON *val )] and friends take a
    pointer that may be [NULL]. *)

Definition isType (t : CppONType) (val : option CppON) : bool :=
  match val with
  | Some n => CppONType_eqb (type n) t
  | None => false
  end.

Definition isMap := isType MAP_CPPON_OBJ_TYPE.
Definition isArray := isType ARRAY_CPPON_OBJ_TYPE.
Definition isString := isType STRING_CPPON_OBJ_TYPE.

Definition isObj (val : option CppON) : bool :=
  match val with
  | Some _ => true
  | None => false
  end.

(** ** Machine integers *)

Definition wrap (bits z : Z) : Z := z mod 2 ^ bits.

Definition sext (bits z : Z) : Z :=
  let u := wrap bits z in
  if u <? 2 ^ (bits - 1) then u else u - 2 ^ bits.

(** [( lo > r ) ? lo : ( ( hi < r ) ? hi : r )] *)
Definition clamp (lo hi r : Z) : Z :=
  if lo >? r then lo else if hi <? r then hi else r.

(** The four C++ operators on mathematical integers; the quotient of [/]
    truncates toward zero and a zero divisor has no defined result. *)
Definition arith (op : CppONOperator) (a b : Z) : option Z :=
  match op with
  | CPPON_ADD => Some (a + b)
  | CPPON_SUBTRACT => Some (a - b)
  | CPPON_MULTIPLY => Some (a * b)
  | CPPON_DIVIDE => if b =? 0 then None else Some (Z.quot a b)
  end.

(** ** [COInteger] *)

(** [COInteger::longValue]: the cell read through a signed pointer of its
    width. *)
Definition longValue (siz data : Z) : Z :=
  if (siz =? 1) || (siz =? 2) || (siz =? 4) || (siz =? 8)
  then sext (8 * siz) data else 0.

Definition charValue (siz data : Z) : Z := clamp (-128) 127 (longValue siz data).
Definition shortValue (siz data : Z) : Z := clamp (-32768) 32767 (longValue siz data).
Definition intValue (siz data : Z) : Z :=
  clamp (-2147483648) 2147483647 (longValue siz data).

(** The same operators on two [int64_t] operands, as the code computes
    them: the quotient of the least [int64_t] by [-1] does not fit and the
    division instruction traps, like the division by zero, so both have no
    result; the sum, the difference and the product are passed on as they
    are, and [doOperation] takes them modulo [2^64]. *)
Definition sarith (op : CppONOperator) (a b : Z) : option Z :=
  match op with
  | CPPON_DIVIDE =>
      if (b =? 0) || ((a =? - 2 ^ 63) && (b =? -1)) then None
      else Some (Z.quot a b)
  | _ => arith op a b
  end.

(** [COInteger::doOperation( sz, val, op )].  The result is the new content
    of the cell together with the returned [uint64_t]; [None] stands for
    a division that has no result and ends the process with a signal: the
    division by zero, and in a signed node of eight bytes the division of
    the least value by [-1].  The first [switch] is on the width [siz] of
    the node: in the widths 1, 2 and 4 an unsigned node updates its cell in
    place in the arithmetic of that width, and a signed node computes in the
    [int64_t] accumulator [rtn], clamps it and stores it back; in the width
    8 both kinds update the cell in place.  A sum, difference or product of
    two [int64_t] that does not fit is undefined in C++; the model takes the
    two's-complement result that the compiled code leaves, and so it does
    for the product of two [uint16_t], which is formed in [int].  The
    second [switch] is on the size [sz] of the operand type and only
    changes the returned number. *)
Definition doOperation (siz : Z) (unSigned : bool) (data : Z)
    (sz val : Z) (op : CppONOperator) : option (Z * Z) :=
  let first : option (Z * Z) :=
    if (siz =? 1) || (siz =? 2) || (siz =? 4) then
      let bits := 8 * siz in
      if unSigned then
        match arith op (wrap bits data) (wrap bits val) with
        | Some r => Some (wrap bits r, wrap bits r)
        | None => None
        end
      else
        match sarith op (sext bits data) (sext 64 val) with
        | Some r =>
            let rtn :=
              if siz =? 1 then clamp (-128) 127 (sext 64 r)
              else if siz =? 2 then clamp (-32768) 32767 (sext 64 r)
              else clamp (-2147483648) 2147483647 (sext 64 r) in
            Some (wrap bits rtn, rtn)
        | None => None
        end
    else if siz =? 8 then
      if unSigned then
        match arith op (wrap 64 data) (wrap 64 val) with
        | Some r => Some (wrap 64 r, sext 64 r)
        | None => None
        end
      else
        match sarith op (sext 64 data) (sext 64 val) with
        | Some r => Some (wrap 64 r, sext 64 r)
        | None => None
        end
    else Some (data, 0) in
  match first with
  | None => None
  | Some (cell, rtn) =>
      let rtn' :=
        if sz =? 1 then
          if unSigned then (if wrap 64 rtn >? 256 then 256 else rtn)
          else (if rtn >? 127 then 127 else if rtn <? -128 then -128 else rtn)
        else if sz =? 2 then
          if unSigned then (if wrap 64 rtn >? 65535 then 65535 else rtn)
          else (if rtn >? 32767 then 32767
                else if rtn <? -32768 then -32768 else rtn)
        else if sz =? 4 then
          if unSigned then (if wrap 64 rtn >? 4294967295 then 4294967295 else rtn)
          else (if rtn >? 2147483647 then 2147483647
                (* [( rtn < -80000000 ) ? -0x80000000 : rtn]: the literal
                   [0x80000000] is an [unsigned int], so is its negation *)
                else if rtn <? -80000000 then 2147483648 else rtn)
        else rtn in
      Some (cell, wrap 64 rtn')
  end.

(** [template<typename T> T COInteger::operator += ( const T t )] and its
    three siblings: [sz] is [sizeof( T )] and the operand is converted to
    [uint64_t]. *)
Definition COInteger_compound (op : CppONOperator) (n : CppON) (sz t : Z)
    : option CppON :=
  match n with
  | COInteger self siz unSigned data =>
      match doOperation siz unSigned data sz (wrap 64 t) op with
      | Some (cell, _) => Some (COInteger self siz unSigned cell)
      | None => None
      end
  | _ => None
  end.

(** The range of a [siz]-byte integer of the given signedness, and the
    behaviour the specification announces for the compound operators:
    the exact result, saturated to that range. *)
Definition range_min (siz : Z) (unSigned : bool) : Z :=
  if unSigned then 0 else - 2 ^ (8 * siz - 1).
Definition range_max (siz : Z) (unSigned : bool) : Z :=
  if unSigned then 2 ^ (8 * siz) - 1 else 2 ^ (8 * siz - 1) - 1.

Definition nodeValue (siz : Z) (unSigned : bool) (data : Z) : Z :=
  if unSigned then wrap (8 * siz) data else sext (8 * siz) data.

Definition saturated (siz : Z) (unSigned : bool) (r : Z) : Z :=
  clamp (range_min siz unSigned) (range_max siz unSigned) r.

(** The claim as the specification states it: whatever the width and the
    signedness of the node, the node afterwards holds the exact result
    saturated to its range. *)
Definition stores_saturated (siz : Z) (unSigned : bool) (data sz t : Z)
    (op : CppONOperator) : Prop :=
  forall r, arith op (nodeValue siz unSigned data) t = Some r ->
    exists cell rtn,
      doOperation siz unSigned data sz (wrap 64 t) op = Some (cell, rtn) /\
      nodeValue siz unSigned cell = saturated siz unSigned r.

(** ** [CODouble] *)

(** [pow( 10.0, precision )] for [0 <= precision <= 16]: the power is an
    integer below [2^63] that a [double] holds exactly. *)
Definition pow_10 (precision : Z) : float :=
  PrimFloat.of_uint63 (Uint63.of_Z (10 ^ precision)).

(** [round( d )] of [<math.h>]: the nearest integer, halves away from zero. *)
Definition c_round (d : float) : float :=
  match Prim2SF d with
  | S754_finite s m e =>
      if 0 <=? e then d
      else
        let den := 2 ^ (- e) in
        let q := Z.pos m / den in
        let r := Z.pos m mod den in
        let n := if den <=? 2 * r then q + 1 else q in
        let f := PrimFloat.of_uint63 (Uint63.of_Z n) in
        if s then PrimFloat.opp f else f
  | _ => d
  end.

(** [double CODouble::operator = ( const double& val )]: the new content of
    the cell. *)
Definition CODouble_assign (precision : Z) (data : option float) (val : float)
    : float :=
  match data with
  | None => val
  | Some old =>
      if (0 >? precision) || (16 <? precision) then val
      else
        let pow_10 := pow_10 precision in
        let n := PrimFloat.mul pow_10 old in
        let d := PrimFloat.mul pow_10 val in
        let t := PrimFloat.sub n d in
        if PrimFloat.ltb 0.75%float t || PrimFloat.ltb t (-0.75)%float
        then PrimFloat.div (c_round d) pow_10
        else old
  end.

(** [CODouble *CODouble::operator = ( CODouble &val )]: precision and
    content of the target afterwards. *)
Definition CODouble_assign_obj (precision : Z) (data : option float)
    (vprecision : Z) (vdata : option float) : Z * float :=
  let v := match vdata with Some d => d | None => 0%float end in
  match data with
  | None => (vprecision, v)
  | Some old =>
      if (0 <=? precision) && (16 >=? precision) then
        let pow_10 := pow_10 precision in
        let n := PrimFloat.mul pow_10 old in
        let d := PrimFloat.mul pow_10 v in
        let t := PrimFloat.sub n d in
        if PrimFloat.ltb 0.75%float t || PrimFloat.ltb t (-0.75)%float
        then (precision, PrimFloat.div (c_round d) pow_10)
        else (precision, old)
      else (precision, v)
  end.

(** ** [COArray::at] *)

Definition COArray_at (data : option (list CppON)) (i : N) : option CppON :=
  match data with
  | None => None
  | Some v =>
      if (N.of_nat (List.length v) <=? i)%N then None
      else nth_error v (N.to_nat i)
  end.

(** [COArray::size]: [( data ) ? vector size : 0]. *)
Definition COArray_size (data : option (list CppON)) : N :=
  match data with
  | Some v => N.of_nat (List.length v)
  | None => 0%N
  end.

(** ** C strings and [std::string]

    A [std::string] is a Rocq [string]; a [const char *] is the string that
    starts at the pointer, read up to its first NUL. *)

Definition NUL : ascii := "000"%char.

Fixpoint c_str (s : string) : string :=
  match s with
  | EmptyString => EmptyString
  | String c tl => if Ascii.eqb c NUL then EmptyString else String c (c_str tl)
  end.

Definition strlen (s : string) : Z := Z.of_nat (String.length (c_str s)).

(** [printf( "%d" )] and [printf( "%ld" )]. *)
Definition decimal (z : Z) : string := NilZero.string_of_int (Z.to_int z).

(** [snprintf( buf, size, ... )] keeps at most [size - 1] characters. *)
Definition snprintf (size : Z) (s : string) : string :=
  substring 0 (Z.to_nat (size - 1)) s.

(** ** The sorted association list behind [std::map< std::string, CppON* >] *)

Fixpoint map_find {A : Type} (k : string) (m : list (string * A)) : option A :=
  match m with
  | [] => None
  | (k', v) :: tl => if String.eqb k' k then Some v else map_find k tl
  end.

(** [insert]: a key that is already bound keeps its binding. *)
Fixpoint map_insert {A : Type} (k : string) (v : A) (m : list (string * A))
    : list (string * A) :=
  match m with
  | [] => [(k, v)]
  | (k', v') :: tl =>
      match String.compare k k' with
      | Lt => (k, v) :: m
      | Eq => m
      | Gt => (k', v') :: map_insert k v tl
      end
  end.

Fixpoint map_erase {A : Type} (k : string) (m : list (string * A))
    : list (string * A) :=
  match m with
  | [] => []
  | (k', v) :: tl => if String.eqb k' k then tl else (k', v) :: map_erase k tl
  end.

(** [m[ k ] = v]. *)
Definition map_assign {A : Type} (k : string) (v : A) (m : list (string * A))
    : list (string * A) :=
  map_insert k v (map_erase k m).

(** [std::find] followed by [erase] on the vector [order]: the first
    occurrence goes. *)
Fixpoint order_erase (k : string) (order : list string) : list string :=
  match order with
  | [] => []
  | k' :: tl => if String.eqb k' k then tl else k' :: order_erase k tl
  end.

Section Libc.

(** The C library formats and reads floating-point numbers; the embedding
    takes both as given: [format_lf p d] is what [printf( "%.<p>lf", d )]
    writes, and [strtod s] is the number read at the start of [s] together
    with the rest of [s]. *)
Variable format_lf : Z -> float -> string.
Variable strtod : string -> float * string.

(** ** Net strings *)

(** [CppON::toNetString( const char *str, char styp )]:
    ["%d:%s%c"] of the length, the text and the tag. *)
Definition CppON_toNetString (str : string) (styp : ascii) : string :=
  (decimal (strlen str) ++ ":" ++ c_str str ++ String styp EmptyString)%string.

(** The buffer that [COInteger::toNetString] and [COInteger::toJsonString]
    fill: ["%c"] for one byte, ["%d"] for two and four, ["%ld"] for eight. *)
Definition COInteger_buf (siz data : Z) : string :=
  if siz =? 1 then String (ascii_of_N (Z.to_N (wrap 8 data))) EmptyString
  else if siz =? 2 then decimal (sext 16 data)
  else if siz =? 4 then decimal (sext 32 data)
  else if siz =? 8 then decimal (sext 64 data)
  else EmptyString.

Definition CODouble_buf (precision : Z) (data : option float) : string :=
  match data with
  | None => EmptyString
  | Some d =>
      if (0 >? precision) || (16 <? precision)
      then snprintf 127 (format_lf 10 d)
      else snprintf 23 (format_lf precision d)
  end.

Definition CODouble_netbuf (data : option float) : string :=
  match data with
  | None => EmptyString
  | Some d => snprintf 47 (format_lf 10 d)
  end.

Definition opt_str (s : option string) : string :=
  match s with
  | Some x => x
  | None => EmptyString
  end.

(** [COInteger::toNetString], [CODouble::toNetString],
    [COString::toNetString], [CONull::toNetString],
    [COBoolean::toNetString], [COMap::toNetString] and
    [COArray::toNetString]; [None] is the [NULL] an array without data
    returns.  The map walks [order] and looks every key up; a key of
    [order] that has no binding would dereference [end()], and the model
    writes nothing for it.  The array writes nothing for a Null element. *)
Fixpoint toNetString (n : CppON) : option string :=
  match n with
  | COInteger _ siz _ data =>
      Some (CppON_toNetString (COInteger_buf siz data) "#")
  | CODouble _ _ data => Some (CppON_toNetString (CODouble_netbuf data) "^")
  | COString _ data => Some (CppON_toNetString data ",")
  | CONull _ => Some "0:~"%string
  | COBoolean _ data =>
      Some (CppON_toNetString (if data then "true" else "false")%string "!")
  | COMap _ order m =>
      let children :=
        (fix each (l : list (string * CppON)) : list (string * option string) :=
           match l with
           | [] => []
           | (k, c) :: tl => (k, toNetString c) :: each tl
           end) m in
      let rt :=
        fold_left
          (fun (rt : string) (key : string) =>
             match map_find key children with
             | Some sptr =>
                 (rt ++ CppON_toNetString key "," ++ opt_str sptr)%string
             | None => rt
             end)
          order EmptyString in
      Some (CppON_toNetString rt "}")
  | COArray _ None => None
  | COArray _ (Some v) =>
      let rt :=
        (fix each (l : list CppON) (rt : string) : string :=
           match l with
           | [] => rt
           | c :: tl =>
               match c with
               | CONull _ => each tl rt
               | _ => each tl (rt ++ opt_str (toNetString c))%string
               end
           end) v EmptyString in
      Some (CppON_toNetString rt "]")
  end.

(** ** JSON *)

(** The double-quote character, as a string. *)
Definition quote : string := String "034" EmptyString.

(** [COString::toJsonString]: the private [%XX] escapes. *)
Definition json_escape (ch : ascii) : string :=
  match ch with
  | "034"%char => "%22"
  | "{"%char => "%7B"
  | "}"%char => "%7D"
  | "<"%char => "%3C"
  | ">"%char => "%3E"
  | "\"%char => "%5C"
  | "'"%char => "%60"
  | "^"%char => "%5E"
  | "&"%char => "%26"
  | "013"%char => "%0D"
  | "010"%char => "%0A"
  | "007"%char => "%0A"
  | "009"%char => " "
  | _ => String ch EmptyString
  end%string.

Fixpoint json_escape_all (s : string) : string :=
  match s with
  | EmptyString => EmptyString
  | String ch tl => (json_escape ch ++ json_escape_all tl)%string
  end.

Definition COString_toJsonString (data : string) : string :=
  (quote ++ json_escape_all data ++ quote)%string.

(** The case labels of the [switch] in [COString::toJsonString]: the quote,
    the braces, the angle brackets, the backslash, the apostrophe, the
    caret, the ampersand, the carriage return, the newline, the bell and the
    tab. *)
Definition reserved : list ascii :=
  ["034"; "{"; "}"; "<"; ">"; "\"; "'"; "^"; "&"; "013"; "010"; "007";
   "009"]%char.

(** [toJsonString] of the five leaves. *)
Definition leaf_toJsonString (n : CppON) : string :=
  match n with
  | COInteger _ siz _ data => c_str (COInteger_buf siz data)
  | CODouble _ precision data => c_str (CODouble_buf precision data)
  | COString _ data => COString_toJsonString data
  | CONull _ => "null"
  | COBoolean _ data => if data then "true" else "false"
  | _ => EmptyString
  end%string.

(** [COMap::toCompactJsonString] and [COArray::toCompactJsonString].  The
    name the map writes is [it->first.c_str()]; as in [toNetString] nothing
    is written for a key of [order] that has no binding. *)
Fixpoint toCompactJsonString (n : CppON) : string :=
  match n with
  | COMap _ order m =>
      let children :=
        (fix each (l : list (string * CppON)) : list (string * string) :=
           match l with
           | [] => []
           | (k, c) :: tl => (k, toCompactJsonString c) :: each tl
           end) m in
      let body :=
            snd (fold_left
              (fun (st : bool * string) (key : string) =>
                 let (first, rtn) := st in
                 match map_find key children with
                 | Some sptr =>
                     let rtn := if first then rtn else (rtn ++ ",")%string in
                     (false, (rtn ++ quote ++ c_str key ++ quote ++ ":" ++ sptr)%string)
                 | None => st
                 end)
              order (true, EmptyString)) in
      ("{" ++ body ++ "}")%string
  | COArray _ data =>
      let body :=
        match data with
        | None => EmptyString
        | Some v =>
            (fix each (l : list CppON) (first : bool) (rtn : string) : string :=
               match l with
               | [] => rtn
               | c :: tl =>
                   let rtn := if first then rtn else (rtn ++ ",")%string in
                   match c with
                   | CONull _ => each tl false rtn
                   | _ => each tl false (rtn ++ toCompactJsonString c)%string
                   end
               end) v true EmptyString
        end in
      ("[" ++ body ++ "]")%string
  | _ => leaf_toJsonString n
  end.

(** [COMap::toJsonString( indent )] and [COArray::toJsonString( indent )]:
    two more spaces at every level. *)
Fixpoint toJsonString (n : CppON) (indent : string) : string :=
  match n with
  | COMap _ order m =>
      let newIndent := (indent ++ "  ")%string in
      let children :=
            (fix each (l : list (string * CppON)) : list (string * string) :=
               match l with
               | [] => []
               | (k, c) :: tl =>
                   (k, match c with
                       | COMap _ _ _ | COArray _ _ =>
                           (String "010" EmptyString ++
                            toJsonString c newIndent)%string
                       | _ => toJsonString c newIndent
                       end) :: each tl
               end) m in
      let body :=
            snd (fold_left
              (fun (st : bool * string) (key : string) =>
                 let (first, rtn) := st in
                 match map_find key children with
                 | Some sptr =>
                     let rtn :=
                       if first then rtn
                       else (rtn ++ "," ++ String "010" EmptyString)%string in
                     (false,
                      (rtn ++ newIndent ++ quote ++ c_str key ++ quote ++ ": " ++
                       sptr)%string)
                 | None => st
                 end)
              order (true, EmptyString)) in
      (indent ++ "{" ++ String "010" EmptyString ++ body ++
       String "010" EmptyString ++ indent ++ "}")%string
  | COArray _ data =>
      let newIndent := (indent ++ "  ")%string in
      let body :=
        match data with
        | None => EmptyString
        | Some v =>
            (fix each (l : list CppON) (first : bool) (rtn : string) : string :=
               match l with
               | [] => rtn
               | c :: tl =>
                   let rtn :=
                     if first then rtn
                     else (rtn ++ "," ++ String "010" EmptyString)%string in
                   let rtn := (rtn ++ newIndent)%string in
                   match c with
                   | CONull _ => each tl false rtn
                   | _ => each tl false (rtn ++ toJsonString c newIndent)%string
                   end
               end) v true EmptyString
        end in
      (indent ++ "[" ++ String "010" EmptyString ++ body ++
       String "010" EmptyString ++ indent ++ "]")%string
  | _ => leaf_toJsonString n
  end.

End Libc.

(** ** A model of the C library's floating-point text conversions

    The functions above do not depend on how the C library prints and reads
    a [double].  Where a closed example needs an instance, it uses the two
    functions below: [printf_lf] prints a finite number exactly rounded
    (ties to even) to the requested number of decimals, and [c_strtod] reads
    an optionally signed constant, decimal with an optional fraction and
    decimal exponent or hexadecimal with an optional fraction and binary
    exponent, and rounds it to the nearest [double]; it reads [inf],
    [infinity] and [nan], with or without [(...)], in any mix of cases. *)

Definition round_half_even (a b : Z) : Z :=
  let q := a / b in
  let r := a mod b in
  if (b <? 2 * r) || ((b =? 2 * r) && Z.odd q) then q + 1 else q.

Fixpoint zeros (n : nat) : string :=
  match n with
  | O => EmptyString
  | S k => String "0" (zeros k)
  end.

Definition fixed_point (p : Z) (n : Z) : string :=
  let digits := decimal n in
  let digits :=
    (zeros (Z.to_nat (p + 1) - String.length digits) ++ digits)%string in
  let k := (String.length digits - Z.to_nat p)%nat in
  if p <=? 0 then digits
  else (substring 0 k digits ++ "." ++ substring k (Z.to_nat p) digits)%string.

Definition printf_lf (p : Z) (d : float) : string :=
  match Prim2SF d with
  | S754_zero s => ((if s then "-" else "") ++ fixed_point p 0)%string
  | S754_infinity s => if s then "-inf"%string else "inf"%string
  | S754_nan => "nan"%string
  | S754_finite s m e =>
      let n :=
        if 0 <=? e then Z.pos m * 2 ^ e * 10 ^ p
        else round_half_even (Z.pos m * 10 ^ p) (2 ^ (- e)) in
      ((if s then "-" else "") ++ fixed_point p n)%string
  end.

(** The [double] nearest to [a / b], for [0 <= a] and [0 < b]. *)
Definition nearest_double (a b : Z) : float :=
  if a =? 0 then 0%float
  else
    let scaled (e : Z) : Z * Z :=
      if 0 <=? e then (a, b * 2 ^ e) else (a * 2 ^ (- e), b) in
    let e1 := Z.log2 a - Z.log2 b - 53 in
    let e := let (x, y) := scaled e1 in
             if x <? y * 2 ^ 53 then e1 else e1 + 1 in
    let e := Z.max e (-1074) in
    let (x, y) := scaled e in
    Z.ldexp (PrimFloat.of_uint63 (Uint63.of_Z (round_half_even x y))) e.

Definition isdigit (ch : ascii) : bool :=
  (("0" <=? ch) && (ch <=? "9"))%char.

Definition digit_value (ch : ascii) : Z :=
  Z.of_N (N_of_ascii ch) - 48.

(** [isspace] in the C locale. *)
Definition isspace (ch : ascii) : bool :=
  let n := N_of_ascii ch in ((n =? 32) || ((9 <=? n) && (n <=? 13)))%N.

Fixpoint skip_space (s : string) : string :=
  match s with
  | String ch tl => if isspace ch then skip_space tl else s
  | EmptyString => s
  end.

(** The decimal digits at the start of [s]: their value, their number and
    the rest. *)
Fixpoint read_digits (s : string) (acc : Z) (count : Z) : Z * Z * string :=
  match s with
  | String ch tl =>
      if isdigit ch then read_digits tl (10 * acc + digit_value ch) (count + 1)
      else (acc, count, s)
  | EmptyString => (acc, count, s)
  end.

(** A letter of [word], which is in lower case, in either case. *)
Definition letter_eqb (ch w : ascii) : bool :=
  ((N_of_ascii ch =? N_of_ascii w) || (N_of_ascii ch + 32 =? N_of_ascii w))%N.

(** The text after [word], when the text starts with it in any mix of
    cases. *)
Fixpoint skip_word (word s : string) : option string :=
  match word with
  | EmptyString => Some s
  | String w wt =>
      match s with
      | String ch tl => if letter_eqb ch w then skip_word wt tl else None
      | EmptyString => None
      end
  end.

Definition hex_digit (ch : ascii) : option Z :=
  let n := Z.of_N (N_of_ascii ch) in
  if isdigit ch then Some (n - 48)
  else if (("a" <=? ch) && (ch <=? "f"))%char then Some (n - 87)
  else if (("A" <=? ch) && (ch <=? "F"))%char then Some (n - 55)
  else None.

Fixpoint read_hex (s : string) (acc : Z) (count : Z) : Z * Z * string :=
  match s with
  | String ch tl =>
      match hex_digit ch with
      | Some d => read_hex tl (16 * acc + d) (count + 1)
      | None => (acc, count, s)
      end
  | EmptyString => (acc, count, s)
  end.

(** The characters between the parentheses of [nan(...)]: letters, digits
    and the underscore.  The result is the text after the closing
    parenthesis. *)
Fixpoint skip_nan_chars (s : string) : option string :=
  match s with
  | String ch tl =>
      if (ch =? ")")%char then Some tl
      else if isdigit ch || (ch =? "_")%char ||
              (("a" <=? ch) && (ch <=? "z"))%char ||
              (("A" <=? ch) && (ch <=? "Z"))%char
      then skip_nan_chars tl
      else None
  | EmptyString => None
  end.

(** An exponent: the letter [e1] or [e2], an optional sign and decimal
    digits.  Without a digit there is no exponent and nothing is
    consumed. *)
Definition read_exponent (e1 e2 : ascii) (s : string) : Z * string :=
  match s with
  | String ch tl =>
      if ((ch =? e1) || (ch =? e2))%char then
        let '(eneg, tl') :=
          match tl with
          | String "-" t => (true, t)
          | String "+" t => (false, t)
          | _ => (false, tl)
          end in
        let '(ev, ec, rest) := read_digits tl' 0 0 in
        if ec =? 0 then (0, s) else ((if eneg then - ev else ev), rest)
      else (0, s)
  | EmptyString => (0, s)
  end.

(** A hexadecimal constant: [0x], hexadecimal digits with an optional
    point, of which there is at least one, and an optional binary
    exponent. *)
Definition hex_constant (s : string) : option (float * string) :=
  match s with
  | String "0" (String x body) =>
      if ((x =? "x") || (x =? "X"))%char then
        let '(ip, ic, s3) := read_hex body 0 0 in
        let '(fp, fc, s4) :=
          match s3 with
          | String "." tl => read_hex tl ip 0
          | _ => (ip, 0, s3)
          end in
        if ic + fc =? 0 then None
        else
          let (ex, s5) := read_exponent "p" "P" s4 in
          let e2 := ex - 4 * fc in
          Some (if 0 <=? e2 then nearest_double (fp * 2 ^ e2) 1
                else nearest_double fp (2 ^ (- e2)), s5)
      else None
  | _ => None
  end.

(** A decimal constant: digits with an optional point, of which there is
    at least one, and an optional decimal exponent. *)
Definition decimal_constant (s : string) : option (float * string) :=
  let '(ip, ic, s3) := read_digits s 0 0 in
  let '(fp, fc, s4) :=
    match s3 with
    | String "." tl => read_digits tl ip 0
    | _ => (ip, 0, s3)
    end in
  if ic + fc =? 0 then None
  else
    let (ex, s5) := read_exponent "e" "E" s4 in
    let e10 := ex - fc in
    Some (if 0 <=? e10 then nearest_double (fp * 10 ^ e10) 1
          else nearest_double fp (10 ^ (- e10)), s5).

Definition c_strtod (s : string) : float * string :=
  let s1 := skip_space s in
  let '(neg, s2) :=
    match s1 with
    | String "-" tl => (true, tl)
    | String "+" tl => (false, tl)
    | _ => (false, s1)
    end in
  let signed (v : float) := if neg then PrimFloat.opp v else v in
  match skip_word "inf" s2 with
  | Some r =>
      (signed infinity,
       match skip_word "inity" r with Some r' => r' | None => r end)
  | None =>
      match skip_word "nan" s2 with
      | Some r =>
          (nan,
           match r with
           | String "(" tl =>
               match skip_nan_chars tl with Some r' => r' | None => r end
           | _ => r
           end)
      | None =>
          match hex_constant s2 with
          | Some (v, rest) => (signed v, rest)
          | None =>
              match decimal_constant s2 with
              | Some (v, rest) => (signed v, rest)
              | None => (0%float, s)
              end
          end
      end
  end.

(** ** The net-string payload of a composite, in the words of the
    specification: the net strings of the children, one after the other, in
    the order of [order] for a map (every key as a net string before its
    value) and in index order for an array (a Null element has none). *)

Definition concat_all (l : list string) : string :=
  fold_right String.append EmptyString l.

Definition map_payload (format_lf : Z -> float -> string)
    (order : list string) (m : list (string * CppON)) : string :=
  concat_all
    (List.map
       (fun key =>
          match map_find key m with
          | Some c =>
              (CppON_toNetString key "," ++
               opt_str (toNetString format_lf c))%string
          | None => EmptyString
          end)
       order).

Definition array_payload (format_lf : Z -> float -> string)
    (v : list CppON) : string :=
  concat_all
    (List.map
       (fun c =>
          match c with
          | CONull _ => EmptyString
          | _ => opt_str (toNetString format_lf c)
          end)
       v).

(** The type tag that ends the net string of a node. *)
Definition tag (n : CppON) : ascii :=
  match n with
  | COInteger _ _ _ _ => "#"
  | CODouble _ _ _ => "^"
  | COString _ _ => ","
  | CONull _ => "~"
  | COBoolean _ _ => "!"
  | COMap _ _ _ => "}"
  | COArray _ _ => "]"
  end%char.

(** The map [{"a":1,"b":"x"}], built by appending [a] and then [b]. *)
Definition map_a1_bx : CppON :=
  COMap 1 ["a"; "b"]%string
    [("a"%string, COInteger 2 4 false 1); ("b"%string, COString 3 "x")].

(** ** [strtol] and [strtoll] (both 64 bits wide)

    White space, an optional sign, the digits of the base; base 16 and base
    0 accept [0x] before a hexadecimal digit, and in base 0 a leading [0]
    selects base 8.  Without a digit nothing is consumed and the value is 0;
    a value out of range is clamped. *)

Definition digit_of (ch : ascii) : option Z :=
  let n := Z.of_N (N_of_ascii ch) in
  if isdigit ch then Some (n - 48)
  else if (("a" <=? ch) && (ch <=? "z"))%char then Some (n - 87)
  else if (("A" <=? ch) && (ch <=? "Z"))%char then Some (n - 55)
  else None.

Fixpoint read_base (base : Z) (s : string) (acc count : Z) : Z * Z * string :=
  match s with
  | String ch tl =>
      match digit_of ch with
      | Some d =>
          if d <? base then read_base base tl (base * acc + d) (count + 1)
          else (acc, count, s)
      | None => (acc, count, s)
      end
  | EmptyString => (acc, count, s)
  end.

Definition hex_prefix (s : string) : option string :=
  match s with
  | String "0" (String x (String h tl)) =>
      if ((x =? "x") || (x =? "X"))%char then
        match digit_of h with
        | Some d => if d <? 16 then Some (String h tl) else None
        | None => None
        end
      else None
  | _ => None
  end.

Definition strtol (s : string) (base : Z) : Z * string :=
  let s1 := skip_space s in
  let '(neg, s2) :=
    match s1 with
    | String "-" tl => (true, tl)
    | String "+" tl => (false, tl)
    | _ => (false, s1)
    end in
  let '(base, s3) :=
    match (if (base =? 0) || (base =? 16) then hex_prefix s2 else None) with
    | Some body => (16, body)
    | None =>
        if base =? 0
        then (match s2 with String "0" _ => 8 | _ => 10 end, s2)
        else (base, s2)
    end in
  let '(v, count, rest) := read_base base s3 0 0 in
  if count =? 0 then (0, s)
  else (clamp (- 2 ^ 63) (2 ^ 63 - 1) (if neg then - v else v), rest).

Definition strtoll := strtol.

(** ** Paths *)

(** [splitPath( str, val, &remainder )]: [val] is what precedes the first
    slash and [remainder] what follows it. *)
Fixpoint splitPath (str : string) : string * string :=
  match str with
  | EmptyString => (EmptyString, EmptyString)
  | String ch tl =>
      if (ch =? NUL)%char then (EmptyString, EmptyString)
      else if (ch =? "/")%char then (EmptyString, tl)
      else let (val, remainder) := splitPath tl in (String ch val, remainder)
  end.

(** [key.find( c )]. *)
Fixpoint find_char (c : ascii) (s : string) : option nat :=
  match s with
  | EmptyString => None
  | String ch tl =>
      if (ch =? c)%char then Some O else option_map S (find_char c tl)
  end.

(** [s.find( ':' )], [s.substr( 0, idx )] and the text after the colon. *)
Fixpoint split_colon (s : string) : option (string * string) :=
  match s with
  | EmptyString => None
  | String ch tl =>
      if (ch =? ":")%char then Some (EmptyString, tl)
      else
        match split_colon tl with
        | Some (name, after) => Some (String ch name, after)
        | None => None
        end
  end.

Definition first_char (s : string) : ascii :=
  match s with
  | String ch _ => ch
  | EmptyString => NUL
  end.

Definition nonempty (str : string) : bool := negb (first_char str =? NUL)%char.

(** The loop of [findElement] over the map with [strcmp]: the first key, in
    the order of the [std::map], that reads the same up to its NUL. *)
Fixpoint map_find_strcmp {A : Type} (s : string) (m : list (string * A))
    : option A :=
  match m with
  | [] => None
  | (k, v) :: tl =>
      if String.eqb (c_str k) (c_str s) then Some v else map_find_strcmp s tl
  end.

(** The [while] loop of [findElement] that follows [:index] through nested
    arrays.  [find] is the recursive call into a map.  The result comes
    with the indices that were taken. *)
Fixpoint array_loop (find : CppON -> string -> option CppON) (fuel : nat)
    (rtn : option CppON) (arrayIndex : Z) (more str : string)
    : list N * option CppON :=
  match fuel with
  | O => ([], None)
  | S fuel' =>
      match rtn with
      | Some (COArray _ data) =>
          if 0 <=? arrayIndex then
            let i := Z.to_N arrayIndex in
            let rtn := COArray_at data i in
            if isMap rtn && nonempty str then
              ([i], match rtn with Some mp => find mp str | None => None end)
            else if negb (isArray rtn) || negb (first_char more =? ":")%char
            then ([i], rtn)
            else
              let s := substring 1 (String.length more - 1) more in
              let (v, r) := strtol s 10 in
              let (path, res) :=
                array_loop find fuel' rtn (sext 32 v) (c_str r) str in
              (i :: path, res)
          else ([], rtn)
      | _ => ([], rtn)
      end
  end.

(** The head of a path: its name, the index after the first colon ([-1]
    without a colon) and what follows the index. *)
Definition path_head (s : string) : string * Z * string :=
  match split_colon s with
  | Some (name, after) =>
      let (v, r) := strtol after 10 in (name, sext 32 v, c_str r)
  | None => (s, -1, EmptyString)
  end.

(** [COMap::findElement( const char *str )].  The recursion follows the
    remainder of the path, which gets shorter at every slash; [fuel] bounds
    it. *)
Fixpoint findElement (fuel : nat) (this : CppON) (str : string)
    : option CppON :=
  match fuel with
  | O => None
  | S fuel' =>
      match this with
      | COMap _ _ data =>
          let (s, str) := splitPath str in
          let '(s, arrayIndex, more) := path_head s in
          let rtn := map_find_strcmp s data in
          match rtn with
          | Some (COMap _ _ _ as mp) =>
              if nonempty str then findElement fuel' mp str else rtn
          | Some (COArray _ _) =>
              if 0 <=? arrayIndex then
                snd (array_loop (findElement fuel') (S (String.length more))
                       rtn arrayIndex more str)
              else rtn
          | _ => rtn
          end
      | _ => None
      end
  end.

Definition COMap_findElement (this : CppON) (str : string) : option CppON :=
  findElement (S (String.length str)) this str.

(** Where [findElement( s )] finds its result when [s] has no slash: under
    the first key that matches the name, and then along these indices. *)
Definition locate (this : CppON) (s : string) : string * list N :=
  match this with
  | COMap _ _ data =>
      let '(name, arrayIndex, more) := path_head s in
      let rtn := map_find_strcmp name data in
      match rtn with
      | Some (COArray _ _) =>
          if 0 <=? arrayIndex then
            (name,
             fst (array_loop (fun _ _ => None) (S (String.length more))
                    rtn arrayIndex more EmptyString))
          else (name, [])
      | _ => (name, [])
      end
  | _ => (s, [])
  end.

Fixpoint list_apply {A : Type} (f : A -> A) (i : nat) (l : list A) : list A :=
  match l, i with
  | [], _ => []
  | x :: tl, O => f x :: tl
  | x :: tl, S j => x :: list_apply f j tl
  end.

(** The node at the end of [indices] becomes [new]. *)
Fixpoint replace_at (indices : list N) (new : CppON) (node : CppON) : CppON :=
  match indices with
  | [] => new
  | i :: rest =>
      match node with
      | COArray self (Some v) =>
          COArray self (Some (list_apply (replace_at rest new) (N.to_nat i) v))
      | _ => node
      end
  end.

Fixpoint map_apply_strcmp (s : string) (f : CppON -> CppON)
    (m : list (string * CppON)) : list (string * CppON) :=
  match m with
  | [] => []
  | (k, v) :: tl =>
      if String.eqb (c_str k) (c_str s) then (k, f v) :: tl
      else (k, v) :: map_apply_strcmp s f tl
  end.

(** The state of the map after the node that [findElement( s )] returned
    has been changed, through the pointer, into [new]. *)
Definition write_back (this : CppON) (s : string) (new : CppON)
    (data : list (string * CppON)) : list (string * CppON) :=
  let (name, indices) := locate this s in
  map_apply_strcmp name (replace_at indices new) data.

(** ** [COMap::append], [COMap::removeVal] *)

(** The branch of [append] for a key without a slash: a binding of the same
    key is erased from the map and from [order], then the new binding is
    inserted and the key pushed at the end of [order]. *)
Definition direct_append (order : list string) (data : list (string * CppON))
    (key : string) (n : CppON) : list string * list (string * CppON) :=
  match map_find key data with
  | Some _ =>
      (order_erase key order ++ [key], map_insert key n (map_erase key data))
  | None => (order ++ [key], map_insert key n data)
  end.

(** [int COMap::append( std::string key, CppON *n )]: the map afterwards,
    the returned code and the next free address ([new COMap()] takes one).
    In the branch that creates the missing head, the new map is shown with
    the content it has once the recursive call has filled it. *)
Fixpoint append (fuel : nat) (next : ptr) (this : CppON) (key : string)
    (n : CppON) : CppON * Z * ptr :=
  match this with
  | COMap self order data =>
      match find_char "/" key with
      | None =>
          let (order', data') := direct_append order data key n in
          (COMap self order' data', 0, next)
      | Some pos =>
          match fuel with
          | O => (this, 0, next)
          | S fuel' =>
              let s := substring 0 pos key in
              let key := substring (S pos) (String.length key - S pos) key in
              match COMap_findElement this s with
              | None =>
                  let '(mp, rtn, next') :=
                    append fuel' (next + 1)%N (COMap next [] []) key n in
                  let (order', data') := direct_append order data s mp in
                  (COMap self order' data', rtn, next')
              | Some (COMap _ _ _ as mp) =>
                  let '(mp, rtn, next') := append fuel' next mp key n in
                  (COMap self order (write_back this s mp data), rtn, next')
              | Some (COArray p (Some v)) =>
                  (COMap self order
                     (write_back this s (COArray p (Some (v ++ [n]))) data),
                   0, next)
              | Some (COArray _ None) => (this, 0, next)
              | Some _ => (this, -1, next)
              end
          end
      end
  | _ => (this, 0, next)
  end.

Definition COMap_append (next : ptr) (this : CppON) (key : string) (n : CppON)
    : CppON * Z * ptr :=
  append (S (String.length key)) next this key n.

(** [void COMap::removeVal( std::string s )]. *)
Definition COMap_removeVal (this : CppON) (s : string) : CppON :=
  match this with
  | COMap self order data =>
      match map_find s data with
      | Some _ => COMap self (order_erase s order) (map_erase s data)
      | None => this
      end
  | _ => this
  end.

(** [COMap::getKeys]. *)
Definition getKeys (this : CppON) : list string :=
  match this with
  | COMap _ order _ => order
  | _ => []
  end.

(** ** Well-formed maps and paths, for the statements about
    [append] and [findElement] *)

Definition keys {A : Type} (m : list (string * A)) : list string :=
  List.map fst m.

Fixpoint has_char (c : ascii) (s : string) : bool :=
  match s with
  | EmptyString => false
  | String ch tl => (ch =? c)%char || has_char c tl
  end.

(** A key is plain when it holds no NUL, so that [strcmp] on its [c_str]
    and [==] on the [std::string] agree. *)
Definition plain (k : string) : Prop := has_char NUL k = false.


(** A segment of a path: not empty, without slash, colon or NUL. *)
Definition segment (s : string) : Prop :=
  s <> EmptyString /\ has_char "/" s = false /\ has_char ":" s = false /\
  plain s.



(** The index that follows [more], a text that starts with a colon, and
    what follows that index. *)
Definition next_index (more : string) : Z * string :=
  let (v, r) := strtol (substring 1 (String.length more - 1) more) 10 in
  (sext 32 v, c_str r).

(** The resolution of [path] in the map reaches a name that is not bound,
    or, in an array, an index of zero or more at which [at] finds no
    element; [missing_index] follows the indices [:i:j] through nested
    arrays. *)
Inductive missing_segment : CppON -> string -> Prop :=
| missing_name self order data path :
    map_find_strcmp (fst (fst (path_head (fst (splitPath path))))) data = None ->
    missing_segment (COMap self order data) path
| missing_in_map self order data path mp :
    map_find_strcmp (fst (fst (path_head (fst (splitPath path))))) data = Some mp ->
    isMap (Some mp) = true ->
    nonempty (snd (splitPath path)) = true ->
    missing_segment mp (snd (splitPath path)) ->
    missing_segment (COMap self order data) path
| missing_in_array self order data path p v :
    map_find_strcmp (fst (fst (path_head (fst (splitPath path))))) data =
      Some (COArray p v) ->
    0 <= snd (fst (path_head (fst (splitPath path)))) ->
    missing_index v (snd (fst (path_head (fst (splitPath path)))))
      (snd (path_head (fst (splitPath path)))) (snd (splitPath path)) ->
    missing_segment (COMap self order data) path

with missing_index : option (list CppON) -> Z -> string -> string -> Prop :=
| missing_element v i more rest :
    COArray_at v (Z.to_N i) = None ->
    missing_index v i more rest
| missing_in_element v i more rest mp :
    COArray_at v (Z.to_N i) = Some mp ->
    isMap (Some mp) = true ->
    nonempty rest = true ->
    missing_segment mp rest ->
    missing_index v i more rest
| missing_in_nested v i more rest p w :
    COArray_at v (Z.to_N i) = Some (COArray p w) ->
    first_char more = ":"%char ->
    0 <= fst (next_index more) ->
    missing_index w (fst (next_index more)) (snd (next_index more)) rest ->
    missing_index v i more rest.

Scheme missing_segment_ind2 := Minimality for missing_segment Sort Prop
  with missing_index_ind2 := Minimality for missing_index Sort Prop.
Combined Scheme missing_mutind from missing_segment_ind2, missing_index_ind2.



(** ** Sequences of insertions and removals on a map *)

Inductive map_op : Type :=
| Insert (key : string) (n : CppON)
| Remove (key : string).

(** [m.append( key, n )] or [m.removeVal( key )]; the state carries the next
    free address. *)
Definition apply_op (st : CppON * ptr) (op : map_op) : CppON * ptr :=
  match op with
  | Insert key n =>
      let '(m, _, next) := COMap_append (snd st) (fst st) key n in (m, next)
  | Remove key => (COMap_removeVal (fst st) key, snd st)
  end.

Definition run_ops (ops : list map_op) (st : CppON * ptr) : CppON * ptr :=
  fold_left apply_op ops st.

(** The insertions are those of a key of the map itself, not of a path. *)
Definition key_op (op : map_op) : Prop :=
  match op with
  | Insert key _ => has_char "/" key = false
  | Remove _ => True
  end.

(** The keys in insertion order, in the words of the specification: an
    insertion puts the key at the end, wherever it was before, and a removal
    takes it out. *)
Fixpoint insertion_order (ops : list map_op) (keys : list string)
    : list string :=
  match ops with
  | [] => keys
  | Insert key _ :: tl =>
      insertion_order tl (List.remove string_dec key keys ++ [key])
  | Remove key :: tl => insertion_order tl (List.remove string_dec key keys)
  end.

(** The order list holds exactly the keys of the lookup table, once each. *)
Definition order_ok (m : CppON) : Prop :=
  match m with
  | COMap _ order data =>
      NoDup order /\ NoDup (keys data) /\
      forall k, In k order <-> In k (keys data)
  | _ => False
  end.

Definition bindings (m : CppON) : list (string * CppON) :=
  match m with
  | COMap _ _ data => data
  | _ => []
  end.

(** One entry of the compact JSON text of a map: the quoted key, a colon and
    the text of the value. *)
Definition compact_entry (format_lf : Z -> float -> string)
    (data : list (string * CppON)) (key : string) : string :=
  match map_find key data with
  | Some c =>
      (quote ++ c_str key ++ quote ++ ":" ++
       toCompactJsonString format_lf c)%string
  | None => EmptyString
  end.

(** One turn of the loop of [COMap::toCompactJsonString] over [order]: the
    flag [first] and the text so far. *)
Definition compact_step (format_lf : Z -> float -> string)
    (data : list (string * CppON)) (st : bool * string) (key : string)
    : bool * string :=
  let (first, rtn) := st in
  match option_map (toCompactJsonString format_lf) (map_find key data) with
  | Some sptr =>
      let rtn := if first then rtn else (rtn ++ ",")%string in
      (false, (rtn ++ quote ++ c_str key ++ quote ++ ":" ++ sptr)%string)
  | None => st
  end.

(** ** [operator ==] *)

(** The cell of an integer read as [long long], [int], [short] or [char],
    by its width. *)
Definition read_signed (siz data : Z) : Z :=
  if siz =? 8 then sext 64 data
  else if siz =? 4 then sext 32 data
  else if siz =? 2 then sext 16 data
  else sext 8 data.

(** [COInteger::operator ==]: with equal sizes the two cells are compared
    through pointers of that width, otherwise both are converted to
    [long long] first. *)
Definition COInteger_eq (siz data siz' data' : Z) : bool :=
  if siz =? siz' then
    if siz =? 8 then sext 64 data' =? sext 64 data
    else if siz =? 4 then sext 32 data' =? sext 32 data
    else if siz =? 2 then sext 16 data' =? sext 16 data
    else sext 8 data' =? sext 8 data
  else read_signed siz data =? read_signed siz' data'.

(** [CODouble::operator ==] compares the two cells; a missing cell would be
    a [NULL] dereference and compares unequal in the model. *)
Definition CODouble_eq (data data' : option float) : bool :=
  match data, data' with
  | Some d, Some d' => PrimFloat.eqb d' d
  | _, _ => false
  end.

(** [COString::operator ==]: [data->compare( newObj.data->c_str() )]. *)
Definition COString_eq (data data' : string) : bool :=
  String.eqb data (c_str data').

Fixpoint depth (n : CppON) : nat :=
  match n with
  | COMap _ _ data =>
      S ((fix each (l : list (string * CppON)) : nat :=
            match l with
            | [] => O
            | (_, c) :: tl => Nat.max (depth c) (each tl)
            end) data)
  | COArray _ (Some v) =>
      S ((fix each (l : list CppON) : nat :=
            match l with
            | [] => O
            | c :: tl => Nat.max (depth c) (each tl)
            end) v)
  | _ => O
  end.

(** [a.at( i ) == b.at( i )] on two [CppON *]: the addresses are compared. *)
Definition same_pointer (a b : option CppON) : bool :=
  match a, b with
  | Some x, Some y => (address x =? address y)%N
  | None, None => true
  | _, _ => false
  end.

(** [CppON::operator ==] with [COMap::operator ==] and
    [COArray::operator ==].  The map walks its own bindings and resolves
    each key in [obj] with [findElement]; the values are compared with
    [*t != *itr->second], where [t] comes from [obj].  The array compares
    the sizes and then, index by index, the element pointers.  The
    recursion descends one level in both trees at every call; [fuel] bounds
    it. *)
Fixpoint CppON_eq (fuel : nat) (this obj : CppON) : bool :=
  match fuel with
  | O => false
  | S fuel' =>
      match this, obj with
      | COInteger _ siz _ data, COInteger _ siz' _ data' =>
          COInteger_eq siz data siz' data'
      | CODouble _ _ data, CODouble _ _ data' => CODouble_eq data data'
      | COString _ data, COString _ data' => COString_eq data data'
      | CONull _, CONull _ => true
      | COBoolean _ data, COBoolean _ data' => Bool.eqb data' data
      | COMap _ _ th, COMap _ _ _ =>
          forallb
            (fun '(k, second) =>
               match COMap_findElement obj (c_str k) with
               | None => false
               | Some t =>
                   if negb (CppONType_eqb (type t) (type second)) then false
                   else CppON_eq fuel' t second
               end)
            th
      | COArray _ data, COArray _ data' =>
          if negb (COArray_size data' =? COArray_size data)%N then false
          else
            forallb
              (fun i => same_pointer (COArray_at data' (N.of_nat i))
                                     (COArray_at data (N.of_nat i)))
              (seq 0 (N.to_nat (COArray_size data')))
      | _, _ => false
      end
  end.

Definition CppON_equal (this obj : CppON) : bool :=
  CppON_eq (S (depth this)) this obj.

(** Two nodes hold the same keys when both are maps whose tables bind the
    same keys. *)
Definition same_keys (a b : CppON) : Prop :=
  forall k, In k (keys (bindings a)) <-> In k (keys (bindings b)).

(** The maps [{"a":1}] and [{"a":1,"b":2}], and two arrays [[1]]. *)
Definition map_a1 : CppON :=
  COMap 1 ["a"%string] [("a"%string, COInteger 2 4 false 1)].
Definition map_a1_b2 : CppON :=
  COMap 3 ["a"; "b"]%string
    [("a"%string, COInteger 4 4 false 1); ("b"%string, COInteger 5 4 false 2)].
Definition array_1 : CppON := COArray 6 (Some [COInteger 7 4 false 1]).
Definition array_1' : CppON := COArray 8 (Some [COInteger 9 4 false 1]).

(** ** Outcomes, allocation

    A function that allocates takes the next free address and hands back
    the one after its allocations.  Besides returning, a call may end the
    process with [exit], or run into behaviour that C++ leaves undefined (a
    [NULL] pointer that is dereferenced, an object read through a pointer
    to another class, a byte read behind the NUL that ends a text); a
    recursion of the model that has used up its fuel says so.  The vector of
    an array holds nodes only: a call that stores a [NULL] pointer in the
    vector goes on in the code, and is followed no further here
    ([NullStored]). *)

Inductive outcome (A : Type) : Type :=
| Returns (a : A)
| Exits
| Undefined
| NullStored
| OutOfFuel.

Arguments Returns {A} a.
Arguments Exits {A}.
Arguments Undefined {A}.
Arguments NullStored {A}.
Arguments OutOfFuel {A}.

Definition M (A : Type) : Type := ptr -> outcome (A * ptr).

Definition ret {A : Type} (a : A) : M A := fun next => Returns (a, next).

Definition bind {A B : Type} (m : M A) (k : A -> M B) : M B :=
  fun next =>
    match m next with
    | Returns (a, next') => k a next'
    | Exits => Exits
    | Undefined => Undefined
    | NullStored => NullStored
    | OutOfFuel => OutOfFuel
    end.

Notation "x <- m ;; k" := (bind m (fun x => k))
  (at level 61, m at next level, right associativity).

(** [new]: the address of the fresh node. *)
Definition new : M ptr := fun next => Returns (next, (next + 1)%N).

Definition undefined {A : Type} : M A := fun _ => Undefined.
Definition null_stored {A : Type} : M A := fun _ => NullStored.
Definition out_of_fuel {A : Type} : M A := fun _ => OutOfFuel.

(** [rtn->append( name, n )] on a map under construction. *)
Definition append_to (rtn : CppON) (name : string) (n : CppON) : M CppON :=
  fun next =>
    let '(m, _, next') := COMap_append next rtn name n in Returns (m, next').

(** [rtn->append( n )] on an array under construction: [push_back]. *)
Definition push_back (rtn : CppON) (n : CppON) : M CppON :=
  match rtn with
  | COArray self (Some v) => ret (COArray self (Some (v ++ [n])))
  | _ => undefined
  end.

(** ** Conversions between integers and doubles *)

Definition double_of_Z (z : Z) : float :=
  if z <? 0 then PrimFloat.opp (nearest_double (- z) 1) else nearest_double z 1.

(** [(int) d]: the fraction is dropped; a value that an [int] cannot hold
    has no defined conversion, and the model gives what the conversion
    instruction of x86-64 gives, [INT_MIN]. *)
Definition int_of_double (d : float) : Z :=
  match Prim2SF d with
  | S754_zero _ => 0
  | S754_finite s m e =>
      let a := if 0 <=? e then Z.pos m * 2 ^ e else Z.pos m / 2 ^ (- e) in
      let z := if s then - a else a in
      if (-2147483648 <=? z) && (z <=? 2147483647) then z else -2147483648
  | _ => -2147483648
  end.

Definition doubleValue (data : option float) : float :=
  match data with
  | Some d => d
  | None => 0%float
  end.

(** ** Case-insensitive lookup *)

Definition tolower (ch : ascii) : ascii :=
  if (("A" <=? ch) && (ch <=? "Z"))%char
  then ascii_of_N (N_of_ascii ch + 32)
  else ch.

Fixpoint lower (s : string) : string :=
  match s with
  | EmptyString => EmptyString
  | String ch tl => String (tolower ch) (lower tl)
  end.

(** [strcasecmp( a, b ) == 0]. *)
Definition strcasecmp_eq (a b : string) : bool :=
  String.eqb (lower (c_str a)) (lower (c_str b)).

Fixpoint map_find_strcasecmp {A : Type} (s : string) (m : list (string * A))
    : option A :=
  match m with
  | [] => None
  | (k, v) :: tl =>
      if strcasecmp_eq k s then Some v else map_find_strcasecmp s tl
  end.

(** [COMap::findCaseElement]: as [findElement], with [strcasecmp]; inside
    an array the source continues with [findElement]. *)
Fixpoint findCaseElement (fuel : nat) (this : CppON) (str : string)
    : option CppON :=
  match fuel with
  | O => None
  | S fuel' =>
      match this with
      | COMap _ _ data =>
          let (s, str) := splitPath str in
          let '(s, arrayIndex, more) := path_head s in
          let rtn := map_find_strcasecmp s data in
          match rtn with
          | Some (COMap _ _ _ as mp) =>
              if nonempty str then findCaseElement fuel' mp str else rtn
          | Some (COArray _ _) =>
              if 0 <=? arrayIndex then
                snd (array_loop (findElement fuel') (S (String.length more))
                       rtn arrayIndex more str)
              else rtn
          | _ => rtn
          end
      | _ => None
      end
  end.

Definition COMap_findCaseElement (this : CppON) (str : string) : option CppON :=
  findCaseElement (S (String.length str)) this str.

(** ** Copy constructors *)

(** [new COInteger( (COInteger &) it )]: the width and the value are
    copied; the constructor leaves [unSigned] uninitialised, and the model
    takes [false] for it. *)
Definition copy_COInteger (siz data : Z) : M CppON :=
  p <- new ;;
  ret (COInteger p siz false
         (if siz =? 1 then wrap 8 (charValue siz data)
          else if siz =? 2 then wrap 16 (shortValue siz data)
          else if siz =? 4 then wrap 32 (intValue siz data)
          else wrap 64 (longValue siz data))).

(** [new CODouble( (CODouble &) dt )]: the precision stays at the -1 of the
    base class. *)
Definition copy_CODouble (data : option float) : M CppON :=
  p <- new ;; ret (CODouble p (-1) (Some (doubleValue data))).

Definition copy_COString (data : string) : M CppON :=
  p <- new ;; ret (COString p (c_str data)).

Definition copy_COBoolean (data : bool) : M CppON :=
  p <- new ;; ret (COBoolean p data).

Definition new_CONull : M CppON := p <- new ;; ret (CONull p).

(** [new COInteger( r )] for a [uint64_t r], [new CODouble( r )] for a
    [double r] (the precision is set to 10) and [new COBoolean( r )]. *)
Definition new_COInteger (r : Z) : M CppON :=
  p <- new ;; ret (COInteger p 8 true (wrap 64 r)).
Definition new_CODouble (r : float) : M CppON :=
  p <- new ;; ret (CODouble p 10 (Some r)).
Definition new_COBoolean (r : bool) : M CppON :=
  p <- new ;; ret (COBoolean p r).

(** [new COMap( (COMap &) mt )] and [new COArray( (COArray &) at )], and
    the leaves through them.  The map copies, for every key of [order], the
    node that [findCaseElement] finds for that key; when it finds none the
    source dereferences [NULL]. *)
Fixpoint copy (fuel : nat) (n : CppON) : M CppON :=
  match fuel with
  | O => out_of_fuel
  | S fuel' =>
      match n with
      | COInteger _ siz _ data => copy_COInteger siz data
      | CODouble _ _ data => copy_CODouble data
      | COString _ data => copy_COString data
      | CONull _ => new_CONull
      | COBoolean _ data => copy_COBoolean data
      | COMap _ order _ =>
          p <- new ;;
          dm <- (fix each (l : list string) (dm : list (string * CppON))
                   : M (list (string * CppON)) :=
                   match l with
                   | [] => ret dm
                   | key :: tl =>
                       match COMap_findCaseElement n (c_str key) with
                       | None => undefined
                       | Some obj =>
                           c <- copy fuel' obj ;;
                           each tl (map_assign key c dm)
                       end
                   end) order [] ;;
          ret (COMap p order dm)
      | COArray _ None =>
          p <- new ;; ret (COArray p (Some []))
      | COArray _ (Some v) =>
          p <- new ;;
          w <- (fix each (l : list CppON) (w : list CppON) : M (list CppON) :=
                  match l with
                  | [] => ret w
                  | jt :: tl => c <- copy fuel' jt ;; each tl (w ++ [c])
                  end) v [] ;;
          ret (COArray p (Some w))
      end
  end.

Definition clone (n : CppON) : M CppON := copy (S (depth n)) n.

(** ** [diff] *)

Definition float_neq (a b : float) : bool := negb (PrimFloat.eqb a b).

Section Diff.

Variable strtod : string -> float * string.

(** [static void appendTag( name, obj, rtn, n )]: [n] is the scalar of the
    old map, [obj] the node of the new map, [rtn] the map of differences.
    The candidate is converted toward the type of [n] before the
    comparison.  In its last [switch] the source reads [n], a String or a
    Null, through a pointer to the class of [obj]. *)
Definition appendTag (name : string) (obj rtn n : CppON) : M CppON :=
  match obj with
  | COMap _ _ _ | COArray _ _ => c <- clone obj ;; append_to rtn name c
  | _ =>
      match n with
      | COBoolean _ v =>
          match obj with
          | COBoolean _ r =>
              if negb (Bool.eqb v r)
              then c <- new_COBoolean r ;; append_to rtn name c else ret rtn
          | COInteger _ siz _ data =>
              let r := negb (intValue siz data =? 0) in
              if negb (Bool.eqb v r)
              then c <- new_COBoolean r ;; append_to rtn name c else ret rtn
          | CODouble _ _ data =>
              let r := negb (int_of_double (doubleValue data) =? 0) in
              if negb (Bool.eqb v r)
              then c <- new_COBoolean r ;; append_to rtn name c else ret rtn
          | COString _ cPtr =>
              let r :=
                if strcasecmp_eq cPtr "true" then true
                else if strcasecmp_eq cPtr "false" then false
                else negb (fst (strtol cPtr 10) =? 0) in
              if negb (Bool.eqb v r)
              then c <- new_COBoolean r ;; append_to rtn name c else ret rtn
          | CONull _ => c <- new_CONull ;; append_to rtn name c
          | _ => ret rtn
          end
      | CODouble _ _ ndata =>
          let v := doubleValue ndata in
          match obj with
          | CODouble _ _ data =>
              if float_neq v (doubleValue data)
              then c <- copy_CODouble data ;; append_to rtn name c else ret rtn
          | COInteger _ siz _ data =>
              let r := double_of_Z (longValue siz data) in
              if float_neq v r
              then c <- new_CODouble r ;; append_to rtn name c else ret rtn
          | COString _ s =>
              let r := fst (strtod (c_str s)) in
              if float_neq v r
              then c <- new_CODouble r ;; append_to rtn name c else ret rtn
          | COBoolean _ b => c <- copy_COBoolean b ;; append_to rtn name c
          | CONull _ => c <- new_CONull ;; append_to rtn name c
          | _ => ret rtn
          end
      | COInteger _ nsiz _ ndata =>
          let v := wrap 64 (longValue nsiz ndata) in
          match obj with
          | COInteger _ siz _ data =>
              if negb (v =? wrap 64 (longValue siz data))
              then c <- copy_COInteger siz data ;; append_to rtn name c
              else ret rtn
          | COString _ s =>
              let r := wrap 64 (fst (strtol (c_str s) 0)) in
              if negb (v =? r)
              then c <- new_COInteger r ;; append_to rtn name c else ret rtn
          | CODouble _ _ data => c <- copy_CODouble data ;; append_to rtn name c
          | COBoolean _ b => c <- copy_COBoolean b ;; append_to rtn name c
          | CONull _ => c <- new_CONull ;; append_to rtn name c
          | _ => ret rtn
          end
      | _ =>
          match obj, n with
          | CONull _, CONull _ => ret rtn
          | CONull _, _ => c <- new_CONull ;; append_to rtn name c
          | COString _ s, COString _ ns =>
              if negb (COString_eq ns s)
              then c <- copy_COString s ;; append_to rtn name c else ret rtn
          | _, _ => undefined
          end
      end
  end.

(** [*n != *obj] for two leaves of the same type, by the operators of
    their classes. *)
Definition leaf_differs (n obj : CppON) : bool :=
  match n, obj with
  | COInteger _ nsiz _ ndata, COInteger _ siz _ data =>
      negb (COInteger_eq nsiz ndata siz data)
  | CODouble _ _ ndata, CODouble _ _ data => negb (CODouble_eq ndata data)
  | COString _ ndata, COString _ data => negb (COString_eq ndata data)
  | COBoolean _ ndata, COBoolean _ data => negb (Bool.eqb data ndata)
  | _, _ => false
  end.

Definition map_size (n : CppON) : nat :=
  match n with
  | COMap _ _ data => List.length data
  | COArray _ (Some v) => List.length v
  | _ => O
  end.

(** [COMap::diff( newObj, name )] and [COArray::diff( newObj, name )].
    Both take [newObj] by a cast of the caller; a call with a node of the
    other class reads it through the wrong pointer.

    The map first walks its own bindings: a key that [newObj] resolves is
    compared, a scalar through [appendTag] and a container through the
    recursive call; then it walks the bindings of [newObj] and copies every
    key that the map itself does not resolve.

    The array walks the elements of [newObj] with the cursor [it] into its
    own elements.  An element that is a map with a String under [name] is
    looked for among all own elements, and leaves the cursor where the
    search stopped; any other element is compared with the element under
    the cursor, which then advances.

    An empty result is released and [NULL] is returned. *)
Fixpoint diff (fuel : nat) (this newObj : CppON) (name : option string)
    : M (option CppON) :=
  match fuel with
  | O => out_of_fuel
  | S fuel' =>
      match this, newObj with
      | COMap _ _ m, COMap _ _ m' =>
          p <- new ;;
          rtn <- (fix first_loop (l : list (string * CppON)) (rtn : CppON)
                    : M CppON :=
                    match l with
                    | [] => ret rtn
                    | (k, n) :: tl =>
                        match COMap_findElement newObj (c_str k) with
                        | None => first_loop tl rtn
                        | Some obj =>
                            rtn <-
                              match n with
                              | COMap _ _ _ =>
                                  match obj with
                                  | COMap _ _ _ =>
                                      nv <- diff fuel' n obj name ;;
                                      match nv with
                                      | Some nv => append_to rtn k nv
                                      | None => ret rtn
                                      end
                                  | _ => undefined
                                  end
                              | COArray _ _ =>
                                  match obj with
                                  | COArray _ _ =>
                                      na <- diff fuel' n obj name ;;
                                      match na with
                                      | Some na => append_to rtn k na
                                      | None => ret rtn
                                      end
                                  | _ => undefined
                                  end
                              | _ => appendTag k obj rtn n
                              end ;;
                            first_loop tl rtn
                        end
                    end) m (COMap p [] []) ;;
          rtn <- (fix second_loop (l : list (string * CppON)) (rtn : CppON)
                    : M CppON :=
                    match l with
                    | [] => ret rtn
                    | (k, n) :: tl =>
                        match COMap_findElement this (c_str k) with
                        | Some _ => second_loop tl rtn
                        | None =>
                            c <- clone n ;;
                            rtn <- append_to rtn k c ;;
                            second_loop tl rtn
                        end
                    end) m' rtn ;;
          if (map_size rtn =? 0)%nat then ret None else ret (Some rtn)
      | COArray _ (Some v), COArray _ (Some u) =>
          p <- new ;;
          st <- (fix for_nt (l : list CppON) (st : CppON * nat)
                   : M (CppON * nat) :=
                   match l with
                   | [] => ret st
                   | obj :: tl =>
                       let (rtn, it) := st in
                       let uS :=
                         match name with
                         | Some nm =>
                             if isMap (Some obj)
                             then COMap_findElement obj nm else None
                         | None => None
                         end in
                       st <-
                         match uS with
                         | Some (COString _ us) =>
                             (fix scan (w : list CppON) (it : nat)
                                : M (CppON * nat) :=
                                match w with
                                | [] => ret (rtn, it)
                                | n :: w' =>
                                    let vS :=
                                      match name with
                                      | Some nm =>
                                          if isMap (Some n)
                                          then COMap_findElement n nm
                                          else None
                                      | None => None
                                      end in
                                    match vS with
                                    | Some (COString _ vs) =>
                                        if String.eqb (c_str us) (c_str vs) then
                                          nv <- diff fuel' n obj name ;;
                                          match nv with
                                          | Some _ =>
                                              c <- clone obj ;;
                                              rtn <- push_back rtn c ;;
                                              ret (rtn, it)
                                          | None => scan w' (S it)
                                          end
                                        else scan w' (S it)
                                    | _ => scan w' (S it)
                                    end
                                end) v O
                         | _ =>
                             match nth_error v it with
                             | None => ret (rtn, it)
                             | Some n =>
                                 rtn <-
                                   (if CppONType_eqb (type obj) (type n) then
                                      match obj with
                                      | CONull _ => ret rtn
                                      | COMap _ _ _ | COArray _ _ =>
                                          nv <- diff fuel' n obj None ;;
                                          match nv with
                                          | Some _ =>
                                              c <- clone obj ;;
                                              push_back rtn c
                                          | None => ret rtn
                                          end
                                      | _ =>
                                          if leaf_differs n obj
                                          then c <- clone obj ;; push_back rtn c
                                          else ret rtn
                                      end
                                    else ret rtn) ;;
                                 ret (rtn, S it)
                             end
                         end ;;
                       for_nt tl st
                   end) u (COArray p (Some []), O) ;;
          if (map_size (fst st) =? 0)%nat then ret None
          else ret (Some (fst st))
      | _, _ => undefined
      end
  end.

Definition COMap_diff (this newObj : CppON) (name : option string)
    : M (option CppON) :=
  diff (S (depth this)) this newObj name.

(** [CppON::diff( newObj, name )]: the nodes of different types, the
    Strings and the Nulls have no difference. *)
Definition CppON_diff (this newObj : CppON) (name : option string)
    : M (option CppON) :=
  if CppONType_eqb (type this) (type newObj) then
    match this with
    | COInteger _ _ _ _ | CODouble _ _ _ | COBoolean _ _ =>
        if leaf_differs this newObj
        then c <- clone newObj ;; ret (Some c) else ret None
    | COMap _ _ _ | COArray _ _ => COMap_diff this newObj name
    | _ => ret None
    end
  else ret None.

End Diff.

(** The map [{"x:1":5}], as [append( "x:1", new COInteger( 5 ) )] on an
    empty map leaves it. *)
Definition map_x1_5 : CppON :=
  COMap 1 ["x:1"%string] [("x:1"%string, COInteger 2 4 false 5)].

(** ** The parsers

    A [const char *] that points into the text, or at the NUL that ends it,
    is the text that starts at the pointer.  A pointer can also come to
    stand behind the terminating NUL; what is read through it lies outside
    the text, and a read there is [Undefined].  The messages written to
    [stderr] are left out. *)

Inductive cptr : Type :=
| At (s : string)
| Behind.

Definition drop (n : nat) (s : string) : string :=
  substring n (String.length s - n) s.

(** The character [n] places after the pointer, for an [n] that is at most
    the length of the text: the last place is the terminating NUL.  The
    parsers read it within that range only: [GetObj] after [strncasecmp] has
    matched the [n] characters before it, [GetTNetstring] after the test
    that the length it was given is not greater than that of the text. *)
Definition char_at (n : nat) (s : string) : ascii :=
  match String.get n (c_str s) with
  | Some ch => ch
  | None => NUL
  end.

(** The four [DumpWhiteSpace] functions skip the space, the tab, the
    newline and, as they are written, the letter [r]. *)
Definition is_dump_space (ch : ascii) : bool :=
  ((ch =? " ") || (ch =? "009") || (ch =? "010") || (ch =? "r"))%char.

Fixpoint DumpWhiteSpace (str : string) : string :=
  match str with
  | String ch tl => if is_dump_space ch then DumpWhiteSpace tl else c_str str
  | EmptyString => EmptyString
  end.

(** The white space of [parseJson] and of the head of [GetTNetstring]. *)
Definition is_json_space (ch : ascii) : bool :=
  ((ch =? " ") || (ch =? "009") || (ch =? "010") || (ch =? "013"))%char.

Fixpoint skip_json_space (str : string) : string :=
  match str with
  | String ch tl => if is_json_space ch then skip_json_space tl else c_str str
  | EmptyString => EmptyString
  end.

(** [for( i = 0; 0 != ( ch = nc[ i ] ) && isdigit; i++ );]: the character
    after the leading digits. *)
Fixpoint first_non_digit (nc : string) : ascii :=
  match nc with
  | String ch tl => if isdigit ch then first_non_digit tl else ch
  | EmptyString => NUL
  end.

(** The scan [while( 0 != ( ch = *nc++ ) && ... );] for the opening quote:
    the character that stopped the scan and the text after it.  When the
    NUL stopped the scan the pointer stands behind it, and [obj_entries]
    says so. *)
Fixpoint read_until_quote (nc : string) : ascii * string :=
  match nc with
  | EmptyString => (NUL, EmptyString)
  | String ch tl =>
      if (ch =? NUL)%char then (NUL, EmptyString)
      else if (ch =? "034")%char then (ch, tl)
      else read_until_quote tl
  end.

(** The name up to the closing quote and the text after that quote, if
    there is a closing quote. *)
Fixpoint closing_quote (nc : string) : option (string * string) :=
  match nc with
  | EmptyString => None
  | String ch tl =>
      if (ch =? NUL)%char then None
      else if (ch =? "034")%char then Some (EmptyString, tl)
      else
        match closing_quote tl with
        | Some (name, rest) => Some (String ch name, rest)
        | None => None
        end
  end.

(** The body of a quoted string: a backslash takes the next character as it
    is.  The result is the characters collected and the text after the
    closing quote.  There is none when the text ends before the closing
    quote: the code then steps over the NUL, at once after a backslash and
    else with [&nc[ ++n ]], and reads behind it. *)
Fixpoint read_string (nc : string) : option (string * string) :=
  match nc with
  | EmptyString => None
  | String ch tl =>
      if (ch =? NUL)%char then None
      else if (ch =? "034")%char then Some (EmptyString, tl)
      else if (ch =? "\")%char then
        match tl with
        | String ch' tl' =>
            if (ch' =? NUL)%char then None
            else
              match read_string tl' with
              | Some (acum, rest) => Some (String ch' acum, rest)
              | None => None
              end
        | EmptyString => None
        end
      else
        match read_string tl with
        | Some (acum, rest) => Some (String ch acum, rest)
        | None => None
        end
  end.

(** [for( i = 0; 0 != ( c = nc[ i ] ) && ',' != c && '}' != c; i++ )]: is
    there a dot before the next comma, closing brace or the end? *)
Fixpoint has_dot (nc : string) : bool :=
  match nc with
  | EmptyString => false
  | String c tl =>
      if ((c =? NUL) || (c =? ",") || (c =? "}"))%char then false
      else if (c =? ".")%char then true
      else has_dot tl
  end.

(** [strncasecmp( s, word, n ) == 0] for a lower-case [word] of [n]
    characters. *)
Definition strncasecmp_eq (s word : string) : bool :=
  String.eqb (lower (substring 0 (String.length word) (c_str s))) word.

(** [COString( std::string st )]: the quote, the percent sign and NUL are
    stored as [%22], [%25] and [%00]. *)
Fixpoint escape_std (st : string) : string :=
  match st with
  | EmptyString => EmptyString
  | String ch tl =>
      ((if (ch =? "034")%char then "%22"
        else if (ch =? "%")%char then "%25"
        else if (ch =? NUL)%char then "%00"
        else String ch EmptyString) ++ escape_std tl)%string
  end.

Definition new_COString_std (st : string) : M CppON :=
  p <- new ;; ret (COString p (c_str (escape_std st))).

(** [COString( const char *st )]. *)
Definition new_COString (st : string) : M CppON :=
  p <- new ;; ret (COString p (c_str st)).

Definition exits {A : Type} : M A := fun _ => Exits.

Section Parsers.

Variable strtod : string -> float * string.

(** The four loops of the parsers.  [value] reads the next nested value:
    a net string when a colon follows the leading digits, and otherwise a
    value of the permissive grammar.  [k] bounds the number of turns. *)

(** The entries of a map in [GetTNetstring].  After the name the pointer
    is read by [DumpWhiteSpace]; after a value it is read by the test of
    the loop, unless the value is [NULL]. *)
Fixpoint tnet_entries (value : string -> M (option CppON * cptr))
    (k : nat) (base : CppON) (cptr : string) : M (option CppON) :=
  if negb (nonempty cptr) then ret (Some base)
  else
    match k with
    | O => out_of_fuel
    | S k' =>
        let cptr := DumpWhiteSpace cptr in
        r <- value cptr ;;
        match r with
        | (_, Behind) => undefined
        | (name, At cptr) =>
            let cptr := DumpWhiteSpace cptr in
            match name with
            | Some (COString _ name) =>
                if nonempty cptr then
                  r <- value cptr ;;
                  match r with
                  | (Some val, At cptr) =>
                      base <- append_to base (c_str name) val ;;
                      tnet_entries value k' base cptr
                  | (Some _, Behind) => undefined
                  | (None, _) => ret None
                  end
                else ret None
            | _ => ret None
            end
        end
    end.

(** The elements of an array in [GetTNetstring].  A nested value that is
    [NULL] is stored in the vector as it is, and the code goes on with an
    array that holds a [NULL] pointer: [NullStored]. *)
Fixpoint tnet_elements (value : string -> M (option CppON * cptr))
    (k : nat) (base : CppON) (cptr : string) : M (option CppON) :=
  if negb (nonempty cptr) then ret (Some base)
  else
    match k with
    | O => out_of_fuel
    | S k' =>
        let cptr := DumpWhiteSpace cptr in
        r <- value cptr ;;
        match r with
        | (None, _) => null_stored
        | (Some _, Behind) => undefined
        | (Some obj, At cptr) =>
            base <- push_back base obj ;;
            if nonempty cptr then
              let cptr := DumpWhiteSpace cptr in
              let ch := first_char cptr in
              if (ch =? ",")%char then tnet_elements value k' base (drop 1 cptr)
              else if negb (isdigit ch) then ret None
              else tnet_elements value k' base cptr
            else tnet_elements value k' base cptr
        end
    end.

(** The entries of a map in [GetObj]: the flag [fail], the map and the
    pointer [nc] when the loop ends.  [ch] is the character the loop tests. *)
Fixpoint obj_entries (value : string -> M (option CppON * cptr))
    (k : nat) (mp : CppON) (ch : ascii) (nc : string)
    : M (bool * CppON * cptr) :=
  if (ch =? NUL)%char || (ch =? "}")%char then ret (false, mp, At nc)
  else
    match k with
    | O => out_of_fuel
    | S k' =>
        let nc := DumpWhiteSpace nc in
        let (ch, nc) := read_until_quote nc in
        if (ch =? NUL)%char then ret (true, mp, Behind)
        else
          match closing_quote nc with
          | None => ret (true, mp, At nc)
          | Some (name, nc) =>
              let nc := DumpWhiteSpace nc in
              if (first_char nc =? ":")%char then
                let nc := DumpWhiteSpace (drop 1 nc) in
                r <- value nc ;;
                match r with
                | (Some obj, At nc) =>
                    mp <- append_to mp (c_str name) obj ;;
                    let nc := DumpWhiteSpace nc in
                    let ch := first_char nc in
                    if (ch =? ",")%char
                    then obj_entries value k' mp ch (drop 1 nc)
                    else if negb (ch =? NUL)%char && negb (ch =? "}")%char
                    then ret (true, mp, At nc)
                    else obj_entries value k' mp ch nc
                | (Some _, Behind) => undefined
                | (None, nc) => ret (true, mp, nc)
                end
              else ret (true, mp, At nc)
          end
    end.

(** The elements of an array in [GetObj]. *)
Fixpoint obj_elements (value : string -> M (option CppON * cptr))
    (k : nat) (arr : CppON) (ch : ascii) (nc : string)
    : M (bool * CppON * cptr) :=
  if (ch =? NUL)%char || (ch =? "]")%char then ret (false, arr, At nc)
  else
    match k with
    | O => out_of_fuel
    | S k' =>
        r <- value nc ;;
        match r with
        | (Some obj, At nc) =>
            let nc := DumpWhiteSpace nc in
            let ch := first_char nc in
            arr <- push_back arr obj ;;
            if (ch =? ",")%char then obj_elements value k' arr ch (drop 1 nc)
            else if negb (ch =? NUL)%char && negb (ch =? "]")%char
            then ret (true, arr, At nc)
            else obj_elements value k' arr ch nc
        | (Some _, Behind) => undefined
        | (None, nc) => ret (true, arr, nc)
        end
    end.

(** [*str = &nc[ 1 ]; DumpWhiteSpace( ch, str );] at the end of a map or an
    array: the pointer steps over the closing character and is read.  When
    [nc] is at the NUL, or behind it, that read is behind the NUL. *)
Definition step_over (nc : cptr) : M cptr :=
  match nc with
  | At nc => if nonempty nc then ret (At (DumpWhiteSpace (drop 1 nc)))
             else undefined
  | Behind => undefined
  end.

(** [true] or [false] at the pointer: the first letter [ch], the rest of
    the word, and then a character other than [ch]. *)
Definition is_word (ch : ascii) (nc rest : string) (lower_ch upper_ch : ascii)
    : bool :=
  ((ch =? lower_ch) || (ch =? upper_ch))%char && strncasecmp_eq nc rest &&
  (negb (ch =? char_at (String.length rest) nc)%char || is_json_space ch ||
   (ch =? ",")%char).

(** The number at the pointer in [GetObj].  After a sign the pointer moves
    on by one more place; with nothing after the sign it then stands behind
    the NUL, where the scan for the dot reads. *)
Definition obj_number (ch : ascii) (str nc : string)
    : M (option CppON * cptr) :=
  let neg := (ch =? "-")%char in
  let signed := ((ch =? "+") || (ch =? "-"))%char in
  if signed && negb (nonempty nc) then undefined
  else
    let nc := if signed then drop 1 nc else nc in
    let number := if signed then drop 1 str else str in
    if has_dot nc then
      let (d, rest) := strtod number in
      c <- new_CODouble (if neg then PrimFloat.opp d else d) ;;
      ret (Some c, At (DumpWhiteSpace rest))
    else
      let (n, rest) :=
        if (ch =? "0")%char && (first_char nc =? "x")%char
        then strtoll number 16 else strtoll number 10 in
      c <- new_COInteger (if neg then - n else n) ;;
      ret (Some c, At (DumpWhiteSpace rest)).

(** [CppON::GetTNetstring( const char **str )] and
    [CppON::GetObj( const char **str )]: the node, or [None] for [NULL],
    and the pointer afterwards.  [fuel] bounds the nesting.

    In [GetTNetstring] the loop [while( 0 != ( ch = *( *str )++ ) && ... )]
    leaves the pointer behind the NUL when it has read the NUL.  The type
    is read at [( *str )[ len ]]: a length greater than that of the text
    reads behind the NUL.  With a length equal to that of the text the type
    is the NUL, no node is made and [*str += ( len + 1 )] leaves the pointer
    behind the NUL. *)
Fixpoint GetTNetstring (fuel : nat) (str : string)
    : M (option CppON * cptr) :=
  match fuel with
  | O => out_of_fuel
  | S fuel' =>
      let value (nc : string) :=
        if (first_non_digit nc =? ":")%char
        then GetTNetstring fuel' nc else GetObj fuel' nc in
      let (v, str) := strtol str 10 in
      let len := Z.to_nat (wrap 32 v) in
      let str := skip_json_space str in
      let ch := first_char str in
      if (ch =? NUL)%char then ret (None, Behind)
      else
        let str := drop 1 str in
        if (ch =? ":")%char then
          if (String.length (c_str str) <? len)%nat then undefined
          else
            let typ := char_at len str in
            let s := c_str (substring 0 len str) in
            base <-
              (if (typ =? ",")%char then
                 c <- new_COString_std (substring 0 len str) ;; ret (Some c)
               else if (typ =? "#")%char then
                 c <- new_COInteger (fst (strtoll (c_str str) 0)) ;; ret (Some c)
               else if (typ =? "^")%char then
                 c <- new_CODouble (fst (strtod (c_str str))) ;; ret (Some c)
               else if (typ =? "!")%char then
                 if strncasecmp_eq str "true" then
                   c <- new_COBoolean true ;; ret (Some c)
                 else if strncasecmp_eq str "false" then
                   c <- new_COBoolean true ;; ret (Some c)
                 else ret None
               else if (typ =? "~")%char then c <- new_CONull ;; ret (Some c)
               else if (typ =? "}")%char then
                 p <- new ;; tnet_entries value fuel' (COMap p [] []) s
               else if (typ =? "]")%char then
                 p <- new ;; tnet_elements value fuel' (COArray p (Some [])) s
               else ret None) ;;
            ret (base,
                 if (len <? String.length (c_str str))%nat
                 then At (drop (len + 1) str) else Behind)
        else ret (None, At str)
  end

with GetObj (fuel : nat) (str : string) : M (option CppON * cptr) :=
  match fuel with
  | O => out_of_fuel
  | S fuel' =>
      let value (nc : string) :=
        if (first_non_digit nc =? ":")%char
        then GetTNetstring fuel' nc else GetObj fuel' nc in
      let str := DumpWhiteSpace str in
      let ch := first_char str in
      let nc := drop 1 str in
      if (ch =? "{")%char then
        p <- new ;;
        let nc := DumpWhiteSpace nc in
        r <- obj_entries value fuel' (COMap p [] []) (first_char nc) nc ;;
        let '(fail, mp, nc) := r in
        nc <- step_over nc ;;
        ret (if fail then None else Some mp, nc)
      else if (ch =? "[")%char then
        p <- new ;;
        let nc := DumpWhiteSpace nc in
        r <- obj_elements value fuel' (COArray p (Some [])) ch nc ;;
        let '(fail, arr, nc) := r in
        nc <- step_over nc ;;
        ret (if fail then None else Some arr, nc)
      else if (ch =? "034")%char then
        match read_string nc with
        | Some (acum, rest) =>
            c <- new_COString acum ;;
            ret (Some c, At (DumpWhiteSpace rest))
        | None => undefined
        end
      else if is_word ch nc "rue" "t" "T" then
        c <- new_COBoolean true ;;
        ret (Some c, At (DumpWhiteSpace (drop 4 str)))
      else if is_word ch nc "alse" "f" "F" then
        c <- new_COBoolean false ;;
        ret (Some c, At (DumpWhiteSpace (drop 5 str)))
      else if isdigit ch || (ch =? "-")%char || (ch =? "+")%char then
        obj_number ch str nc
      else exits
  end.

(** [CppON::parseJson( const char *str )] for a string that is not
    [NULL]. *)
Definition parseJson (str : string) : M (option CppON) :=
  let str := skip_json_space str in
  let ch := first_char str in
  if isdigit ch then
    r <- GetTNetstring (S (String.length str)) str ;; ret (fst r)
  else if nonempty str then
    r <- GetObj (S (String.length str)) str ;; ret (fst r)
  else ret None.

End Parsers.

(** ** Statements about the parsers *)








(** ** The elements of an array: [remove], [pop], [pop_front], [replace] *)

(** [COArray::size()] as the [int] it returns. *)
Definition COArray_int_size (data : option (list CppON)) : Z :=
  sext 32 (Z.of_N (COArray_size data)).

(** [v->erase( v->begin() + idx )]. *)
Definition erase_at {A : Type} (idx : nat) (v : list A) : list A :=
  firstn idx v ++ skipn (S idx) v.

(** [CppON *COArray::remove( size_t idx )]: the element that was taken out,
    or [NULL], and the array afterwards.  The vector is used without a test
    of [data]. *)
Definition COArray_remove (this : CppON) (idx : Z)
    : outcome (option CppON * CppON) :=
  match this with
  | COArray self (Some v) =>
      if Z.of_nat (List.length v) >? idx
      then Returns (nth_error v (Z.to_nat idx),
                    COArray self (Some (erase_at (Z.to_nat idx) v)))
      else Returns (None, this)
  | _ => Undefined
  end.

(** [pop()] is [remove( size() - 1 )]: the [int] is converted to
    [size_t]. *)
Definition COArray_pop (this : CppON) : outcome (option CppON * CppON) :=
  match this with
  | COArray _ data => COArray_remove this (wrap 64 (COArray_int_size data - 1))
  | _ => Undefined
  end.

(** [pop_front()] is [remove( 0 )]. *)
Definition COArray_pop_front (this : CppON) : outcome (option CppON * CppON) :=
  COArray_remove this 0.

(** [COArray::append( CppON *n )], [push_back] and [push]. *)
Definition COArray_append (this : CppON) (n : CppON) : outcome CppON :=
  match this with
  | COArray self (Some v) => Returns (COArray self (Some (v ++ [n])))
  | _ => Undefined
  end.

Fixpoint list_set {A : Type} (i : nat) (x : A) (l : list A) : list A :=
  match l, i with
  | [], _ => []
  | _ :: tl, O => x :: tl
  | y :: tl, S j => y :: list_set j x tl
  end.

(** [bool COArray::replace( size_t i, CppON *n )]: the element that was at
    [i] is deleted and the pointer [n] is stored in its place. *)
Definition COArray_replace (this : CppON) (i : Z) (n : CppON)
    : outcome (bool * CppON) :=
  match this with
  | COArray self (Some v) =>
      if Z.of_nat (List.length v) >? i
      then Returns (true, COArray self (Some (list_set (Z.to_nat i) n v)))
      else Returns (false, this)
  | _ => Undefined
  end.

(** ** More of [COMap]: [findNoSplit], [replaceObj], [extract], [clear],
    [getValues] *)

(** [COMap::findNoSplit( const char *str )]: the loop of [findElement]
    without the splitting of the path. *)
Definition COMap_findNoSplit (this : CppON) (str : string) : option CppON :=
  match this with
  | COMap _ _ data => map_find_strcmp str data
  | _ => None
  end.

(** [it->second = obj]. *)
Fixpoint map_update {A : Type} (k : string) (v : A) (m : list (string * A))
    : list (string * A) :=
  match m with
  | [] => []
  | (k', v') :: tl =>
      if String.eqb k' k then (k', v) :: tl else (k', v') :: map_update k v tl
  end.

(** [void COMap::replaceObj( string s, CppON *obj )]: the node that was
    bound is deleted and the pointer [obj] is stored in its place. *)
Definition COMap_replaceObj (this : CppON) (s : string) (obj : CppON) : CppON :=
  match this with
  | COMap self order data =>
      match map_find s data with
      | Some _ => COMap self order (map_update s obj data)
      | None => this
      end
  | _ => this
  end.

(** [CppON *COMap::extract( const char *name )]: the node that was bound,
    or [NULL], and the map afterwards. *)
Definition COMap_extract (this : CppON) (name : string) : option CppON * CppON :=
  match this with
  | COMap self order data =>
      let key := c_str name in
      match map_find key data with
      | Some rtn =>
          (Some rtn, COMap self (order_erase key order) (map_erase key data))
      | None => (None, this)
      end
  | _ => (None, this)
  end.

(** [void COMap::clear()]. *)
Definition COMap_clear (this : CppON) : CppON :=
  match this with
  | COMap self _ _ => COMap self [] []
  | _ => this
  end.

(** [COMap::getValues()]: the values as the iterator of the [std::map]
    meets them. *)
Definition getValues (this : CppON) : list CppON :=
  match this with
  | COMap _ _ data => List.map snd data
  | _ => []
  end.

(** ** [CppON::RemoveWhiteSpace] *)

(** The loop of [RemoveWhiteSpace]; [instr] tells whether the pointer is
    inside a quoted string. *)
Fixpoint remove_white (s : string) (instr : bool) : string :=
  match s with
  | EmptyString => EmptyString
  | String ch tl =>
      if (ch =? NUL)%char then EmptyString
      else
        let instr := if (ch =? "034")%char then negb instr else instr in
        if instr then String ch (remove_white tl instr)
        else if negb (is_json_space ch) then String ch (remove_white tl instr)
        else remove_white tl instr
  end.

Definition RemoveWhiteSpace (s : string) : string := remove_white s false.

(** ** [CppON::guessDataType] *)

(** The loop over the characters: one dot makes a Double of the Integer, a
    second dot or any other character that is not a digit makes a String. *)
Fixpoint guess_loop (str : string) (eType : CppONType) : CppONType :=
  match str with
  | EmptyString => eType
  | String ch tl =>
      if (ch =? NUL)%char then eType
      else if (ch =? ".")%char then
        if CppONType_eqb DOUBLE_CPPON_OBJ_TYPE eType
        then STRING_CPPON_OBJ_TYPE
        else guess_loop tl DOUBLE_CPPON_OBJ_TYPE
      else if negb (isdigit ch) then STRING_CPPON_OBJ_TYPE
      else guess_loop tl eType
  end.

(** The type that [guessDataType] settles on; [None] is the [NULL]
    pointer. *)
Definition guessed_type (str : option string) : CppONType :=
  match str with
  | Some s =>
      if nonempty s then
        if strcasecmp_eq s "true" || strcasecmp_eq s "false"
        then BOOLEAN_CPPON_OBJ_TYPE
        else guess_loop s INTEGER_CPPON_OBJ_TYPE
      else NULL_CPPON_OBJ_TYPE
  | None => NULL_CPPON_OBJ_TYPE
  end.

Definition guessDataType (strtod : string -> float * string)
    (str : option string) : M CppON :=
  let s := match str with Some s => s | None => EmptyString end in
  match guessed_type str with
  | INTEGER_CPPON_OBJ_TYPE => new_COInteger (fst (strtoll s 10))
  | DOUBLE_CPPON_OBJ_TYPE => new_CODouble (fst (strtod s))
  | BOOLEAN_CPPON_OBJ_TYPE => new_COBoolean (strcasecmp_eq s "true")
  | STRING_CPPON_OBJ_TYPE => new_COString s
  | MAP_CPPON_OBJ_TYPE => p <- new ;; ret (COMap p [] [])
  | ARRAY_CPPON_OBJ_TYPE => p <- new ;; ret (COArray p (Some []))
  | _ => new_CONull
  end.

(** A text of decimal digits, and the number of its dots. *)
Fixpoint all_digits (s : string) : bool :=
  match s with
  | EmptyString => true
  | String ch tl => isdigit ch && all_digits tl
  end.

Fixpoint digits_or_dots (s : string) : bool :=
  match s with
  | EmptyString => true
  | String ch tl => (isdigit ch || (ch =? ".")%char) && digits_or_dots tl
  end.

Fixpoint count_char (c : ascii) (s : string) : nat :=
  match s with
  | EmptyString => O
  | String ch tl => (if (ch =? c)%char then 1 else 0) + count_char c tl
  end.

(** ** The conversions [toLongInt], [toInt], [toBoolean], [toDouble] *)

(** [(long long) d], with the result of the x86-64 instruction where the
    value does not fit. *)
Definition long_of_double (d : float) : Z :=
  match Prim2SF d with
  | S754_zero _ => 0
  | S754_finite s m e =>
      let a := if 0 <=? e then Z.pos m * 2 ^ e else Z.pos m / 2 ^ (- e) in
      let z := if s then - a else a in
      if (- 2 ^ 63 <=? z) && (z <=? 2 ^ 63 - 1) then z else - 2 ^ 63
  | _ => - 2 ^ 63
  end.

Definition toLongInt (n : CppON) : Z :=
  match n with
  | COInteger _ siz _ data => longValue siz data
  | CODouble _ _ data => long_of_double (doubleValue data)
  | COString _ data => fst (strtol (c_str data) 0)
  | COBoolean _ data => if data then 1 else 0
  | _ => 0
  end.


Definition toBoolean (n : CppON) : bool :=
  match n with
  | COBoolean _ data => data
  | CODouble _ _ data => negb (PrimFloat.eqb 0%float (doubleValue data))
  | COInteger _ siz _ data => negb (0 =? intValue siz data)
  | COString _ data => strcasecmp_eq data "True"
  | _ => false
  end.

(** [#define UD_DOUBLE -999999999.123]. *)
Definition UD_DOUBLE : float := (-999999999.123)%float.

Definition toDouble (strtod : string -> float * string) (n : CppON) : float :=
  match n with
  | CODouble _ _ data => doubleValue data
  | COInteger _ siz _ data => double_of_Z (intValue siz data)
  | COString _ data => fst (strtod (c_str data))
  | COBoolean _ data => if data then 1%float else 0%float
  | _ => UD_DOUBLE
  end.

(** ** [COInteger::operator=( COInteger &val )] *)

(** The target takes the width of [val] and, through the getter of that
    width, its value; [unSigned] stays as it was. *)
Definition COInteger_assign (this val : CppON) : CppON :=
  match this, val with
  | COInteger self _ unSigned data, COInteger _ siz' _ data' =>
      COInteger self siz' unSigned
        (if siz' =? 4 then wrap 32 (intValue siz' data')
         else if siz' =? 8 then wrap 64 (longValue siz' data')
         else if siz' =? 2 then wrap 16 (shortValue siz' data')
         else if siz' =? 1 then wrap 8 (charValue siz' data')
         else data)
  | _, _ => this
  end.

(** ** [COMap::operator=( COMap &val )] and [COArray::operator=( COArray &val )] *)

(** The addresses of the nodes of a tree, the root first. *)
Fixpoint addresses (n : CppON) : list ptr :=
  match n with
  | COMap self _ data =>
      self ::
      (fix each (l : list (string * CppON)) : list ptr :=
         match l with
         | [] => []
         | (_, c) :: tl => addresses c ++ each tl
         end) data
  | COArray self (Some v) =>
      self ::
      (fix each (l : list CppON) : list ptr :=
         match l with
         | [] => []
         | c :: tl => addresses c ++ each tl
         end) v
  | _ => [address n]
  end.

(** The loop of the map over the [std::map] of [val]: every value is copied
    with the copy constructor of its class, inserted, and its key pushed on
    [order]. *)
Fixpoint assign_entries (l : list (string * CppON))
    (st : list string * list (string * CppON))
    : M (list string * list (string * CppON)) :=
  match l with
  | [] => ret st
  | (k, v) :: tl =>
      c <- clone v ;;
      assign_entries tl (fst st ++ [k], map_insert k c (snd st))
  end.

(** The operator first deletes the values of the target and clears its
    table and [order], and only then walks [val].  When [val] is the target
    itself it is empty by then, and the target stays empty; when [val] is a
    node below the target it has been deleted by then.  Otherwise [val] is
    taken to be a tree that does not hold the target. *)
Definition COMap_assign (this val : CppON) : M CppON :=
  match this, val with
  | COMap self _ _, COMap vself _ vdata =>
      if (vself =? self)%N then ret (COMap self [] [])
      else if existsb (N.eqb vself) (addresses this) then undefined
      else
        st <- assign_entries vdata ([], []) ;;
        ret (COMap self (fst st) (snd st))
  | _, _ => undefined
  end.

Fixpoint assign_elements (l : list CppON) (w : list CppON) : M (list CppON) :=
  match l with
  | [] => ret w
  | jt :: tl => c <- clone jt ;; assign_elements tl (w ++ [c])
  end.

(** The array does the same with its vector. *)
Definition COArray_assign (this val : CppON) : M CppON :=
  match this, val with
  | COArray self _, COArray vself vdata =>
      if (vself =? self)%N then ret (COArray self (Some []))
      else if existsb (N.eqb vself) (addresses this) then undefined
      else
        w <- assign_elements (match vdata with Some v => v | None => [] end) [] ;;
        ret (COArray self (Some w))
  | _, _ => undefined
  end.

(** ** Base64: [COString::toBase64JsonString], [COString::base64Decode] *)

(** [static unsigned char etable[]]. *)
Definition etable : string :=
  "ABCDEFGHIJKLMNOPQRSTUVWXYZabcdefghijklmnopqrstuvwxyz0123456789+/".

Definition etable_at (i : Z) : ascii :=
  match String.get (Z.to_nat i) etable with
  | Some ch => ch
  | None => NUL
  end.

(** [static unsigned char dtab[]]. *)
Definition dtab : list Z :=
  [ 0x80; 0x80; 0x80; 0x80; 0x80; 0x80; 0x80; 0x80; 0x80; 0x80; 0x0A; 0x80; 0x80; 0x80; 0x80; 0x80;
    0x80; 0x80; 0x80; 0x80; 0x80; 0x80; 0x80; 0x80; 0x80; 0x80; 0x80; 0x80; 0x80; 0x80; 0x80; 0x80;
    0x80; 0x80; 0x80; 0x80; 0x80; 0x80; 0x80; 0x80; 0x80; 0x80; 0x80; 0x3E; 0x80; 0x80; 0x80; 0x3F;
    0x34; 0x35; 0x36; 0x37; 0x38; 0x39; 0x3A; 0x3B; 0x3C; 0x3D; 0x80; 0x80; 0x80; 0x00; 0x80; 0x80;
    0x80; 0x00; 0x01; 0x02; 0x03; 0x04; 0x05; 0x06; 0x07; 0x08; 0x09; 0x0A; 0x0B; 0x0C; 0x0D; 0x0E;
    0x0F; 0x10; 0x11; 0x12; 0x13; 0x14; 0x15; 0x16; 0x17; 0x18; 0x19; 0x80; 0x80; 0x80; 0x80; 0x80;
    0x80; 0x1A; 0x1B; 0x1C; 0x1D; 0x1E; 0x1F; 0x20; 0x21; 0x22; 0x23; 0x24; 0x25; 0x26; 0x27; 0x28;
    0x29; 0x2A; 0x2B; 0x2C; 0x2D; 0x2E; 0x2F; 0x30; 0x31; 0x32; 0x33; 0x80; 0x80; 0x80; 0x80; 0x80;
    0x80; 0x80; 0x80; 0x80; 0x80; 0x80; 0x80; 0x80; 0x80; 0x80; 0x80; 0x80; 0x80; 0x80; 0x80; 0x80;
    0x80; 0x80; 0x80; 0x80; 0x80; 0x80; 0x80; 0x80; 0x80; 0x80; 0x80; 0x80; 0x80; 0x80; 0x80; 0x80;
    0x80; 0x80; 0x80; 0x80; 0x80; 0x80; 0x80; 0x80; 0x80; 0x80; 0x80; 0x80; 0x80; 0x80; 0x80; 0x80;
    0x80; 0x80; 0x80; 0x80; 0x80; 0x80; 0x80; 0x80; 0x80; 0x80; 0x80; 0x80; 0x80; 0x80; 0x80; 0x80;
    0x80; 0x80; 0x80; 0x80; 0x80; 0x80; 0x80; 0x80; 0x80; 0x80; 0x80; 0x80; 0x80; 0x80; 0x80; 0x80;
    0x80; 0x80; 0x80; 0x80; 0x80; 0x80; 0x80; 0x80; 0x80; 0x80; 0x80; 0x80; 0x80; 0x80; 0x80; 0x80;
    0x80; 0x80; 0x80; 0x80; 0x80; 0x80; 0x80; 0x80; 0x80; 0x80; 0x80; 0x80; 0x80; 0x80; 0x80; 0x80;
    0x80; 0x80; 0x80; 0x80; 0x80; 0x80; 0x80; 0x80; 0x80; 0x80; 0x80; 0x80; 0x80; 0x80; 0x80; 0x00 ].

Definition dtab_at (ch : Z) : Z := nth (Z.to_nat ch) dtab 0.

Definition code (ch : ascii) : Z := Z.of_N (N_of_ascii ch).
Definition byte (z : Z) : ascii := ascii_of_N (Z.to_N (wrap 8 z)).

(** The four characters written for the [n] bytes, one to three, that the
    inner loop has read into [ig]. *)
Definition encode_group (ig0 ig1 ig2 : Z) (n : nat) : string :=
  let o0 := etable_at (Z.shiftr ig0 2) in
  let o1 := etable_at (Z.lor (Z.shiftl (Z.land ig0 3) 4) (Z.shiftr ig1 4)) in
  let o2 := etable_at (Z.lor (Z.shiftl (Z.land ig1 15) 2) (Z.shiftr ig2 6)) in
  let o3 := etable_at (Z.land ig2 63) in
  String o0 (String o1
    (String (if (n <? 2)%nat then "="%char else o2)
       (String (if (n <? 3)%nat then "="%char else o3) EmptyString))).

(** The loops of [toBase64JsonString]: three bytes at a time up to the
    NUL. *)
Fixpoint base64_groups (cPtr : string) : string :=
  match cPtr with
  | String a (String b (String c tl)) =>
      if (a =? NUL)%char then EmptyString
      else if (b =? NUL)%char then encode_group (code a) 0 0 1
      else if (c =? NUL)%char then encode_group (code a) (code b) 0 2
      else (encode_group (code a) (code b) (code c) 3 ++ base64_groups tl)%string
  | String a (String b EmptyString) =>
      if (a =? NUL)%char then EmptyString
      else if (b =? NUL)%char then encode_group (code a) 0 0 1
      else encode_group (code a) (code b) 0 2
  | String a EmptyString =>
      if (a =? NUL)%char then EmptyString else encode_group (code a) 0 0 1
  | EmptyString => EmptyString
  end.

(** [static std::string *toBase64JsonString( const char *cPtr, unsigned int
    len )]: the text and its NUL are written into [o], an array of
    [( ( len * 4 ) / 3 ) + 4] bytes, the size computed in [unsigned int]. *)
Definition toBase64JsonString (cPtr : string) (len : Z) : outcome string :=
  let o := base64_groups cPtr in
  if Z.of_nat (String.length o) + 1 <=? wrap 32 (wrap 32 (len * 4) / 3 + 4)
  then Returns o else Undefined.

(** The member function passes the text and the length of [data]. *)
Definition COString_toBase64JsonString (data : string) : outcome string :=
  toBase64JsonString data (wrap 32 (Z.of_nat (String.length data))).

(** The [for] loop of [base64Decode]: the characters of a group, each with
    its entry of [dtab], and the text after them.  [need] counts the
    characters still to come.  A NUL and a character without an entry give
    [NULL]; a newline is passed over; a byte above 127 is a negative [char]
    and indexes [dtab] before its first entry. *)
Fixpoint decode_group (tmp : string) (need : nat) {struct tmp}
    : outcome (option (list (ascii * Z) * string)) :=
  match need with
  | O => Returns (Some ([], tmp))
  | S k =>
      match tmp with
      | EmptyString => Returns None
      | String ch tl =>
          if code ch =? 0 then Returns None
          else if 128 <=? code ch then Undefined
          else if dtab_at (code ch) =? 0x80 then Returns None
          else if negb (code ch =? 0x0A) then
            match decode_group tl k with
            | Returns (Some (q, rest)) =>
                Returns (Some ((ch, dtab_at (code ch)) :: q, rest))
            | other => other
            end
          else decode_group tl need
      end
  end.

(** The bytes that a group gives: [a] holds the characters, [b] their
    entries. *)
Definition decode_bytes (q : list (ascii * Z)) : option string :=
  match q with
  | [(_, b0); (_, b1); (a2, b2); (a3, b3)] =>
      Some
        (String (byte (Z.lor (Z.shiftl b0 2) (Z.shiftr b1 4)))
           (if negb (a2 =? "=")%char then
              String (byte (Z.lor (Z.shiftl b1 4) (Z.shiftr b2 2)))
                (if negb (a3 =? "=")%char
                 then String (byte (Z.lor (Z.shiftl b2 6) b3)) EmptyString
                 else EmptyString)
            else EmptyString))
  | _ => None
  end.

(** The [while] loop of [base64Decode]; every turn passes at least one
    character, [fuel] bounds the turns. *)
Fixpoint decode_loop (fuel : nat) (tmp : string) (out : string)
    : outcome (option string) :=
  match fuel with
  | O => OutOfFuel
  | S fuel' =>
      match tmp with
      | EmptyString => Returns (Some out)
      | String ch tl =>
          if (ch =? NUL)%char then Returns (Some out)
          else if code ch =? 0x0A then decode_loop fuel' tl out
          else
            match decode_group tmp 4 with
            | Returns (Some (q, rest)) =>
                match decode_bytes q with
                | Some bytes => decode_loop fuel' rest (out ++ bytes)
                | None => Undefined
                end
            | Returns None => Returns None
            | Exits => Exits
            | Undefined => Undefined
            | NullStored => NullStored
            | OutOfFuel => OutOfFuel
            end
      end
  end.

(** [static char *base64Decode( const char *tmp, unsigned int sz,
    unsigned int &len, char *out )]: the [len] bytes written to [out], or
    [NULL].  [out] holds [sz + 3] bytes, as in the two constructors that
    call the function and as where the function allocates it. *)
Definition base64Decode (tmp : option string) (sz : Z)
    : outcome (option string) :=
  match tmp with
  | None => Returns None
  | Some tmp =>
      if 1 >? sz then Returns None
      else
        match decode_loop (S (String.length tmp)) tmp EmptyString with
        | Returns (Some out) =>
            if Z.of_nat (String.length out) + 1 <=? wrap 32 (sz + 3)
            then Returns (Some out) else Undefined
        | other => other
        end
  end.

(** [COString::COString( const char *st, bool base64 )] with [base64] set:
    the [data] of the new string, [None] for [NULL]. *)
Definition COString_base64 (st : string) : outcome (option string) :=
  base64Decode (Some st) (wrap 32 (strlen st)).

(** ** Helpers of the proofs *)

(** [P] holds for every number below [n]. *)
Definition all_below (n : nat) (P : Z -> bool) : bool :=
  forallb P (List.map Z.of_nat (seq 0 n)).

(** The decimal digits of [d], read from the left on top of [acc]. *)
Fixpoint uint_value (d : Decimal.uint) (acc : Z) : Z :=
  match d with
  | Decimal.Nil => acc
  | Decimal.D0 l => uint_value l (10 * acc)
  | Decimal.D1 l => uint_value l (10 * acc + 1)
  | Decimal.D2 l => uint_value l (10 * acc + 2)
  | Decimal.D3 l => uint_value l (10 * acc + 3)
  | Decimal.D4 l => uint_value l (10 * acc + 4)
  | Decimal.D5 l => uint_value l (10 * acc + 5)
  | Decimal.D6 l => uint_value l (10 * acc + 6)
  | Decimal.D7 l => uint_value l (10 * acc + 7)
  | Decimal.D8 l => uint_value l (10 * acc + 8)
  | Decimal.D9 l => uint_value l (10 * acc + 9)
  end.

(** ** Well-formed trees, for the statements about [==] and the copies *)

(** The five classes that hold a value and no children. *)
Definition is_leaf (n : CppON) : bool :=
  match n with
  | COMap _ _ _ | COArray _ _ => false
  | _ => true
  end.

(** A Double holds a number when it has its cell and the cell is not a
    NaN. *)
Definition holds_number (data : option float) : Prop :=
  exists d, data = Some d /\ PrimFloat.eqb d d = true.

(** A tree that can be compared with itself: the keys of its maps are
    segments, pairwise distinct, its Strings hold no NUL and its Doubles
    hold numbers.  The elements of an array are compared as pointers and
    may be anything. *)
Fixpoint comparable (n : CppON) : Prop :=
  match n with
  | CODouble _ _ data => holds_number data
  | COString _ data => plain data
  | COMap _ _ data =>
      NoDup (keys data) /\ Forall segment (keys data) /\
      (fix each (l : list (string * CppON)) : Prop :=
         match l with
         | [] => True
         | (_, c) :: tl => comparable c /\ each tl
         end) data
  | _ => True
  end.

(** A leaf that its copy constructor copies and [==] can compare: an
    Integer has one of the four widths, a Double holds a number, a String
    holds no NUL. *)
Definition copyable (n : CppON) : Prop :=
  is_leaf n = true /\ comparable n /\
  match n with
  | COInteger _ siz _ _ => In siz [1; 2; 4; 8]
  | _ => True
  end.

(** ** Flat maps that are written as net strings and read back *)

(** The leaves whose net string [GetTNetstring] reads back: a String
    without a NUL, an Integer of two, four or eight bytes, a Null. *)
Definition writable (n : CppON) : Prop :=
  match n with
  | COString _ s => plain s
  | COInteger _ siz _ _ => In siz [2; 4; 8]
  | CONull _ => True
  | _ => False
  end.

(** What the parser makes of the net string of a leaf: the escaped text
    of a String, the value of an Integer in eight bytes, a Null. *)
Definition read_back (v v' : CppON) : Prop :=
  match v, v' with
  | COString _ s, COString _ s' => s' = escape_std s
  | COInteger _ siz _ d, COInteger _ siz' u' d' =>
      siz' = 8 /\ u' = true /\ d' = wrap 64 (longValue siz d)
  | CONull _, CONull _ => True
  | _, _ => False
  end.

(** A key that [append] takes as one name and that the String read for it
    gives back unchanged: no NUL, slash, quote or percent sign. *)
Definition clean_key (k : string) : Prop :=
  plain k /\ has_char "/" k = false /\ has_char "034" k = false /\
  has_char "%" k = false.

(** What a parser of nested values has to do with the net string of a
    writable leaf. *)
Definition reads_leaves (format_lf : Z -> float -> string)
    (value : string -> M (option CppON * cptr)) : Prop :=
  forall (v : CppON) (rest : string) (next : ptr),
    writable v ->
    Z.of_nat (String.length (opt_str (toNetString format_lf v))) < 2 ^ 31 ->
    exists v',
      value (opt_str (toNetString format_lf v) ++ rest)%string next =
        Returns ((Some v', At (c_str rest)), (next + 1)%N) /\
      read_back v v'.

(** ** Flat maps that are written as compact JSON and read back *)

(** The leaves whose JSON text [GetObj] reads back inside a map: a String
    without a NUL, an Integer of two, four or eight bytes above the least
    [long long], a Boolean. *)
Definition json_writable (n : CppON) : Prop :=
  match n with
  | COString _ s => plain s
  | COInteger _ siz _ data => In siz [2; 4; 8] /\ - 2 ^ 63 < longValue siz data
  | COBoolean _ _ => True
  | _ => False
  end.

(** What the parser makes of the JSON text of a leaf: the escaped text of
    a String, the value of an Integer in eight bytes, the Boolean. *)
Definition json_read_back (v v' : CppON) : Prop :=
  match v, v' with
  | COString _ s, COString _ s' => s' = json_escape_all s
  | COInteger _ siz _ d, COInteger _ siz' u' d' =>
      siz' = 8 /\ u' = true /\ d' = wrap 64 (longValue siz d)
  | COBoolean _ b, COBoolean _ b' => b' = b
  | _, _ => False
  end.

(** A key that is written between quotes as it is and that [append] takes
    as one name: no NUL, slash or quote. *)
Definition json_key (k : string) : Prop :=
  plain k /\ has_char "/" k = false /\ has_char "034" k = false.

(** After a value inside a map or an array comes a comma, the closing
    brace or the closing bracket; the scan of [GetObj] for the dot of a
    number runs on to the next comma or closing brace, and finds no dot. *)
Definition follows (rest : string) : Prop :=
  plain rest /\
  ((first_char rest =? ",")%char || (first_char rest =? "}")%char ||
   (first_char rest =? "]")%char = true) /\
  has_dot rest = false.

(** What a parser of nested values has to do with the JSON text of a
    writable leaf. *)
Definition reads_json_leaves (format_lf : Z -> float -> string)
    (value : string -> M (option CppON * cptr)) : Prop :=
  forall (v : CppON) (rest : string) (next : ptr),
    json_writable v -> follows rest ->
    exists v',
      value (toCompactJsonString format_lf v ++ rest)%string next =
        Returns ((Some v', At rest), (next + 1)%N) /\
      json_read_back v v'.

(** What [COMap::toCompactJsonString] writes after the first entry: a comma
    and an entry for every further key, and the closing brace. *)
Definition entries_tail (format_lf : Z -> float -> string)
    (data : list (string * CppON)) (ks : list string) : string :=
  (concat_all (List.map (fun k => "," ++ compact_entry format_lf data k) ks)
   ++ "}")%string.

(** ** Trees whose difference with themselves is taken *)

(** The keys of the maps are segments, pairwise distinct, the arrays have
    their vector, the Strings hold no NUL and the Doubles hold numbers. *)
Fixpoint diffable (n : CppON) : Prop :=
  match n with
  | CODouble _ _ data => holds_number data
  | COString _ data => plain data
  | COMap _ _ data =>
      NoDup (keys data) /\ Forall segment (keys data) /\
      (fix each (l : list (string * CppON)) : Prop :=
         match l with
         | [] => True
         | (_, c) :: tl => diffable c /\ each tl
         end) data
  | COArray _ (Some v) =>
      (fix each (l : list CppON) : Prop :=
         match l with
         | [] => True
         | c :: tl => diffable c /\ each tl
         end) v
  | COArray _ None => False
  | _ => True
  end.

(** ** Maps that their copy constructor copies key by key *)

(** No two keys of the table differ by the case of their letters only. *)
Definition case_distinct {A : Type} (data : list (string * A)) : Prop :=
  NoDup (List.map lower (keys data)).

(** What the copy constructor makes of a binding of the map it copies. *)
Definition copied (data : list (string * CppON)) (kc : string * CppON) : Prop :=
  exists v, In (fst kc, v) data /\ is_leaf v = true /\
            is_leaf (snd kc) = true /\ type (snd kc) = type v /\
            CppON_equal (snd kc) v = true /\ CppON_equal v (snd kc) = true.

(** The map [{"A":1,"a":2}]. *)
Definition map_A1_a2 : CppON :=
  COMap 1 ["A"; "a"]%string
    [("A"%string, COInteger 2 4 false 1); ("a"%string, COInteger 3 4 false 2)].

(** What [COArray::toCompactJsonString] writes after the first element: a
    comma and the text of every further element, and the closing
    bracket. *)
Definition elements_tail (format_lf : Z -> float -> string)
    (xs : list CppON) : string :=
  (concat_all (List.map (fun c => "," ++ toCompactJsonString format_lf c) xs)
   ++ "]")%string.




(** ** Flat arrays that are written as a net string and read back *)

(** The elements that [COArray::toNetString] writes: it drops the Nulls. *)
Definition net_elements (v : list CppON) : list CppON :=
  filter (fun c => match c with CONull _ => false | _ => true end) v.

(** An element that [COArray::toNetString] writes and [GetTNetstring] reads
    back. *)
Definition written (c : CppON) : Prop :=
  writable c /\ match c with CONull _ => False | _ => True end.

(** A character that [base64Decode] accepts inside a group, with its entry
    of [dtab]. *)
Definition accepted (ch : ascii) (v : Z) : Prop :=
  (code ch =? 0) = false /\ (128 <=? code ch) = false /\
  (dtab_at (code ch) =? 0x80) = false /\ (code ch =? 0x0A) = false /\
  dtab_at (code ch) = v.

Definition no_x (rest : string) : Prop :=
  (first_char rest =? "x")%char = false /\ (first_char rest =? "X")%char = false.

(** ** Iteration over a map *)

(** The order of the [std::map]: [String.compare] is the comparison of
    [std::string], byte by byte. *)
Definition key_lt (a b : string) : Prop := String.compare a b = Lt.

(** The entries from [begin()] to [end()]: the iterators are those of the
    [std::map]. *)
Definition iteration (m : CppON) : list (string * CppON) := bindings m.

(** The claim of the specification about iteration: the entries come in
    the order of the key list. *)
Definition iterates_in_insertion_order (m : CppON) : Prop :=
  keys (iteration m) = getKeys m.

(* ====================================================================== *)
(** * Part II.  Theorems                                                   *)
(* ====================================================================== *)

Example round_half : c_round 312.5%float = 313%float /\ c_round (-2.5)%float = (-3)%float
  /\ c_round 0.49999999999999994%float = 0%float.
Proof. vm_compute. repeat split; reflexivity. Qed.

(** ** Machine integers *)

Lemma pow2_64 : 2 ^ 64 = 18446744073709551616.
Proof. reflexivity. Qed.

Lemma sext_wrap_64 (t : Z) :
  - 2 ^ 63 <= t < 2 ^ 63 -> sext 64 (wrap 64 t) = t.
Proof.
  intros H. unfold sext, wrap.
  change (2 ^ (64 - 1)) with 9223372036854775808.
  change (2 ^ 63) with 9223372036854775808 in H.
  rewrite pow2_64. rewrite Z.mod_mod by lia.
  destruct (Z.ltb_spec (t mod 18446744073709551616) 9223372036854775808);
    Z.div_mod_to_equations; lia.
Qed.

Lemma sext_64_small (r : Z) : - 2 ^ 63 <= r < 2 ^ 63 -> sext 64 r = r.
Proof.
  intros H. unfold sext, wrap.
  change (2 ^ (64 - 1)) with 9223372036854775808.
  change (2 ^ 63) with 9223372036854775808 in H.
  rewrite pow2_64.
  destruct (Z.ltb_spec (r mod 18446744073709551616) 9223372036854775808);
    Z.div_mod_to_equations; lia.
Qed.

Lemma clamp_range (lo hi r : Z) : lo <= hi -> lo <= clamp lo hi r <= hi.
Proof.
  intros H. unfold clamp.
  destruct (Z.gtb_spec lo r); [lia|]. destruct (Z.ltb_spec hi r); lia.
Qed.

Lemma sext_wrap_narrow (bits v : Z) :
  bits = 8 \/ bits = 16 \/ bits = 32 ->
  - 2 ^ (bits - 1) <= v <= 2 ^ (bits - 1) - 1 ->
  sext bits (wrap bits v) = v.
Proof.
  intros Hb Hv. unfold sext, wrap. rewrite Z.mod_mod by (destruct Hb as [-> | [-> | ->]]; lia).
  destruct Hb as [-> | [-> | ->]]; simpl Z.sub in *;
    match goal with
    | |- context [2 ^ ?n] => let c := eval vm_compute in (2 ^ n) in
                             change (2 ^ n) with c in *
    end;
    repeat match goal with
    | H : context [2 ^ ?n] |- _ => let c := eval vm_compute in (2 ^ n) in
                                   change (2 ^ n) with c in H
    | |- context [2 ^ ?n] => let c := eval vm_compute in (2 ^ n) in
                             change (2 ^ n) with c
    end;
    match goal with
    | |- context [?a <? ?b] => destruct (Z.ltb_spec a b)
    end; Z.div_mod_to_equations; lia.
Qed.

Lemma wrap_wrap_64 (bits t : Z) :
  bits = 8 \/ bits = 16 \/ bits = 32 \/ bits = 64 ->
  wrap bits (wrap 64 t) = wrap bits t.
Proof.
  intros Hb. unfold wrap. rewrite pow2_64.
  destruct Hb as [-> | [-> | [-> | ->]]];
    match goal with
    | |- context [2 ^ ?n] => let c := eval vm_compute in (2 ^ n) in
                             change (2 ^ n) with c
    end; Z.div_mod_to_equations; lia.
Qed.

(** ** [COInteger]: the compound operators *)

Lemma sext_of_wrap_64 (t : Z) : sext 64 (wrap 64 t) = sext 64 t.
Proof.
  unfold sext, wrap. rewrite Z.mod_mod by (rewrite pow2_64; lia). reflexivity.
Qed.

Lemma sext_narrow_range (siz data : Z) :
  siz = 1 \/ siz = 2 \/ siz = 4 ->
  - 2 ^ 31 <= sext (8 * siz) data < 2 ^ 31.
Proof.
  intros Hs. unfold sext, wrap.
  destruct Hs as [-> | [-> | ->]]; cbn [Z.mul Pos.mul Z.sub Z.add Z.opp Z.pos_sub Pos.pred_double];
    repeat match goal with
    | |- context [2 ^ ?n] => let c := eval vm_compute in (2 ^ n) in
                             change (2 ^ n) with c
    end;
    match goal with
    | |- context [?a <? ?b] => destruct (Z.ltb_spec a b)
    end; Z.div_mod_to_equations; lia.
Qed.

(** The division of [int64_t] has the exact quotient whenever that
    quotient fits; so have the other three operators. *)
Lemma sarith_fits (op : CppONOperator) (a b r : Z) :
  arith op a b = Some r -> - 2 ^ 63 <= r < 2 ^ 63 ->
  sarith op a b = Some r.
Proof.
  destruct op; cbn [arith sarith]; try (intros H _; exact H).
  intros H Hr. destruct (Z.eqb_spec b 0) as [|Hb]; [discriminate H|].
  cbn [orb]. destruct (Z.eqb_spec a (- 2 ^ 63)) as [->|]; [|exact H].
  destruct (Z.eqb_spec b (-1)) as [->|]; [|exact H].
  injection H as <-.
  exfalso. destruct Hr as [_ Hr]. vm_compute in Hr. discriminate Hr.
Qed.

(** Signed nodes of width 1, 2 and 4: the operand is read as [int64_t], and
    a result that fits the accumulator is stored saturated. *)
Lemma doOperation_signed_narrow (siz data sz t : Z) (op : CppONOperator)
    (r : Z) :
  siz = 1 \/ siz = 2 \/ siz = 4 ->
  arith op (nodeValue siz false data) (sext 64 t) = Some r ->
  - 2 ^ 63 <= r < 2 ^ 63 ->
  exists cell rtn,
    doOperation siz false data sz (wrap 64 t) op = Some (cell, rtn) /\
    nodeValue siz false cell = saturated siz false r.
Proof.
  intros Hs Hr Hrange.
  unfold nodeValue in Hr. unfold doOperation.
  replace ((siz =? 1) || (siz =? 2) || (siz =? 4)) with true
    by (destruct Hs as [-> | [-> | ->]]; reflexivity).
  rewrite sext_of_wrap_64. cbv zeta.
  rewrite (sarith_fits op _ _ r Hr Hrange).
  rewrite (sext_64_small r Hrange).
  assert (Hc : (if siz =? 1 then clamp (-128) 127 r
                else if siz =? 2 then clamp (-32768) 32767 r
                else clamp (-2147483648) 2147483647 r) = saturated siz false r)
    by (destruct Hs as [-> | [-> | ->]]; reflexivity).
  rewrite Hc. eexists. eexists. split; [reflexivity|].
  unfold nodeValue. apply sext_wrap_narrow; [lia|].
  unfold saturated, range_min, range_max.
  apply clamp_range. destruct Hs as [-> | [-> | ->]]; vm_compute; discriminate.
Qed.

(** Unsigned nodes of width 1, 2 and 4 keep the result modulo [2^(8*siz)]. *)
Lemma doOperation_unsigned_narrow (siz data sz t : Z) (op : CppONOperator) (r : Z) :
  siz = 1 \/ siz = 2 \/ siz = 4 ->
  arith op (wrap (8 * siz) data) (wrap (8 * siz) t) = Some r ->
  exists rtn,
    doOperation siz true data sz (wrap 64 t) op = Some (wrap (8 * siz) r, rtn).
Proof.
  intros Hs Hr. unfold doOperation.
  replace ((siz =? 1) || (siz =? 2) || (siz =? 4)) with true
    by (destruct Hs as [-> | [-> | ->]]; reflexivity).
  cbv zeta. rewrite wrap_wrap_64 by (destruct Hs as [-> | [-> | ->]]; lia).
  rewrite Hr. eexists. reflexivity.
Qed.

Lemma wrap_idem (bits z : Z) : 0 < bits -> wrap bits (wrap bits z) = wrap bits z.
Proof.
  intros H. unfold wrap. apply Z.mod_mod.
  pose proof (Z.pow_pos_nonneg 2 bits); lia.
Qed.

(** Unsigned nodes of every width: the operand is cut to the width of the
    node and the result is kept modulo [2^(8*siz)]. *)
Lemma doOperation_unsigned (siz data sz t : Z) (op : CppONOperator) (r : Z) :
  siz = 1 \/ siz = 2 \/ siz = 4 \/ siz = 8 ->
  arith op (nodeValue siz true data) (wrap (8 * siz) t) = Some r ->
  exists cell rtn,
    doOperation siz true data sz (wrap 64 t) op = Some (cell, rtn) /\
    nodeValue siz true cell = wrap (8 * siz) r.
Proof.
  intros Hs Hr. unfold nodeValue in *.
  destruct Hs as [Hs | [Hs | [Hs | ->]]].
  1-3: destruct (doOperation_unsigned_narrow siz data sz t op r) as [rtn E];
    [tauto | exact Hr | ];
    exists (wrap (8 * siz) r), rtn; (split; [exact E|]);
    apply wrap_idem; lia.
  change (8 * 8) with 64 in *. unfold doOperation.
  cbn [Z.eqb Pos.eqb orb]. rewrite (wrap_idem 64 t) by lia. rewrite Hr.
  eexists. eexists. split; [reflexivity|]. apply wrap_idem. lia.
Qed.

(** Signed nodes of eight bytes: a result that fits is stored as it is. *)
Lemma doOperation_signed_wide (data sz t : Z) (op : CppONOperator) (r : Z) :
  arith op (nodeValue 8 false data) (sext 64 t) = Some r ->
  - 2 ^ 63 <= r < 2 ^ 63 ->
  exists cell rtn,
    doOperation 8 false data sz (wrap 64 t) op = Some (cell, rtn) /\
    nodeValue 8 false cell = r.
Proof.
  intros Hr Hrange. unfold nodeValue in *. change (8 * 8) with 64 in *.
  unfold doOperation. cbn [Z.eqb Pos.eqb orb].
  rewrite sext_of_wrap_64. rewrite (sarith_fits op _ _ r Hr Hrange).
  eexists. eexists. split; [reflexivity|].
  rewrite sext_of_wrap_64. apply sext_64_small. exact Hrange.
Qed.

(** The least value of a signed node of eight bytes divided by [-1]. *)
Lemma doOperation_traps (data sz t : Z) :
  nodeValue 8 false data = - 2 ^ 63 -> sext 64 t = -1 ->
  doOperation 8 false data sz (wrap 64 t) CPPON_DIVIDE = None.
Proof.
  unfold nodeValue. change (8 * 8) with 64. intros Hd Ht.
  unfold doOperation. cbn [Z.eqb Pos.eqb orb].
  rewrite sext_of_wrap_64, Hd, Ht. reflexivity.
Qed.

(** C4 (as amended).  The compound operators [+=], [-=], [*=] and [/=], for
    every node, operand and size of the operand type.  A signed node of
    width 1, 2 or 4 reads the operand as a 64-bit signed number and, when
    the divisor is not zero and the exact result fits the 64-bit
    accumulator, is left with that result saturated to the signed range of
    its width.  An unsigned node of width 1, 2, 4 or 8 is not saturated: it
    is left with the result, modulo [2^(8*siz)], of the operation on its
    value and the operand cut to its width.  A signed node of width 8 is
    left with the exact result when that fits 64 bits, and the division of
    its least value by [-1] has no result. *)
Theorem C4_compound_operators :
  forall (siz data sz t : Z) (op : CppONOperator) (r : Z),
    (siz = 1 \/ siz = 2 \/ siz = 4 ->
     arith op (nodeValue siz false data) (sext 64 t) = Some r ->
     - 2 ^ 63 <= r < 2 ^ 63 ->
     exists cell rtn,
       doOperation siz false data sz (wrap 64 t) op = Some (cell, rtn) /\
       nodeValue siz false cell = saturated siz false r) /\
    (siz = 1 \/ siz = 2 \/ siz = 4 \/ siz = 8 ->
     arith op (nodeValue siz true data) (wrap (8 * siz) t) = Some r ->
     exists cell rtn,
       doOperation siz true data sz (wrap 64 t) op = Some (cell, rtn) /\
       nodeValue siz true cell = wrap (8 * siz) r) /\
    (arith op (nodeValue 8 false data) (sext 64 t) = Some r ->
     - 2 ^ 63 <= r < 2 ^ 63 ->
     exists cell rtn,
       doOperation 8 false data sz (wrap 64 t) op = Some (cell, rtn) /\
       nodeValue 8 false cell = r) /\
    (nodeValue 8 false data = - 2 ^ 63 -> sext 64 t = -1 ->
     doOperation 8 false data sz (wrap 64 t) CPPON_DIVIDE = None).
Proof.
  intros siz data sz t op r. split; [|split; [|split]].
  - apply doOperation_signed_narrow.
  - apply doOperation_unsigned.
  - apply doOperation_signed_wide.
  - apply doOperation_traps.
Qed.

(** The scenario of the specification, an 8-bit signed node holding 127
    that holds 127 after [+= 5]; an 8-bit signed node holding 100 divided by
    the [uint64_t] [2^64 - 1], which is read as [-1]; a 64-bit unsigned node
    holding [2^64 - 1] after [+= 1]; a 64-bit signed node holding 6 after
    [*= 7]; and the least 64-bit value divided by [-1]. *)
Lemma C4_compound_operators_witness :
  (exists cell rtn,
     doOperation 1 false 127 4 (wrap 64 5) CPPON_ADD = Some (cell, rtn) /\
     nodeValue 1 false cell = saturated 1 false 132) /\
  saturated 1 false 132 = 127 /\
  (exists cell rtn,
     doOperation 1 false 100 8 (wrap 64 (2 ^ 64 - 1)) CPPON_DIVIDE =
       Some (cell, rtn) /\
     nodeValue 1 false cell = saturated 1 false (-100)) /\
  (exists cell rtn,
     doOperation 8 true (2 ^ 64 - 1) 8 (wrap 64 1) CPPON_ADD =
       Some (cell, rtn) /\
     nodeValue 8 true cell = wrap (8 * 8) (2 ^ 64)) /\
  wrap (8 * 8) (2 ^ 64) = 0 /\
  (exists cell rtn,
     doOperation 8 false 6 8 (wrap 64 7) CPPON_MULTIPLY = Some (cell, rtn) /\
     nodeValue 8 false cell = 42) /\
  doOperation 8 false (2 ^ 63) 8 (wrap 64 (-1)) CPPON_DIVIDE = None.
Proof.
  split; [|split; [|split; [|split; [|split; [|split]]]]].
  - apply (proj1 (C4_compound_operators 1 127 4 5 CPPON_ADD 132)).
    + left; reflexivity.
    + reflexivity.
    + split; [vm_compute; discriminate | reflexivity].
  - reflexivity.
  - apply (proj1 (C4_compound_operators 1 100 8 (2 ^ 64 - 1) CPPON_DIVIDE (-100))).
    + left; reflexivity.
    + reflexivity.
    + split; [vm_compute; discriminate | reflexivity].
  - apply (proj1 (proj2 (C4_compound_operators 8 (2 ^ 64 - 1) 8 1 CPPON_ADD (2 ^ 64)))).
    + right; right; right; reflexivity.
    + reflexivity.
  - reflexivity.
  - apply (proj1 (proj2 (proj2 (C4_compound_operators 8 6 8 7 CPPON_MULTIPLY 42)))).
    + reflexivity.
    + split; [vm_compute; discriminate | reflexivity].
  - apply (proj2 (proj2 (proj2 (C4_compound_operators 8 (2 ^ 63) 8 (-1) CPPON_DIVIDE 0))));
      reflexivity.
Defined.

(** An 8-bit unsigned node holding 250, after [+= 10], holds 4 and not 255. *)
Lemma C4_unsigned_node_wraps :
  doOperation 1 true 250 1 (wrap 64 10) CPPON_ADD = Some (4, 4) /\
  ~ stores_saturated 1 true 250 1 10 CPPON_ADD.
Proof.
  split; [reflexivity|].
  intros H. destruct (H 260 eq_refl) as (cell & rtn & E & V).
  vm_compute in E. injection E as <- _. vm_compute in V. discriminate.
Qed.

(** ** [CODouble]: assignment with a precision *)

(** The rule of [CODouble::operator=] for a node that holds a value and has
    a precision between 0 and 16. *)
Lemma CODouble_assign_rule (precision : Z) (old val : float) :
  0 <= precision <= 16 ->
  CODouble_assign precision (Some old) val =
    let t := PrimFloat.sub (PrimFloat.mul (pow_10 precision) old)
                           (PrimFloat.mul (pow_10 precision) val) in
    if PrimFloat.ltb 0.75%float t || PrimFloat.ltb t (-0.75)%float
    then PrimFloat.div (c_round (PrimFloat.mul (pow_10 precision) val))
                       (pow_10 precision)
    else old.
Proof.
  intros H. unfold CODouble_assign.
  destruct (Z.gtb_spec 0 precision); [lia|].
  destruct (Z.ltb_spec 16 precision); [lia|]. reflexivity.
Qed.

(** C3.  A Double with precision 2 holding 3.12: assigned 3.1274 it keeps
    3.12, assigned 3.135 it becomes 3.14, and assigned 3.1275 it keeps 3.12,
    because the scaled difference is exactly -0.75 and the test is strict. *)
Theorem C3_hysteresis_at_the_threshold :
  CODouble_assign 2 (Some 3.12%float) 3.1274%float = 3.12%float /\
  CODouble_assign 2 (Some 3.12%float) 3.135%float = 3.14%float /\
  PrimFloat.sub (PrimFloat.mul (pow_10 2) 3.12%float)
                (PrimFloat.mul (pow_10 2) 3.1275%float) = (-0.75)%float /\
  CODouble_assign 2 (Some 3.12%float) 3.1275%float = 3.12%float /\
  CODouble_assign 2 (Some 3.12%float) 3.1275%float <> 3.13%float.
Proof.
  vm_compute. repeat split; try reflexivity.
  intros H. apply (f_equal (fun f => PrimFloat.eqb f 3.12%float)) in H.
  vm_compute in H. discriminate.
Qed.

(** ** [COArray::at] *)

(** C10.  [at( i )] is [NULL] when the array has no backing data or when [i]
    is at least the number of elements, and the [i]-th element otherwise. *)
Theorem C10_at_absent_or_element :
  forall (data : option (list CppON)) (i : N),
    (data = None \/ (COArray_size data <= i)%N -> COArray_at data i = None) /\
    (forall v, data = Some v -> (i < COArray_size data)%N ->
       exists x, nth_error v (N.to_nat i) = Some x /\ COArray_at data i = Some x).
Proof.
  intros data i. split.
  - intros [-> | H]; [reflexivity|].
    destruct data as [v|]; [|reflexivity]. simpl in *.
    destruct (N.leb_spec (N.of_nat (List.length v)) i); [reflexivity | lia].
  - intros v -> H. simpl in *.
    destruct (N.leb_spec (N.of_nat (List.length v)) i); [lia|].
    destruct (nth_error v (N.to_nat i)) as [x|] eqn:E.
    + exists x. split; reflexivity.
    + apply nth_error_None in E. lia.
Qed.

Lemma C10_at_absent_or_element_witness :
  COArray_at (Some [CONull 1; COBoolean 2 true]) 2 = None /\
  exists x, nth_error [CONull 1; COBoolean 2 true] (N.to_nat 1) = Some x /\
            COArray_at (Some [CONull 1; COBoolean 2 true]) 1 = Some x.
Proof.
  split.
  - apply (proj1 (C10_at_absent_or_element
                    (Some [CONull 1; COBoolean 2 true]) 2)).
    right. vm_compute. discriminate.
  - apply (proj2 (C10_at_absent_or_element
                    (Some [CONull 1; COBoolean 2 true]) 1)
                  [CONull 1; COBoolean 2 true] eq_refl).
    reflexivity.
Defined.

Example printf_lf_examples :
  printf_lf 10 0.1%float = "0.1000000000"%string /\
  printf_lf 2 3.125%float = "3.12"%string /\
  printf_lf 0 2.5%float = "2"%string /\
  printf_lf 3 (-1234.5678)%float = "-1234.568"%string /\
  printf_lf 10 1e-11%float = "0.0000000000"%string.
Proof. vm_compute. repeat split; reflexivity. Qed.

Example c_strtod_examples :
  c_strtod "3.1275,"%string = (3.1275%float, ","%string) /\
  c_strtod " -0.1e1x"%string = ((-1)%float, "x"%string) /\
  c_strtod "1e400"%string = (infinity, ""%string) /\
  c_strtod "4.9e-324"%string = (0x1p-1074%float, ""%string) /\
  c_strtod "abc"%string = (0%float, "abc"%string) /\
  c_strtod "0x10"%string = (16%float, ""%string) /\
  c_strtod "0x1.8p1,"%string = (3%float, ","%string) /\
  c_strtod "0xg"%string = (0%float, "xg"%string) /\
  c_strtod "-Infinity]"%string = (neg_infinity, "]"%string) /\
  c_strtod "infin"%string = (infinity, "in"%string) /\
  c_strtod "NaN(7)}"%string = (nan, "}"%string).
Proof. vm_compute. repeat split; reflexivity. Qed.

(** ** Net strings *)

Lemma append_nil_r (s : string) : (s ++ "")%string = s.
Proof. induction s as [|c s IH]; simpl; [reflexivity | now rewrite IH]. Qed.

Lemma append_assoc (a b c : string) :
  ((a ++ b) ++ c)%string = (a ++ b ++ c)%string.
Proof. induction a as [|x a IH]; simpl; [reflexivity | now rewrite IH]. Qed.

Lemma fold_left_append {A : Type} (f : A -> string) (l : list A) (acc : string) :
  fold_left (fun rt k => (rt ++ f k)%string) l acc =
  (acc ++ concat_all (List.map f l))%string.
Proof.
  revert acc. induction l as [|x l IH]; intros acc; simpl.
  - now rewrite append_nil_r.
  - rewrite IH. now rewrite append_assoc.
Qed.

Lemma fold_left_ext {A B : Type} (f g : A -> B -> A) (l : list B) (a : A) :
  (forall x y, f x y = g x y) -> fold_left f l a = fold_left g l a.
Proof.
  intros H. revert a. induction l as [|y l IH]; intros a; simpl;
    [reflexivity | now rewrite H, IH].
Qed.

Lemma map_find_rendered {A B : Type} (f : A -> B) (key : string)
    (m : list (string * A)) :
  map_find key
    ((fix each (l : list (string * A)) : list (string * B) :=
        match l with
        | [] => []
        | (k, c) :: tl => (k, f c) :: each tl
        end) m) =
  option_map f (map_find key m).
Proof.
  induction m as [|[k c] m IH]; simpl; [reflexivity|].
  destruct (String.eqb k key); [reflexivity | exact IH].
Qed.

Lemma toNetString_map (format_lf : Z -> float -> string) (self : ptr)
    (order : list string) (m : list (string * CppON)) :
  toNetString format_lf (COMap self order m) =
  Some (CppON_toNetString (map_payload format_lf order m) "}").
Proof.
  simpl. f_equal. f_equal. unfold map_payload.
  match goal with
  | |- _ = concat_all (List.map ?F order) =>
      transitivity (fold_left (fun rt k => (rt ++ F k)%string) order EmptyString);
        [| exact (fold_left_append F order EmptyString)]
  end.
  apply fold_left_ext. intros rt key.
  rewrite map_find_rendered.
  destruct (map_find key m); simpl; [reflexivity | now rewrite append_nil_r].
Qed.

Lemma toNetString_array_loop (format_lf : Z -> float -> string)
    (v : list CppON) (rt : string) :
  (fix each (l : list CppON) (rt : string) : string :=
     match l with
     | [] => rt
     | c :: tl =>
         match c with
         | CONull _ => each tl rt
         | _ => each tl (rt ++ opt_str (toNetString format_lf c))%string
         end
     end) v rt =
  (rt ++ array_payload format_lf v)%string.
Proof.
  revert rt. unfold array_payload.
  induction v as [|c v IH]; intros rt.
  - simpl. now rewrite append_nil_r.
  - destruct c; cbn [List.map concat_all fold_right]; rewrite IH;
      try (now rewrite append_assoc); reflexivity.
Qed.

Lemma toNetString_array (format_lf : Z -> float -> string) (self : ptr)
    (v : list CppON) :
  toNetString format_lf (COArray self (Some v)) =
  Some (CppON_toNetString (array_payload format_lf v) "]").
Proof.
  cbn [toNetString]. rewrite toNetString_array_loop. reflexivity.
Qed.

(** C2 (as amended).  The map [{"a":1,"b":"x"}] is written as
    ["16:1:a,1:1#1:b,1:x,}"]; every net string is the length of a payload,
    a colon, the payload and the tag of the variant; the payload of a map is
    the succession, in the order of [order], of each key as a net string
    followed by the net string of its value, and the payload of an array is
    the succession of the net strings of its elements other than Null. *)
Theorem C2_net_string_rendering :
  forall (format_lf : Z -> float -> string),
    toNetString format_lf map_a1_bx = Some "16:1:a,1:1#1:b,1:x,}"%string /\
    (forall n s, toNetString format_lf n = Some s ->
       exists payload,
         s = (decimal (strlen payload) ++ ":" ++ c_str payload ++
              String (tag n) EmptyString)%string) /\
    (forall self order m,
       toNetString format_lf (COMap self order m) =
       Some (CppON_toNetString (map_payload format_lf order m) "}")) /\
    (forall self v,
       toNetString format_lf (COArray self (Some v)) =
       Some (CppON_toNetString (array_payload format_lf v) "]")).
Proof.
  intros format_lf. split; [reflexivity|]. split; [|split].
  - intros n s H. destruct n as [p siz u d|p pr d|p d|p|p b|p o m|p [v|]].
    + injection H as <-. eexists. reflexivity.
    + injection H as <-. eexists. reflexivity.
    + injection H as <-. eexists. reflexivity.
    + injection H as <-. exists EmptyString. reflexivity.
    + injection H as <-. eexists. reflexivity.
    + rewrite toNetString_map in H. injection H as <-. eexists. reflexivity.
    + rewrite toNetString_array in H. injection H as <-. eexists. reflexivity.
    + discriminate H.
  - apply toNetString_map.
  - apply toNetString_array.
Qed.

Lemma C2_net_string_rendering_witness :
  exists payload,
    "16:1:a,1:1#1:b,1:x,}"%string =
    (decimal (strlen payload) ++ ":" ++ c_str payload ++
     String (tag map_a1_bx) EmptyString)%string.
Proof.
  apply (proj1 (proj2 (C2_net_string_rendering printf_lf)) map_a1_bx).
  reflexivity.
Defined.

(** The text given by the specification is not the one that is written:
    the payload has 16 characters, the key [a] has length 1, and nothing
    separates the entries. *)
Lemma C2_specification_text_differs :
  toNetString printf_lf map_a1_bx <> Some "15:5:a,1:1#,1:b,1:x,}"%string.
Proof. vm_compute. discriminate. Qed.

(** ** Paths, [findElement] and [append] *)

Example strtol_examples :
  strtol " -12abc"%string 10 = (-12, "abc"%string) /\
  strtol "0x1Fg"%string 0 = (31, "g"%string) /\
  strtol "017"%string 0 = (15, ""%string) /\
  strtol "x"%string 10 = (0, "x"%string) /\
  strtol "99999999999999999999"%string 10 = (9223372036854775807, ""%string).
Proof. vm_compute. repeat split; reflexivity. Qed.

(** The scenario of the specification: in [{"x":[{"y":1},{"y":2}]}] the
    path [x:1/y] leads to the Integer 2. *)
Example findElement_array_index :
  COMap_findElement
    (COMap 1 ["x"%string]
       [("x"%string,
         COArray 2 (Some [COMap 3 ["y"%string] [("y"%string, COInteger 4 8 true 1)];
                          COMap 5 ["y"%string] [("y"%string, COInteger 6 8 true 2)]]))])
    "x:1/y" = Some (COInteger 6 8 true 2).
Proof. reflexivity. Qed.

Example append_creates_the_path :
  COMap_append 10 (COMap 1 [] []) "a/b/c" (CONull 2) =
  (COMap 1 ["a"%string]
     [("a"%string,
       COMap 10 ["b"%string]
         [("b"%string, COMap 11 ["c"%string] [("c"%string, CONull 2)])])],
   0, 12%N).
Proof. reflexivity. Qed.

Lemma c_str_plain (s : string) : plain s -> c_str s = s.
Proof.
  unfold plain. induction s as [|c s IH]; simpl; [reflexivity|].
  intros H. apply orb_false_iff in H as [H1 H2]. rewrite H1.
  now rewrite IH.
Qed.

Lemma find_no_slash (s : string) :
  has_char "/" s = false -> find_char "/" s = None.
Proof.
  induction s as [|c s IH]; simpl; [reflexivity|].
  intros H. apply orb_false_iff in H as [H1 H2].
  now rewrite H1, IH.
Qed.



Lemma substring_all (r : string) : substring 0 (String.length r) r = r.
Proof. induction r as [|c r IH]; simpl; [reflexivity | now rewrite IH]. Qed.


Lemma splitPath_last (s : string) :
  has_char "/" s = false -> plain s -> splitPath s = (s, EmptyString).
Proof.
  unfold plain. induction s as [|c s IH]; simpl; [reflexivity|].
  intros H1 H2. apply orb_false_iff in H1 as [A1 A2].
  apply orb_false_iff in H2 as [B1 B2].
  rewrite B1, A1, IH by assumption. reflexivity.
Qed.


Lemma split_colon_none (s : string) :
  has_char ":" s = false -> split_colon s = None.
Proof.
  induction s as [|c s IH]; simpl; [reflexivity|].
  intros H. apply orb_false_iff in H as [A1 A2]. now rewrite A1, IH.
Qed.

Lemma path_head_segment (s : string) :
  has_char ":" s = false -> path_head s = (s, -1, EmptyString).
Proof. intros H. unfold path_head. now rewrite split_colon_none. Qed.

Lemma map_find_none {A : Type} (k : string) (m : list (string * A)) :
  map_find k m = None -> ~ In k (keys m).
Proof.
  induction m as [|[k' v] m IH]; simpl; [tauto|].
  destruct (String.eqb_spec k' k); [discriminate|].
  intros H [E|E]; [congruence | now apply IH].
Qed.

Lemma map_find_in {A : Type} (k : string) (m : list (string * A)) (v : A) :
  map_find k m = Some v -> In k (keys m).
Proof.
  induction m as [|[k' v'] m IH]; simpl; [discriminate|].
  destruct (String.eqb_spec k' k); [now left | intros H; right; now apply IH].
Qed.






Lemma findElement_segment (fuel : nat) (self : ptr) (order : list string)
    (data : list (string * CppON)) (s : string) :
  segment s ->
  findElement (S fuel) (COMap self order data) s = map_find_strcmp s data.
Proof.
  intros (_ & Hs & Hc & Hp). simpl.
  rewrite splitPath_last, path_head_segment by assumption.
  destruct (map_find_strcmp s data) as [[]|]; reflexivity.
Qed.




Lemma splitPath_shorter (str : string) :
  nonempty (snd (splitPath str)) = true ->
  (String.length (snd (splitPath str)) < String.length str)%nat.
Proof.
  induction str as [|c str IH]; simpl; [discriminate|].
  destruct (c =? NUL)%char; [discriminate|].
  destruct (c =? "/")%char; simpl; [lia|].
  destruct (splitPath str) as [val remainder]; simpl in *.
  intros H. specialize (IH H). lia.
Qed.

Lemma array_loop_ext (find1 find2 : CppON -> string -> option CppON)
    (str : string) :
  (nonempty str = true -> forall mp, find1 mp str = find2 mp str) ->
  forall fuel rtn arrayIndex more,
    array_loop find1 fuel rtn arrayIndex more str =
    array_loop find2 fuel rtn arrayIndex more str.
Proof.
  intros H. induction fuel as [|fuel IH]; intros rtn arrayIndex more;
    [reflexivity|].
  cbn [array_loop]. destruct rtn as [[]|]; try reflexivity.
  destruct (0 <=? arrayIndex); [|reflexivity].
  destruct (isMap _ && nonempty str) eqn:E.
  - apply andb_true_iff in E as [_ E].
    destruct (COArray_at _ _); [rewrite (H E)|]; reflexivity.
  - destruct (negb _ || negb _); [reflexivity|].
    destruct (strtol _ 10) as [v r]. rewrite IH. reflexivity.
Qed.

(** The result of [findElement] does not depend on the fuel, once the fuel
    exceeds the length of the path. *)
Lemma findElement_fuel (fuel1 : nat) :
  forall fuel2 this str,
    (String.length str < fuel1)%nat -> (String.length str < fuel2)%nat ->
    findElement fuel1 this str = findElement fuel2 this str.
Proof.
  induction fuel1 as [|fuel1 IH]; intros fuel2 this str H1 H2; [lia|].
  destruct fuel2 as [|fuel2]; [lia|].
  cbn [findElement]. destruct this; try reflexivity.
  pose proof (splitPath_shorter str) as Hs.
  destruct (splitPath str) as [s rest]. simpl in Hs.
  destruct (path_head s) as [[name arrayIndex] more].
  destruct (map_find_strcmp name data) as [[]|]; try reflexivity.
  - destruct (nonempty rest) eqn:E; [|reflexivity].
    specialize (Hs eq_refl). apply IH; lia.
  - destruct (0 <=? arrayIndex); [|reflexivity].
    f_equal. apply array_loop_ext. intros E mp.
    specialize (Hs E). apply IH; lia.
Qed.









Section ArrayLoop.

Variable find : CppON -> string -> option CppON.
Variable rest : string.
Hypothesis Hfind :
  forall mp, isMap (Some mp) = true -> nonempty rest = true ->
             find mp rest = None -> missing_segment mp rest.


End ArrayLoop.






(** ** The order list of a map *)

Lemma order_erase_remove (k : string) (order : list string) :
  NoDup order -> order_erase k order = List.remove string_dec k order.
Proof.
  induction order as [|k' order IH]; simpl; [reflexivity|].
  intros H. inversion H as [|? ? Hn Hd]; subst.
  destruct (string_dec k k') as [E|E].
  - subst k'. rewrite String.eqb_refl. symmetry. now apply notin_remove.
  - destruct (String.eqb_spec k' k); [congruence|]. now rewrite IH.
Qed.

Lemma keys_insert {A : Type} (k : string) (v : A) (m : list (string * A)) :
  ~ In k (keys m) ->
  forall x, In x (keys (map_insert k v m)) <-> x = k \/ In x (keys m).
Proof.
  intros Hn x. induction m as [|[k' v'] m IH]; simpl.
  - intuition.
  - simpl in Hn. destruct (String.compare k k') eqn:C.
    + apply String.compare_eq_iff in C. subst. tauto.
    + simpl. intuition.
    + simpl. rewrite IH by tauto. intuition.
Qed.

Lemma insert_nodup {A : Type} (k : string) (v : A) (m : list (string * A)) :
  NoDup (keys m) -> ~ In k (keys m) -> NoDup (keys (map_insert k v m)).
Proof.
  intros Hd Hn. induction m as [|[k' v'] m IH]; simpl.
  - constructor; [tauto | constructor].
  - simpl in Hn. inversion Hd as [|? ? Hn' Hd']; subst.
    destruct (String.compare k k') eqn:C.
    + assumption.
    + constructor; [simpl; tauto | assumption].
    + simpl. constructor; [|apply IH; tauto].
      rewrite keys_insert by tauto. intros [E|E]; [subst; tauto | tauto].
Qed.

Lemma keys_erase {A : Type} (k : string) (m : list (string * A)) :
  NoDup (keys m) ->
  forall x, In x (keys (map_erase k m)) <-> x <> k /\ In x (keys m).
Proof.
  intros Hd x. induction m as [|[k' v'] m IH]; simpl; [tauto|].
  inversion Hd as [|? ? Hn' Hd']; subst.
  destruct (String.eqb_spec k' k).
  - subst k'. split; [intros H; split; [intros ->; tauto | tauto]|].
    intros [Hx [E|E]]; [congruence | assumption].
  - simpl. rewrite IH by assumption. split.
    + intros [E|[E1 E2]]; [subst; tauto | tauto].
    + tauto.
Qed.

Lemma erase_nodup {A : Type} (k : string) (m : list (string * A)) :
  NoDup (keys m) -> NoDup (keys (map_erase k m)).
Proof.
  induction m as [|[k' v'] m IH]; simpl; [tauto|].
  intros Hd. inversion Hd as [|? ? Hn' Hd']; subst.
  destruct (String.eqb k' k); [assumption|].
  simpl. constructor; [|now apply IH].
  rewrite keys_erase by assumption. tauto.
Qed.

Lemma map_find_bound {A : Type} (k : string) (m : list (string * A)) :
  In k (keys m) -> exists v, map_find k m = Some v.
Proof.
  induction m as [|[k' v'] m IH]; simpl; [tauto|].
  destruct (String.eqb_spec k' k); [eexists; reflexivity|].
  intros [E|E]; [congruence | now apply IH].
Qed.

Lemma map_find_unbound {A : Type} (k : string) (m : list (string * A)) :
  ~ In k (keys m) -> map_find k m = None.
Proof.
  intros H. destruct (map_find k m) eqn:E; [|reflexivity].
  exfalso. apply H. revert E. clear.
  induction m as [|[k' v'] m IH]; simpl; [discriminate|].
  destruct (String.eqb_spec k' k); [now left | intros H; right; now apply IH].
Qed.

Lemma nodup_remove_snoc (k : string) (l : list string) :
  NoDup l -> NoDup (List.remove string_dec k l ++ [k]).
Proof.
  intros H. apply NoDup_app.
  - induction H as [|x l Hn Hd IH]; simpl; [constructor|].
    destruct (string_dec k x); [assumption|].
    constructor; [|assumption]. intros Hin. apply in_remove in Hin. tauto.
  - constructor; [tauto | constructor].
  - intros x Hx [E|[]]. subst. now apply remove_In in Hx.
Qed.

Lemma nodup_remove (k : string) (l : list string) :
  NoDup l -> NoDup (List.remove string_dec k l).
Proof.
  induction 1 as [|x l Hn Hd IH]; simpl; [constructor|].
  destruct (string_dec k x); [assumption|].
  constructor; [|assumption]. intros Hin. apply in_remove in Hin. tauto.
Qed.

(** [append] of a key that is not a path, on a map whose order list is in
    step with its table. *)
Lemma append_key (next self : ptr) (order : list string)
    (data : list (string * CppON)) (key : string) (n : CppON) :
  order_ok (COMap self order data) -> has_char "/" key = false ->
  COMap_append next (COMap self order data) key n =
    (COMap self (List.remove string_dec key order ++ [key])
       (map_insert key n (map_erase key data)), 0, next) /\
  order_ok (COMap self (List.remove string_dec key order ++ [key])
              (map_insert key n (map_erase key data))) /\
  map_find key (map_insert key n (map_erase key data)) = Some n.
Proof.
  intros (Ho & Hd & Hk) Hs.
  assert (Hne : ~ In key (keys (map_erase key data)))
    by (rewrite keys_erase by assumption; tauto).
  split; [|split].
  - unfold COMap_append. cbn [append]. rewrite find_no_slash by assumption.
    unfold direct_append. destruct (map_find key data) eqn:E.
    + rewrite order_erase_remove by assumption. reflexivity.
    + assert (Hn : ~ In key (keys data)) by now apply map_find_none.
      rewrite (notin_remove string_dec order key) by (rewrite Hk; assumption).
      replace (map_erase key data) with data; [reflexivity|].
      clear - Hn. induction data as [|[k' v'] m IH]; simpl; [reflexivity|].
      simpl in Hn. destruct (String.eqb_spec k' key); [tauto|].
      rewrite <- IH by tauto. reflexivity.
  - split; [now apply nodup_remove_snoc|].
    split; [apply insert_nodup; [now apply erase_nodup | assumption]|].
    intros k. rewrite in_app_iff, keys_insert, keys_erase by assumption.
    simpl. split.
    + intros [H|[H|[]]]; [|now left].
      apply in_remove in H. right. rewrite <- Hk. tauto.
    + intros [H|[H1 H2]]; [right; left; congruence|].
      left. apply in_in_remove; [assumption | now rewrite Hk].
  - destruct (map_find key (map_insert key n (map_erase key data))) eqn:E.
    + revert E. generalize (map_erase key data) as m, Hne. clear.
      intros m. induction m as [|[k' v'] m IH]; simpl; intros Hn.
      * rewrite String.eqb_refl. congruence.
      * destruct (String.compare key k') eqn:C.
        -- apply String.compare_eq_iff in C. subst. tauto.
        -- simpl. rewrite String.eqb_refl. congruence.
        -- simpl. destruct (String.eqb_spec k' key); [subst; tauto|].
           apply IH. tauto.
    + apply map_find_none in E. rewrite keys_insert in E by assumption. tauto.
Qed.

Lemma erase_unbound {A : Type} (key : string) (data : list (string * A)) :
  ~ In key (keys data) -> map_erase key data = data.
Proof.
  induction data as [|[k' v'] m IH]; simpl; [reflexivity|].
  intros Hn. destruct (String.eqb_spec k' key); [tauto|].
  rewrite IH by tauto. reflexivity.
Qed.

(** [removeVal] on such a map. *)
Lemma removeVal_key (self : ptr) (order : list string)
    (data : list (string * CppON)) (key : string) :
  order_ok (COMap self order data) ->
  COMap_removeVal (COMap self order data) key =
    COMap self (List.remove string_dec key order) (map_erase key data) /\
  order_ok (COMap self (List.remove string_dec key order) (map_erase key data)) /\
  ~ In key (List.remove string_dec key order) /\
  map_find key (map_erase key data) = None.
Proof.
  intros (Ho & Hd & Hk). split; [|split; [|split]].
  - unfold COMap_removeVal. destruct (map_find key data) eqn:E.
    + rewrite order_erase_remove by assumption. reflexivity.
    + assert (Hn : ~ In key (keys data)) by now apply map_find_none.
      rewrite erase_unbound by assumption.
      rewrite (notin_remove string_dec order key) by (rewrite Hk; assumption).
      reflexivity.
  - split; [now apply nodup_remove|]. split; [now apply erase_nodup|].
    intros k. rewrite keys_erase by assumption. rewrite <- Hk. split.
    + intros H. apply in_remove in H. tauto.
    + intros [H1 H2]. now apply in_in_remove.
  - apply remove_In.
  - apply map_find_unbound. rewrite keys_erase by assumption. tauto.
Qed.

(** The compact JSON text of a map follows [order]. *)
Lemma concat_sep (sep x : string) (l : list string) :
  String.concat sep (x :: l) =
  (x ++ concat_all (List.map (fun y => sep ++ y) l))%string.
Proof.
  revert x. induction l as [|y l IH]; intros x.
  - simpl. now rewrite append_nil_r.
  - change (String.concat sep (x :: y :: l))
      with (x ++ sep ++ String.concat sep (y :: l))%string.
    rewrite IH. cbn [List.map concat_all fold_right].
    now rewrite append_assoc.
Qed.

Section CompactJson.

Variable format_lf : Z -> float -> string.
Variable data : list (string * CppON).

Lemma compact_fold_rest (order : list string) (acc : string) :
  (forall k, In k order -> In k (keys data)) ->
  snd (fold_left (compact_step format_lf data) order (false, acc)) =
  (acc ++ concat_all (List.map (fun k => "," ++ compact_entry format_lf data k)
                        order))%string.
Proof.
  revert acc. induction order as [|k order IH]; intros acc Hb.
  - simpl. now rewrite append_nil_r.
  - cbn [fold_left List.map concat_all fold_right].
    destruct (map_find_bound k data (Hb k (or_introl eq_refl))) as [c Hc].
    unfold compact_step at 2. unfold compact_entry. rewrite Hc. cbn [option_map].
    rewrite IH by (intros k' Hk'; apply Hb; now right).
    rewrite !append_assoc. reflexivity.
Qed.

Lemma compact_fold (order : list string) :
  (forall k, In k order -> In k (keys data)) ->
  snd (fold_left (compact_step format_lf data) order (true, EmptyString)) =
  String.concat "," (List.map (compact_entry format_lf data) order).
Proof.
  destruct order as [|k order]; intros Hb; [reflexivity|].
  cbn [List.map]. rewrite concat_sep.
  cbn [fold_left].
  destruct (map_find_bound k data (Hb k (or_introl eq_refl))) as [c Hc].
  unfold compact_step at 2. unfold compact_entry at 1. rewrite Hc. cbn [option_map].
  rewrite compact_fold_rest by (intros k' Hk'; apply Hb; now right).
  rewrite List.map_map. reflexivity.
Qed.

Lemma toCompactJsonString_map (self : ptr) (order : list string) :
  (forall k, In k order -> In k (keys data)) ->
  toCompactJsonString format_lf (COMap self order data) =
  ("{" ++ String.concat "," (List.map (compact_entry format_lf data) order)
       ++ "}")%string.
Proof.
  intros Hb. rewrite <- compact_fold by assumption.
  cbn [toCompactJsonString]. do 2 f_equal. f_equal.
  apply fold_left_ext. intros [first rtn] key. unfold compact_step.
  rewrite map_find_rendered. reflexivity.
Qed.

End CompactJson.

Lemma apply_op_ok (m : CppON) (next : ptr) (op : map_op) :
  order_ok m -> key_op op ->
  order_ok (fst (apply_op (m, next) op)) /\
  getKeys (fst (apply_op (m, next) op)) = insertion_order [op] (getKeys m).
Proof.
  intros Hok Hop. destruct m as [| | | | |self order data|]; try (simpl in Hok; tauto).
  destruct op as [key n|key]; cbn [apply_op fst snd].
  - destruct (append_key next self order data key n Hok Hop) as (E & Hok' & _).
    rewrite E. split; [exact Hok' | reflexivity].
  - destruct (removeVal_key self order data key Hok) as (E & Hok' & _).
    rewrite E. split; [exact Hok' | reflexivity].
Qed.

Lemma run_ops_ok (ops : list map_op) :
  forall (m : CppON) (next : ptr),
    order_ok m -> Forall key_op ops ->
    order_ok (fst (run_ops ops (m, next))) /\
    getKeys (fst (run_ops ops (m, next))) = insertion_order ops (getKeys m).
Proof.
  induction ops as [|op ops IH]; intros m next Hok Hops.
  - split; [assumption | reflexivity].
  - inversion Hops as [|? ? Hop Hrest]; subst.
    destruct (apply_op_ok m next op Hok Hop) as [Hok1 Hk1].
    unfold run_ops. cbn [fold_left].
    rewrite (surjective_pairing (apply_op (m, next) op)).
    destruct (IH (fst (apply_op (m, next) op)) (snd (apply_op (m, next) op))
                Hok1 Hrest) as [Hok2 Hk2].
    split; [exact Hok2|].
    unfold run_ops in Hk2. rewrite Hk2, Hk1.
    destruct op; reflexivity.
Qed.

Lemma compare_as_OT (a b : string) :
  String.compare a b = OrdersEx.String_as_OT.compare a b.
Proof.
  revert b. induction a as [|x a IH]; intros [|y b]; reflexivity.
Qed.

Lemma key_lt_trans (a b c : string) : key_lt a b -> key_lt b c -> key_lt a c.
Proof.
  unfold key_lt. rewrite !compare_as_OT.
  change (OrdersEx.String_as_OT.lt a b -> OrdersEx.String_as_OT.lt b c -> OrdersEx.String_as_OT.lt a c).
  exact (@StrictOrder_Transitive _ _ OrdersEx.String_as_OT.lt_strorder a b c).
Qed.

Lemma key_gt_lt (a b : string) : String.compare a b = Gt -> key_lt b a.
Proof.
  unfold key_lt. intros H. rewrite String.compare_antisym, H. reflexivity.
Qed.

Lemma keys_insert_sub {A : Type} (k : string) (v : A) (m : list (string * A))
    (x : string) :
  In x (keys (map_insert k v m)) -> x = k \/ In x (keys m).
Proof.
  induction m as [|[k' v'] m IH]; cbn [map_insert].
  - cbn. intuition auto.
  - destruct (String.compare k k'); cbn [keys List.map fst In].
    + tauto.
    + fold (keys m). intuition auto.
    + fold (keys (map_insert k v m)). fold (keys m). tauto.
Qed.

Lemma keys_erase_sub {A : Type} (k : string) (m : list (string * A))
    (x : string) :
  In x (keys (map_erase k m)) -> In x (keys m).
Proof.
  induction m as [|[k' v'] m IH]; cbn [map_erase]; [tauto|].
  destruct (String.eqb k' k); cbn [keys List.map fst In];
    fold (keys (map_erase k m)); fold (keys m); tauto.
Qed.

Lemma sorted_insert {A : Type} (k : string) (v : A) (m : list (string * A)) :
  StronglySorted key_lt (keys m) ->
  StronglySorted key_lt (keys (map_insert k v m)).
Proof.
  induction m as [|[k' v'] m IH]; intros H.
  - cbn. constructor; constructor.
  - cbn [map_insert]. inversion H as [|? ? Hs Hf]; subst.
    destruct (String.compare k k') eqn:C.
    + exact H.
    + cbn [keys List.map fst]. constructor; [exact H|].
      constructor; [exact C|].
      eapply Forall_impl; [|exact Hf]. intros x Hx.
      exact (key_lt_trans k k' x C Hx).
    + cbn [keys List.map fst]. constructor; [now apply IH|].
      fold (keys (map_insert k v m)).
      apply Forall_forall. intros x Hx.
      apply keys_insert_sub in Hx as [->|Hx].
      * now apply key_gt_lt.
      * rewrite Forall_forall in Hf. now apply Hf.
Qed.

Lemma sorted_erase {A : Type} (k : string) (m : list (string * A)) :
  StronglySorted key_lt (keys m) ->
  StronglySorted key_lt (keys (map_erase k m)).
Proof.
  induction m as [|[k' v'] m IH]; intros H; [exact H|].
  cbn [map_erase]. inversion H as [|? ? Hs Hf]; subst.
  destruct (String.eqb k' k); [exact Hs|].
  cbn [keys List.map fst]. constructor; [now apply IH|].
  fold (keys (map_erase k m)). apply Forall_forall. intros x Hx.
  apply keys_erase_sub in Hx. rewrite Forall_forall in Hf. now apply Hf.
Qed.

(** The table of a map after a sequence of insertions and removals of
    keys stays sorted. *)
Lemma apply_op_sorted (m : CppON) (next : ptr) (op : map_op) :
  order_ok m -> key_op op ->
  StronglySorted key_lt (keys (bindings m)) ->
  StronglySorted key_lt (keys (bindings (fst (apply_op (m, next) op)))).
Proof.
  intros Hok Hop Hs. destruct m as [| | | | |self order data|]; try (simpl in Hok; tauto).
  destruct op as [key n|key]; cbn [apply_op fst snd].
  - destruct (append_key next self order data key n Hok Hop) as (E & _ & _).
    rewrite E. cbn [fst bindings]. apply sorted_insert, sorted_erase. exact Hs.
  - destruct (removeVal_key self order data key Hok) as (E & _ & _).
    rewrite E. cbn [bindings]. apply sorted_erase. exact Hs.
Qed.

Lemma run_ops_sorted (ops : list map_op) :
  forall (m : CppON) (next : ptr),
    order_ok m -> Forall key_op ops ->
    StronglySorted key_lt (keys (bindings m)) ->
    StronglySorted key_lt (keys (bindings (fst (run_ops ops (m, next))))).
Proof.
  induction ops as [|op ops IH]; intros m next Hok Hops Hs; [exact Hs|].
  inversion Hops as [|? ? Hop Hrest]; subst.
  destruct (apply_op_ok m next op Hok Hop) as [Hok1 _].
  pose proof (apply_op_sorted m next op Hok Hop Hs) as Hs1.
  unfold run_ops. cbn [fold_left].
  rewrite (surjective_pairing (apply_op (m, next) op)).
  exact (IH _ _ Hok1 Hrest Hs1).
Qed.

Lemma values_of_keys (data : list (string * CppON)) :
  NoDup (keys data) ->
  Forall2 (fun k v => map_find k data = Some v) (keys data) (List.map snd data).
Proof.
  induction data as [|[k v] data IH]; intros H; [constructor|].
  cbn [keys List.map fst snd]. inversion H as [|? ? Hn Hd]; subst.
  constructor.
  - cbn [map_find]. now rewrite String.eqb_refl.
  - fold (keys data). eapply Forall2_impl; [|exact (IH Hd)].
    intros k' v' E. cbn [map_find].
    destruct (String.eqb_spec k k') as [->|]; [|exact E].
    exfalso. apply Hn. exact (map_find_in k' data v' E).
Qed.

(** C9 (as amended).  For every map built from the empty map by a sequence
    of insertions and removals of keys, the order list holds the current
    keys, once each, in insertion order (a key that is inserted again moves
    to the end); the key list, the compact JSON text and the net string
    follow that order; the iterators and [getValues] walk the same keys in
    the sorted order of the table; and [removeVal] takes a key out of the
    table and out of the order list. *)
Theorem C9_insertion_order :
  forall (format_lf : Z -> float -> string) (ops : list map_op)
         (self next : ptr),
    Forall key_op ops ->
    let m' := fst (run_ops ops (COMap self [] [], next)) in
    order_ok m' /\
    getKeys m' = insertion_order ops [] /\
    toCompactJsonString format_lf m' =
      ("{" ++ String.concat ","
                (List.map (compact_entry format_lf (bindings m'))
                   (insertion_order ops [])) ++ "}")%string /\
    toNetString format_lf m' =
      Some (CppON_toNetString
              (map_payload format_lf (insertion_order ops []) (bindings m'))
              "}") /\
    StronglySorted key_lt (keys (iteration m')) /\
    Permutation (keys (iteration m')) (getKeys m') /\
    Forall2 (fun k v => map_find k (bindings m') = Some v)
      (keys (iteration m')) (getValues m') /\
    (forall key n,
       has_char "/" key = false ->
       exists before,
         getKeys (fst (apply_op (m', next) (Insert key n))) = before ++ [key] /\
         ~ In key before /\
         map_find key (bindings (fst (apply_op (m', next) (Insert key n)))) = Some n) /\
    (forall key,
       ~ In key (getKeys (COMap_removeVal m' key)) /\
       map_find key (bindings (COMap_removeVal m' key)) = None /\
       order_ok (COMap_removeVal m' key)).
Proof.
  intros format_lf ops self next Hops m'.
  assert (Hok : order_ok (COMap self [] []))
    by (repeat split; try constructor; simpl; tauto).
  assert (Hs0 : StronglySorted key_lt (keys (bindings (COMap self [] []))))
    by constructor.
  destruct (run_ops_ok ops _ next Hok Hops) as [Hok' Hk'].
  pose proof (run_ops_sorted ops _ next Hok Hops Hs0) as Hs'.
  fold m' in Hok', Hk', Hs'. clearbody m'.
  destruct m' as [| | | | |self' order data|]; try (simpl in Hok'; tauto).
  cbn [getKeys bindings iteration getValues] in *.
  destruct Hok' as (Ho & Hd & Hiff).
  assert (Hok' : order_ok (COMap self' order data)) by (repeat split; assumption || apply Hiff).
  split; [assumption|]. split; [assumption|].
  split; [|split; [|split; [|split; [|split; [|split]]]]].
  - rewrite <- Hk'. apply toCompactJsonString_map.
    intros k Hk. now apply Hiff.
  - rewrite <- Hk'. apply toNetString_map.
  - exact Hs'.
  - apply NoDup_Permutation; [exact Hd | exact Ho|].
    intros k. symmetry. apply Hiff.
  - now apply values_of_keys.
  - intros key n Hs. cbn [apply_op fst snd].
    destruct (append_key next self' order data key n Hok' Hs) as (E & _ & Hf).
    rewrite E. cbn [fst getKeys bindings].
    exists (List.remove string_dec key order).
    split; [reflexivity|]. split; [apply remove_In | exact Hf].
  - intros key.
    destruct (removeVal_key self' order data key Hok') as (E & Hok2 & Hn & Hf).
    rewrite E. cbn [getKeys bindings]. tauto.
Qed.

(** The keys [b], [a], then [b] removed and inserted again. *)
Lemma C9_insertion_order_witness :
  let ops := [Insert "b" (COBoolean 2 true); Insert "a" (CONull 3);
              Remove "b"; Insert "b" (COString 4 "x")]%string in
  let m' := fst (run_ops ops (COMap 1 [] [], 10%N)) in
  getKeys m' = ["a"; "b"]%string /\
  toCompactJsonString printf_lf m' =
    ("{" ++ quote ++ "a" ++ quote ++ ":null," ++
     quote ++ "b" ++ quote ++ ":" ++ quote ++ "x" ++ quote ++ "}")%string.
Proof.
  intros ops m'.
  assert (Hops : Forall key_op ops) by (repeat constructor).
  destruct (C9_insertion_order printf_lf ops 1%N 10%N Hops)
    as (_ & Hk & Hj & _).
  split; [exact Hk | exact Hj].
Defined.

(** After the insertions of [b] and then [a], the key list is [b, a] and
    the iteration meets [a] before [b]: it does not follow the insertion
    order. *)
Lemma C9_iteration_walks_the_sorted_keys :
  let m := fst (run_ops [Insert "b" (CONull 2); Insert "a" (COBoolean 3 true)]%string
                  (COMap 1 [] [], 10%N)) in
  getKeys m = ["b"; "a"]%string /\
  keys (iteration m) = ["a"; "b"]%string /\
  getValues m = [COBoolean 3 true; CONull 2] /\
  ~ iterates_in_insertion_order m.
Proof.
  cbv zeta. repeat split. intros H. vm_compute in H. discriminate H.
Qed.

(** ** [operator ==] *)

(** C5.  [{"a":1} == {"a":1,"b":2}] is true, although the key sets differ
    and the comparison the other way round is false; and two arrays with
    equal elements in different nodes are unequal, while an array is equal
    to itself. *)
Theorem C5_equality_of_containers :
  CppON_equal map_a1 map_a1_b2 = true /\
  ~ same_keys map_a1 map_a1_b2 /\
  CppON_equal map_a1_b2 map_a1 = false /\
  (forall fuel, CppON_eq (S (S fuel)) map_a1 map_a1_b2 = true) /\
  CppON_equal array_1 array_1' = false /\
  CppON_equal array_1 array_1 = true /\
  (forall fuel, CppON_eq fuel array_1 array_1' = false).
Proof.
  split; [reflexivity|]. split; [|split; [reflexivity|]].
  - intros H. assert (Hb : In "b"%string (keys (bindings map_a1_b2)))
      by (simpl; tauto).
    apply H in Hb. simpl in Hb. destruct Hb as [Hb|[]]. discriminate Hb.
  - split; [intros fuel; reflexivity|].
    split; [reflexivity|]. split; [reflexivity|].
    intros [|fuel]; reflexivity.
Qed.

(** ** [diff] *)

Lemma bind_returns {A B : Type} (m : M A) (k : A -> M B) (next : ptr)
    (b : B) (next' : ptr) :
  bind m k next = Returns (b, next') ->
  exists a mid, m next = Returns (a, mid) /\ k a mid = Returns (b, next').
Proof.
  unfold bind. destruct (m next) as [[a mid]| | | |]; try discriminate.
  intros H. exists a, mid. split; [reflexivity | exact H].
Qed.

(** A difference that is returned is never an empty container. *)
Lemma diff_not_empty (strtod : string -> float * string) (fuel : nat)
    (this newObj : CppON) (name : option string) (next next' : ptr)
    (r : CppON) :
  diff strtod fuel this newObj name next = Returns (Some r, next') ->
  map_size r <> O.
Proof.
  destruct fuel as [|fuel]; [discriminate|].
  cbn [diff]. destruct this as [| | | | |p o m|p [v|]]; try discriminate;
    destruct newObj as [| | | | |p' o' m'|p' [u|]]; try discriminate.
  - intros H.
    apply bind_returns in H as (a & mid & _ & H).
    apply bind_returns in H as (rtn & mid1 & _ & H).
    apply bind_returns in H as (rtn' & mid2 & _ & H).
    destruct (map_size rtn' =? 0)%nat eqn:E; [discriminate|].
    injection H as <- _. now apply Nat.eqb_neq.
  - intros H.
    apply bind_returns in H as (a & mid & _ & H).
    apply bind_returns in H as (st & mid1 & _ & H).
    destruct (map_size (fst st) =? 0)%nat eqn:E; [discriminate|].
    injection H as <- _. now apply Nat.eqb_neq.
Qed.

(** C8.  The difference of the map [{"x:1":5}] with itself is not [NULL]:
    it is the map [{"x:1":5}] again, because [findElement] reads the key
    [x:1] as the element 1 of an array [x] and resolves it in neither loop
    of [COMap::diff]. *)
Theorem C8_diff_with_itself :
  COMap_diff c_strtod map_x1_5 map_x1_5 None 100%N =
    Returns (Some (COMap 100 ["x:1"%string]
                     [("x:1"%string, COInteger 101 4 false 5)]), 102%N) /\
  COMap_findElement map_x1_5 "x:1" = None /\
  (forall strtod, COMap_diff strtod map_a1 map_a1 None 100%N =
                  Returns (None, 101%N)).
Proof. repeat split; reflexivity. Qed.


(** ** The parsers *)

Lemma drop_0 (s : string) : drop 0 s = s.
Proof. unfold drop. rewrite Nat.sub_0_r. apply substring_all. Qed.

Lemma drop_S (n : nat) (c : ascii) (s : string) :
  drop (S n) (String c s) = drop n s.
Proof. reflexivity. Qed.

Lemma c_str_idem (s : string) : c_str (c_str s) = c_str s.
Proof.
  induction s as [|c s IH]; [reflexivity|]. cbn [c_str].
  destruct (c =? NUL)%char eqn:E; [reflexivity|].
  cbn [c_str]. now rewrite E, IH.
Qed.


Lemma char_at_0 (s : string) : char_at 0 s = first_char (c_str s).
Proof.
  unfold char_at. destruct s as [|c s]; [reflexivity|]. cbn [c_str].
  now destruct (c =? NUL)%char.
Qed.

Lemma substring_0_0 (s : string) : substring 0 0 s = EmptyString.
Proof. now destruct s. Qed.




Lemma is_word_true (tail : string) :
  plain tail -> first_char tail <> "t"%char ->
  is_word "t" (String "r" (String "u" (String "e" tail))) "rue" "t" "T" = true.
Proof.
  intros Hp Ht. unfold is_word, strncasecmp_eq.
  change (char_at (String.length "rue")
            (String "r" (String "u" (String "e" tail))))
    with (char_at 0 tail).
  rewrite char_at_0, (c_str_plain tail Hp).
  assert (E : ("t" =? first_char tail)%char = false).
  { apply Ascii.eqb_neq. congruence. }
  rewrite E.
  cbn [String.length c_str Ascii.eqb Bool.eqb NUL substring].
  rewrite substring_0_0. reflexivity.
Qed.



(** [GetObj] at the word [true]. *)
Lemma GetObj_true (strtod : string -> float * string) (fuel : nat)
    (tail : string) (next : ptr) :
  plain tail -> first_char tail <> "t"%char ->
  GetObj strtod (S fuel)
    (String "t" (String "r" (String "u" (String "e" tail)))) next =
    Returns (Some (COBoolean next true), At (DumpWhiteSpace tail),
             (next + 1)%N).
Proof.
  intros Hp Ht.
  cbn [GetObj DumpWhiteSpace is_dump_space Ascii.eqb Bool.eqb orb andb c_str NUL
       first_char].
  rewrite (c_str_plain tail Hp). rewrite !drop_S, !drop_0.
  rewrite (is_word_true tail Hp Ht). reflexivity.
Qed.




(** C1.  The round trip fails on the Boolean [false]: its net string is
    [5:false!], [parseJson] builds [COBoolean( true )] from that text, and
    the two nodes are not equal.  It fails as well on the empty array,
    whose JSON text ends the process when it is parsed. *)
Theorem C1_round_trip_of_false :
  forall (format_lf : Z -> float -> string) (strtod : string -> float * string)
         (next : ptr),
    toNetString format_lf (COBoolean 1 false) = Some "5:false!"%string /\
    parseJson strtod "5:false!" next =
      Returns (Some (COBoolean next true), (next + 1)%N) /\
    CppON_equal (COBoolean next true) (COBoolean 1 false) = false /\
    parseJson strtod (toJsonString format_lf (COArray 1 (Some [])) "") next =
      Exits.
Proof. intros. repeat split; reflexivity. Qed.

(* theorems *)
Lemma of_uint_acc_value (d : Decimal.uint) (acc : positive) :
  Z.pos (Pos.of_uint_acc d acc) = uint_value d (Z.pos acc).
Proof.
  revert acc. induction d; intros acc; cbn [Pos.of_uint_acc uint_value];
    try reflexivity; rewrite IHd; f_equal; lia.
Qed.

Lemma of_uint_value (d : Decimal.uint) :
  Z.of_N (Pos.of_uint d) = uint_value d 0.
Proof.
  induction d; cbn [Pos.of_uint uint_value]; try reflexivity;
    try exact IHd;
    change (Z.of_N (N.pos ?p)) with (Z.pos p);
    rewrite of_uint_acc_value; reflexivity.
Qed.

Lemma ascii_leb_N (a b : ascii) :
  (a <=? b)%char = (N_of_ascii a <=? N_of_ascii b)%N.
Proof. reflexivity. Qed.

Lemma digit_of_stops (ch : ascii) :
  isdigit ch = false ->
  match digit_of ch with Some d => d <? 10 | None => false end = false.
Proof.
  intros H. unfold digit_of. rewrite H. rewrite !ascii_leb_N.
  change (N_of_ascii "a") with 97%N. change (N_of_ascii "z") with 122%N.
  change (N_of_ascii "A") with 65%N. change (N_of_ascii "Z") with 90%N.
  destruct ((97 <=? N_of_ascii ch)%N && (N_of_ascii ch <=? 122)%N) eqn:E1.
  - apply andb_true_iff in E1 as [E1 _]. apply N.leb_le in E1.
    apply Z.ltb_ge. lia.
  - destruct ((65 <=? N_of_ascii ch)%N && (N_of_ascii ch <=? 90)%N) eqn:E2;
      [|reflexivity].
    apply andb_true_iff in E2 as [E2 _]. apply N.leb_le in E2.
    apply Z.ltb_ge. lia.
Qed.

Lemma read_base_uint (d : Decimal.uint) (rest : string) (acc count : Z) :
  isdigit (first_char rest) = false ->
  read_base 10 (NilEmpty.string_of_uint d ++ rest) acc count =
    (uint_value d acc, count + Z.of_nat (Decimal.nb_digits d), rest).
Proof.
  intros Hr. revert acc count.
  induction d; intros acc count;
    try (cbn [NilEmpty.string_of_uint String.append read_base];
         change (digit_of "0") with (Some 0); change (digit_of "1") with (Some 1);
         change (digit_of "2") with (Some 2); change (digit_of "3") with (Some 3);
         change (digit_of "4") with (Some 4); change (digit_of "5") with (Some 5);
         change (digit_of "6") with (Some 6); change (digit_of "7") with (Some 7);
         change (digit_of "8") with (Some 8); change (digit_of "9") with (Some 9);
         cbv iota beta;
         match goal with |- context [(?a <? 10)] => change (a <? 10) with true end;
         cbv iota; rewrite IHd; cbn [uint_value Decimal.nb_digits];
         apply f_equal2; [apply f_equal2; [f_equal; lia | lia] | reflexivity]).
  cbn [NilEmpty.string_of_uint String.append uint_value Decimal.nb_digits].
  destruct rest as [|ch rest]; cbn [read_base];
    [apply f_equal2; [apply f_equal2; [reflexivity | lia] | reflexivity]|].
  cbn [first_char] in Hr. pose proof (digit_of_stops ch Hr) as Hs.
  destruct (digit_of ch) as [dv|]; [rewrite Hs|];
    (apply f_equal2; [apply f_equal2; [reflexivity | lia] | reflexivity]).
Qed.

Lemma nb_digits_pos (d : Decimal.uint) :
  d <> Decimal.Nil -> 0 < Z.of_nat (Decimal.nb_digits d).
Proof. destruct d; [congruence| | | | | | | | | |]; intros _; cbn; lia. Qed.

Lemma string_of_uint_first (d : Decimal.uint) (rest : string) :
  d <> Decimal.Nil ->
  isdigit (first_char (NilEmpty.string_of_uint d ++ rest)) = true.
Proof. destruct d; [congruence| | | | | | | | | |]; intros _; reflexivity. Qed.

Lemma skip_space_digit (s : string) :
  isdigit (first_char s) = true -> skip_space s = s.
Proof.
  destruct s as [|ch s]; [reflexivity|]. cbn [first_char skip_space]. intros H.
  assert (E : isspace ch = false).
  { unfold isdigit in H. rewrite !ascii_leb_N in H.
    change (N_of_ascii "0") with 48%N in H. apply andb_true_iff in H as [H _].
    apply N.leb_le in H. unfold isspace. cbv zeta.
    apply orb_false_iff. split; [apply N.eqb_neq; lia|].
    apply andb_false_iff. right. apply N.leb_gt. lia. }
  now rewrite E.
Qed.

Lemma digits_not_sign (d : Decimal.uint) (rest : string) :
  d <> Decimal.Nil ->
  match (NilEmpty.string_of_uint d ++ rest)%string with
  | String "-" tl => (true, tl)
  | String "+" tl => (false, tl)
  | _ => (false, (NilEmpty.string_of_uint d ++ rest)%string)
  end = (false, (NilEmpty.string_of_uint d ++ rest)%string).
Proof. destruct d; [congruence| | | | | | | | | |]; intros _; reflexivity. Qed.

Lemma string_of_uint_nonnil (d : Decimal.uint) :
  d <> Decimal.Nil ->
  NilZero.string_of_uint d = NilEmpty.string_of_uint d.
Proof. destruct d; [congruence| | | | | | | | | |]; reflexivity. Qed.

(** [strtol] reads back what [printf( "%ld" )] writes. *)
Lemma strtol_decimal (z : Z) (rest : string) :
  - 2 ^ 63 <= z <= 2 ^ 63 - 1 ->
  isdigit (first_char rest) = false ->
  strtol (decimal z ++ rest) 10 = (z, rest).
Proof.
  intros Hz Hr. unfold decimal.
  pose proof (DecimalZ.of_to z) as Hv. unfold strtol.
  destruct z as [|p|p]; cbn [Z.to_int NilZero.string_of_int] in *.
  - cbn [NilZero.string_of_uint NilEmpty.string_of_uint String.append skip_space].
    change (isspace "0") with false. cbv iota.
    change (10 =? 0) with false. change (10 =? 16) with false. cbv iota.
    cbn [orb]. cbv iota.
    change (String "0" rest) with (NilEmpty.string_of_uint (Decimal.D0 Decimal.Nil) ++ rest)%string.
    rewrite (read_base_uint _ rest 0 0 Hr). reflexivity.
  - pose proof (DecimalPos.Unsigned.to_uint_nonnil p) as Hn.
    rewrite (string_of_uint_nonnil _ Hn).
    rewrite skip_space_digit by now apply string_of_uint_first.
    rewrite (digits_not_sign _ rest Hn).
    change (10 =? 0) with false. change (10 =? 16) with false. cbn [orb]. cbv iota.
    rewrite (read_base_uint _ rest 0 0 Hr).
    pose proof (nb_digits_pos _ Hn).
    destruct (0 + Z.of_nat (Decimal.nb_digits (Pos.to_uint p)) =? 0) eqn:E0;
      [apply Z.eqb_eq in E0; lia|].
    unfold Z.of_int, Z.of_uint in Hv. rewrite of_uint_value in Hv. rewrite Hv.
    unfold clamp.
    destruct (- 2 ^ 63 >? Z.pos p) eqn:E1; [apply Z.gtb_lt in E1; lia|].
    destruct (2 ^ 63 - 1 <? Z.pos p) eqn:E2; [apply Z.ltb_lt in E2; lia|].
    reflexivity.
  - pose proof (DecimalPos.Unsigned.to_uint_nonnil p) as Hn.
    rewrite (string_of_uint_nonnil _ Hn).
    cbn [String.append skip_space].
    change (isspace "-") with false. cbv iota.
    change (10 =? 0) with false. change (10 =? 16) with false. cbn [orb]. cbv iota.
    rewrite (read_base_uint _ rest 0 0 Hr).
    pose proof (nb_digits_pos _ Hn).
    destruct (0 + Z.of_nat (Decimal.nb_digits (Pos.to_uint p)) =? 0) eqn:E0;
      [apply Z.eqb_eq in E0; lia|].
    unfold Z.of_int, Z.of_uint in Hv. rewrite of_uint_value in Hv.
    assert (Hu : uint_value (Pos.to_uint p) 0 = Z.pos p) by lia.
    rewrite Hu. unfold clamp.
    change (- Z.pos p) with (Z.neg p).
    destruct (- 2 ^ 63 >? Z.neg p) eqn:E1; [apply Z.gtb_lt in E1; lia|].
    destruct (2 ^ 63 - 1 <? Z.neg p) eqn:E2; [apply Z.ltb_lt in E2; lia|].
    reflexivity.
Qed.

(** ** The elements of an array *)

Lemma COArray_at_nth (v : list CppON) (i : N) :
  COArray_at (Some v) i = nth_error v (N.to_nat i).
Proof.
  unfold COArray_at. destruct (N.of_nat (List.length v) <=? i)%N eqn:E;
    [|reflexivity].
  apply N.leb_le in E. symmetry. apply nth_error_None. lia.
Qed.

Lemma nth_error_erase_at {A : Type} (idx i : nat) (v : list A) :
  nth_error (erase_at idx v) i =
  if (i <? idx)%nat then nth_error v i else nth_error v (S i).
Proof.
  unfold erase_at. rewrite nth_error_app, nth_error_firstn, nth_error_skipn.
  rewrite length_firstn.
  assert (Hnone : forall a b, (List.length v <= a)%nat ->
            (List.length v <= b)%nat -> nth_error v a = nth_error v b).
  { intros a b Ha Hb. transitivity (@None A); [now apply nth_error_None|].
    symmetry. now apply nth_error_None. }
  destruct (Nat.ltb_spec i idx) as [Hlt|Hge];
    destruct (Nat.ltb_spec i (Nat.min idx (List.length v))) as [H|H];
    try reflexivity; try lia.
  - apply Hnone; lia.
  - destruct (Nat.le_gt_cases idx (List.length v)) as [Hle|Hgt].
    + f_equal. lia.
    + apply Hnone; lia.
Qed.

Lemma length_erase_at {A : Type} (idx : nat) (v : list A) :
  List.length (erase_at idx v) =
  if (idx <? List.length v)%nat then (List.length v - 1)%nat else List.length v.
Proof.
  unfold erase_at. rewrite length_app, length_firstn, length_skipn.
  destruct (Nat.ltb_spec idx (List.length v)); lia.
Qed.

(** X1.  [remove( idx )] on an array with its vector: the call returns what
    [at( idx )] returns, [NULL] when [idx] is not an index of the array;
    afterwards the elements before [idx] are where they were and every
    later element has moved down by one, and the array is one element
    shorter exactly when [idx] was an index. *)
Theorem X1_remove_shifts_the_tail (self : ptr) (v : list CppON) (idx : Z) :
  0 <= idx ->
  exists v',
    COArray_remove (COArray self (Some v)) idx =
      Returns (COArray_at (Some v) (Z.to_N idx), COArray self (Some v')) /\
    (forall i, (i < Z.to_N idx)%N ->
       COArray_at (Some v') i = COArray_at (Some v) i) /\
    (forall i, (Z.to_N idx <= i)%N ->
       COArray_at (Some v') i = COArray_at (Some v) (i + 1)) /\
    COArray_size (Some v') =
      if (Z.to_N idx <? COArray_size (Some v))%N
      then (COArray_size (Some v) - 1)%N else COArray_size (Some v).
Proof.
  intros H0. unfold COArray_remove.
  destruct (Z.gtb_spec (Z.of_nat (List.length v)) idx) as [Hin|Hout].
  - exists (erase_at (Z.to_nat idx) v). repeat split.
    + now rewrite COArray_at_nth, Z_N_nat.
    + intros i Hi. rewrite !COArray_at_nth, nth_error_erase_at.
      destruct (Nat.ltb_spec (N.to_nat i) (Z.to_nat idx)); [reflexivity|lia].
    + intros i Hi. rewrite !COArray_at_nth, nth_error_erase_at.
      destruct (Nat.ltb_spec (N.to_nat i) (Z.to_nat idx)); [lia|].
      f_equal. lia.
    + cbn [COArray_size]. rewrite length_erase_at.
      destruct (Nat.ltb_spec (Z.to_nat idx) (List.length v)); [|lia].
      destruct (N.ltb_spec (Z.to_N idx) (N.of_nat (List.length v))); lia.
  - exists v. repeat split.
    + rewrite COArray_at_nth, Z_N_nat.
      assert (E : nth_error v (Z.to_nat idx) = None)
        by (apply nth_error_None; lia).
      now rewrite E.
    + intros i Hi. rewrite !COArray_at_nth.
      transitivity (@None CppON); [apply nth_error_None; lia|].
      symmetry. apply nth_error_None. lia.
    + cbn [COArray_size].
      destruct (N.ltb_spec (Z.to_N idx) (N.of_nat (List.length v))); lia.
Qed.

Lemma X1_remove_shifts_the_tail_witness :
  exists v',
    COArray_remove (COArray 1 (Some [CONull 2; CONull 3; CONull 4])) 1 =
      Returns (Some (CONull 3), COArray 1 (Some v')) /\
    COArray_at (Some v') 1 = Some (CONull 4).
Proof.
  destruct (X1_remove_shifts_the_tail 1 [CONull 2; CONull 3; CONull 4] 1)
    as (v' & E & _ & H & _); [lia|].
  exists v'. split; [exact E|]. exact (H 1%N ltac:(reflexivity)).
Defined.

Lemma sext_32_small (z : Z) : - 2 ^ 31 <= z < 2 ^ 31 -> sext 32 z = z.
Proof.
  intros H. unfold sext, wrap.
  destruct (Z.ltb_spec (z mod 2 ^ 32) (2 ^ (32 - 1))) as [E|E].
  - destruct (Z.neg_nonneg_cases z) as [Hn|Hp].
    + rewrite <- (Z.mod_add z 1) in E by lia. rewrite Z.mod_small in E; lia.
    + apply Z.mod_small. lia.
  - destruct (Z.neg_nonneg_cases z) as [Hn|Hp].
    + rewrite <- (Z.mod_add z 1) by lia. rewrite Z.mod_small; lia.
    + rewrite Z.mod_small in E; lia.
Qed.

(** X2.  [push] and [pop] are the two ends of a stack: after
    [push( n )] on an array of fewer than [2^31 - 1] elements, [pop()]
    returns [n] and leaves the array as it was before the push.  On an
    array without elements [pop()] returns [NULL] and changes nothing:
    [size() - 1] is then the largest [size_t]. *)
Theorem X2_push_then_pop (self : ptr) (v : list CppON) (n : CppON) :
  Z.of_nat (List.length v) < 2 ^ 31 - 1 ->
  (exists a,
     COArray_append (COArray self (Some v)) n = Returns a /\
     COArray_pop a = Returns (Some n, COArray self (Some v))) /\
  COArray_pop (COArray self (Some [])) = Returns (None, COArray self (Some [])).
Proof.
  intros Hlen. split; [|reflexivity].
  exists (COArray self (Some (v ++ [n]))). split; [reflexivity|].
  unfold COArray_pop, COArray_int_size. cbn [COArray_size].
  rewrite length_app. cbn [List.length].
  rewrite sext_32_small by lia.
  replace (Z.of_N (N.of_nat (List.length v + 1)) - 1) with
    (Z.of_nat (List.length v)) by lia.
  unfold wrap at 1. rewrite Z.mod_small by lia.
  unfold COArray_remove. rewrite length_app. cbn [List.length].
  destruct (Z.gtb_spec (Z.of_nat (List.length v + 1)) (Z.of_nat (List.length v)));
    [|lia].
  rewrite Nat2Z.id. f_equal. f_equal.
  - rewrite nth_error_app2 by lia. now rewrite Nat.sub_diag.
  - do 2 f_equal. unfold erase_at.
    rewrite firstn_app, firstn_all, Nat.sub_diag. cbn [firstn].
    rewrite skipn_all2 by (rewrite length_app; cbn; lia).
    now rewrite !app_nil_r.
Qed.

Lemma X2_push_then_pop_witness :
  exists a,
    COArray_append (COArray 1 (Some [CONull 2])) (CONull 3) = Returns a /\
    COArray_pop a = Returns (Some (CONull 3), COArray 1 (Some [CONull 2])).
Proof.
  apply (proj1 (X2_push_then_pop 1 [CONull 2] (CONull 3) ltac:(cbn; lia))).
Defined.

Lemma nth_error_list_set {A : Type} (i j : nat) (x : A) (l : list A) :
  nth_error (list_set i x l) j =
  if (j =? i)%nat && (i <? List.length l)%nat then Some x else nth_error l j.
Proof.
  revert i j. induction l as [|y l IH]; intros i j.
  - cbn [list_set List.length]. destruct i, j; cbn; try reflexivity.
    all: now rewrite ?andb_false_r.
  - destruct i as [|i], j as [|j]; cbn [list_set nth_error List.length];
      try reflexivity.
    rewrite IH. reflexivity.
Qed.

Lemma length_list_set {A : Type} (i : nat) (x : A) (l : list A) :
  List.length (list_set i x l) = List.length l.
Proof.
  revert i. induction l as [|y l IH]; intros [|i]; cbn; try reflexivity.
  now rewrite IH.
Qed.

(** X3.  [replace( i, n )] returns [true] exactly when [i] is an index of
    the array; then [at( i )] is [n] afterwards.  In both cases the array
    keeps its size and every other index keeps its element. *)
Theorem X3_replace_in_place (self : ptr) (v : list CppON) (i : Z) (n : CppON) :
  0 <= i ->
  exists v',
    COArray_replace (COArray self (Some v)) i n =
      Returns ((i <? Z.of_nat (List.length v)), COArray self (Some v')) /\
    COArray_size (Some v') = COArray_size (Some v) /\
    (i < Z.of_nat (List.length v) -> COArray_at (Some v') (Z.to_N i) = Some n) /\
    (forall j, j <> Z.to_N i ->
       COArray_at (Some v') j = COArray_at (Some v) j).
Proof.
  intros H0. unfold COArray_replace.
  destruct (Z.gtb_spec (Z.of_nat (List.length v)) i) as [Hin|Hout].
  - exists (list_set (Z.to_nat i) n v).
    destruct (Z.ltb_spec i (Z.of_nat (List.length v))); [|lia].
    repeat split.
    + cbn [COArray_size]. now rewrite length_list_set.
    + intros _. rewrite COArray_at_nth, nth_error_list_set.
      rewrite Z_N_nat, Nat.eqb_refl.
      destruct (Nat.ltb_spec (Z.to_nat i) (List.length v)); [reflexivity|lia].
    + intros j Hj. rewrite !COArray_at_nth, nth_error_list_set.
      destruct (Nat.eqb_spec (N.to_nat j) (Z.to_nat i)); [lia|reflexivity].
  - exists v. destruct (Z.ltb_spec i (Z.of_nat (List.length v))); [lia|].
    split; [reflexivity|]. split; [reflexivity|]. split; [lia|reflexivity].
Qed.

Lemma X3_replace_in_place_witness :
  exists v',
    COArray_replace (COArray 1 (Some [CONull 2; CONull 3])) 1 (CONull 9) =
      Returns (true, COArray 1 (Some v')) /\
    COArray_at (Some v') 1 = Some (CONull 9).
Proof.
  destruct (X3_replace_in_place 1 [CONull 2; CONull 3] 1 (CONull 9))
    as (v' & E & _ & H & _); [lia|].
  exists v'. split; [exact E|]. apply H. cbn. lia.
Defined.

(** ** Lookups in a map *)

Lemma find_strcmp_plain {A : Type} (k : string) (m : list (string * A)) :
  Forall plain (keys m) -> plain k -> map_find_strcmp k m = map_find k m.
Proof.
  intros Hm Hk. induction m as [|[k' v] m IH]; [reflexivity|].
  cbn [keys List.map fst] in Hm. inversion Hm as [|x l Hk' Hm']; subst.
  cbn [map_find_strcmp map_find].
  rewrite (c_str_plain k' Hk'), (c_str_plain k Hk).
  destruct (String.eqb k' k); [reflexivity|]. now apply IH.
Qed.

Lemma map_find_insert_other {A : Type} (k key : string) (n : A)
    (m : list (string * A)) :
  k <> key -> map_find k (map_insert key n m) = map_find k m.
Proof.
  intros Hne. induction m as [|[k' v] m IH]; cbn [map_insert map_find].
  - destruct (String.eqb_spec key k); [congruence|reflexivity].
  - destruct (String.compare key k') eqn:C; cbn [map_find].
    + reflexivity.
    + destruct (String.eqb_spec key k); [congruence|reflexivity].
    + now rewrite IH.
Qed.

Lemma map_find_erase_other {A : Type} (k key : string) (m : list (string * A)) :
  k <> key -> map_find k (map_erase key m) = map_find k m.
Proof.
  intros Hne. induction m as [|[k' v] m IH]; [reflexivity|].
  cbn [map_erase map_find].
  destruct (String.eqb_spec k' key) as [->|Hk].
  - destruct (String.eqb_spec key k); [congruence|reflexivity].
  - cbn [map_find]. now rewrite IH.
Qed.

Lemma plain_insert {A : Type} (key : string) (n : A) (m : list (string * A)) :
  plain key -> Forall plain (keys m) -> Forall plain (keys (map_insert key n m)).
Proof.
  intros Hk Hm. induction m as [|[k' v] m IH]; cbn [map_insert keys List.map fst].
  - now repeat constructor.
  - cbn [keys List.map fst] in Hm. inversion Hm; subst.
    destruct (String.compare key k'); cbn [keys List.map fst].
    + now constructor.
    + constructor; [assumption|now constructor].
    + constructor; [assumption|]. now apply IH.
Qed.

Lemma plain_erase {A : Type} (key : string) (m : list (string * A)) :
  Forall plain (keys m) -> Forall plain (keys (map_erase key m)).
Proof.
  intros Hm. induction m as [|[k' v] m IH]; [constructor|].
  cbn [keys List.map fst] in Hm. inversion Hm; subst.
  cbn [map_erase]. destruct (String.eqb k' key); [assumption|].
  cbn [keys List.map fst]. constructor; [assumption|]. now apply IH.
Qed.

(** X4.  A key that [append] has bound is found by [findNoSplit], also when
    the key holds a colon, which [findElement] would read as an index; the
    call returns 0, keeps the order list in step with the table and leaves
    the lookup of every other key as it was.  The key has no slash and no
    NUL. *)
Theorem X4_findNoSplit_after_append (next self : ptr) (order : list string)
    (data : list (string * CppON)) (key : string) (n : CppON) :
  order_ok (COMap self order data) -> Forall plain (keys data) ->
  has_char "/" key = false -> plain key ->
  exists m',
    COMap_append next (COMap self order data) key n = (m', 0, next) /\
    order_ok m' /\
    COMap_findNoSplit m' key = Some n /\
    (forall k, plain k -> k <> key ->
       COMap_findNoSplit m' k = COMap_findNoSplit (COMap self order data) k).
Proof.
  intros Hok Hpl Hs Hk.
  destruct (append_key next self order data key n Hok Hs) as (E & Hok' & Hf).
  eexists. split; [exact E|]. split; [exact Hok'|].
  assert (Hpl' : Forall plain (keys (map_insert key n (map_erase key data))))
    by now apply plain_insert, plain_erase.
  cbn [COMap_findNoSplit]. split.
  - now rewrite find_strcmp_plain.
  - intros k Hpk Hne. rewrite !find_strcmp_plain by assumption.
    now rewrite map_find_insert_other, map_find_erase_other.
Qed.

Lemma X4_findNoSplit_after_append_witness :
  exists m',
    COMap_append 10 (COMap 1 [] []) "x:1" (CONull 2) = (m', 0, 10%N) /\
    COMap_findNoSplit m' "x:1" = Some (CONull 2) /\
    COMap_findElement m' "x:1" = None.
Proof.
  destruct (X4_findNoSplit_after_append 10 1 [] [] "x:1" (CONull 2))
    as (m' & E & _ & H & _).
  - repeat split; try constructor; intros [].
  - constructor.
  - reflexivity.
  - reflexivity.
  - exists m'. split; [exact E|]. split; [exact H|].
    vm_compute in E. injection E as <-. reflexivity.
Defined.

(** X5.  [extract( name )] hands out the node that [findNoSplit( name )]
    finds and unbinds the name: afterwards [findNoSplit( name )] is [NULL],
    the order list has lost exactly that name, every other key finds what
    it found before, and the order list is still in step with the table.
    When the name is not bound the call returns [NULL] and the map is as it
    was. *)
Theorem X5_extract_unbinds (self : ptr) (order : list string)
    (data : list (string * CppON)) (name : string) :
  order_ok (COMap self order data) -> Forall plain (keys data) ->
  plain name ->
  exists m',
    COMap_extract (COMap self order data) name =
      (COMap_findNoSplit (COMap self order data) name, m') /\
    COMap_findNoSplit m' name = None /\
    getKeys m' = List.remove string_dec name order /\
    (forall k, plain k -> k <> name ->
       COMap_findNoSplit m' k = COMap_findNoSplit (COMap self order data) k) /\
    order_ok m' /\
    (COMap_findNoSplit (COMap self order data) name = None ->
     m' = COMap self order data).
Proof.
  intros Hok Hpl Hn.
  destruct (removeVal_key self order data name Hok) as (_ & Hok' & _ & Hf).
  destruct Hok as (Ho & Hd & Hiff).
  cbn [COMap_extract COMap_findNoSplit].
  rewrite (c_str_plain name Hn), (find_strcmp_plain name data Hpl Hn).
  destruct (map_find name data) as [rtn|] eqn:E.
  - eexists. split; [reflexivity|]. cbn [COMap_findNoSplit getKeys].
    assert (Hpl' : Forall plain (keys (map_erase name data)))
      by now apply plain_erase.
    rewrite (find_strcmp_plain name _ Hpl' Hn).
    rewrite order_erase_remove by assumption.
    repeat split; try assumption; try apply Hok'; try discriminate.
    intros k Hk Hne. rewrite !find_strcmp_plain by assumption.
    now apply map_find_erase_other.
  - exists (COMap self order data). split; [reflexivity|].
    cbn [COMap_findNoSplit getKeys].
    rewrite (find_strcmp_plain name data Hpl Hn).
    assert (Hnin : ~ In name order)
      by (rewrite Hiff; now apply map_find_none).
    rewrite (notin_remove string_dec order name Hnin).
    repeat split; try assumption; try reflexivity. apply Hiff. apply Hiff.
Qed.

Lemma X5_extract_unbinds_witness :
  exists m',
    COMap_extract map_a1_b2 "a" = (Some (COInteger 4 4 false 1), m') /\
    getKeys m' = ["b"%string].
Proof.
  destruct (X5_extract_unbinds 3 ["a"; "b"]%string
              [("a"%string, COInteger 4 4 false 1);
               ("b"%string, COInteger 5 4 false 2)] "a")
    as (m' & E & _ & K & _).
  - split; [|split].
    + repeat constructor; cbn; intuition congruence.
    + repeat constructor; cbn; intuition congruence.
    + intros k. reflexivity.
  - repeat constructor.
  - reflexivity.
  - exists m'. split; [exact E | exact K].
Defined.

Lemma keys_update {A : Type} (k : string) (v : A) (m : list (string * A)) :
  keys (map_update k v m) = keys m.
Proof.
  induction m as [|[k' v'] m IH]; [reflexivity|]. cbn [map_update].
  destruct (String.eqb k' k); cbn [keys List.map fst]; [reflexivity|].
  f_equal. exact IH.
Qed.

Lemma map_find_update {A : Type} (k s : string) (v : A) (m : list (string * A)) :
  map_find k (map_update s v m) =
  if String.eqb k s then option_map (fun _ => v) (map_find s m)
  else map_find k m.
Proof.
  induction m as [|[k' v'] m IH]; cbn [map_update map_find option_map].
  - now destruct (String.eqb k s).
  - destruct (String.eqb_spec k' s) as [->|Hk']; cbn [map_find].
    + destruct (String.eqb_spec s k) as [<-|Hs].
      * rewrite String.eqb_refl. reflexivity.
      * destruct (String.eqb_spec k s); [congruence|reflexivity].
    + rewrite IH. destruct (String.eqb_spec k' k) as [->|Hk].
      * destruct (String.eqb_spec k s); [congruence|reflexivity].
      * reflexivity.
Qed.

(** X6.  [replaceObj( s, obj )] changes the value of a key that is bound and
    does nothing for a key that is not: the key is not inserted.  The keys,
    their order and the value of every other key stay as they were. *)
Theorem X6_replaceObj_only_replaces (self : ptr) (order : list string)
    (data : list (string * CppON)) (s : string) (obj : CppON) :
  Forall plain (keys data) -> plain s ->
  exists data',
    COMap_replaceObj (COMap self order data) s obj = COMap self order data' /\
    keys data' = keys data /\
    (In s (keys data) ->
       COMap_findNoSplit (COMap self order data') s = Some obj) /\
    (~ In s (keys data) -> data' = data) /\
    (forall k, plain k -> k <> s ->
       COMap_findNoSplit (COMap self order data') k =
       COMap_findNoSplit (COMap self order data) k).
Proof.
  intros Hpl Hs. cbn [COMap_replaceObj COMap_findNoSplit].
  destruct (map_find s data) as [old|] eqn:E.
  - exists (map_update s obj data).
    assert (Hpl' : Forall plain (keys (map_update s obj data)))
      by now rewrite keys_update.
    split; [reflexivity|]. split; [apply keys_update|]. split; [|split].
    + intros _. rewrite find_strcmp_plain, map_find_update by assumption.
      now rewrite String.eqb_refl, E.
    + intros Hn. apply map_find_unbound in Hn. congruence.
    + intros k Hk Hne. rewrite !find_strcmp_plain, map_find_update by assumption.
      destruct (String.eqb_spec k s); [congruence|reflexivity].
  - exists data. split; [reflexivity|]. split; [reflexivity|]. split; [|split].
    + intros Hin. apply map_find_bound in Hin as [v Hv]. congruence.
    + reflexivity.
    + reflexivity.
Qed.

Lemma X6_replaceObj_only_replaces_witness :
  exists data',
    COMap_replaceObj map_a1 "a" (CONull 9) = COMap 1 ["a"%string] data' /\
    COMap_findNoSplit (COMap 1 ["a"%string] data') "a" = Some (CONull 9).
Proof.
  destruct (X6_replaceObj_only_replaces 1 ["a"%string]
              [("a"%string, COInteger 2 4 false 1)] "a" (CONull 9))
    as (data' & E & _ & H & _).
  - repeat constructor.
  - reflexivity.
  - exists data'. split; [exact E|]. apply H. now left.
Defined.

(** ** [RemoveWhiteSpace] *)

Lemma json_space_not_quote (ch : ascii) :
  is_json_space ch = true -> (ch =? "034")%char = false.
Proof.
  unfold is_json_space. intros H.
  destruct (Ascii.eqb_spec ch "034") as [->|]; [discriminate H|reflexivity].
Qed.

Lemma remove_white_idem (s : string) (instr : bool) :
  remove_white (remove_white s instr) instr = remove_white s instr.
Proof.
  revert instr. induction s as [|ch s IH]; intros instr; [reflexivity|].
  cbn [remove_white]. destruct (ch =? NUL)%char eqn:En; [reflexivity|].
  destruct (if (ch =? "034")%char then negb instr else instr) eqn:Ei.
  - cbn [remove_white]. rewrite En, Ei. now rewrite IH.
  - destruct (is_json_space ch) eqn:Es; cbn [negb].
    + rewrite (json_space_not_quote ch Es) in Ei. subst instr. apply IH.
    + cbn [remove_white]. rewrite En, Ei, Es. cbn [negb]. now rewrite IH.
Qed.

(** X7.  [RemoveWhiteSpace] is idempotent: a text that has been through it
    comes back unchanged from a second pass. *)
Theorem X7_RemoveWhiteSpace_idempotent (s : string) :
  RemoveWhiteSpace (RemoveWhiteSpace s) = RemoveWhiteSpace s.
Proof. apply remove_white_idem. Qed.

(** ** [guessDataType] *)

Lemma c_str_nonempty (s : string) :
  nonempty s = true <-> c_str s <> EmptyString.
Proof.
  unfold nonempty. destruct s as [|ch s]; cbn [first_char c_str].
  - split; [discriminate|congruence].
  - destruct (ch =? NUL)%char; cbn [negb]; split;
      try discriminate; try congruence; reflexivity.
Qed.

Lemma isdigit_not_dot (ch : ascii) : isdigit ch = true -> (ch =? ".")%char = false.
Proof.
  intros H. destruct (Ascii.eqb_spec ch ".") as [->|]; [discriminate H|reflexivity].
Qed.

Lemma guess_loop_spec (s : string) (e : CppONType) :
  e = INTEGER_CPPON_OBJ_TYPE \/ e = DOUBLE_CPPON_OBJ_TYPE ->
  guess_loop s e =
  if digits_or_dots (c_str s) then
    match (count_char "." (c_str s) +
           if CppONType_eqb DOUBLE_CPPON_OBJ_TYPE e then 1 else 0)%nat with
    | O => INTEGER_CPPON_OBJ_TYPE
    | S O => DOUBLE_CPPON_OBJ_TYPE
    | _ => STRING_CPPON_OBJ_TYPE
    end
  else STRING_CPPON_OBJ_TYPE.
Proof.
  revert e. induction s as [|ch s IH]; intros e He.
  - destruct He as [-> | ->]; reflexivity.
  - cbn [guess_loop c_str]. destruct (ch =? NUL)%char eqn:En.
    + destruct He as [-> | ->]; reflexivity.
    + cbn [digits_or_dots count_char].
      destruct (ch =? ".")%char eqn:Ed.
      * rewrite orb_true_r. cbn [andb].
        destruct He as [-> | ->]; cbn [CppONType_eqb].
        -- rewrite IH by now right. cbn [CppONType_eqb].
           destruct (digits_or_dots (c_str s)); [|reflexivity].
           rewrite Nat.add_0_r.
           replace (count_char "." (c_str s) + 1)%nat
             with (S (count_char "." (c_str s))) by lia.
           reflexivity.
        -- destruct (digits_or_dots (c_str s)); [|reflexivity].
           replace (1 + count_char "." (c_str s) + 1)%nat
             with (S (S (count_char "." (c_str s)))) by lia.
           reflexivity.
      * rewrite orb_false_r. destruct (isdigit ch) eqn:Edig; cbn [negb andb].
        -- rewrite IH by assumption. reflexivity.
        -- reflexivity.
Qed.

Lemma all_digits_dots (s : string) :
  all_digits s = true <->
  digits_or_dots s = true /\ count_char "." s = O.
Proof.
  induction s as [|ch s IH]; cbn [all_digits digits_or_dots count_char].
  - tauto.
  - destruct (isdigit ch) eqn:Ed; cbn [orb andb].
    + rewrite (isdigit_not_dot ch Ed). cbn. exact IH.
    + destruct (ch =? ".")%char; cbn; split; try discriminate;
        intros [? ?]; discriminate.
Qed.

Lemma word_head_not_number (ch : ascii) :
  ((tolower ch =? "t") || (tolower ch =? "f"))%char = true ->
  isdigit ch || (ch =? ".")%char = false.
Proof.
  destruct ch as [[] [] [] [] [] [] [] []]; vm_compute; intros H;
    first [reflexivity | discriminate H].
Qed.

Lemma boolean_word_not_number (s : string) :
  strcasecmp_eq s "true" || strcasecmp_eq s "false" = true ->
  digits_or_dots (c_str s) = false.
Proof.
  unfold strcasecmp_eq.
  change (lower (c_str "true")) with "true"%string.
  change (lower (c_str "false")) with "false"%string. intros H.
  destruct (c_str s) as [|ch r]; [discriminate H|].
  cbn [digits_or_dots]. cbn [lower String.eqb] in H.
  rewrite word_head_not_number; [reflexivity|].
  apply orb_true_iff. apply orb_true_iff in H as [H|H].
  - left. revert H. destruct (tolower ch =? "t")%char;
      [reflexivity | discriminate].
  - right. revert H. destruct (tolower ch =? "f")%char;
      [reflexivity | discriminate].
Qed.

Ltac settle_classes :=
  eexists; split; [reflexivity|]; cbn [address type]; split; [reflexivity|];
  repeat split; intros;
  repeat match goal with H : _ /\ _ |- _ => destruct H end;
  try discriminate; try congruence; try tauto;
  try (apply all_digits_dots; tauto);
  try match goal with
      | H : all_digits _ = true |- _ =>
          apply all_digits_dots in H; destruct H; congruence
      end;
  try match goal with
      | H : _ \/ _ |- _ => destruct H; first [discriminate | congruence | lia]
      end;
  try (right; lia); try (left; reflexivity).

(** X8.  [guessDataType] always returns a node, never [NULL], and the
    node is read off the text: a Null for the empty text; a Boolean for
    [true] and [false] in any mix of cases, true for the first; for a text
    of decimal digits only, an Integer of eight bytes that holds what
    [strtoll] reads; for digits with exactly one dot (the dot alone
    included), a Double that holds what [strtod] reads; and for every other
    text, a number with a sign or an exponent included, a String that holds
    the text.  The node is never a Map or an Array. *)
Theorem X8_guessDataType_classes (strtod : string -> float * string)
    (s : string) (next : ptr) :
  exists n,
    guessDataType strtod (Some s) next = Returns (n, (next + 1)%N) /\
    address n = next /\
    (type n = NULL_CPPON_OBJ_TYPE <-> c_str s = EmptyString) /\
    (type n = BOOLEAN_CPPON_OBJ_TYPE <->
       strcasecmp_eq s "true" || strcasecmp_eq s "false" = true) /\
    (type n = INTEGER_CPPON_OBJ_TYPE <->
       c_str s <> EmptyString /\ all_digits (c_str s) = true) /\
    (type n = DOUBLE_CPPON_OBJ_TYPE <->
       digits_or_dots (c_str s) = true /\
       count_char "." (c_str s) = 1%nat) /\
    (type n = STRING_CPPON_OBJ_TYPE <->
       c_str s <> EmptyString /\
       strcasecmp_eq s "true" || strcasecmp_eq s "false" = false /\
       (digits_or_dots (c_str s) = false \/
        (2 <= count_char "." (c_str s))%nat)) /\
    match type n with
    | NULL_CPPON_OBJ_TYPE => n = CONull next
    | BOOLEAN_CPPON_OBJ_TYPE => n = COBoolean next (strcasecmp_eq s "true")
    | INTEGER_CPPON_OBJ_TYPE =>
        n = COInteger next 8 true (wrap 64 (fst (strtoll s 10)))
    | DOUBLE_CPPON_OBJ_TYPE => n = CODouble next 10 (Some (fst (strtod s)))
    | STRING_CPPON_OBJ_TYPE => n = COString next (c_str s)
    | _ => False
    end.
Proof.
  unfold guessDataType, guessed_type.
  pose proof (c_str_nonempty s) as Hne.
  destruct (nonempty s) eqn:En.
  - assert (Hs : c_str s <> EmptyString) by now apply Hne.
    destruct (strcasecmp_eq s "true" || strcasecmp_eq s "false") eqn:Eb.
    + pose proof (boolean_word_not_number s Eb) as Hd. settle_classes.
    + rewrite guess_loop_spec by now left. cbn [CppONType_eqb].
      rewrite Nat.add_0_r.
      destruct (digits_or_dots (c_str s)) eqn:Edd.
      * destruct (count_char "." (c_str s)) as [|[|k]] eqn:Ec; settle_classes.
      * settle_classes.
  - assert (Hs : c_str s = EmptyString).
    { destruct (c_str s) eqn:E; [reflexivity|].
      assert (H : false = true) by (apply Hne; discriminate). discriminate H. }
    assert (Eb : strcasecmp_eq s "true" || strcasecmp_eq s "false" = false).
    { unfold strcasecmp_eq. rewrite Hs. reflexivity. }
    rewrite Hs, Eb. settle_classes.
Qed.

Lemma X8_guessDataType_examples :
  forall next,
    guessDataType c_strtod (Some "42"%string) next =
      Returns (COInteger next 8 true 42, (next + 1)%N) /\
    guessDataType c_strtod (Some "-42"%string) next =
      Returns (COString next "-42", (next + 1)%N) /\
    guessDataType c_strtod (Some "TRUE"%string) next =
      Returns (COBoolean next true, (next + 1)%N).
Proof. intros next. repeat split; reflexivity. Qed.

(** ** The text of a String in JSON *)

Lemma has_char_append (c : ascii) (a b : string) :
  has_char c (a ++ b) = has_char c a || has_char c b.
Proof.
  induction a as [|x a IH]; [reflexivity|]. cbn [String.append has_char].
  now rewrite IH, orb_assoc.
Qed.

(** A character that [COString::toJsonString] replaces is in none of the
    replacements. *)
Lemma json_escape_clean (x ch : ascii) :
  json_escape ch <> String ch EmptyString ->
  has_char ch (json_escape x) = false.
Proof.
  intros H.
  destruct (has_char ch (json_escape x)) eqn:E; [|reflexivity].
  exfalso. apply H. clear H. revert E.
  destruct x as [[] [] [] [] [] [] [] []]; cbn [json_escape has_char];
    rewrite ?orb_false_r; intros E;
    repeat (apply orb_true_iff in E as [E|E]);
    apply Ascii.eqb_eq in E; subst ch; reflexivity.
Qed.

(** ** Integers *)

Lemma clamp_id (lo hi r : Z) : lo <= r <= hi -> clamp lo hi r = r.
Proof.
  intros H. unfold clamp.
  destruct (Z.gtb_spec lo r); [lia|]. destruct (Z.ltb_spec hi r); [lia|].
  reflexivity.
Qed.

Lemma sext_range (bits z : Z) :
  0 < bits -> - 2 ^ (bits - 1) <= sext bits z <= 2 ^ (bits - 1) - 1.
Proof.
  intros Hb. unfold sext, wrap.
  assert (E : 2 ^ bits = 2 * 2 ^ (bits - 1)).
  { rewrite <- Z.pow_succ_r by lia. f_equal. lia. }
  pose proof (Z.mod_pos_bound z (2 ^ bits) ltac:(lia)).
  destruct (Z.ltb_spec (z mod 2 ^ bits) (2 ^ (bits - 1))); lia.
Qed.

Lemma sext_congr (bits a b : Z) :
  a mod 2 ^ bits = b mod 2 ^ bits -> sext bits a = sext bits b.
Proof. intros H. unfold sext, wrap. now rewrite H. Qed.

Lemma sext_mod (bits z : Z) :
  0 < bits -> sext bits z mod 2 ^ bits = z mod 2 ^ bits.
Proof.
  intros Hb. unfold sext, wrap.
  assert (0 < 2 ^ bits) by (apply Z.pow_pos_nonneg; lia).
  destruct (z mod 2 ^ bits <? 2 ^ (bits - 1)).
  - apply Z.mod_mod. lia.
  - rewrite <- (Z.mod_add _ 1) by lia.
    replace (z mod 2 ^ bits - 2 ^ bits + 1 * 2 ^ bits) with (z mod 2 ^ bits)
      by lia.
    apply Z.mod_mod. lia.
Qed.

Lemma sext_wrap_sext (bits z : Z) :
  0 < bits -> sext bits (wrap bits (sext bits z)) = sext bits z.
Proof.
  intros Hb. apply sext_congr. unfold wrap.
  assert (0 < 2 ^ bits) by (apply Z.pow_pos_nonneg; lia).
  rewrite Z.mod_mod by lia. now apply sext_mod.
Qed.

Lemma COInteger_eq_longValue (siz data siz' data' : Z) :
  In siz [1; 2; 4; 8] -> In siz' [1; 2; 4; 8] ->
  COInteger_eq siz data siz' data' =
    (longValue siz data =? longValue siz' data').
Proof.
  intros Hs Hs'. cbn [In] in Hs, Hs'.
  destruct Hs as [<-|[<-|[<-|[<-|[]]]]];
    destruct Hs' as [<-|[<-|[<-|[<-|[]]]]];
    unfold COInteger_eq, longValue, read_signed; cbn [Z.eqb Pos.eqb orb Z.mul Pos.mul];
    try reflexivity; apply Z.eqb_sym.
Qed.

(** X10.  [==] on two Integer nodes compares the values that [longValue()]
    gives for them: neither the two widths nor [unSigned] play a part.  An
    unsigned byte that holds 255 is equal to a four-byte -1. *)
Theorem X10_integer_equality_is_by_value (siz data siz' data' : Z) :
  In siz [1; 2; 4; 8] -> In siz' [1; 2; 4; 8] ->
  COInteger_eq siz data siz' data' =
    (longValue siz data =? longValue siz' data').
Proof. apply COInteger_eq_longValue. Qed.

Lemma X10_integer_equality_is_by_value_witness :
  COInteger_eq 1 255 4 (wrap 32 (-1)) = true.
Proof.
  rewrite (X10_integer_equality_is_by_value 1 255 4 (wrap 32 (-1)));
    [reflexivity | cbn; tauto | cbn; tauto].
Defined.

Lemma longValue_range (siz data : Z) :
  In siz [1; 2; 4; 8] ->
  - 2 ^ (8 * siz - 1) <= longValue siz data <= 2 ^ (8 * siz - 1) - 1.
Proof.
  intros Hs. cbn [In] in Hs.
  destruct Hs as [<-|[<-|[<-|[<-|[]]]]]; unfold longValue;
    cbn [Z.eqb Pos.eqb orb]; apply sext_range; lia.
Qed.

(** What the getter of the width writes into a cell of that width reads
    back as the value. *)
Lemma getter_keeps_value (siz data : Z) :
  In siz [1; 2; 4; 8] ->
  longValue siz
    (if siz =? 1 then wrap 8 (charValue siz data)
     else if siz =? 2 then wrap 16 (shortValue siz data)
     else if siz =? 4 then wrap 32 (intValue siz data)
     else wrap 64 (longValue siz data)) = longValue siz data.
Proof.
  intros Hs. pose proof (longValue_range siz data Hs) as Hr. cbn [In] in Hs.
  destruct Hs as [<-|[<-|[<-|[<-|[]]]]]; cbn [Z.eqb Pos.eqb];
    unfold charValue, shortValue, intValue;
    rewrite ?clamp_id by exact Hr;
    unfold longValue; cbn [Z.eqb Pos.eqb orb];
    apply sext_wrap_sext; lia.
Qed.

(** X11.  After [a = b] on two Integer nodes, [a] has the width of [b] and
    the value that [longValue()] gives for [b], whatever [a] held before,
    and [a == b] is true; [unSigned] of [a] stays as it was. *)
Theorem X11_integer_assignment (self : ptr) (siz0 : Z) (u : bool) (data0 : Z)
    (self' : ptr) (siz : Z) (u' : bool) (data : Z) :
  In siz [1; 2; 4; 8] ->
  exists cell,
    COInteger_assign (COInteger self siz0 u data0) (COInteger self' siz u' data) =
      COInteger self siz u cell /\
    longValue siz cell = longValue siz data /\
    COInteger_eq siz cell siz data = true.
Proof.
  intros Hs. cbn [COInteger_assign]. eexists. split; [reflexivity|].
  assert (E : longValue siz
    (if siz =? 4 then wrap 32 (intValue siz data)
     else if siz =? 8 then wrap 64 (longValue siz data)
     else if siz =? 2 then wrap 16 (shortValue siz data)
     else if siz =? 1 then wrap 8 (charValue siz data) else data0) =
    longValue siz data).
  { rewrite <- (getter_keeps_value siz data Hs) at 2. cbn [In] in Hs.
    destruct Hs as [<-|[<-|[<-|[<-|[]]]]]; reflexivity. }
  split; [exact E|].
  rewrite COInteger_eq_longValue by assumption. rewrite E. apply Z.eqb_refl.
Qed.

Lemma X11_integer_assignment_witness :
  exists cell,
    COInteger_assign (COInteger 1 8 true 7) (COInteger 2 1 false 200) =
      COInteger 1 1 true cell /\
    longValue 1 cell = -56.
Proof.
  destruct (X11_integer_assignment 1 8 true 7 2 1 false 200)
    as (cell & E & V & _); [cbn; tauto|].
  exists cell. split; [exact E|]. rewrite V. reflexivity.
Defined.

(** ** Conversions *)

Lemma clamp_zero (lo hi r : Z) :
  lo < 0 < hi -> (clamp lo hi r =? 0) = (r =? 0).
Proof.
  intros H. unfold clamp.
  destruct (Z.gtb_spec lo r); [|destruct (Z.ltb_spec hi r)];
    destruct (Z.eqb_spec r 0); try lia; try reflexivity;
    apply Z.eqb_neq; lia.
Qed.

(** X12.  On an Integer and on a Boolean node [toBoolean()] is true exactly
    when [toLongInt()] is not zero, also for an Integer whose value is
    beyond the range of [int] and reaches [toBoolean()] saturated. *)
Theorem X12_toBoolean_is_nonzero (n : CppON) :
  type n = INTEGER_CPPON_OBJ_TYPE \/ type n = BOOLEAN_CPPON_OBJ_TYPE ->
  toBoolean n = negb (toLongInt n =? 0).
Proof.
  intros [H|H]; destruct n; try discriminate H; cbn [toBoolean toLongInt].
  - unfold intValue. rewrite Z.eqb_sym, clamp_zero by lia. reflexivity.
  - now destruct data.
Qed.

Lemma X12_toBoolean_is_nonzero_witness :
  toBoolean (COInteger 1 8 false (2 ^ 40)) = true.
Proof.
  rewrite (X12_toBoolean_is_nonzero (COInteger 1 8 false (2 ^ 40)));
    [reflexivity | left; reflexivity].
Defined.

(** ** [==] of a tree with itself *)

Lemma comparable_child (self : ptr) (order : list string)
    (data : list (string * CppON)) (k : string) (c : CppON) :
  comparable (COMap self order data) -> In (k, c) data -> comparable c.
Proof.
  intros (_ & _ & H). induction data as [|[k' c'] data IH]; intros Hin;
    [destruct Hin|].
  destruct H as [Hc H]. destruct Hin as [E|Hin].
  - injection E as <- <-. exact Hc.
  - now apply IH.
Qed.

Lemma depth_child (self : ptr) (order : list string)
    (data : list (string * CppON)) (k : string) (c : CppON) :
  In (k, c) data -> (depth c < depth (COMap self order data))%nat.
Proof.
  cbn [depth]. intros Hin. apply Nat.lt_succ_r.
  induction data as [|[k' c'] data IH]; [destruct Hin|].
  destruct Hin as [E|Hin].
  - injection E as <- <-. apply Nat.le_max_l.
  - etransitivity; [now apply IH | apply Nat.le_max_r].
Qed.

Lemma map_find_In {A : Type} (k : string) (v : A) (m : list (string * A)) :
  NoDup (keys m) -> In (k, v) m -> map_find k m = Some v.
Proof.
  induction m as [|[k' v'] m IH]; intros Hn Hin; [destruct Hin|].
  cbn [keys List.map fst] in Hn. inversion Hn as [|x l Hx Hn']; subst.
  cbn [map_find]. destruct Hin as [E|Hin].
  - injection E as -> ->. now rewrite String.eqb_refl.
  - destruct (String.eqb_spec k' k) as [->|Hne]; [|now apply IH].
    exfalso. apply Hx. change (In k (keys m)).
    apply in_map_iff. exists (k, v). now split.
Qed.

Lemma segment_plain (s : string) : segment s -> plain s.
Proof. intros (_ & _ & _ & H). exact H. Qed.

Lemma CppON_eq_refl (fuel : nat) (n : CppON) :
  (depth n < fuel)%nat -> comparable n -> CppON_eq fuel n n = true.
Proof.
  revert n. induction fuel as [|fuel IH]; intros n Hd Hc; [lia|].
  destruct n as [self siz u data|self prec data|self data|self|self data
                |self order data|self data]; cbn [CppON_eq].
  - unfold COInteger_eq. rewrite Z.eqb_refl.
    repeat match goal with |- context [if ?b then _ else _] => destruct b end;
      apply Z.eqb_refl.
  - destruct Hc as (d & -> & Hd'). exact Hd'.
  - unfold COString_eq. cbn [comparable] in Hc.
    rewrite (c_str_plain data Hc). apply String.eqb_refl.
  - reflexivity.
  - apply Bool.eqb_reflx.
  - apply forallb_forall. intros [k second] Hin.
    pose proof Hc as (Hn & Hs & _).
    assert (Hk : segment k).
    { rewrite Forall_forall in Hs. apply Hs. apply in_map_iff.
      exists (k, second). now split. }
    assert (Hpl : Forall plain (keys data)).
    { rewrite Forall_forall in *. intros x Hx. apply segment_plain. now apply Hs. }
    rewrite (c_str_plain k (segment_plain k Hk)).
    unfold COMap_findElement. rewrite findElement_segment by assumption.
    rewrite find_strcmp_plain by (try assumption; now apply segment_plain).
    rewrite (map_find_In k second data Hn Hin).
    assert (Et : CppONType_eqb (type second) (type second) = true)
      by now destruct second.
    rewrite Et. cbn [negb]. apply IH.
    + pose proof (depth_child self order data k second Hin). lia.
    + now apply (comparable_child self order data k second).
  - rewrite N.eqb_refl. cbn [negb]. apply forallb_forall. intros i _.
    destruct (COArray_at data (N.of_nat i)) as [x|]; cbn [same_pointer];
      [apply N.eqb_refl | reflexivity].
Qed.

(** X13.  [==] is reflexive on a tree whose maps have segments as keys,
    whose Strings hold no NUL and whose Doubles hold a number that is not a
    NaN: [x == x] is true.  (A map with a key such as [x:1], a Double
    holding a NaN or a String with a NUL inside is not equal to itself.) *)
Theorem X13_equal_to_itself (n : CppON) :
  comparable n -> CppON_equal n n = true.
Proof. intros H. unfold CppON_equal. apply CppON_eq_refl; [lia | exact H]. Qed.

Lemma X13_equal_to_itself_witness :
  CppON_equal map_a1_bx map_a1_bx = true /\
  CppON_equal map_x1_5 map_x1_5 = false.
Proof.
  split; [|reflexivity].
  apply (X13_equal_to_itself map_a1_bx). cbn.
  repeat split; try (repeat constructor; cbn; intuition congruence);
    try discriminate.
Defined.

(** ** Copies *)

Lemma clone_leaf (n : CppON) (next : ptr) :
  is_leaf n = true ->
  exists c, clone n next = Returns (c, (next + 1)%N) /\
            address c = next /\ type c = type n /\ is_leaf c = true.
Proof.
  intros H. destruct n; try discriminate H; unfold clone; cbn [depth copy];
    eexists; (split; [reflexivity|]); repeat split.
Qed.

(** The copy of a leaf compares equal to the leaf. *)
Lemma copy_of_leaf (n : CppON) (next : ptr) :
  is_leaf n = true -> comparable n ->
  (forall self siz u data, n = COInteger self siz u data -> In siz [1; 2; 4; 8]) ->
  exists c,
    clone n next = Returns (c, (next + 1)%N) /\
    address c = next /\ type c = type n /\
    CppON_equal c n = true /\ CppON_equal n c = true.
Proof.
  intros Hl Hc Hw.
  destruct n as [self siz u data|self prec data|self data|self|self data
                |self order data|self data]; try discriminate Hl;
    unfold clone; cbn [depth copy]; eexists;
    (split; [reflexivity|]); (split; [reflexivity|]);
    (split; [reflexivity|]); unfold CppON_equal; cbn [depth CppON_eq].
  - specialize (Hw self siz u data eq_refl).
    rewrite !COInteger_eq_longValue by assumption.
    rewrite getter_keeps_value by assumption.
    now rewrite Z.eqb_refl.
  - destruct Hc as (d & -> & Hd). cbn [doubleValue CODouble_eq]. now rewrite Hd.
  - cbn [comparable] in Hc. unfold COString_eq.
    rewrite !(c_str_plain data Hc). now rewrite String.eqb_refl.
  - split; reflexivity.
  - now rewrite Bool.eqb_reflx.
Qed.

(** X14.  The copy that [factory] and the copy constructors make of a leaf
    is a new node of the same class that is [==] to the original, in both
    directions.  The leaf is an Integer of 1, 2, 4 or 8 bytes, a Double
    holding a number that is not a NaN, a String without a NUL, a Null or a
    Boolean. *)
Theorem X14_copy_of_a_leaf_is_equal (n : CppON) (next : ptr) :
  is_leaf n = true -> comparable n ->
  (forall self siz u data, n = COInteger self siz u data -> In siz [1; 2; 4; 8]) ->
  exists c,
    clone n next = Returns (c, (next + 1)%N) /\
    address c = next /\ type c = type n /\
    CppON_equal c n = true /\ CppON_equal n c = true.
Proof. exact (copy_of_leaf n next). Qed.

Lemma X14_copy_of_a_leaf_is_equal_witness :
  exists c,
    clone (COString 5 "abc") 9%N = Returns (c, 10%N) /\
    CppON_equal c (COString 5 "abc") = true.
Proof.
  destruct (X14_copy_of_a_leaf_is_equal (COString 5 "abc") 9%N)
    as (c & E & _ & _ & H & _).
  - reflexivity.
  - reflexivity.
  - intros self siz u data H. discriminate H.
  - exists c. split; [exact E | exact H].
Defined.

(** ** [operator=] of a map *)

Lemma keys_insert_any {A : Type} (k : string) (v : A) (m : list (string * A)) :
  forall x, In x (keys (map_insert k v m)) <-> x = k \/ In x (keys m).
Proof.
  intros x. induction m as [|[k' v'] m IH]; cbn [map_insert keys List.map fst In].
  - intuition congruence.
  - destruct (String.compare k k') eqn:C; cbn [keys List.map fst In].
    + apply String.compare_eq_iff in C. subst k'. intuition congruence.
    + intuition congruence.
    + change (List.map fst (map_insert k v m)) with (keys (map_insert k v m)).
      rewrite IH. change (List.map fst m) with (keys m). intuition congruence.
Qed.

Lemma COMap_assign_loop (vdata : list (string * CppON)) :
  Forall (fun kv => is_leaf (snd kv) = true) vdata ->
  forall (order : list string) (th : list (string * CppON)) (next : ptr),
  exists th',
    assign_entries vdata (order, th) next =
    Returns ((order ++ keys vdata, th'),
             (next + N.of_nat (List.length vdata))%N) /\
    (forall k, In k (keys th') <-> In k (keys th) \/ In k (keys vdata)).
Proof.
  induction vdata as [|[k v] vdata IH]; intros Hl order th next.
  - exists th. split.
    + cbn [keys List.map List.length N.of_nat]. rewrite app_nil_r, N.add_0_r.
      reflexivity.
    + cbn. tauto.
  - inversion Hl as [|x l Hv Hl']; subst. cbn [snd] in Hv.
    destruct (clone_leaf v next Hv) as (c & Ec & _).
    destruct (IH Hl' (order ++ [k]) (map_insert k c th) (next + 1)%N)
      as (th' & E & Hk).
    exists th'. split.
    + cbn [assign_entries]. unfold bind at 1. rewrite Ec. cbn [fst snd].
      rewrite E.
      cbn [keys List.map fst List.length]. rewrite <- app_assoc. cbn [app].
      do 2 f_equal. lia.
    + intros x. rewrite Hk, keys_insert_any. cbn [keys List.map fst In].
      intuition congruence.
Qed.

Lemma existsb_not_In (x : ptr) (l : list ptr) :
  ~ In x l -> existsb (N.eqb x) l = false.
Proof.
  intros H. destruct (existsb (N.eqb x) l) eqn:E; [|reflexivity].
  apply existsb_exists in E as (y & Hy & Exy). apply N.eqb_eq in Exy.
  subst y. contradiction.
Qed.

(** X15.  After [a = b] on two maps, [b] neither [a] itself nor a node
    below [a], [a.getKeys()] lists the keys of [b] in the order in which the
    iterator of the table of [b] meets them, not in the order of
    [b.getKeys()]: the assignment does not keep the insertion order.  [a]
    binds exactly the keys of [b], and one node is allocated for every
    value.  The values of [b] are leaves.  (After [a = a] the map is
    empty.) *)
Theorem X15_map_assignment_reorders (self : ptr) (order : list string)
    (data : list (string * CppON)) (vself : ptr) (vorder : list string)
    (vdata : list (string * CppON)) (next : ptr) :
  Forall (fun kv => is_leaf (snd kv) = true) vdata ->
  ~ In vself (addresses (COMap self order data)) ->
  exists a,
    COMap_assign (COMap self order data) (COMap vself vorder vdata) next =
      Returns (a, (next + N.of_nat (List.length vdata))%N) /\
    address a = self /\
    getKeys a = keys vdata /\
    (forall k, In k (keys (bindings a)) <-> In k (keys vdata)).
Proof.
  intros Hl Hn. unfold COMap_assign.
  rewrite (existsb_not_In _ _ Hn).
  assert (Hs : (vself =? self)%N = false).
  { apply N.eqb_neq. intros ->. apply Hn. cbn [addresses]. now left. }
  rewrite Hs.
  destruct (COMap_assign_loop vdata Hl [] [] next) as (th' & E & Hk).
  eexists. split.
  - unfold bind. rewrite E. cbn [fst snd app]. reflexivity.
  - cbn [address getKeys bindings]. repeat split; try apply Hk.
    + intros H. apply Hk in H as [[]|H]; exact H.
    + intros H. apply Hk. now right.
Qed.

Lemma X15_map_assignment_reorders_witness :
  (exists a,
    COMap_assign (COMap 1 [] [])
      (COMap 2 ["b"; "a"]%string
         [("a"%string, CONull 3); ("b"%string, CONull 4)]) 10%N =
      Returns (a, 12%N) /\
    getKeys a = ["a"; "b"]%string) /\
  COMap_assign map_a1_bx map_a1_bx 10%N = Returns (COMap 1 [] [], 10%N).
Proof.
  split; [|reflexivity].
  destruct (X15_map_assignment_reorders 1 [] [] 2 ["b"; "a"]%string
              [("a"%string, CONull 3); ("b"%string, CONull 4)] 10%N)
    as (a & E & _ & K & _).
  - repeat constructor.
  - cbn [addresses In]. intros [H|[]]. discriminate H.
  - exists a. split; [exact E | exact K].
Defined.

(** ** [operator=] of an array *)

Lemma assign_elements_loop (v : list CppON) :
  Forall copyable v ->
  forall (w : list CppON) (next : ptr),
  exists cs,
    assign_elements v w next =
      Returns (w ++ cs, (next + N.of_nat (List.length v))%N) /\
    List.length cs = List.length v /\
    (forall i x, nth_error v i = Some x ->
       exists c, nth_error cs i = Some c /\
                 address c = (next + N.of_nat i)%N /\
                 CppON_equal c x = true).
Proof.
  induction 1 as [|x v Hx Hv IH]; intros w next.
  - exists []. cbn [assign_elements]. unfold ret.
    rewrite app_nil_r, N.add_0_r. repeat split.
    intros i y H. destruct i; discriminate H.
  - destruct Hx as (Hl & Hc & Hw).
    destruct (copy_of_leaf x next Hl Hc) as (c & Ec & Ac & _ & Eq & _).
    { intros self siz u data ->. exact Hw. }
    destruct (IH (w ++ [c]) (next + 1)%N) as (cs & E & Hlen & Hat).
    exists (c :: cs). cbn [assign_elements]. unfold bind at 1. rewrite Ec, E.
    split; [|split].
    + rewrite <- app_assoc. cbn [app List.length]. do 2 f_equal. lia.
    + cbn [List.length]. now rewrite Hlen.
    + intros [|i] y Hy; cbn [nth_error] in *.
      * injection Hy as <-. exists c. rewrite N.add_0_r. now repeat split.
      * destruct (Hat i y Hy) as (c' & H1 & H2 & H3).
        exists c'. repeat split; [exact H1 | rewrite H2; lia | exact H3].
Qed.

(** X21.  After [a = b] on two arrays, [b] neither [a] itself nor a node
    below [a] and the elements of [b] leaves that can be copied, [a] has
    the size of [b] and holds at every index a new node that is [==] to the
    element of [b] there.  All the same [a == b] is false when [b] has an
    element: the operator of the array compares the pointers.  The nodes
    of [b] were allocated before the call. *)
Theorem X21_array_assignment (self : ptr) (w0 : option (list CppON))
    (vself : ptr) (v : list CppON) (next : ptr) :
  Forall copyable v ->
  ~ In vself (addresses (COArray self w0)) ->
  Forall (fun x => (address x < next)%N) v ->
  exists w,
    COArray_assign (COArray self w0) (COArray vself (Some v)) next =
      Returns (COArray self (Some w), (next + N.of_nat (List.length v))%N) /\
    COArray_size (Some w) = COArray_size (Some v) /\
    (forall i x, nth_error v i = Some x ->
       exists c, nth_error w i = Some c /\
                 address c = (next + N.of_nat i)%N /\
                 CppON_equal c x = true) /\
    (v <> [] ->
     CppON_equal (COArray self (Some w)) (COArray vself (Some v)) = false).
Proof.
  intros Hv Hn Hold. unfold COArray_assign.
  rewrite (existsb_not_In _ _ Hn).
  assert (Hs : (vself =? self)%N = false).
  { apply N.eqb_neq. intros ->. apply Hn.
    destruct w0; cbn [addresses address]; now left. }
  rewrite Hs.
  destruct (assign_elements_loop v Hv [] next) as (w & E & Hlen & Hat).
  exists w. unfold bind. rewrite E. cbn [app].
  split; [reflexivity|]. split; [cbn [COArray_size]; now rewrite Hlen|].
  split; [exact Hat|].
  intros Hne. unfold CppON_equal.
  remember (depth (COArray self (Some w))) as dp. cbn [CppON_eq].
  cbn [COArray_size]. rewrite Hlen, N.eqb_refl. cbn [negb].
  destruct v as [|x v]; [congruence|].
  destruct (Hat O x eq_refl) as (c & Hc & Ac & _).
  destruct w as [|c' w]; [discriminate Hc|]. injection Hc as ->.
  rewrite Nnat.Nat2N.id. cbn [List.length seq forallb].
  unfold COArray_at at 1 2. cbn [N.of_nat N.to_nat nth_error].
  cbn [List.length]. rewrite !Nnat.Nat2N.inj_succ.
  destruct (N.leb_spec (N.succ (N.of_nat (List.length v))) 0) as [H0|_]; [lia|].
  destruct (N.leb_spec (N.succ (N.of_nat (List.length w))) 0) as [H0|_]; [lia|].
  unfold same_pointer. rewrite Ac. cbn [N.of_nat]. rewrite N.add_0_r.
  apply Forall_inv in Hold.
  assert (Hd : (address x =? next)%N = false) by (apply N.eqb_neq; lia).
  rewrite Hd. reflexivity.
Qed.

Lemma X21_array_assignment_witness :
  (exists w,
    COArray_assign (COArray 1 (Some []))
      (COArray 2 (Some [COInteger 3 4 false 7])) 10%N =
      Returns (COArray 1 (Some w), (10 + N.of_nat 1)%N) /\
    COArray_size (Some w) = COArray_size (Some [COInteger 3 4 false 7]) /\
    (forall i x, nth_error [COInteger 3 4 false 7] i = Some x ->
       exists c, nth_error w i = Some c /\
                 address c = (10 + N.of_nat i)%N /\
                 CppON_equal c x = true) /\
    ([COInteger 3 4 false 7] <> [] ->
     CppON_equal (COArray 1 (Some w))
       (COArray 2 (Some [COInteger 3 4 false 7])) = false)) /\
  COArray_assign array_1 array_1 10%N = Returns (COArray 6 (Some []), 10%N).
Proof.
  split; [|reflexivity].
  apply (X21_array_assignment 1%N (Some []) 2%N [COInteger 3 4 false 7] 10%N).
  - constructor; [|constructor].
    split; [reflexivity|]. split; [exact I|].
    cbn [In]. right. right. left. reflexivity.
  - cbn [addresses In]. intros [H|[]]. discriminate H.
  - constructor; [reflexivity | constructor].
Defined.

(** ** Base64 *)

Lemma all_below_spec (n : nat) (P : Z -> bool) :
  all_below n P = true -> forall z, 0 <= z < Z.of_nat n -> P z = true.
Proof.
  unfold all_below. intros H z Hz. rewrite forallb_forall in H. apply H.
  apply in_map_iff. exists (Z.to_nat z). split; [lia|].
  apply in_seq. lia.
Qed.

Lemma code_range (ch : ascii) : 0 <= code ch < 256.
Proof. unfold code. pose proof (N_ascii_bounded ch). lia. Qed.

Lemma byte_code (ch : ascii) : byte (code ch) = ch.
Proof.
  unfold byte, wrap, code. pose proof (N_ascii_bounded ch).
  rewrite Z.mod_small by (change (2 ^ 8) with 256; lia).
  rewrite N2Z.id. apply ascii_N_embedding.
Qed.

Lemma byte_of_wrap (z : Z) (ch : ascii) : wrap 8 z = code ch -> byte z = ch.
Proof.
  intros H. unfold byte. rewrite H. unfold code. rewrite N2Z.id.
  apply ascii_N_embedding.
Qed.

Lemma code_NUL (ch : ascii) : (ch =? NUL)%char = false <-> code ch <> 0.
Proof.
  split.
  - intros H E. apply Ascii.eqb_neq in H. apply H.
    rewrite <- (byte_code ch), E. reflexivity.
  - intros H. apply Ascii.eqb_neq. intros ->. apply H. reflexivity.
Qed.

Lemma etable_accepted (i : Z) :
  0 <= i < 64 ->
  accepted (etable_at i) i /\ (etable_at i =? "=")%char = false /\
  (etable_at i =? NUL)%char = false.
Proof.
  intros Hi.
  assert (H : all_below 64
            (fun i => negb (code (etable_at i) =? 0) &&
                      negb (128 <=? code (etable_at i)) &&
                      negb (dtab_at (code (etable_at i)) =? 0x80) &&
                      negb (code (etable_at i) =? 0x0A) &&
                      (dtab_at (code (etable_at i)) =? i) &&
                      negb (etable_at i =? "=")%char &&
                      negb (etable_at i =? NUL)%char) = true)
    by (vm_compute; reflexivity).
  pose proof (all_below_spec 64 _ H i Hi) as Hc. cbv beta in Hc.
  repeat (apply andb_true_iff in Hc as [Hc ?]).
  repeat match goal with H : negb _ = true |- _ => apply negb_true_iff in H end.
  unfold accepted. repeat split; try assumption. now apply Z.eqb_eq.
Qed.

Lemma pad_accepted : accepted "=" 0.
Proof. repeat split. Qed.

Lemma decode_group_4 (c0 c1 c2 c3 : ascii) (v0 v1 v2 v3 : Z) (rest : string) :
  accepted c0 v0 -> accepted c1 v1 -> accepted c2 v2 -> accepted c3 v3 ->
  decode_group (String c0 (String c1 (String c2 (String c3 rest)))) 4 =
    Returns (Some ([(c0, v0); (c1, v1); (c2, v2); (c3, v3)], rest)).
Proof.
  intros (A0 & B0 & C0 & D0 & <-) (A1 & B1 & C1 & D1 & <-)
         (A2 & B2 & C2 & D2 & <-) (A3 & B3 & C3 & D3 & <-).
  cbn [decode_group].
  rewrite A0, B0, C0, D0, A1, B1, C1, D1, A2, B2, C2, D2, A3, B3, C3, D3.
  cbn [negb]. destruct rest; reflexivity.
Qed.

(** The six bits of the four characters of a group. *)
Lemma sextets (a b c : Z) :
  0 <= a < 256 -> 0 <= b < 256 -> 0 <= c < 256 ->
  0 <= Z.shiftr a 2 < 64 /\
  0 <= Z.lor (Z.shiftl (Z.land a 3) 4) (Z.shiftr b 4) < 64 /\
  0 <= Z.lor (Z.shiftl (Z.land b 15) 2) (Z.shiftr c 6) < 64 /\
  0 <= Z.land c 63 < 64.
Proof.
  intros Ha Hb Hc.
  assert (H1 : all_below 256 (fun a =>
            (0 <=? Z.shiftr a 2) && (Z.shiftr a 2 <? 64) &&
            (0 <=? Z.land a 63) && (Z.land a 63 <? 64)) = true)
    by (vm_compute; reflexivity).
  assert (H2 : all_below 256 (fun a => all_below 256 (fun b =>
            (0 <=? Z.lor (Z.shiftl (Z.land a 3) 4) (Z.shiftr b 4)) &&
            (Z.lor (Z.shiftl (Z.land a 3) 4) (Z.shiftr b 4) <? 64) &&
            (0 <=? Z.lor (Z.shiftl (Z.land a 15) 2) (Z.shiftr b 6)) &&
            (Z.lor (Z.shiftl (Z.land a 15) 2) (Z.shiftr b 6) <? 64))) = true)
    by (vm_compute; reflexivity).
  pose proof (all_below_spec 256 _ H1 a Ha) as Pa.
  pose proof (all_below_spec 256 _ H1 c Hc) as Pc.
  pose proof (all_below_spec 256 _ (all_below_spec 256 _ H2 a Ha) b Hb) as Pab.
  pose proof (all_below_spec 256 _ (all_below_spec 256 _ H2 b Hb) c Hc) as Pbc.
  cbv beta in *.
  repeat match goal with
         | H : _ && _ = true |- _ => apply andb_true_iff in H as [? ?]
         end.
  repeat match goal with
         | H : (_ <=? _) = true |- _ => apply Z.leb_le in H
         | H : (_ <? _) = true |- _ => apply Z.ltb_lt in H
         end.
  lia.
Qed.

(** The three bytes that [base64Decode] puts together from the four
    sextets are the three bytes that [toBase64JsonString] took apart. *)
Lemma octets (a b c : Z) :
  0 <= a < 256 -> 0 <= b < 256 -> 0 <= c < 256 ->
  let v0 := Z.shiftr a 2 in
  let v1 := Z.lor (Z.shiftl (Z.land a 3) 4) (Z.shiftr b 4) in
  let v2 := Z.lor (Z.shiftl (Z.land b 15) 2) (Z.shiftr c 6) in
  let v3 := Z.land c 63 in
  wrap 8 (Z.lor (Z.shiftl v0 2) (Z.shiftr v1 4)) = a /\
  wrap 8 (Z.lor (Z.shiftl v1 4) (Z.shiftr v2 2)) = b /\
  wrap 8 (Z.lor (Z.shiftl v2 6) v3) = c.
Proof.
  intros Ha Hb Hc.
  assert (H1 : all_below 256 (fun a => all_below 256 (fun b =>
            (wrap 8 (Z.lor (Z.shiftl (Z.shiftr a 2) 2)
                      (Z.shiftr (Z.lor (Z.shiftl (Z.land a 3) 4) (Z.shiftr b 4)) 4))
             =? a) &&
            (wrap 8 (Z.lor (Z.shiftl (Z.lor (Z.shiftl (Z.land a 15) 2) (Z.shiftr b 6)) 6)
                      (Z.land b 63)) =? b))) = true)
    by (vm_compute; reflexivity).
  assert (H2 : all_below 4 (fun p => all_below 256 (fun b => all_below 4 (fun q =>
            wrap 8 (Z.lor (Z.shiftl (Z.lor (Z.shiftl p 4) (Z.shiftr b 4)) 4)
                      (Z.shiftr (Z.lor (Z.shiftl (Z.land b 15) 2) q) 2))
            =? b))) = true)
    by (vm_compute; reflexivity).
  assert (H3 : all_below 256 (fun a =>
            (0 <=? Z.land a 3) && (Z.land a 3 <? 4) &&
            (0 <=? Z.shiftr a 6) && (Z.shiftr a 6 <? 4)) = true)
    by (vm_compute; reflexivity).
  pose proof (all_below_spec 256 _ (all_below_spec 256 _ H1 a Ha) b Hb) as Pab.
  pose proof (all_below_spec 256 _ (all_below_spec 256 _ H1 b Hb) c Hc) as Pbc.
  pose proof (all_below_spec 256 _ H3 a Ha) as Pa.
  pose proof (all_below_spec 256 _ H3 c Hc) as Pc.
  cbv beta in *.
  repeat match goal with
         | H : _ && _ = true |- _ => apply andb_true_iff in H as [? ?]
         end.
  repeat match goal with
         | H : (_ <=? _) = true |- _ => apply Z.leb_le in H
         | H : (_ <? _) = true |- _ => apply Z.ltb_lt in H
         | H : (_ =? _) = true |- _ => apply Z.eqb_eq in H
         end.
  cbv zeta. repeat split; try assumption.
  assert (Q : 0 <= Z.land a 3 < Z.of_nat 4) by (change (Z.of_nat 4) with 4; lia).
  assert (R : 0 <= Z.shiftr c 6 < Z.of_nat 4) by (change (Z.of_nat 4) with 4; lia).
  pose proof (all_below_spec 4 _
                (all_below_spec 256 _ (all_below_spec 4 _ H2 _ Q) b Hb) _ R) as P.
  cbv beta in P. now apply Z.eqb_eq in P.
Qed.

Lemma plain_cons (a : ascii) (s : string) :
  plain (String a s) -> (a =? NUL)%char = false /\ plain s.
Proof.
  unfold plain. cbn [has_char]. intros H. now apply orb_false_iff in H.
Qed.

Lemma encode_group_accepted (a b c : Z) (n : nat) :
  0 <= a < 256 -> 0 <= b < 256 -> 0 <= c < 256 ->
  exists c0 c1 c2 c3 v2 v3,
    encode_group a b c n = String c0 (String c1 (String c2 (String c3 ""))) /\
    accepted c0 (Z.shiftr a 2) /\
    accepted c1 (Z.lor (Z.shiftl (Z.land a 3) 4) (Z.shiftr b 4)) /\
    accepted c2 v2 /\ accepted c3 v3 /\
    (c0 =? NUL)%char = false /\ code c0 <> 0x0A /\
    ((n <? 2)%nat = true -> (c2 =? "=")%char = true) /\
    ((n <? 2)%nat = false ->
       (c2 =? "=")%char = false /\
       v2 = Z.lor (Z.shiftl (Z.land b 15) 2) (Z.shiftr c 6)) /\
    ((n <? 3)%nat = true -> (c3 =? "=")%char = true) /\
    ((n <? 3)%nat = false ->
       (c3 =? "=")%char = false /\ v3 = Z.land c 63).
Proof.
  intros Ha Hb Hc.
  destruct (sextets a b c Ha Hb Hc) as (S0 & S1 & S2 & S3).
  destruct (etable_accepted _ S0) as (A0 & E0 & N0).
  destruct (etable_accepted _ S1) as (A1 & E1 & N1).
  destruct (etable_accepted _ S2) as (A2 & E2 & N2).
  destruct (etable_accepted _ S3) as (A3 & E3 & N3).
  unfold encode_group.
  do 4 eexists.
  exists (if (n <? 2)%nat then 0 else Z.lor (Z.shiftl (Z.land b 15) 2) (Z.shiftr c 6)).
  exists (if (n <? 3)%nat then 0 else Z.land c 63).
  split; [reflexivity|].
  split; [exact A0|]. split; [exact A1|].
  split; [destruct (n <? 2)%nat; [exact pad_accepted | exact A2]|].
  split; [destruct (n <? 3)%nat; [exact pad_accepted | exact A3]|].
  split; [exact N0|].
  split; [destruct A0 as (_ & _ & _ & D & _); now apply Z.eqb_neq in D|].
  split; [intros H; rewrite H; reflexivity|].
  split; [intros H; rewrite H; split; [exact E2 | reflexivity]|].
  split; [intros H; rewrite H; reflexivity|].
  intros H; rewrite H; split; [exact E3 | reflexivity].
Qed.

(** One turn of the loop of [base64Decode] on a group that
    [toBase64JsonString] wrote. *)
Lemma decode_loop_group (fuel : nat) (a b c : ascii) (n : nat)
    (rest out : string) :
  let g := (encode_group (code a) (if (n <? 2)%nat then 0 else code b)
              (if (n <? 3)%nat then 0 else code c) n) in
  decode_loop (S fuel) (g ++ rest) out =
  decode_loop fuel rest
    (out ++ String a (if (n <? 2)%nat then "" else
                        String b (if (n <? 3)%nat then "" else String c ""))).
Proof.
  intros g. subst g.
  set (bz := if (n <? 2)%nat then 0 else code b).
  set (cz := if (n <? 3)%nat then 0 else code c).
  assert (Ha : 0 <= code a < 256) by apply code_range.
  assert (Hb : 0 <= bz < 256)
    by (subst bz; destruct (n <? 2)%nat; [lia | apply code_range]).
  assert (Hc : 0 <= cz < 256)
    by (subst cz; destruct (n <? 3)%nat; [lia | apply code_range]).
  destruct (encode_group_accepted (code a) bz cz n Ha Hb Hc)
    as (c0 & c1 & c2 & c3 & v2 & v3 & -> & A0 & A1 & A2 & A3 & N0 & L0 &
        P2 & Q2 & P3 & Q3).
  cbn [String.append decode_loop]. rewrite N0.
  apply Z.eqb_neq in L0. rewrite L0.
  rewrite (decode_group_4 _ _ _ _ _ _ _ _ _ A0 A1 A2 A3).
  cbn [decode_bytes].
  destruct (octets (code a) bz cz Ha Hb Hc) as (O0 & O1 & O2). cbv zeta in *.
  assert (B0 : byte (Z.lor (Z.shiftl (Z.shiftr (code a) 2) 2)
                       (Z.shiftr (Z.lor (Z.shiftl (Z.land (code a) 3) 4)
                                    (Z.shiftr bz 4)) 4)) = a)
    by (apply byte_of_wrap; exact O0).
  rewrite B0.
  destruct (n <? 2)%nat eqn:E2.
  - rewrite (P2 eq_refl). cbn [negb]. reflexivity.
  - destruct (Q2 eq_refl) as [-> ->]. cbn [negb].
    assert (B1 : byte (Z.lor (Z.shiftl (Z.lor (Z.shiftl (Z.land (code a) 3) 4)
                                          (Z.shiftr bz 4)) 4)
                         (Z.shiftr (Z.lor (Z.shiftl (Z.land bz 15) 2)
                                      (Z.shiftr cz 6)) 2)) = b)
      by (apply byte_of_wrap; rewrite O1; subst bz; reflexivity).
    rewrite B1.
    destruct (n <? 3)%nat eqn:E3.
    + rewrite (P3 eq_refl). cbn [negb]. reflexivity.
    + destruct (Q3 eq_refl) as [-> ->]. cbn [negb].
      assert (B2 : byte (Z.lor (Z.shiftl (Z.lor (Z.shiftl (Z.land bz 15) 2)
                                            (Z.shiftr cz 6)) 6)
                           (Z.land cz 63)) = c)
        by (apply byte_of_wrap; rewrite O2; subst cz; reflexivity).
      rewrite B2. reflexivity.
Qed.

(** The loop of [base64Decode] gives back what the loops of
    [toBase64JsonString] read. *)
Lemma decode_loop_groups (k : nat) :
  forall (s out : string) (fuel : nat),
    (String.length s <= k)%nat -> plain s ->
    (String.length s < fuel)%nat ->
    decode_loop fuel (base64_groups s) out = Returns (Some (out ++ s)%string).
Proof.
  induction k as [k IH] using lt_wf_ind.
  intros s out fuel Hk Hp Hf.
  destruct fuel as [|fuel]; [lia|].
  destruct s as [|a [|b [|c tl]]].
  - cbn. now rewrite append_nil_r.
  - apply plain_cons in Hp as [Na _].
    cbn [base64_groups]. rewrite Na.
    pose proof (decode_loop_group fuel a a a 1 "" out) as H.
    cbn [Nat.ltb Nat.leb] in H. cbv zeta in H.
    rewrite append_nil_r in H. rewrite H.
    destruct fuel; [cbn in Hf; lia|]. reflexivity.
  - apply plain_cons in Hp as [Na Hp]. apply plain_cons in Hp as [Nb _].
    cbn [base64_groups]. rewrite Na, Nb.
    pose proof (decode_loop_group fuel a b b 2 "" out) as H.
    cbn [Nat.ltb Nat.leb] in H. cbv zeta in H.
    rewrite append_nil_r in H. rewrite H.
    destruct fuel; [cbn in Hf; lia|]. reflexivity.
  - apply plain_cons in Hp as [Na Hp]. apply plain_cons in Hp as [Nb Hp].
    apply plain_cons in Hp as [Nc Hp].
    cbn [base64_groups]. rewrite Na, Nb, Nc.
    pose proof (decode_loop_group fuel a b c 3 (base64_groups tl) out) as H.
    cbn [Nat.ltb Nat.leb] in H. cbv zeta in H. rewrite H.
    cbn [String.length] in Hk, Hf.
    rewrite (IH (String.length tl)) by (try assumption; lia).
    rewrite append_assoc. reflexivity.
Qed.

Lemma length_base64_groups (k : nat) :
  forall s, (String.length s <= k)%nat -> plain s ->
    Z.of_nat (String.length (base64_groups s)) =
    4 * ((Z.of_nat (String.length s) + 2) / 3).
Proof.
  induction k as [k IH] using lt_wf_ind.
  intros s Hk Hp.
  destruct s as [|a [|b [|c tl]]].
  - reflexivity.
  - apply plain_cons in Hp as [Na _]. cbn [base64_groups]. rewrite Na. reflexivity.
  - apply plain_cons in Hp as [Na Hp]. apply plain_cons in Hp as [Nb _].
    cbn [base64_groups]. rewrite Na, Nb. reflexivity.
  - apply plain_cons in Hp as [Na Hp]. apply plain_cons in Hp as [Nb Hp].
    apply plain_cons in Hp as [Nc Hp].
    cbn [base64_groups]. rewrite Na, Nb, Nc.
    unfold encode_group. cbn [String.append String.length] in *.
    rewrite !Nat2Z.inj_succ.
    rewrite (IH (String.length tl)) by (try assumption; lia).
    replace (Z.succ (Z.succ (Z.succ (Z.of_nat (String.length tl)))) + 2)
      with (Z.of_nat (String.length tl) + 2 + 1 * 3) by lia.
    rewrite Z.div_add by lia. lia.
Qed.

Lemma plain_base64_groups (k : nat) :
  forall s, (String.length s <= k)%nat -> plain (base64_groups s).
Proof.
  induction k as [k IH] using lt_wf_ind.
  intros s Hk.
  assert (G : forall a b c n rest, 0 <= a < 256 -> 0 <= b < 256 -> 0 <= c < 256 ->
              plain rest -> plain (encode_group a b c n ++ rest)).
  { intros a b c n rest Ha Hb Hc Hr.
    destruct (sextets a b c Ha Hb Hc) as (S0 & S1 & S2 & S3).
    destruct (etable_accepted _ S0) as (_ & _ & N0).
    destruct (etable_accepted _ S1) as (_ & _ & N1).
    destruct (etable_accepted _ S2) as (_ & _ & N2).
    destruct (etable_accepted _ S3) as (_ & _ & N3).
    unfold encode_group, plain. cbn [String.append has_char].
    rewrite N0, N1.
    destruct (n <? 2)%nat, (n <? 3)%nat; rewrite ?N2, ?N3; exact Hr. }
  assert (G0 : forall a b c n, 0 <= a < 256 -> 0 <= b < 256 -> 0 <= c < 256 ->
              plain (encode_group a b c n)).
  { intros. rewrite <- append_nil_r. now apply G. }
  pose proof code_range as CR.
  destruct s as [|a [|b [|c tl]]]; cbn [base64_groups].
  - reflexivity.
  - destruct (a =? NUL)%char; [reflexivity | apply G0; auto; lia].
  - destruct (a =? NUL)%char; [reflexivity|].
    destruct (b =? NUL)%char; apply G0; auto; lia.
  - destruct (a =? NUL)%char; [reflexivity|].
    destruct (b =? NUL)%char; [apply G0; auto; lia|].
    destruct (c =? NUL)%char; [apply G0; auto; lia|].
    apply G; auto. apply (IH (String.length tl)); cbn [String.length] in Hk; lia.
Qed.

(** The round trip through Base64. *)
Lemma base64_round_trip (s : string) :
  plain s -> s <> EmptyString -> Z.of_nat (String.length s) < 2 ^ 30 ->
  exists o,
    COString_toBase64JsonString s = Returns o /\
    COString_base64 o = Returns (Some s).
Proof.
  intros Hp Hne Hlen.
  pose proof (length_base64_groups _ s (Nat.le_refl _) Hp) as HL.
  pose proof (plain_base64_groups _ s (Nat.le_refl _)) as HP.
  assert (Hpos : 1 <= Z.of_nat (String.length s))
    by (destruct s; [congruence | cbn [String.length]; lia]).
  set (n := Z.of_nat (String.length s)) in *.
  exists (base64_groups s). split.
  - unfold COString_toBase64JsonString, toBase64JsonString. fold n.
    assert (W : wrap 32 (wrap 32 (wrap 32 n * 4) / 3 + 4) = n * 4 / 3 + 4).
    { unfold wrap. change (2 ^ 32) with 4294967296. change (2 ^ 30) with 1073741824 in Hlen.
      rewrite (Z.mod_small n) by lia.
      rewrite (Z.mod_small (n * 4)) by lia.
      apply Z.mod_small.
      Z.to_euclidean_division_equations; lia. }
    rewrite W.
    destruct (Z.leb_spec (Z.of_nat (String.length (base64_groups s)) + 1)
                (n * 4 / 3 + 4)) as [_|H]; [reflexivity|].
    exfalso. rewrite HL in H.
    Z.to_euclidean_division_equations; lia.
  - unfold COString_base64, base64Decode, strlen.
    rewrite (c_str_plain _ HP).
    assert (W : wrap 32 (Z.of_nat (String.length (base64_groups s))) =
                Z.of_nat (String.length (base64_groups s))).
    { unfold wrap. change (2 ^ 32) with 4294967296. change (2 ^ 30) with 1073741824 in Hlen.
      apply Z.mod_small. rewrite HL.
      Z.to_euclidean_division_equations; lia. }
    rewrite W.
    destruct (Z.gtb_spec 1 (Z.of_nat (String.length (base64_groups s)))) as [H|_].
    { exfalso. rewrite HL in H. Z.to_euclidean_division_equations; lia. }
    assert (F : (String.length s < S (String.length (base64_groups s)))%nat).
    { apply Nat2Z.inj_lt. rewrite Nat2Z.inj_succ, HL. fold n.
      Z.to_euclidean_division_equations; lia. }
    rewrite (decode_loop_groups _ s "" _ (Nat.le_refl _) Hp F).
    cbn [String.append]. fold n.
    assert (W3 : wrap 32 (Z.of_nat (String.length (base64_groups s)) + 3) =
                 Z.of_nat (String.length (base64_groups s)) + 3).
    { unfold wrap. change (2 ^ 32) with 4294967296. change (2 ^ 30) with 1073741824 in Hlen.
      apply Z.mod_small. rewrite HL.
      Z.to_euclidean_division_equations; lia. }
    rewrite W3.
    destruct (Z.leb_spec (n + 1) (Z.of_nat (String.length (base64_groups s)) + 3))
      as [_|H]; [reflexivity|].
    exfalso. rewrite HL in H. Z.to_euclidean_division_equations; lia.
Qed.

(** X16.  A string without a NUL, not empty and shorter than [2 ^ 30]
    bytes, comes back from its Base64 text: [toBase64JsonString] returns a
    text [o], and the constructor [COString( o, true )] holds the bytes of
    the string again.  Both stay inside their buffers. *)
Theorem X16_base64_round_trip (s : string) :
  plain s -> s <> EmptyString -> Z.of_nat (String.length s) < 2 ^ 30 ->
  exists o,
    COString_toBase64JsonString s = Returns o /\
    COString_base64 o = Returns (Some s).
Proof. exact (base64_round_trip s). Qed.

Lemma X16_base64_round_trip_witness :
  (exists o,
    COString_toBase64JsonString "Hello" = Returns o /\
    COString_base64 o = Returns (Some "Hello"%string)) /\
  COString_toBase64JsonString "Hello" = Returns "SGVsbG8="%string /\
  COString_toBase64JsonString "" = Returns ""%string /\
  COString_base64 "" = Returns None.
Proof.
  split; [|repeat split].
  apply (X16_base64_round_trip "Hello").
  - reflexivity.
  - discriminate.
  - vm_compute. reflexivity.
Defined.

(** ** Texts that the parsers read back *)

Lemma plain_append (a b : string) : plain a -> plain b -> plain (a ++ b).
Proof. unfold plain. intros Ha Hb. now rewrite has_char_append, Ha, Hb. Qed.

Lemma c_str_append (a b : string) :
  plain a -> c_str (a ++ b) = (a ++ c_str b)%string.
Proof.
  induction a as [|ch a IH]; [reflexivity|].
  intros H. apply plain_cons in H as [N H].
  cbn [String.append c_str]. now rewrite N, IH.
Qed.

Lemma get_append_length (a : string) (ch : ascii) (b : string) :
  String.get (String.length a) (a ++ String ch b) = Some ch.
Proof. induction a as [|x a IH]; [reflexivity | exact IH]. Qed.

Lemma substring_append_prefix (a b : string) :
  substring 0 (String.length a) (a ++ b) = a.
Proof.
  induction a as [|x a IH]; [apply substring_0_0|].
  cbn [String.length String.append substring]. now rewrite IH.
Qed.

Lemma drop_append (a b : string) (k : nat) :
  drop (String.length a + k) (a ++ b) = drop k b.
Proof.
  induction a as [|x a IH]; [reflexivity|].
  cbn [String.length String.append Nat.add]. now rewrite drop_S.
Qed.

Lemma json_escape_all_clean (data : string) (ch : ascii) :
  json_escape ch <> String ch EmptyString ->
  has_char ch (json_escape_all data) = false.
Proof.
  intros H. induction data as [|x data IH]; [reflexivity|].
  cbn [json_escape_all]. rewrite has_char_append, IH.
  now rewrite (json_escape_clean x ch H).
Qed.

Lemma json_escape_plain (data : string) :
  plain data -> plain (json_escape_all data).
Proof.
  induction data as [|x data IH]; [reflexivity|].
  intros H. apply plain_cons in H as [N H].
  cbn [json_escape_all]. apply plain_append; [|now apply IH].
  revert N. destruct x as [[] [] [] [] [] [] [] []]; intros N;
    try reflexivity; discriminate N.
Qed.

(** The body of a quoted string without quote, backslash or NUL is read
    up to the closing quote as it stands. *)
Lemma read_string_clean (t rest : string) :
  plain t -> has_char "034" t = false -> has_char "\" t = false ->
  read_string (t ++ String "034" rest) = Some (t, rest).
Proof.
  induction t as [|ch t IH]; intros Hp Hq Hb.
  - reflexivity.
  - apply plain_cons in Hp as [N Hp].
    cbn [has_char] in Hq, Hb.
    apply orb_false_iff in Hq as [Q Hq]. apply orb_false_iff in Hb as [B Hb].
    cbn [String.append read_string]. rewrite N, Q, B.
    now rewrite (IH Hp Hq Hb).
Qed.

Lemma DumpWhiteSpace_nil : DumpWhiteSpace "" = ""%string.
Proof. reflexivity. Qed.

Lemma DumpWhiteSpace_c_str (s : string) :
  DumpWhiteSpace (c_str s) = DumpWhiteSpace s.
Proof.
  induction s as [|ch s IH]; [reflexivity|].
  cbn [c_str DumpWhiteSpace].
  destruct (ch =? NUL)%char eqn:E.
  - apply Ascii.eqb_eq in E. subst ch. reflexivity.
  - cbn [DumpWhiteSpace]. destruct (is_dump_space ch); [exact IH|].
    cbn [c_str]. rewrite E. now rewrite c_str_idem.
Qed.

(** [GetObj] on a quoted string. *)
Lemma GetObj_string (strtod : string -> float * string) (fuel : nat)
    (t rest : string) (next : ptr) :
  plain t -> has_char "034" t = false -> has_char "\" t = false ->
  GetObj strtod (S fuel) (String "034" (t ++ String "034" rest)) next =
    Returns ((Some (COString next t), At (DumpWhiteSpace rest)),
             (next + 1)%N).
Proof.
  intros Hp Hq Hb.
  cbn [GetObj DumpWhiteSpace].
  change (is_dump_space "034") with false. cbv iota.
  cbn [c_str]. change (("034" =? NUL)%char) with false. cbv iota.
  rewrite (c_str_append t (String "034" rest) Hp).
  cbn [first_char]. rewrite drop_S, drop_0.
  change (("034" =? "{")%char) with false.
  change (("034" =? "[")%char) with false.
  change (("034" =? "034")%char) with true. cbv iota.
  cbn [c_str]. change (("034" =? NUL)%char) with false. cbv iota.
  rewrite (read_string_clean t (c_str rest) Hp Hq Hb).
  unfold new_COString, bind, new, ret. rewrite (c_str_plain t Hp).
  now rewrite DumpWhiteSpace_c_str.
Qed.

(** The JSON text of a String, parsed. *)
Lemma parseJson_of_json_string (strtod : string -> float * string)
    (data : string) (next : ptr) :
  plain data ->
  parseJson strtod (COString_toJsonString data) next =
    Returns (Some (COString next (json_escape_all data)), (next + 1)%N).
Proof.
  intros Hp. unfold COString_toJsonString, quote, parseJson.
  cbn [String.append skip_json_space].
  change (is_json_space "034") with false. cbv iota.
  assert (Hc : plain (json_escape_all data)) by now apply json_escape_plain.
  cbn [c_str]. change (("034" =? NUL)%char) with false. cbv iota.
  rewrite (c_str_append (json_escape_all data) (String "034" "") Hc).
  cbn [c_str first_char].
  change (("034" =? NUL)%char) with false. cbv iota.
  change (isdigit "034") with false. cbv iota.
  unfold nonempty. cbn [first_char].
  change (("034" =? NUL)%char) with false. cbn [negb].
  unfold bind at 1.
  rewrite GetObj_string;
    [reflexivity | exact Hc | apply json_escape_all_clean; discriminate
    | apply json_escape_all_clean; discriminate].
Qed.

(** The characters that [json_escape] does not copy are the case labels of
    the [switch]. *)
Lemma reserved_or_copied (ch : ascii) :
  In ch reserved \/ json_escape ch = String ch EmptyString.
Proof.
  destruct ch as [[] [] [] [] [] [] [] []];
    first [right; reflexivity | left; cbn [reserved In]; tauto].
Qed.

Lemma reserved_escaped (ch : ascii) (rest : string) :
  In ch reserved ->
  json_escape ch <> String ch EmptyString /\
  first_char (json_escape ch ++ rest) <> ch.
Proof.
  cbn [reserved In]. intros H.
  repeat (destruct H as [H|H]; [subst ch; split; discriminate|]).
  contradiction.
Qed.

Lemma reserved_absent (ch : ascii) (data : string) :
  In ch reserved -> has_char ch (json_escape_all data) = false.
Proof.
  intros H. apply json_escape_all_clean. apply (reserved_escaped ch ""), H.
Qed.

(** The escaped text is the content itself exactly when the content holds
    no character of [reserved]. *)
Lemma json_escape_all_fixed (data : string) :
  json_escape_all data = data <->
  (forall ch, In ch reserved -> has_char ch data = false).
Proof.
  induction data as [|x data IH]; [split; reflexivity|].
  cbn [json_escape_all]. split.
  - intros E ch Hch. destruct (reserved_or_copied x) as [Hx|Hx].
    + exfalso. apply (proj2 (reserved_escaped x (json_escape_all data) Hx)).
      now rewrite E.
    + rewrite Hx in E. cbn [String.append] in E. injection E as E.
      cbn [has_char]. rewrite (proj1 IH E ch Hch), orb_false_r.
      apply Ascii.eqb_neq. intros ->.
      exact (proj1 (reserved_escaped ch "" Hch) Hx).
  - intros H. destruct (reserved_or_copied x) as [Hx|Hx].
    + specialize (H x Hx). cbn [has_char] in H.
      now rewrite Ascii.eqb_refl in H.
    + rewrite Hx. cbn [String.append]. f_equal. apply IH.
      intros ch Hch. specialize (H ch Hch). cbn [has_char] in H.
      now apply orb_false_iff in H.
Qed.

(** X17.  Parsing the JSON text of a String gives a String again, and its
    content is the escaped text: the parser does not undo the [%XX] escapes
    of [toJsonString].  The content is the original exactly when the String
    holds none of the characters that [toJsonString] replaces. *)
Theorem X17_json_string_comes_back_escaped
    (strtod : string -> float * string) (data : string) (next : ptr) :
  plain data ->
  parseJson strtod (COString_toJsonString data) next =
    Returns (Some (COString next (json_escape_all data)), (next + 1)%N) /\
  (json_escape_all data = data <->
   (forall ch, In ch reserved -> has_char ch data = false)).
Proof.
  intros Hp. split; [now apply parseJson_of_json_string|].
  apply json_escape_all_fixed.
Qed.

Lemma X17_json_string_comes_back_escaped_witness :
  (parseJson c_strtod (COString_toJsonString "a<b") 7%N =
     Returns (Some (COString 7 (json_escape_all "a<b")), (7 + 1)%N) /\
   (json_escape_all "a<b" = "a<b"%string <->
    (forall ch, In ch reserved -> has_char ch "a<b" = false))) /\
  json_escape_all "a<b" = "a%3Cb"%string.
Proof.
  split; [|reflexivity].
  apply (X17_json_string_comes_back_escaped c_strtod "a<b" 7%N).
  reflexivity.
Defined.

(** ** Decimal texts *)

Lemma plain_string_of_uint (d : Decimal.uint) :
  plain (NilEmpty.string_of_uint d).
Proof. unfold plain. induction d; cbn; auto. Qed.

Lemma plain_decimal (z : Z) : plain (decimal z).
Proof.
  unfold decimal.
  destruct z as [|p|p]; cbn [Z.to_int NilZero.string_of_int].
  - reflexivity.
  - rewrite string_of_uint_nonnil by apply DecimalPos.Unsigned.to_uint_nonnil.
    apply plain_string_of_uint.
  - rewrite string_of_uint_nonnil by apply DecimalPos.Unsigned.to_uint_nonnil.
    apply (plain_append "-"); [reflexivity | apply plain_string_of_uint].
Qed.

(** The decimal text of a number that is not negative starts with a
    digit. *)
Lemma decimal_head (z : Z) (rest : string) :
  0 <= z ->
  exists ch tl, (decimal z ++ rest)%string = String ch tl /\ isdigit ch = true.
Proof.
  intros Hz. unfold decimal.
  destruct z as [|p|p]; [| |lia]; cbn [Z.to_int NilZero.string_of_int].
  - exists "0"%char, rest. split; reflexivity.
  - pose proof (DecimalPos.Unsigned.to_uint_nonnil p) as Hn.
    rewrite (string_of_uint_nonnil _ Hn).
    destruct (Pos.to_uint p); [congruence| | | | | | | | | |];
      cbn [NilEmpty.string_of_uint String.append];
      eexists; eexists; (split; [reflexivity|reflexivity]).
Qed.

Lemma digit_not_space (ch : ascii) :
  isdigit ch = true ->
  is_json_space ch = false /\ is_dump_space ch = false /\ (ch =? NUL)%char = false.
Proof.
  destruct ch as [[] [] [] [] [] [] [] []]; vm_compute; intros H;
    try discriminate H; repeat split.
Qed.

Lemma nzhead_head (u u' : Decimal.uint) : Decimal.nzhead u <> Decimal.D0 u'.
Proof. induction u; cbn [Decimal.nzhead]; try discriminate. exact IHu. Qed.

(** No leading zero in the digits of a positive number. *)
Lemma to_uint_head (p : positive) (u : Decimal.uint) :
  Pos.to_uint p <> Decimal.D0 u.
Proof.
  intros E.
  pose proof (DecimalPos.Unsigned.to_of (Pos.to_uint p)) as H.
  rewrite DecimalPos.Unsigned.of_to in H. cbn [N.to_uint] in H.
  rewrite E in H. unfold Decimal.unorm in H. cbn [Decimal.nzhead] in H.
  destruct (Decimal.nzhead u) eqn:N.
  - injection H as H. subst u.
    exact (DecimalPos.Unsigned.to_uint_nonzero p E).
  - symmetry in H. rewrite <- N in H. exact (nzhead_head _ _ H).
  - discriminate H.
  - discriminate H.
  - discriminate H.
  - discriminate H.
  - discriminate H.
  - discriminate H.
  - discriminate H.
  - discriminate H.
  - discriminate H.
Qed.

(** In base 0 too, [strtoll] reads back what [printf( "%ld" )] writes,
    when no [x] follows. *)
Lemma strtol_decimal_0 (z : Z) (rest : string) :
  - 2 ^ 63 <= z <= 2 ^ 63 - 1 ->
  isdigit (first_char rest) = false -> no_x rest ->
  strtol (decimal z ++ rest) 0 = (z, rest).
Proof.
  intros Hz Hr [Hx HX].
  destruct (Z.eq_dec z 0) as [->|Hnz].
  - unfold decimal. cbn [Z.to_int NilZero.string_of_int NilZero.string_of_uint
                         NilEmpty.string_of_uint String.append].
    unfold strtol. cbn [skip_space]. change (isspace "0") with false. cbv iota.
    change (0 =? 0) with true. cbn [orb]. cbv iota.
    assert (Hh : hex_prefix (String "0" rest) = None).
    { unfold hex_prefix. destruct rest as [|x [|h tl]]; try reflexivity.
      cbn [first_char] in Hx, HX. now rewrite Hx, HX. }
    rewrite Hh. cbn [read_base]. change (digit_of "0") with (Some 0).
    cbv iota. change (0 <? 8) with true. cbv iota.
    assert (Hs : read_base 8 rest (8 * 0 + 0) (0 + 1) = (0, 1, rest)).
    { destruct rest as [|ch tl]; [reflexivity|]. cbn [read_base first_char] in *.
      pose proof (digit_of_stops ch Hr) as Hd.
      destruct (digit_of ch) as [d|]; [|reflexivity].
      apply Z.ltb_ge in Hd.
      destruct (d <? 8) eqn:E8; [apply Z.ltb_lt in E8; lia | reflexivity]. }
    rewrite Hs. reflexivity.
  - rewrite <- (strtol_decimal z rest Hz Hr).
    unfold decimal, strtol.
    assert (G : forall d tl,
               d <> Decimal.Nil -> (forall u, d <> Decimal.D0 u) ->
               (let '(base, s3) :=
                  match (if (0 =? 0) || (0 =? 16)
                         then hex_prefix (NilEmpty.string_of_uint d ++ tl)
                         else None) with
                  | Some body => (16, body)
                  | None =>
                      if 0 =? 0
                      then (match (NilEmpty.string_of_uint d ++ tl)%string with
                            | String "0" _ => 8 | _ => 10 end,
                            (NilEmpty.string_of_uint d ++ tl)%string)
                      else (0, (NilEmpty.string_of_uint d ++ tl)%string)
                  end in (base, s3)) =
               (10, (NilEmpty.string_of_uint d ++ tl)%string)).
    { intros d tl Hn H0.
      destruct d; [congruence | exfalso; eapply H0; reflexivity | | | | | | | | |];
        reflexivity. }
    destruct z as [|p|p]; [congruence| |];
      cbn [Z.to_int NilZero.string_of_int];
      pose proof (DecimalPos.Unsigned.to_uint_nonnil p) as Hn;
      pose proof (to_uint_head p) as H0;
      rewrite (string_of_uint_nonnil _ Hn);
      specialize (G (Pos.to_uint p) rest Hn H0).
    + rewrite skip_space_digit by now apply string_of_uint_first.
      rewrite (digits_not_sign _ rest Hn).
      change (10 =? 0) with false. change (10 =? 16) with false. cbn [orb]. cbv iota.
      destruct (match (if (0 =? 0) || (0 =? 16)
                         then hex_prefix (NilEmpty.string_of_uint (Pos.to_uint p) ++ rest)
                         else None) with
                  | Some body => (16, body)
                  | None => _ end) as [b s3].
      injection G as -> ->. reflexivity.
    + cbn [String.append skip_space].
      change (isspace "-") with false. cbv iota.
      change (10 =? 0) with false. change (10 =? 16) with false. cbn [orb]. cbv iota.
      destruct (match (if (0 =? 0) || (0 =? 16)
                         then hex_prefix (NilEmpty.string_of_uint (Pos.to_uint p) ++ rest)
                         else None) with
                  | Some body => (16, body)
                  | None => _ end) as [b s3].
      injection G as -> ->. reflexivity.
Qed.

(** ** Net strings read back *)

Lemma char_at_append (a : string) (ch : ascii) (b : string) :
  plain a -> (ch =? NUL)%char = false ->
  char_at (String.length a) (a ++ String ch b) = ch.
Proof.
  intros Ha Hc. unfold char_at. rewrite (c_str_append a _ Ha).
  cbn [c_str]. rewrite Hc. now rewrite get_append_length.
Qed.

(** The head of a net string: the length, the colon, and then the
    payload. *)
Lemma tnet_head (body rest : string) :
  Z.of_nat (String.length body) < 2 ^ 31 ->
  let text := (decimal (Z.of_nat (String.length body)) ++ ":" ++ body ++ rest)%string in
  strtol text 10 = (Z.of_nat (String.length body), (":" ++ body ++ rest)%string) /\
  Z.to_nat (wrap 32 (Z.of_nat (String.length body))) = String.length body.
Proof.
  intros Hl. cbv zeta. split.
  - apply strtol_decimal; [|reflexivity].
    change (2 ^ 63) with 9223372036854775808.
    change (2 ^ 31) with 2147483648 in Hl. lia.
  - unfold wrap. change (2 ^ 32) with 4294967296.
    change (2 ^ 31) with 2147483648 in Hl.
    rewrite Z.mod_small by lia. apply Nat2Z.id.
Qed.

Lemma escape_std_plain (s : string) : plain s -> plain (escape_std s).
Proof.
  induction s as [|ch s IH]; [reflexivity|].
  intros H. apply plain_cons in H as [N H]. cbn [escape_std].
  apply plain_append; [|now apply IH].
  rewrite N. destruct (ch =? "034")%char; [reflexivity|].
  destruct (ch =? "%")%char; [reflexivity|].
  unfold plain. cbn [has_char]. now rewrite N.
Qed.

(** The length that a net string announces lies inside the text when the
    payload and its type are there. *)
Lemma tnet_bounds (a : string) (ch : ascii) (b : string) :
  plain a -> (ch =? NUL)%char = false ->
  (String.length (c_str (a ++ String ch b)) <? String.length a)%nat = false /\
  (String.length a <? String.length (c_str (a ++ String ch b)))%nat = true.
Proof.
  intros Ha Hc. rewrite (c_str_append a _ Ha). cbn [c_str]. rewrite Hc.
  assert (E : String.length (a ++ String ch (c_str b)) =
              (String.length a + S (String.length (c_str b)))%nat).
  { clear. induction a as [|x a IH]; [reflexivity|]. cbn. now rewrite IH. }
  rewrite E. split; [apply Nat.ltb_ge | apply Nat.ltb_lt]; lia.
Qed.

(** [GetTNetstring] on the net string of a text. *)
Lemma GetTNetstring_string (strtod : string -> float * string) (fuel : nat)
    (s rest : string) (next : ptr) :
  plain s -> Z.of_nat (String.length s) < 2 ^ 31 ->
  GetTNetstring strtod (S fuel)
    (decimal (Z.of_nat (String.length s)) ++ ":" ++ s ++ String "," rest) next =
    Returns ((Some (COString next (escape_std s)), At (c_str rest)),
             (next + 1)%N).
Proof.
  intros Hp Hl.
  destruct (tnet_head s (String "," rest) Hl) as [H1 H2].
  destruct (tnet_bounds s "," (c_str rest) Hp eq_refl) as [G1 G2].
  cbn [GetTNetstring]. rewrite H1, H2.
  cbn [String.append skip_json_space].
  change (is_json_space ":") with false. cbv iota.
  cbn [c_str]. change ((":" =? NUL)%char) with false. cbv iota.
  rewrite (c_str_append s _ Hp). cbn [c_str].
  change (("," =? NUL)%char) with false. cbv iota.
  cbn [first_char]. change ((":" =? NUL)%char) with false. cbv iota.
  rewrite drop_S, drop_0.
  change ((":" =? ":")%char) with true. cbv iota.
  rewrite G1, G2.
  rewrite (char_at_append s "," _ Hp eq_refl).
  change (("," =? ",")%char) with true. cbv iota.
  rewrite substring_append_prefix.
  rewrite (drop_append s _ 1). rewrite drop_S, drop_0.
  unfold new_COString_std, bind, new, ret.
  now rewrite (c_str_plain _ (escape_std_plain s Hp)).
Qed.

(** A text that starts with a digit goes to [GetTNetstring]. *)
Lemma parseJson_digit (strtod : string -> float * string) (text : string)
    (next : ptr) :
  plain text -> isdigit (first_char text) = true ->
  parseJson strtod text next =
    (r <- GetTNetstring strtod (S (String.length text)) text ;; ret (fst r)) next.
Proof.
  intros Hp Hd. unfold parseJson.
  destruct text as [|ch tl]; [discriminate Hd|].
  cbn [first_char] in Hd.
  destruct (digit_not_space ch Hd) as (Hs & _ & _).
  cbn [skip_json_space]. rewrite Hs. rewrite (c_str_plain _ Hp).
  cbn [first_char]. now rewrite Hd.
Qed.

Lemma decimal_first_digit (z : Z) (rest : string) :
  0 <= z -> isdigit (first_char (decimal z ++ rest)) = true.
Proof.
  intros Hz. destruct (decimal_head z rest Hz) as (ch & tl & -> & H). exact H.
Qed.

Lemma escape_std_clean (s : string) :
  has_char "034" s = false -> has_char "%" s = false -> plain s ->
  escape_std s = s.
Proof.
  induction s as [|ch s IH]; [reflexivity|].
  cbn [has_char]. intros Hq Hc Hp.
  apply orb_false_iff in Hq as [Q Hq]. apply orb_false_iff in Hc as [C Hc].
  apply plain_cons in Hp as [N Hp].
  cbn [escape_std]. rewrite Q, C, N. cbn [String.append]. now rewrite IH.
Qed.


Lemma length_append (a b : string) :
  String.length (a ++ b) = (String.length a + String.length b)%nat.
Proof. induction a as [|x a IH]; [reflexivity|]. cbn. now rewrite IH. Qed.

(** X9.  The JSON text of a String, whatever its content, is a quote, a
    body and a quote, and the body holds no quote, brace, angle bracket,
    backslash, apostrophe, caret, ampersand, carriage return, newline, bell
    or tab; a content without any of these characters is written between
    the quotes as it is. *)
Theorem X9_json_string_has_no_reserved_character (data : string) :
  let text := COString_toJsonString data in
  let body := substring 1 (String.length text - 2) text in
  text = (quote ++ body ++ quote)%string /\
  (forall ch, In ch reserved -> has_char ch body = false) /\
  ((forall ch, In ch reserved -> has_char ch data = false) ->
   text = (quote ++ data ++ quote)%string).
Proof.
  cbv zeta. unfold COString_toJsonString, quote.
  assert (E : substring 1
                (String.length
                   (String "034" "" ++ json_escape_all data ++ String "034" "") - 2)
                (String "034" "" ++ json_escape_all data ++ String "034" "") =
              json_escape_all data).
  { cbn [String.append String.length substring].
    rewrite length_append. cbn [String.length].
    replace (S (String.length (json_escape_all data) + 1) - 2)%nat
      with (String.length (json_escape_all data)) by lia.
    apply substring_append_prefix. }
  rewrite E. split; [reflexivity|]. split.
  - intros ch Hch. now apply reserved_absent.
  - intros H. now rewrite (proj2 (json_escape_all_fixed data) H).
Qed.

Lemma X9_json_string_has_no_reserved_character_witness :
  (let text := COString_toJsonString (String "034" "a{b") in
   let body := substring 1 (String.length text - 2) text in
   text = (quote ++ body ++ quote)%string /\
   (forall ch, In ch reserved -> has_char ch body = false) /\
   ((forall ch, In ch reserved -> has_char ch (String "034" "a{b") = false) ->
    text = (quote ++ String "034" "a{b" ++ quote)%string)) /\
  COString_toJsonString (String "034" "a{b") =
    String "034" ("%22a%7Bb" ++ quote) /\
  has_char "{" "%22a%7Bb" = false /\
  COString_toJsonString "a b" = String "034" ("a b" ++ quote).
Proof.
  split; [|repeat split].
  exact (X9_json_string_has_no_reserved_character (String "034" "a{b")).
Defined.

Lemma length_escape_std (s : string) :
  (String.length s <= String.length (escape_std s))%nat /\
  (has_char "034" s || has_char "%" s || has_char NUL s = true ->
   (String.length s < String.length (escape_std s))%nat).
Proof.
  induction s as [|ch s [IH1 IH2]]; [split; [reflexivity | discriminate]|].
  cbn [escape_std has_char String.length]. rewrite length_append.
  destruct (ch =? "034")%char; [cbn [String.length orb]; split; intros; lia|].
  destruct (ch =? "%")%char; [cbn [String.length orb]; split; intros; lia|].
  destruct (ch =? NUL)%char; [cbn [String.length orb]; split; intros; lia|].
  cbn [String.length orb Nat.add]. split; [lia|]. intros H. apply IH2 in H. lia.
Qed.

(** The net string of a String, parsed. *)
Lemma parseJson_of_net_string (format_lf : Z -> float -> string)
    (strtod : string -> float * string) (p : ptr) (s : string) (next : ptr) :
  plain s -> Z.of_nat (String.length s) < 2 ^ 31 ->
  exists text,
    toNetString format_lf (COString p s) = Some text /\
    parseJson strtod text next =
      Returns (Some (COString next (escape_std s)), (next + 1)%N).
Proof.
  intros Hp Hl. eexists. split; [reflexivity|].
  unfold CppON_toNetString, strlen. rewrite (c_str_plain s Hp).
  rewrite parseJson_digit.
  - unfold bind at 1.
    rewrite (GetTNetstring_string strtod _ s "" next Hp Hl). reflexivity.
  - apply plain_append; [apply plain_decimal|].
    apply (plain_append ":"); [reflexivity|].
    apply plain_append; [exact Hp | reflexivity].
  - apply decimal_first_digit. lia.
Qed.

(** X18.  The net string of a String without a NUL parses to a String
    whose content has every quote replaced by [%22] and every percent sign
    by [%25]; the content is the original exactly when the String holds
    neither. *)
Theorem X18_net_string_of_a_string (format_lf : Z -> float -> string)
    (strtod : string -> float * string) (p : ptr) (s : string) (next : ptr) :
  plain s -> Z.of_nat (String.length s) < 2 ^ 31 ->
  exists text,
    toNetString format_lf (COString p s) = Some text /\
    parseJson strtod text next =
      Returns (Some (COString next (escape_std s)), (next + 1)%N) /\
    (escape_std s = s <->
     has_char "034" s = false /\ has_char "%" s = false).
Proof.
  intros Hp Hl.
  destruct (parseJson_of_net_string format_lf strtod p s next Hp Hl)
    as (text & H1 & H2).
  exists text. split; [exact H1|]. split; [exact H2|]. split.
  - intros E. destruct (length_escape_std s) as [_ H].
    destruct (has_char "034" s) eqn:Q.
    + specialize (H eq_refl). rewrite E in H. lia.
    + destruct (has_char "%" s) eqn:C; [|split; reflexivity].
      specialize (H eq_refl). rewrite E in H. lia.
  - intros [Q C]. now apply escape_std_clean.
Qed.

Lemma X18_net_string_of_a_string_witness :
  (exists text,
    toNetString printf_lf (COString 1 "50%") = Some text /\
    parseJson c_strtod text 7%N =
      Returns (Some (COString 7 (escape_std "50%")), (7 + 1)%N) /\
    (escape_std "50%" = "50%"%string <->
     has_char "034" "50%" = false /\ has_char "%" "50%" = false)) /\
  toNetString printf_lf (COString 1 "50%") = Some "3:50%,"%string /\
  escape_std "50%" = "50%25"%string.
Proof.
  split; [|split; reflexivity].
  apply (X18_net_string_of_a_string printf_lf c_strtod 1%N "50%" 7%N).
  - reflexivity.
  - vm_compute. reflexivity.
Defined.

(** ** The length of a decimal text *)

Lemma uint_value_lower (d : Decimal.uint) (acc : Z) :
  0 <= acc -> acc * 10 ^ Z.of_nat (Decimal.nb_digits d) <= uint_value d acc.
Proof.
  revert acc. induction d; intros acc Ha;
    cbn [Decimal.nb_digits uint_value];
    [rewrite Z.pow_0_r; lia | | | | | | | | | |];
    rewrite Nat2Z.inj_succ, Z.pow_succ_r by lia;
    (etransitivity; [|apply IHd; lia]);
    pose proof (Z.pow_nonneg 10 (Z.of_nat (Decimal.nb_digits d)) ltac:(lia));
    nia.
Qed.

Lemma length_string_of_uint (d : Decimal.uint) :
  String.length (NilEmpty.string_of_uint d) = Decimal.nb_digits d.
Proof. induction d; cbn; congruence. Qed.

Lemma nb_digits_bound (p : positive) :
  Z.pos p < 2 ^ 64 -> (Decimal.nb_digits (Pos.to_uint p) <= 20)%nat.
Proof.
  intros Hp.
  pose proof (DecimalPos.Unsigned.of_to p) as Hv.
  apply (f_equal Z.of_N) in Hv. rewrite of_uint_value in Hv.
  change (Z.of_N (N.pos p)) with (Z.pos p) in Hv.
  pose proof (to_uint_head p) as H0.
  pose proof (DecimalPos.Unsigned.to_uint_nonnil p) as Hn.
  destruct (Nat.le_gt_cases (Decimal.nb_digits (Pos.to_uint p)) 20) as [|Hgt];
    [assumption|exfalso].
  assert (Hlow : forall d k, 1 <= k ->
            10 ^ Z.of_nat (Decimal.nb_digits d) <= uint_value d k).
  { intros d k Hk. pose proof (uint_value_lower d k ltac:(lia)).
    pose proof (Z.pow_nonneg 10 (Z.of_nat (Decimal.nb_digits d)) ltac:(lia)). nia. }
  assert (Hbig : forall d, (20 <= Decimal.nb_digits d)%nat ->
            2 ^ 64 <= 10 ^ Z.of_nat (Decimal.nb_digits d)).
  { intros d Hd. transitivity (10 ^ 20); [vm_compute; discriminate|].
    apply Z.pow_le_mono_r; lia. }
  destruct (Pos.to_uint p) as [|d|d|d|d|d|d|d|d|d|d];
    [congruence | exfalso; eapply H0; reflexivity | | | | | | | | |];
    cbn [Decimal.nb_digits uint_value] in Hgt, Hv;
    (match type of Hv with
     | uint_value _ ?k = _ =>
         pose proof (Hlow d k ltac:(lia)); pose proof (Hbig d ltac:(lia)); lia
     end).
Qed.

Lemma length_decimal (z : Z) :
  - 2 ^ 63 <= z <= 2 ^ 63 - 1 -> (String.length (decimal z) <= 21)%nat.
Proof.
  intros Hz. unfold decimal. change (2 ^ 63) with 9223372036854775808 in Hz.
  destruct z as [|p|p]; cbn [Z.to_int NilZero.string_of_int].
  - cbn. lia.
  - rewrite string_of_uint_nonnil by apply DecimalPos.Unsigned.to_uint_nonnil.
    rewrite length_string_of_uint.
    pose proof (nb_digits_bound p ltac:(change (2 ^ 64) with 18446744073709551616; lia)).
    lia.
  - rewrite string_of_uint_nonnil by apply DecimalPos.Unsigned.to_uint_nonnil.
    cbn [String.append String.length]. rewrite length_string_of_uint.
    pose proof (nb_digits_bound p ltac:(change (2 ^ 64) with 18446744073709551616; lia)).
    lia.
Qed.

(** [GetTNetstring] on the net string of a decimal number. *)
Lemma GetTNetstring_integer (strtod : string -> float * string) (fuel : nat)
    (v : Z) (rest : string) (next : ptr) :
  - 2 ^ 63 <= v <= 2 ^ 63 - 1 ->
  GetTNetstring strtod (S fuel)
    (decimal (Z.of_nat (String.length (decimal v))) ++ ":" ++ decimal v ++
     String "#" rest) next =
    Returns ((Some (COInteger next 8 true (wrap 64 v)), At (c_str rest)),
             (next + 1)%N).
Proof.
  intros Hv.
  pose proof (length_decimal v Hv) as Hlen.
  assert (Hl : Z.of_nat (String.length (decimal v)) < 2 ^ 31)
    by (change (2 ^ 31) with 2147483648; lia).
  pose proof (plain_decimal v) as Hp.
  destruct (tnet_head (decimal v) (String "#" rest) Hl) as [H1 H2].
  destruct (tnet_bounds (decimal v) "#" (c_str rest) Hp eq_refl) as [G1 G2].
  cbn [GetTNetstring]. rewrite H1, H2.
  cbn [String.append skip_json_space].
  change (is_json_space ":") with false. cbv iota.
  cbn [c_str]. change ((":" =? NUL)%char) with false. cbv iota.
  rewrite (c_str_append (decimal v) _ Hp). cbn [c_str].
  change (("#" =? NUL)%char) with false. cbv iota.
  cbn [first_char]. change ((":" =? NUL)%char) with false. cbv iota.
  rewrite drop_S, drop_0.
  change ((":" =? ":")%char) with true. cbv iota.
  rewrite G1, G2.
  rewrite (char_at_append (decimal v) "#" _ Hp eq_refl).
  change (("#" =? ",")%char) with false.
  change (("#" =? "#")%char) with true. cbv iota.
  rewrite (drop_append (decimal v) _ 1). rewrite drop_S, drop_0.
  rewrite (c_str_append (decimal v) _ Hp). cbn [c_str].
  change (("#" =? NUL)%char) with false. cbv iota.
  unfold strtoll.
  rewrite (strtol_decimal_0 v (String "#" (c_str (c_str rest))) Hv eq_refl
             (conj eq_refl eq_refl)).
  unfold new_COInteger, bind, new, ret. cbn [fst].
  reflexivity.
Qed.

Lemma longValue_wrap_64 (v : Z) :
  - 2 ^ 63 <= v <= 2 ^ 63 - 1 -> longValue 8 (wrap 64 v) = v.
Proof.
  intros Hv. unfold longValue. cbn [Z.eqb Pos.eqb orb Z.mul Pos.mul].
  unfold sext, wrap. change (2 ^ (64 - 1)) with (2 ^ 63).
  change (2 ^ 63) with 9223372036854775808 in *.
  change (2 ^ 64) with 18446744073709551616.
  rewrite Z.mod_mod by lia.
  destruct (Z_lt_le_dec v 0).
  - rewrite <- (Z.mod_add v 1) by lia. rewrite Z.mod_small by lia.
    destruct (Z.ltb_spec (v + 1 * 18446744073709551616) 9223372036854775808); lia.
  - rewrite Z.mod_small by lia.
    destruct (Z.ltb_spec v 9223372036854775808); lia.
Qed.

(** The net string of an Integer of two, four or eight bytes, parsed. *)
Lemma parseJson_of_net_integer (format_lf : Z -> float -> string)
    (strtod : string -> float * string) (p : ptr) (siz : Z) (u : bool)
    (data : Z) (next : ptr) :
  In siz [2; 4; 8] ->
  exists text,
    toNetString format_lf (COInteger p siz u data) = Some text /\
    parseJson strtod text next =
      Returns (Some (COInteger next 8 true (wrap 64 (longValue siz data))),
               (next + 1)%N) /\
    longValue 8 (wrap 64 (longValue siz data)) = longValue siz data.
Proof.
  intros Hs.
  assert (Hs' : In siz [1; 2; 4; 8]) by (cbn [In] in *; tauto).
  pose proof (longValue_range siz data Hs') as Hr.
  assert (Hv : - 2 ^ 63 <= longValue siz data <= 2 ^ 63 - 1).
  { cbn [In] in Hs. destruct Hs as [<-|[<-|[<-|[]]]]; cbn in Hr |- *; lia. }
  assert (Hb : COInteger_buf siz data = decimal (longValue siz data)).
  { cbn [In] in Hs. destruct Hs as [<-|[<-|[<-|[]]]]; reflexivity. }
  eexists. split; [reflexivity|]. split; [|now apply longValue_wrap_64].
  rewrite Hb. unfold CppON_toNetString, strlen.
  pose proof (plain_decimal (longValue siz data)) as Hp.
  rewrite (c_str_plain _ Hp).
  rewrite parseJson_digit.
  - unfold bind at 1.
    rewrite (GetTNetstring_integer strtod _ _ "" next Hv). reflexivity.
  - apply plain_append; [apply plain_decimal|].
    apply (plain_append ":"); [reflexivity|].
    apply plain_append; [exact Hp | reflexivity].
  - apply decimal_first_digit. lia.
Qed.

(** X19.  The net string of an Integer of two, four or eight bytes parses
    to an Integer of eight bytes, marked unsigned, that holds the same
    value. *)
Theorem X19_net_string_of_an_integer (format_lf : Z -> float -> string)
    (strtod : string -> float * string) (p : ptr) (siz : Z) (u : bool)
    (data : Z) (next : ptr) :
  In siz [2; 4; 8] ->
  exists text,
    toNetString format_lf (COInteger p siz u data) = Some text /\
    parseJson strtod text next =
      Returns (Some (COInteger next 8 true (wrap 64 (longValue siz data))),
               (next + 1)%N) /\
    longValue 8 (wrap 64 (longValue siz data)) = longValue siz data.
Proof. exact (parseJson_of_net_integer format_lf strtod p siz u data next). Qed.

Lemma X19_net_string_of_an_integer_witness :
  (exists text,
    toNetString printf_lf (COInteger 1 4 false (wrap 32 (-25))) = Some text /\
    parseJson c_strtod text 7%N =
      Returns (Some (COInteger 7 8 true
                       (wrap 64 (longValue 4 (wrap 32 (-25))))), (7 + 1)%N) /\
    longValue 8 (wrap 64 (longValue 4 (wrap 32 (-25)))) =
      longValue 4 (wrap 32 (-25))) /\
  toNetString printf_lf (COInteger 1 4 false (wrap 32 (-25))) =
    Some "3:-25#"%string /\
  toNetString printf_lf (COInteger 1 1 false 65) = Some "1:A#"%string /\
  parseJson c_strtod "1:A#" 7%N = Returns (Some (COInteger 7 8 true 0), 8%N).
Proof.
  split; [|repeat split].
  apply (X19_net_string_of_an_integer printf_lf c_strtod 1%N 4 false
           (wrap 32 (-25)) 7%N).
  cbn [In]. right. left. reflexivity.
Defined.

(** ** A number as the whole JSON text *)

Lemma has_dot_digits (d : Decimal.uint) :
  has_dot (NilEmpty.string_of_uint d) = false.
Proof. induction d; cbn; auto. Qed.

Lemma has_dot_digits_tail (d : Decimal.uint) :
  has_dot (drop 1 (NilEmpty.string_of_uint d)) = false.
Proof.
  destruct d; [reflexivity| | | | | | | | | |];
    cbn [NilEmpty.string_of_uint]; rewrite drop_S, drop_0; apply has_dot_digits.
Qed.

(** A text of digits alone is taken for a net string, and a net string
    needs its colon. *)
Lemma parseJson_digits (strtod : string -> float * string) (v : Z)
    (next : ptr) :
  0 <= v <= 2 ^ 63 - 1 ->
  parseJson strtod (decimal v) next = Returns (None, next).
Proof.
  intros Hv.
  assert (Hd : isdigit (first_char (decimal v)) = true).
  { rewrite <- (append_nil_r (decimal v)). apply decimal_first_digit. lia. }
  rewrite (parseJson_digit strtod _ next (plain_decimal v) Hd).
  assert (Hr : - 2 ^ 63 <= v <= 2 ^ 63 - 1)
    by (change (2 ^ 63) with 9223372036854775808 in *; lia).
  pose proof (strtol_decimal v "" Hr eq_refl) as Hs.
  rewrite append_nil_r in Hs.
  unfold bind at 1. cbn [GetTNetstring]. rewrite Hs. reflexivity.
Qed.

(** A text that is a minus sign and digits is read by [GetObj]. *)
Lemma parseJson_negative (strtod : string -> float * string) (v : Z)
    (next : ptr) :
  - 2 ^ 63 < v < 0 ->
  parseJson strtod (decimal v) next =
    Returns (Some (COInteger next 8 true (wrap 64 v)), (next + 1)%N).
Proof.
  intros Hv. destruct v as [|p|p]; [lia|lia|].
  pose proof (plain_decimal (Z.neg p)) as Hp.
  assert (Hr : - 2 ^ 63 <= Z.pos p <= 2 ^ 63 - 1)
    by (change (2 ^ 63) with 9223372036854775808 in *; lia).
  pose proof (strtol_decimal (Z.pos p) "" Hr eq_refl) as Hs.
  rewrite append_nil_r in Hs.
  pose proof (DecimalPos.Unsigned.to_uint_nonnil p) as Hn.
  assert (Hdot : has_dot (drop 1 (decimal (Z.pos p))) = false).
  { unfold decimal. cbn [Z.to_int NilZero.string_of_int].
    rewrite (string_of_uint_nonnil _ Hn). apply has_dot_digits_tail. }
  assert (E : decimal (Z.neg p) = String "-" (decimal (Z.pos p))) by reflexivity.
  rewrite E in *. clear E.
  assert (Hne : nonempty (decimal (Z.pos p)) = true).
  { pose proof (decimal_first_digit (Z.pos p) "" ltac:(lia)) as Hd.
    rewrite append_nil_r in Hd. unfold nonempty.
    destruct (digit_not_space _ Hd) as (_ & _ & ->). reflexivity. }
  unfold parseJson. cbn [skip_json_space].
  change (is_json_space "-") with false. cbv iota.
  rewrite (c_str_plain _ Hp). cbn [first_char].
  change (isdigit "-") with false. cbv iota.
  change (nonempty (String "-" (decimal (Z.pos p)))) with true. cbv iota.
  unfold bind at 1. cbn [GetObj DumpWhiteSpace].
  change (is_dump_space "-") with false. cbv iota.
  rewrite (c_str_plain _ Hp). cbn [first_char]. rewrite drop_S, drop_0.
  change (("-" =? "{")%char) with false.
  change (("-" =? "[")%char) with false.
  change (("-" =? "034")%char) with false. cbv iota.
  unfold is_word.
  change (("-" =? "t")%char) with false. change (("-" =? "T")%char) with false.
  change (("-" =? "f")%char) with false. change (("-" =? "F")%char) with false.
  cbn [orb andb]. cbv iota.
  change (isdigit "-") with false. change (("-" =? "-")%char) with true.
  cbn [orb]. cbv iota.
  unfold obj_number.
  change (("-" =? "-")%char) with true. change (("-" =? "+")%char) with false.
  change (("-" =? "0")%char) with false.
  cbn [orb andb]. cbv iota. rewrite Hne. cbn [negb]. cbv iota.
  rewrite drop_S, drop_0. rewrite Hdot.
  unfold strtoll. rewrite Hs.
  unfold new_COInteger, bind, new, ret. reflexivity.
Qed.

(** X20.  The JSON text of an Integer of two, four or eight bytes, taken
    as a whole document: [parseJson] returns [NULL] when the value is not
    negative, and an eight-byte Integer with the value when it is
    negative and not the least of all. *)
Theorem X20_number_as_whole_document (format_lf : Z -> float -> string)
    (strtod : string -> float * string) (p : ptr) (siz : Z) (u : bool)
    (data : Z) (next : ptr) :
  In siz [2; 4; 8] ->
  let v := longValue siz data in
  let text := toCompactJsonString format_lf (COInteger p siz u data) in
  (0 <= v -> parseJson strtod text next = Returns (None, next)) /\
  (- 2 ^ 63 < v < 0 ->
   parseJson strtod text next =
     Returns (Some (COInteger next 8 true (wrap 64 v)), (next + 1)%N)).
Proof.
  intros Hs v text.
  assert (Hs' : In siz [1; 2; 4; 8]) by (cbn [In] in *; tauto).
  pose proof (longValue_range siz data Hs') as Hr. fold v in Hr.
  assert (Hv : - 2 ^ 63 <= v <= 2 ^ 63 - 1).
  { cbn [In] in Hs. destruct Hs as [<-|[<-|[<-|[]]]]; cbn in Hr |- *; lia. }
  assert (Ht : text = decimal v).
  { subst text v. cbn [toCompactJsonString leaf_toJsonString].
    cbn [In] in Hs.
    destruct Hs as [<-|[<-|[<-|[]]]]; unfold COInteger_buf, longValue;
      cbn [Z.eqb Pos.eqb orb Z.mul Pos.mul]; apply c_str_plain, plain_decimal. }
  rewrite Ht. split; intros H.
  - apply parseJson_digits. lia.
  - now apply parseJson_negative.
Qed.

Lemma X20_number_as_whole_document_witness :
  (let v := longValue 4 42 in
   let text := toCompactJsonString printf_lf (COInteger 1 4 false 42) in
   (0 <= v -> parseJson c_strtod text 7%N = Returns (None, 7%N)) /\
   (- 2 ^ 63 < v < 0 ->
    parseJson c_strtod text 7%N =
      Returns (Some (COInteger 7 8 true (wrap 64 v)), (7 + 1)%N))) /\
  0 <= longValue 4 42 /\
  toCompactJsonString printf_lf (COInteger 1 4 false 42) = "42"%string.
Proof.
  split; [|split; [vm_compute; discriminate | reflexivity]].
  apply (X20_number_as_whole_document printf_lf c_strtod 1%N 4 false 42 7%N).
  cbn [In]. right. left. reflexivity.
Defined.

(** ** A flat map through its net string *)

Lemma first_non_digit_uint (d : Decimal.uint) (rest : string) :
  first_non_digit (NilEmpty.string_of_uint d ++ String ":" rest) = ":"%char.
Proof. induction d; cbn; auto. Qed.

Lemma first_non_digit_decimal (z : Z) (rest : string) :
  0 <= z -> first_non_digit (decimal z ++ String ":" rest) = ":"%char.
Proof.
  intros Hz. unfold decimal.
  destruct z as [|p|p]; [reflexivity| |lia].
  cbn [Z.to_int NilZero.string_of_int].
  rewrite string_of_uint_nonnil by apply DecimalPos.Unsigned.to_uint_nonnil.
  apply first_non_digit_uint.
Qed.

Lemma plain_toNetString (str : string) (styp : ascii) :
  (styp =? NUL)%char = false -> plain (CppON_toNetString str styp).
Proof.
  intros H. unfold CppON_toNetString.
  apply plain_append; [apply plain_decimal|].
  apply (plain_append ":"); [reflexivity|].
  apply plain_append.
  - unfold plain. induction str as [|ch s IH]; [reflexivity|].
    cbn [c_str]. destruct (ch =? NUL)%char eqn:E; [reflexivity|].
    cbn [has_char]. now rewrite E, IH.
  - unfold plain. cbn [has_char]. now rewrite H.
Qed.

(** [GetTNetstring] on the net string of a Null. *)
Lemma GetTNetstring_null (strtod : string -> float * string) (fuel : nat)
    (rest : string) (next : ptr) :
  GetTNetstring strtod (S fuel) (String "0" (String ":" (String "~" rest))) next =
    Returns ((Some (CONull next), At (c_str rest)), (next + 1)%N).
Proof.
  pose proof (strtol_decimal 0 (String ":" (String "~" rest))
                ltac:(vm_compute; split; discriminate) eq_refl) as H1.
  change (decimal 0 ++ String ":" (String "~" rest))%string
    with (String "0" (String ":" (String "~" rest))) in H1.
  cbn [GetTNetstring]. rewrite H1.
  change (Z.to_nat (wrap 32 0)) with O.
  cbn [skip_json_space]. change (is_json_space ":") with false. cbv iota.
  cbn [c_str]. change ((":" =? NUL)%char) with false.
  change (("~" =? NUL)%char) with false. cbv iota.
  cbn [first_char]. change ((":" =? NUL)%char) with false. cbv iota.
  rewrite drop_S, drop_0.
  change ((":" =? ":")%char) with true. cbv iota.
  cbn [c_str]. change (("~" =? NUL)%char) with false. cbv iota.
  cbn [String.length Nat.ltb Nat.leb].
  rewrite char_at_0. cbn [c_str]. change (("~" =? NUL)%char) with false.
  cbv iota. cbn [first_char].
  change (("~" =? ",")%char) with false. change (("~" =? "#")%char) with false.
  change (("~" =? "^")%char) with false. change (("~" =? "!")%char) with false.
  change (("~" =? "~")%char) with true. cbv iota.
  cbn [Nat.add]. rewrite drop_S, drop_0.
  unfold new_CONull, bind, new, ret. reflexivity.
Qed.

(** The nested values of [GetTNetstring] read the leaves. *)
Lemma value_reads_leaves (format_lf : Z -> float -> string)
    (strtod : string -> float * string) (fuel : nat) :
  reads_leaves format_lf
    (fun nc : string =>
       if (first_non_digit nc =? ":")%char
       then GetTNetstring strtod (S fuel) nc else GetObj strtod (S fuel) nc).
Proof.
  intros v rest next Hw Hl.
  destruct v as [self siz u data|self prec data|self data|self|self data
                |self order data|self data]; try contradiction.
  - (* Integer *)
    assert (Hs' : In siz [1; 2; 4; 8]) by (cbn [writable In] in *; tauto).
    pose proof (longValue_range siz data Hs') as Hr.
    assert (Hv : - 2 ^ 63 <= longValue siz data <= 2 ^ 63 - 1).
    { cbn [writable In] in Hw.
      destruct Hw as [<-|[<-|[<-|[]]]]; cbn in Hr |- *; lia. }
    assert (Hb : COInteger_buf siz data = decimal (longValue siz data)).
    { cbn [writable In] in Hw. destruct Hw as [<-|[<-|[<-|[]]]]; reflexivity. }
    cbn [toNetString opt_str] in *. rewrite Hb in *.
    unfold CppON_toNetString, strlen in *.
    pose proof (plain_decimal (longValue siz data)) as Hp.
    rewrite (c_str_plain _ Hp) in *.
    rewrite !append_assoc. cbn [String.append].
    rewrite first_non_digit_decimal by lia.
    change ((":" =? ":")%char) with true. cbv iota.
    pose proof (GetTNetstring_integer strtod fuel _ rest next Hv) as H.
    cbn [String.append] in H. rewrite H.
    eexists. split; [reflexivity|]. cbn [read_back]. repeat split.
  - (* String *)
    cbn [writable] in Hw. cbn [toNetString opt_str] in *.
    unfold CppON_toNetString, strlen in *.
    rewrite (c_str_plain _ Hw) in *.
    assert (Hlen : Z.of_nat (String.length data) < 2 ^ 31).
    { rewrite !length_append in Hl. lia. }
    rewrite !append_assoc. cbn [String.append].
    rewrite first_non_digit_decimal by lia.
    change ((":" =? ":")%char) with true. cbv iota.
    pose proof (GetTNetstring_string strtod fuel data rest next Hw Hlen) as H.
    cbn [String.append] in H. rewrite H.
    eexists. split; [reflexivity|]. reflexivity.
  - (* Null *)
    cbn [toNetString opt_str String.append first_non_digit].
    change (isdigit "0") with true. change (isdigit ":") with false. cbv iota.
    change ((":" =? ":")%char) with true. cbv iota.
    rewrite GetTNetstring_null. eexists. split; [reflexivity|]. exact I.
Qed.

Lemma net_plain (format_lf : Z -> float -> string) (v : CppON) :
  writable v -> plain (opt_str (toNetString format_lf v)).
Proof.
  destruct v; try contradiction; intros _; cbn [toNetString opt_str];
    try (apply plain_toNetString; reflexivity); reflexivity.
Qed.

Lemma toNetString_head (str : string) (styp : ascii) (rest : string) :
  isdigit (first_char (CppON_toNetString str styp ++ rest)) = true.
Proof.
  unfold CppON_toNetString. rewrite append_assoc.
  apply decimal_first_digit. unfold strlen. lia.
Qed.

Lemma net_head_digit (format_lf : Z -> float -> string) (v : CppON)
    (rest : string) :
  writable v ->
  isdigit (first_char (opt_str (toNetString format_lf v) ++ rest)) = true.
Proof.
  destruct v; try contradiction; intros _; cbn [toNetString opt_str];
    try (unfold CppON_toNetString; rewrite append_assoc;
         apply decimal_first_digit; unfold strlen; lia);
    reflexivity.
Qed.

(** A text without NUL that starts with a digit is where the pointer
    stays when [DumpWhiteSpace] runs. *)
Lemma DumpWhiteSpace_digit (s : string) :
  plain s -> isdigit (first_char s) = true ->
  DumpWhiteSpace s = s /\ nonempty s = true.
Proof.
  intros Hp Hd. destruct s as [|ch s]; [discriminate Hd|].
  cbn [first_char] in Hd. destruct (digit_not_space ch Hd) as (_ & H2 & H3).
  cbn [DumpWhiteSpace]. rewrite H2. rewrite (c_str_plain _ Hp).
  unfold nonempty. cbn [first_char]. now rewrite H3.
Qed.

Lemma payload_cons (format_lf : Z -> float -> string) (k : string)
    (ks : list string) (data : list (string * CppON)) (v : CppON) :
  map_find k data = Some v ->
  map_payload format_lf (k :: ks) data =
    (opt_str (toNetString format_lf (COString 0 k)) ++
     opt_str (toNetString format_lf v) ++ map_payload format_lf ks data)%string.
Proof.
  intros E. unfold map_payload. cbn [List.map concat_all fold_right].
  rewrite E. cbn [toNetString opt_str]. now rewrite append_assoc.
Qed.

Lemma payload_plain (format_lf : Z -> float -> string) (ks : list string)
    (data : list (string * CppON)) :
  (forall k, In k ks -> exists v, map_find k data = Some v /\ writable v) ->
  plain (map_payload format_lf ks data).
Proof.
  induction ks as [|k ks IH]; intros H; [reflexivity|].
  destruct (H k (or_introl eq_refl)) as (v & E & W).
  rewrite (payload_cons format_lf k ks data v E).
  apply plain_append; [apply plain_toNetString; reflexivity|].
  apply plain_append; [now apply net_plain|].
  apply IH. intros k' Hk'. apply H. now right.
Qed.

Lemma payload_head (format_lf : Z -> float -> string) (ks : list string)
    (data : list (string * CppON)) :
  (forall k, In k ks -> exists v, map_find k data = Some v /\ writable v) ->
  ks <> [] ->
  isdigit (first_char (map_payload format_lf ks data)) = true.
Proof.
  destruct ks as [|k ks]; [congruence|]. intros H _.
  destruct (H k (or_introl eq_refl)) as (v & E & W).
  rewrite (payload_cons format_lf k ks data v E).
  cbn [toNetString opt_str]. apply toNetString_head.
Qed.

Section FlatMap.

Variable format_lf : Z -> float -> string.
Variable value : string -> M (option CppON * cptr).
Hypothesis Hval : reads_leaves format_lf value.
Variable data : list (string * CppON).

(** The loop of [GetTNetstring] over the entries of a map, on the payload
    that [COMap::toNetString] writes for the keys [ks]. *)
Lemma tnet_entries_flat (ks : list string) :
  forall (self : ptr) (order0 : list string) (data0 : list (string * CppON))
         (next : ptr) (fuel : nat),
    (forall k, In k ks ->
       clean_key k /\ exists v, map_find k data = Some v /\ writable v) ->
    NoDup ks -> (forall k, In k ks -> ~ In k order0) ->
    order_ok (COMap self order0 data0) ->
    Z.of_nat (String.length (map_payload format_lf ks data)) < 2 ^ 31 ->
    (List.length ks <= fuel)%nat ->
    exists data',
      tnet_entries value fuel (COMap self order0 data0)
        (map_payload format_lf ks data) next =
        Returns (Some (COMap self (order0 ++ ks) data'),
                 (next + 2 * N.of_nat (List.length ks))%N) /\
      order_ok (COMap self (order0 ++ ks) data') /\
      (forall x, ~ In x ks -> map_find x data' = map_find x data0) /\
      (forall k v, In k ks -> map_find k data = Some v ->
         exists v', map_find k data' = Some v' /\ read_back v v').
Proof.
  induction ks as [|k ks IH]; intros self order0 data0 next fuel Hk Hnd Hfresh Hok Hlen Hfuel.
  - exists data0. unfold map_payload. cbn [List.map concat_all fold_right].
    assert (E : tnet_entries value fuel (COMap self order0 data0) "" next =
                Returns (Some (COMap self order0 data0), next))
      by (destruct fuel; reflexivity).
    rewrite E, app_nil_r. cbn [List.length N.of_nat]. rewrite N.mul_0_r, N.add_0_r.
    split; [reflexivity|]. split; [exact Hok|]. split; [reflexivity|].
    intros k v [].
  - destruct fuel as [|fuel]; [cbn [List.length] in Hfuel; lia|].
    destruct (Hk k (or_introl eq_refl)) as ((Kp & Ks & Kq & Kc) & v & Ev & Wv).
    assert (Hks : forall k', In k' ks ->
              exists v, map_find k' data = Some v /\ writable v).
    { intros k' Hk'. destruct (Hk k' (or_intror Hk')) as (_ & H). exact H. }
    pose proof (payload_plain format_lf ks data Hks) as PT.
    pose proof (net_plain format_lf v Wv) as PV.
    pose proof (net_plain format_lf (COString 0 k) Kp) as PK.
    rewrite (payload_cons format_lf k ks data v Ev) in *.
    set (NK := opt_str (toNetString format_lf (COString 0 k))) in *.
    set (NV := opt_str (toNetString format_lf v)) in *.
    set (T := map_payload format_lf ks data) in *.
    rewrite !length_append in Hlen.
    destruct (DumpWhiteSpace_digit (NK ++ NV ++ T)) as [D1 N1];
      [apply plain_append; [exact PK | apply plain_append; assumption]
      | apply toNetString_head |].
    destruct (DumpWhiteSpace_digit (NV ++ T)) as [D2 N2];
      [apply plain_append; assumption
      | apply (net_head_digit format_lf v); exact Wv |].
    cbn [tnet_entries]. rewrite N1. cbn [negb]. rewrite D1.
    destruct (Hval (COString 0 k) (NV ++ T)%string next Kp) as (vk & Ek & Rk);
      [fold NK; lia|]. fold NK in Ek.
    unfold bind at 1. rewrite Ek.
    destruct vk as [| |pk sk| | | |]; cbn [read_back] in Rk; try contradiction.
    rewrite (escape_std_clean k Kq Kc Kp) in Rk. subst sk.
    rewrite (c_str_plain (NV ++ T)) by (apply plain_append; assumption).
    rewrite D2, N2.
    destruct (Hval v T (next + 1)%N Wv) as (v' & Ev' & Rv); [fold NV; lia|].
    fold NV in Ev'. unfold bind at 1. rewrite Ev'.
    rewrite (c_str_plain k Kp).
    destruct (append_key (next + 1 + 1)%N self order0 data0 k v' Hok Ks)
      as (Ea & Hok' & Hfind).
    assert (Hnk : ~ In k order0) by (apply Hfresh; now left).
    assert (Hnd0 : ~ In k (keys data0)).
    { destruct Hok as (_ & _ & Hiff). now rewrite <- Hiff. }
    rewrite (notin_remove string_dec order0 k Hnk) in *.
    rewrite (erase_unbound k data0 Hnd0) in *.
    unfold bind at 1. unfold append_to at 1. rewrite Ea.
    rewrite (c_str_plain T PT).
    inversion Hnd as [|? ? Hkn Hnd']; subst.
    destruct (IH self (order0 ++ [k]) (map_insert k v' data0)
                (next + 1 + 1)%N fuel) as (data' & E & Hok2 & Hother & Hread).
    + intros k' Hk'. apply Hk. now right.
    + exact Hnd'.
    + intros k' Hk' Hin. apply in_app_iff in Hin as [Hin|[<-|[]]].
      * apply (Hfresh k'); [now right | exact Hin].
      * contradiction.
    + exact Hok'.
    + clear - Hlen. subst T NV NK. lia.
    + cbn [List.length] in Hfuel. lia.
    + exists data'. fold T in E. rewrite E.
      rewrite <- app_assoc. cbn [app List.length].
      split; [do 2 f_equal; lia|].
      split; [rewrite <- app_assoc in Hok2; exact Hok2|].
      split.
      * intros x Hx. rewrite Hother by (intros Hin; apply Hx; now right).
        apply map_find_insert_other. intros ->. apply Hx. now left.
      * intros k' w [<-|Hk'] Hw.
        -- rewrite Ev in Hw. injection Hw as <-.
           exists v'. split; [|exact Rv].
           rewrite Hother by exact Hkn. exact Hfind.
        -- now apply Hread.
Qed.

End FlatMap.

(** [GetTNetstring] on the net string of a flat map. *)
Lemma GetTNetstring_flat_map (format_lf : Z -> float -> string)
    (strtod : string -> float * string) (fuel : nat) (order : list string)
    (data : list (string * CppON)) (next : ptr) :
  (forall k, In k order ->
     clean_key k /\ exists v, map_find k data = Some v /\ writable v) ->
  NoDup order ->
  Z.of_nat (String.length (map_payload format_lf order data)) < 2 ^ 31 ->
  (List.length order <= S fuel)%nat ->
  exists data',
    GetTNetstring strtod (S (S fuel))
      (CppON_toNetString (map_payload format_lf order data) "}") next =
      Returns ((Some (COMap next order data'), At EmptyString),
               (next + 1 + 2 * N.of_nat (List.length order))%N) /\
    order_ok (COMap next order data') /\
    (forall k v, In k order -> map_find k data = Some v ->
       exists v', map_find k data' = Some v' /\ read_back v v').
Proof.
  intros Hk Hnd Hl Hfuel.
  set (P := map_payload format_lf order data) in *.
  assert (Hp : plain P).
  { apply payload_plain. intros k Hin. destruct (Hk k Hin) as [_ H]. exact H. }
  destruct (tnet_entries_flat format_lf _ (value_reads_leaves format_lf strtod fuel)
              data order next [] [] (next + 1)%N (S fuel) Hk Hnd)
    as (data' & E & Hok & _ & Hread).
  { intros k _ []. }
  { cbn [order_ok keys List.map]. repeat split; try constructor; intros []. }
  { exact Hl. }
  { exact Hfuel. }
  fold P in E. cbn [app] in E, Hok.
  exists data'. split; [|split; [exact Hok | exact Hread]].
  unfold CppON_toNetString, strlen. rewrite (c_str_plain P Hp).
  destruct (tnet_head P (String "}" "") Hl) as [H1 H2].
  destruct (tnet_bounds P "}" "" Hp eq_refl) as [G1 G2].
  remember (S fuel) as f1 eqn:Ef in |- *.
  cbn [GetTNetstring]. rewrite H1, H2.
  cbn [String.append skip_json_space].
  change (is_json_space ":") with false. cbv iota.
  cbn [c_str]. change ((":" =? NUL)%char) with false. cbv iota.
  rewrite (c_str_append P _ Hp). cbn [c_str].
  change (("}" =? NUL)%char) with false. cbv iota.
  cbn [first_char]. change ((":" =? NUL)%char) with false. cbv iota.
  rewrite drop_S, drop_0.
  change ((":" =? ":")%char) with true. cbv iota.
  rewrite G1, G2.
  rewrite (char_at_append P "}" _ Hp eq_refl).
  change (("}" =? ",")%char) with false. change (("}" =? "#")%char) with false.
  change (("}" =? "^")%char) with false. change (("}" =? "!")%char) with false.
  change (("}" =? "~")%char) with false. change (("}" =? "}")%char) with true.
  cbv iota.
  rewrite substring_append_prefix. rewrite (c_str_plain P Hp).
  rewrite (drop_append P _ 1). rewrite drop_S, drop_0.
  unfold bind at 1. unfold bind at 1. unfold new at 1.
  subst f1. rewrite E. reflexivity.
Qed.

Lemma payload_length (format_lf : Z -> float -> string) (ks : list string)
    (data : list (string * CppON)) :
  (forall k, In k ks -> exists v, map_find k data = Some v /\ writable v) ->
  (List.length ks <= String.length (map_payload format_lf ks data))%nat.
Proof.
  induction ks as [|k ks IH]; intros H; [cbn; lia|].
  destruct (H k (or_introl eq_refl)) as (v & E & W).
  rewrite (payload_cons format_lf k ks data v E).
  cbn [toNetString opt_str]. unfold CppON_toNetString at 1.
  rewrite !length_append. cbn [String.length List.length].
  specialize (IH (fun k' Hk' => H k' (or_intror Hk'))). lia.
Qed.

(** The net string of a flat map, parsed. *)
Lemma parseJson_of_flat_map (format_lf : Z -> float -> string)
    (strtod : string -> float * string) (self : ptr) (order : list string)
    (data : list (string * CppON)) (text : string) (next : ptr) :
  order_ok (COMap self order data) ->
  (forall k, In k order -> clean_key k) ->
  (forall k v, map_find k data = Some v -> writable v) ->
  toNetString format_lf (COMap self order data) = Some text ->
  Z.of_nat (String.length text) < 2 ^ 31 ->
  exists data',
    parseJson strtod text next =
      Returns (Some (COMap next order data'),
               (next + 1 + 2 * N.of_nat (List.length order))%N) /\
    order_ok (COMap next order data') /\
    (forall k v, map_find k data = Some v ->
       exists v', map_find k data' = Some v' /\ read_back v v').
Proof.
  intros (Ho & Hd & Hiff) Hclean Hw Ht Hl.
  rewrite toNetString_map in Ht. injection Ht as <-.
  assert (Hk : forall k, In k order ->
            clean_key k /\ exists v, map_find k data = Some v /\ writable v).
  { intros k Hin. split; [now apply Hclean|].
    destruct (map_find_bound k data) as (v & E); [now apply Hiff|].
    exists v. split; [exact E | exact (Hw k v E)]. }
  assert (Hk' : forall k, In k order ->
            exists v, map_find k data = Some v /\ writable v)
    by (intros k Hin; exact (proj2 (Hk k Hin))).
  pose proof (payload_plain format_lf order data Hk') as Hp.
  pose proof (payload_length format_lf order data Hk') as Hlen.
  set (P := map_payload format_lf order data) in *.
  assert (Ltext : String.length (CppON_toNetString P "}") =
                  S (String.length (decimal (strlen P)) + String.length P + 1)).
  { unfold CppON_toNetString. rewrite (c_str_plain P Hp).
    rewrite !length_append. cbn [String.length]. lia. }
  rewrite Ltext in Hl.
  destruct (GetTNetstring_flat_map format_lf strtod
              (String.length (decimal (strlen P)) + String.length P + 1)
              order data next Hk Ho) as (data' & E & Hok & Hread).
  { fold P. lia. }
  { fold P. lia. }
  fold P in E.
  exists data'. split; [|split; [exact Hok|]].
  - rewrite parseJson_digit;
      [| apply plain_toNetString; reflexivity
       | rewrite <- (append_nil_r (CppON_toNetString P "}"));
         apply toNetString_head].
    rewrite Ltext. unfold bind at 1. rewrite E. reflexivity.
  - intros k v Ev. apply Hread; [|exact Ev].
    apply Hiff. exact (map_find_in k data v Ev).
Qed.

(** X22.  A map whose keys hold no NUL, slash, quote or percent sign and
    whose values are Strings without a NUL, Integers of two, four or eight
    bytes and Nulls comes back from its net string: [parseJson] returns a
    map with the same keys in the same order, and every key is bound to
    what the parser reads for its value, the String with its quotes and
    percent signs escaped, the Integer in eight bytes with the same value,
    the Null.  One node is allocated for the map and two for every
    entry. *)
Theorem X22_flat_map_through_net_string (format_lf : Z -> float -> string)
    (strtod : string -> float * string) (self : ptr) (order : list string)
    (data : list (string * CppON)) (text : string) (next : ptr) :
  order_ok (COMap self order data) ->
  (forall k, In k order -> clean_key k) ->
  (forall k v, map_find k data = Some v -> writable v) ->
  toNetString format_lf (COMap self order data) = Some text ->
  Z.of_nat (String.length text) < 2 ^ 31 ->
  exists data',
    parseJson strtod text next =
      Returns (Some (COMap next order data'),
               (next + 1 + 2 * N.of_nat (List.length order))%N) /\
    order_ok (COMap next order data') /\
    (forall k v, map_find k data = Some v ->
       exists v', map_find k data' = Some v' /\ read_back v v').
Proof.
  exact (parseJson_of_flat_map format_lf strtod self order data text next).
Qed.

Lemma X22_flat_map_through_net_string_witness :
  (exists data',
    parseJson c_strtod "16:1:a,1:1#1:b,1:x,}" 10%N =
      Returns (Some (COMap 10 ["a"; "b"]%string data'),
               (10 + 1 + 2 * N.of_nat (List.length ["a"; "b"]%string))%N) /\
    order_ok (COMap 10 ["a"; "b"]%string data') /\
    (forall k v, map_find k (bindings map_a1_bx) = Some v ->
       exists v', map_find k data' = Some v' /\ read_back v v')) /\
  toNetString printf_lf map_a1_bx = Some "16:1:a,1:1#1:b,1:x,}"%string.
Proof.
  split; [|reflexivity].
  apply (X22_flat_map_through_net_string printf_lf c_strtod 1%N
           ["a"; "b"]%string (bindings map_a1_bx) "16:1:a,1:1#1:b,1:x,}" 10%N).
  - cbn. repeat split.
    + repeat constructor; cbn; intuition discriminate.
    + repeat constructor; cbn; intuition discriminate.
    + tauto.
    + tauto.
  - intros k [<-|[<-|[]]]; repeat split.
  - intros k v. cbn [bindings map_a1_bx map_find].
    destruct (String.eqb "a" k).
    + intros H. injection H as <-. cbn. tauto.
    + destruct (String.eqb "b" k); [|discriminate].
      intros H. injection H as <-. reflexivity.
  - reflexivity.
  - vm_compute. reflexivity.
Defined.

(** ** A flat map through its compact JSON text *)

Lemma follows_stays (rest : string) :
  follows rest ->
  DumpWhiteSpace rest = rest /\ isdigit (first_char rest) = false /\
  first_char rest <> "t"%char /\ first_char rest <> "f"%char /\
  (first_char rest =? "x")%char = false /\ has_dot rest = false.
Proof.
  intros (Hp & Hf & Hdot). destruct rest as [|ch rest]; [discriminate Hf|].
  cbn [first_char] in *.
  apply orb_true_iff in Hf as [Hf|Hf]; [apply orb_true_iff in Hf as [Hf|Hf]|];
    apply Ascii.eqb_eq in Hf; subst ch;
    cbn [DumpWhiteSpace]; change (is_dump_space ",") with false;
    change (is_dump_space "}") with false;
    change (is_dump_space "]") with false; cbv iota;
    rewrite (c_str_plain _ Hp); repeat split; try discriminate; exact Hdot.
Qed.

Lemma digit_not_token (ch : ascii) :
  isdigit ch = true ->
  is_dump_space ch = false /\ (ch =? NUL)%char = false /\
  (ch =? "{")%char = false /\ (ch =? "[")%char = false /\
  (ch =? "034")%char = false /\ (ch =? "t")%char = false /\
  (ch =? "T")%char = false /\ (ch =? "f")%char = false /\
  (ch =? "F")%char = false /\ (ch =? "-")%char = false /\
  (ch =? "+")%char = false /\ (ch =? "x")%char = false /\
  (ch =? ":")%char = false.
Proof.
  destruct ch as [[] [] [] [] [] [] [] []]; vm_compute; intros H;
    try discriminate H; repeat split.
Qed.

Lemma uint_head (d : Decimal.uint) :
  d <> Decimal.Nil ->
  exists ch d', NilEmpty.string_of_uint d = String ch (NilEmpty.string_of_uint d') /\
                isdigit ch = true.
Proof.
  destruct d; [congruence| | | | | | | | | |]; intros _;
    eexists; exists d; (split; [reflexivity|reflexivity]).
Qed.

Lemma has_dot_stop (d : Decimal.uint) (rest : string) :
  follows rest -> has_dot (NilEmpty.string_of_uint d ++ rest) = false.
Proof.
  intros Hf. induction d; cbn; auto. now apply follows_stays.
Qed.

Lemma first_char_uint (d : Decimal.uint) (rest : string) :
  follows rest ->
  (first_char (NilEmpty.string_of_uint d ++ rest) =? "x")%char = false.
Proof.
  intros Hf. destruct d; try reflexivity. cbn. now apply follows_stays.
Qed.

(** The decimal text of a number that is not negative is the text of its
    digits. *)
Lemma decimal_uint (z : Z) :
  0 <= z ->
  exists d, d <> Decimal.Nil /\ decimal z = NilEmpty.string_of_uint d.
Proof.
  intros Hz. unfold decimal. destruct z as [|p|p]; [| |lia].
  - exists (Decimal.D0 Decimal.Nil). split; [discriminate | reflexivity].
  - exists (Pos.to_uint p). cbn [Z.to_int NilZero.string_of_int].
    pose proof (DecimalPos.Unsigned.to_uint_nonnil p) as Hn.
    split; [exact Hn | now apply string_of_uint_nonnil].
Qed.

(** [GetObj] at a number without a sign, inside a map. *)
Lemma GetObj_digits (strtod : string -> float * string) (fuel : nat)
    (v : Z) (rest : string) (next : ptr) :
  0 <= v <= 2 ^ 63 - 1 -> follows rest ->
  GetObj strtod (S fuel) (decimal v ++ rest) next =
    Returns ((Some (COInteger next 8 true (wrap 64 v)), At rest), (next + 1)%N).
Proof.
  intros Hv Hf.
  destruct (follows_stays rest Hf) as (Hd & Hnd & _ & _ & _ & _).
  assert (Hr : - 2 ^ 63 <= v <= 2 ^ 63 - 1)
    by (change (2 ^ 63) with 9223372036854775808 in *; lia).
  pose proof (strtol_decimal v rest Hr Hnd) as Hs.
  assert (Hp : plain (decimal v ++ rest))
    by (apply plain_append; [apply plain_decimal | apply Hf]).
  destruct (decimal_uint v ltac:(lia)) as (d & Hn & Ed).
  destruct (uint_head d Hn) as (ch & d' & Eh & Hdig).
  rewrite Ed, Eh in *. cbn [String.append] in *.
  destruct (digit_not_token ch Hdig)
    as (T0 & T1 & T2 & T3 & T4 & T5 & T6 & T7 & T8 & T9 & T10 & _ & _).
  cbn [GetObj DumpWhiteSpace]. rewrite T0. rewrite (c_str_plain _ Hp).
  cbn [first_char]. rewrite drop_S, drop_0.
  rewrite T2, T3, T4. unfold is_word. rewrite T5, T6, T7, T8.
  cbn [orb andb]. rewrite Hdig. cbn [orb].
  unfold obj_number. rewrite T9, T10. cbn [orb]. cbv iota.
  rewrite (has_dot_stop d' rest Hf).
  rewrite (first_char_uint d' rest Hf), andb_false_r.
  unfold strtoll. rewrite Hs.
  unfold new_COInteger, bind, new, ret. now rewrite Hd.
Qed.

Lemma has_dot_tail (d : Decimal.uint) (rest : string) :
  d <> Decimal.Nil -> follows rest ->
  has_dot (drop 1 (NilEmpty.string_of_uint d ++ rest)) = false.
Proof.
  intros Hn Hf. destruct (uint_head d Hn) as (ch & d' & -> & _).
  cbn [String.append]. rewrite drop_S, drop_0. now apply has_dot_stop.
Qed.

(** [GetObj] at a number with a minus sign, inside a map. *)
Lemma GetObj_minus (strtod : string -> float * string) (fuel : nat)
    (v : Z) (rest : string) (next : ptr) :
  - 2 ^ 63 < v < 0 -> follows rest ->
  GetObj strtod (S fuel) (decimal v ++ rest) next =
    Returns ((Some (COInteger next 8 true (wrap 64 v)), At rest), (next + 1)%N).
Proof.
  intros Hv Hf. destruct v as [|p|p]; [lia|lia|].
  destruct (follows_stays rest Hf) as (Hd & Hnd & _ & _ & _ & _).
  assert (Hr : - 2 ^ 63 <= Z.pos p <= 2 ^ 63 - 1)
    by (change (2 ^ 63) with 9223372036854775808 in *; lia).
  pose proof (strtol_decimal (Z.pos p) rest Hr Hnd) as Hs.
  assert (Hp : plain (decimal (Z.neg p) ++ rest))
    by (apply plain_append; [apply plain_decimal | apply Hf]).
  destruct (decimal_uint (Z.pos p) ltac:(lia)) as (d & Hn & Ed).
  assert (E : decimal (Z.neg p) = String "-" (decimal (Z.pos p))) by reflexivity.
  rewrite E in *. clear E. rewrite Ed in *. cbn [String.append] in *.
  assert (Hne : nonempty (NilEmpty.string_of_uint d ++ rest) = true).
  { destruct (uint_head d Hn) as (c0 & d0 & E0 & Hdig0). rewrite E0.
    cbn [String.append]. unfold nonempty. cbn [first_char].
    destruct (digit_not_space c0 Hdig0) as (_ & _ & ->). reflexivity. }
  cbn [GetObj DumpWhiteSpace].
  change (is_dump_space "-") with false. cbv iota.
  rewrite (c_str_plain _ Hp). cbn [first_char]. rewrite drop_S, drop_0.
  change (("-" =? "{")%char) with false.
  change (("-" =? "[")%char) with false.
  change (("-" =? "034")%char) with false. cbv iota.
  unfold is_word.
  change (("-" =? "t")%char) with false. change (("-" =? "T")%char) with false.
  change (("-" =? "f")%char) with false. change (("-" =? "F")%char) with false.
  cbn [orb andb]. cbv iota.
  change (isdigit "-") with false. change (("-" =? "-")%char) with true.
  cbn [orb]. cbv iota.
  unfold obj_number.
  change (("-" =? "-")%char) with true. change (("-" =? "+")%char) with false.
  change (("-" =? "0")%char) with false.
  cbn [orb andb]. cbv iota. rewrite Hne. cbn [negb]. cbv iota.
  rewrite drop_S, drop_0.
  rewrite (has_dot_tail d rest Hn Hf).
  unfold strtoll. rewrite Hs.
  unfold new_COInteger, bind, new, ret. now rewrite Hd.
Qed.

Lemma is_word_false (tail : string) :
  plain tail -> first_char tail <> "f"%char ->
  is_word "f" (String "a" (String "l" (String "s" (String "e" tail))))
    "alse" "f" "F" = true.
Proof.
  intros Hp Ht. unfold is_word, strncasecmp_eq.
  change (char_at (String.length "alse")
            (String "a" (String "l" (String "s" (String "e" tail)))))
    with (char_at 0 tail).
  rewrite char_at_0, (c_str_plain tail Hp).
  assert (E : ("f" =? first_char tail)%char = false).
  { apply Ascii.eqb_neq. congruence. }
  rewrite E.
  cbn [String.length c_str Ascii.eqb Bool.eqb NUL substring].
  rewrite substring_0_0. reflexivity.
Qed.

(** [GetObj] at the word [false]. *)
Lemma GetObj_false (strtod : string -> float * string) (fuel : nat)
    (tail : string) (next : ptr) :
  plain tail -> first_char tail <> "f"%char ->
  GetObj strtod (S fuel)
    (String "f" (String "a" (String "l" (String "s" (String "e" tail))))) next =
    Returns (Some (COBoolean next false), At (DumpWhiteSpace tail),
             (next + 1)%N).
Proof.
  intros Hp Ht.
  cbn [GetObj DumpWhiteSpace is_dump_space Ascii.eqb Bool.eqb orb andb c_str NUL
       first_char].
  rewrite (c_str_plain tail Hp). rewrite !drop_S, !drop_0.
  rewrite (is_word_false tail Hp Ht).
  unfold is_word. cbn [Ascii.eqb Bool.eqb orb andb]. reflexivity.
Qed.

Lemma first_non_digit_follow (d : Decimal.uint) (rest : string) :
  isdigit (first_char rest) = false ->
  first_non_digit (NilEmpty.string_of_uint d ++ rest) = first_char rest.
Proof.
  intros H. induction d; cbn [NilEmpty.string_of_uint String.append first_non_digit];
    try exact IHd.
  destruct rest as [|ch r]; [reflexivity|]. cbn [first_non_digit first_char] in *.
  now rewrite H.
Qed.

(** The nested values of [GetObj] read the leaves. *)
Lemma value_reads_json (format_lf : Z -> float -> string)
    (strtod : string -> float * string) (fuel : nat) :
  reads_json_leaves format_lf
    (fun nc : string =>
       if (first_non_digit nc =? ":")%char
       then GetTNetstring strtod (S fuel) nc else GetObj strtod (S fuel) nc).
Proof.
  intros v rest next Hw Hf.
  destruct (follows_stays rest Hf) as (Hd & Hnd & Ht & Hff & _ & _).
  pose proof Hf as (Hp & Hfc & _).
  assert (Hcolon : (first_char rest =? ":")%char = false).
  { apply orb_true_iff in Hfc as [H|H]; [apply orb_true_iff in H as [H|H]|];
      apply Ascii.eqb_eq in H; now rewrite H. }
  destruct v as [self siz u data|self prec data|self data|self|self data
                |self order data|self data]; try contradiction.
  - (* Integer *)
    destruct Hw as [Hs Hmin].
    assert (Hs' : In siz [1; 2; 4; 8]) by (cbn [In] in *; tauto).
    pose proof (longValue_range siz data Hs') as Hr.
    assert (Hv : - 2 ^ 63 <= longValue siz data <= 2 ^ 63 - 1).
    { cbn [In] in Hs. destruct Hs as [<-|[<-|[<-|[]]]]; cbn in Hr |- *; lia. }
    assert (Hb : toCompactJsonString format_lf (COInteger self siz u data) =
                 decimal (longValue siz data)).
    { cbn [toCompactJsonString leaf_toJsonString]. cbn [In] in Hs.
      destruct Hs as [<-|[<-|[<-|[]]]]; unfold COInteger_buf, longValue;
        cbn [Z.eqb Pos.eqb orb Z.mul Pos.mul]; apply c_str_plain, plain_decimal. }
    rewrite Hb. exists (COInteger next 8 true (wrap 64 (longValue siz data))).
    split; [|cbn [json_read_back]; repeat split].
    destruct (Z_lt_le_dec (longValue siz data) 0) as [Hneg|Hpos].
    + assert (E : first_non_digit (decimal (longValue siz data) ++ rest) = "-"%char).
      { destruct (longValue siz data) as [|p|p]; try lia. reflexivity. }
      rewrite E. change (("-" =? ":")%char) with false. cbv iota.
      apply GetObj_minus; [lia | exact Hf].
    + destruct (decimal_uint _ Hpos) as (d & Hn & Ed).
      assert (E : first_non_digit (decimal (longValue siz data) ++ rest) =
                  first_char rest)
        by (rewrite Ed; apply first_non_digit_follow; exact Hnd).
      rewrite E, Hcolon.
      apply GetObj_digits; [lia | exact Hf].
  - (* String *)
    cbn [json_writable] in Hw.
    cbn [toCompactJsonString leaf_toJsonString].
    unfold COString_toJsonString, quote. rewrite !append_assoc.
    cbn [String.append first_non_digit].
    change (isdigit "034") with false. cbv iota.
    change (("034" =? ":")%char) with false. cbv iota.
    rewrite GetObj_string;
      [| now apply json_escape_plain
       | apply json_escape_all_clean; discriminate
       | apply json_escape_all_clean; discriminate].
    rewrite Hd. eexists. split; [reflexivity|]. reflexivity.
  - (* Boolean *)
    cbn [toCompactJsonString leaf_toJsonString]. destruct data.
    + cbn [String.append first_non_digit].
      change (isdigit "t") with false. cbv iota.
      change (("t" =? ":")%char) with false. cbv iota.
      rewrite (GetObj_true strtod fuel rest next Hp Ht). rewrite Hd.
      eexists. split; reflexivity.
    + cbn [String.append first_non_digit].
      change (isdigit "f") with false. cbv iota.
      change (("f" =? ":")%char) with false. cbv iota.
      rewrite (GetObj_false strtod fuel rest next Hp Hff). rewrite Hd.
      eexists. split; reflexivity.
Qed.

Lemma closing_quote_clean (k rest : string) :
  plain k -> has_char "034" k = false ->
  closing_quote (k ++ String "034" rest) = Some (k, rest).
Proof.
  induction k as [|ch k IH]; intros Hp Hq; [reflexivity|].
  apply plain_cons in Hp as [N Hp]. cbn [has_char] in Hq.
  apply orb_false_iff in Hq as [Q Hq].
  cbn [String.append closing_quote]. rewrite N, Q. now rewrite (IH Hp Hq).
Qed.

Lemma json_text_plain (format_lf : Z -> float -> string) (v : CppON) :
  json_writable v -> plain (toCompactJsonString format_lf v).
Proof.
  destruct v as [self siz u data|self prec data|self data|self|self data
                |self order data|self data]; try contradiction; intros Hw;
    cbn [toCompactJsonString leaf_toJsonString].
  - unfold plain. clear. induction (COInteger_buf siz data) as [|ch s IH];
      [reflexivity|]. cbn [c_str]. destruct (ch =? NUL)%char eqn:E;
      [reflexivity|]. cbn [has_char]. now rewrite E, IH.
  - unfold COString_toJsonString, quote.
    apply (plain_append (String "034" "")); [reflexivity|].
    apply plain_append; [now apply json_escape_plain | reflexivity].
  - destruct data; reflexivity.
Qed.

(** The text of a writable leaf starts where [DumpWhiteSpace] stops. *)
Lemma json_text_head (format_lf : Z -> float -> string) (v : CppON)
    (rest : string) :
  json_writable v -> plain rest ->
  DumpWhiteSpace (toCompactJsonString format_lf v ++ rest) =
    (toCompactJsonString format_lf v ++ rest)%string.
Proof.
  intros Hw Hr.
  assert (Hp : plain (toCompactJsonString format_lf v ++ rest))
    by (apply plain_append; [now apply json_text_plain | exact Hr]).
  revert Hp.
  assert (H : exists ch tl, (toCompactJsonString format_lf v ++ rest)%string =
                            String ch tl /\ is_dump_space ch = false).
  { destruct v as [self siz u data|self prec data|self data|self|self data
                  |self order data|self data]; try contradiction;
      cbn [toCompactJsonString leaf_toJsonString].
    - destruct Hw as [Hs _].
      assert (Hb : c_str (COInteger_buf siz data) = decimal (longValue siz data)).
      { cbn [In] in Hs.
        destruct Hs as [<-|[<-|[<-|[]]]]; unfold COInteger_buf, longValue;
          cbn [Z.eqb Pos.eqb orb Z.mul Pos.mul]; apply c_str_plain, plain_decimal. }
      rewrite Hb. destruct (longValue siz data) as [|p|p] eqn:El.
      + eexists; eexists; split; reflexivity.
      + destruct (decimal_head (Z.pos p) rest ltac:(lia)) as (ch & tl & -> & Hd).
        exists ch, tl. split; [reflexivity|]. now apply digit_not_token.
      + eexists; eexists; split; reflexivity.
    - eexists; eexists; split; reflexivity.
    - destruct data; eexists; eexists; split; reflexivity. }
  destruct H as (ch & tl & -> & Hs). intros Hp.
  cbn [DumpWhiteSpace]. rewrite Hs. now apply c_str_plain.
Qed.

Lemma entries_tail_cons (format_lf : Z -> float -> string)
    (data : list (string * CppON)) (k : string) (ks : list string) :
  entries_tail format_lf data (k :: ks) =
    String "," (compact_entry format_lf data k ++ entries_tail format_lf data ks).
Proof.
  unfold entries_tail. cbn [List.map concat_all fold_right].
  rewrite !append_assoc. reflexivity.
Qed.

Lemma compact_entry_plain (format_lf : Z -> float -> string)
    (data : list (string * CppON)) (k : string) :
  (exists v, map_find k data = Some v /\ json_writable v) ->
  plain (compact_entry format_lf data k).
Proof.
  intros (v & E & W). unfold compact_entry. rewrite E. unfold quote.
  apply (plain_append (String "034" "")); [reflexivity|].
  apply plain_append.
  { unfold plain. clear. induction k as [|ch s IH]; [reflexivity|].
    cbn [c_str]. destruct (ch =? NUL)%char eqn:E; [reflexivity|].
    cbn [has_char]. now rewrite E, IH. }
  apply (plain_append (String "034" "")); [reflexivity|].
  apply (plain_append ":"); [reflexivity|]. now apply json_text_plain.
Qed.

Lemma entries_tail_follows (format_lf : Z -> float -> string)
    (data : list (string * CppON)) (ks : list string) :
  (forall k, In k ks -> exists v, map_find k data = Some v /\ json_writable v) ->
  follows (entries_tail format_lf data ks).
Proof.
  intros H. split; [|split].
  - induction ks as [|k ks IH]; [reflexivity|].
    rewrite entries_tail_cons.
    apply (plain_append ","); [reflexivity|].
    apply plain_append; [apply compact_entry_plain, H; now left|].
    apply IH. intros k' Hk'. apply H. now right.
  - destruct ks as [|k ks]; [reflexivity|]. rewrite entries_tail_cons. reflexivity.
  - destruct ks as [|k ks]; [reflexivity|]. rewrite entries_tail_cons. reflexivity.
Qed.

Lemma entries_tail_head (format_lf : Z -> float -> string)
    (data : list (string * CppON)) (ks : list string) :
  (first_char (entries_tail format_lf data ks) =? "]")%char = false.
Proof.
  destruct ks as [|k ks]; [reflexivity|]. rewrite entries_tail_cons. reflexivity.
Qed.

Section FlatJson.

Variable format_lf : Z -> float -> string.
Variable value : string -> M (option CppON * cptr).
Hypothesis Hval : reads_json_leaves format_lf value.
Variable data : list (string * CppON).

(** One turn of the loop of [GetObj] over the entries of a map: the entry
    is stored, and the character after the value decides how the loop goes
    on. *)
Lemma obj_entries_turn (fuel : nat) (self : ptr) (order0 : list string)
    (data0 : list (string * CppON)) (ch : ascii) (k : string) (v : CppON)
    (TT : string) (next : ptr) :
  (ch =? NUL)%char || (ch =? "}")%char = false ->
  json_key k -> map_find k data = Some v -> json_writable v ->
  follows TT ->
  order_ok (COMap self order0 data0) -> ~ In k order0 ->
  exists v',
    json_read_back v v' /\
    map_find k (map_insert k v' data0) = Some v' /\
    order_ok (COMap self (order0 ++ [k]) (map_insert k v' data0)) /\
    obj_entries value (S fuel) (COMap self order0 data0) ch
      (compact_entry format_lf data k ++ TT) next =
    (if (first_char TT =? ",")%char
     then obj_entries value fuel
            (COMap self (order0 ++ [k]) (map_insert k v' data0))
            (first_char TT) (drop 1 TT)
     else if negb (first_char TT =? NUL)%char &&
             negb (first_char TT =? "}")%char
     then ret (true, COMap self (order0 ++ [k]) (map_insert k v' data0), At TT)
     else obj_entries value fuel
            (COMap self (order0 ++ [k]) (map_insert k v' data0))
            (first_char TT) TT) (next + 1)%N.
Proof.
  intros Hch (Kp & Ks & Kq) Ev Wv Hf Hok Hnk.
  destruct (follows_stays TT Hf) as (Hd & _).
  pose proof (json_text_plain format_lf v Wv) as PJ.
  destruct (Hval v TT next Wv Hf) as (v' & Eval & Rv).
  exists v'. split; [exact Rv|].
  destruct (append_key (next + 1)%N self order0 data0 k v' Hok Ks)
    as (Ea & Hok' & Hfind).
  assert (Hnd0 : ~ In k (keys data0)).
  { destruct Hok as (_ & _ & Hiff). now rewrite <- Hiff. }
  rewrite (notin_remove string_dec order0 k Hnk) in *.
  rewrite (erase_unbound k data0 Hnd0) in *.
  split; [exact Hfind|]. split; [exact Hok'|].
  unfold compact_entry. rewrite Ev. rewrite (c_str_plain k Kp).
  unfold quote. rewrite !append_assoc. cbn [String.append].
  assert (PZ : plain (toCompactJsonString format_lf v ++ TT))
    by (apply plain_append; [exact PJ | apply Hf]).
  assert (PY : plain (String ":" (toCompactJsonString format_lf v ++ TT)))
    by (apply (plain_append ":"); [reflexivity | exact PZ]).
  assert (PX : plain (String "034" (k ++ String "034"
                 (String ":" (toCompactJsonString format_lf v ++ TT))))).
  { apply (plain_append (String "034" "")); [reflexivity|].
    apply plain_append; [exact Kp|].
    apply (plain_append (String "034" "")); [reflexivity | exact PY]. }
  cbn [obj_entries]. rewrite Hch.
  cbn [DumpWhiteSpace]. change (is_dump_space "034") with false. cbv iota.
  rewrite (c_str_plain _ PX).
  cbn [read_until_quote].
  change (("034" =? NUL)%char) with false.
  change (("034" =? "034")%char) with true. cbv iota.
  rewrite (closing_quote_clean k _ Kp Kq).
  cbn [DumpWhiteSpace]. change (is_dump_space ":") with false. cbv iota.
  rewrite (c_str_plain _ PY). cbn [first_char].
  change ((":" =? ":")%char) with true. cbv iota.
  rewrite drop_S, drop_0.
  rewrite (json_text_head format_lf v TT Wv (proj1 Hf)).
  change (("034" =? NUL)%char) with false. cbv iota.
  unfold bind at 1. rewrite Eval.
  rewrite (c_str_plain k Kp).
  unfold bind at 1. unfold append_to at 1. rewrite Ea.
  rewrite Hd. reflexivity.
Qed.

(** One turn of the loop when a comma or the closing brace follows the
    value. *)
Lemma obj_entries_step (fuel : nat) (self : ptr) (order0 : list string)
    (data0 : list (string * CppON)) (ch : ascii) (k : string) (v : CppON)
    (TT : string) (next : ptr) :
  (ch =? NUL)%char || (ch =? "}")%char = false ->
  json_key k -> map_find k data = Some v -> json_writable v ->
  follows TT -> (first_char TT =? "]")%char = false ->
  order_ok (COMap self order0 data0) -> ~ In k order0 ->
  exists v',
    json_read_back v v' /\
    map_find k (map_insert k v' data0) = Some v' /\
    order_ok (COMap self (order0 ++ [k]) (map_insert k v' data0)) /\
    obj_entries value (S fuel) (COMap self order0 data0) ch
      (compact_entry format_lf data k ++ TT) next =
    obj_entries value fuel
      (COMap self (order0 ++ [k]) (map_insert k v' data0)) (first_char TT)
      (if (first_char TT =? ",")%char then drop 1 TT else TT) (next + 1)%N.
Proof.
  intros Hch Kk Ev Wv Hf Hnb Hok Hnk.
  destruct (obj_entries_turn fuel self order0 data0 ch k v TT next
              Hch Kk Ev Wv Hf Hok Hnk) as (v' & Rv & Hfind & Hok' & E).
  exists v'. split; [exact Rv|]. split; [exact Hfind|]. split; [exact Hok'|].
  rewrite E. destruct Hf as (_ & Hfc & _). rewrite Hnb, orb_false_r in Hfc.
  destruct (first_char TT =? ",")%char eqn:Ec; [reflexivity|].
  cbn [orb] in Hfc. rewrite Hfc. cbn [negb]. rewrite andb_false_r. reflexivity.
Qed.


(** The loop of [GetObj] over the entries of a map, on the text that
    [COMap::toCompactJsonString] writes for the keys [k :: ks]. *)
Lemma obj_entries_flat (ks : list string) :
  forall (k : string) (self : ptr) (order0 : list string)
         (data0 : list (string * CppON)) (ch : ascii) (next : ptr) (fuel : nat),
    (ch =? NUL)%char || (ch =? "}")%char = false ->
    (forall k', In k' (k :: ks) ->
       json_key k' /\ exists v, map_find k' data = Some v /\ json_writable v) ->
    NoDup (k :: ks) -> (forall k', In k' (k :: ks) -> ~ In k' order0) ->
    order_ok (COMap self order0 data0) ->
    (List.length (k :: ks) <= fuel)%nat ->
    exists data',
      obj_entries value fuel (COMap self order0 data0) ch
        (compact_entry format_lf data k ++ entries_tail format_lf data ks) next =
        Returns ((false, COMap self (order0 ++ k :: ks) data', At "}"%string),
                 (next + N.of_nat (List.length (k :: ks)))%N) /\
      order_ok (COMap self (order0 ++ k :: ks) data') /\
      (forall x, ~ In x (k :: ks) -> map_find x data' = map_find x data0) /\
      (forall k' v, In k' (k :: ks) -> map_find k' data = Some v ->
         exists v', map_find k' data' = Some v' /\ json_read_back v v').
Proof.
  induction ks as [|k2 ks IH];
    intros k self order0 data0 ch next fuel Hch Hk Hnd Hfresh Hok Hfuel.
  - destruct fuel as [|fuel]; [cbn [List.length] in Hfuel; lia|].
    destruct (Hk k (or_introl eq_refl)) as (Kk & v & Ev & Wv).
    destruct (obj_entries_step fuel self order0 data0 ch k v
                (entries_tail format_lf data []) next Hch Kk Ev Wv)
      as (v' & Rv & Hfind & Hok' & E).
    { apply entries_tail_follows. intros k' []. }
    { apply entries_tail_head. }
    { exact Hok. }
    { apply Hfresh. now left. }
    exists (map_insert k v' data0). rewrite E.
    change (entries_tail format_lf data []) with "}"%string.
    cbn [first_char]. change (("}" =? ",")%char) with false. cbv iota.
    assert (E2 : forall mp nx,
               obj_entries value fuel mp "}" "}" nx =
               Returns ((false, mp, At "}"%string), nx))
      by (intros mp nx; destruct fuel; reflexivity).
    rewrite E2. cbn [List.length N.of_nat Pos.of_succ_nat].
    split; [reflexivity|]. split; [exact Hok'|]. split.
    + intros x Hx. apply map_find_insert_other. intros ->. apply Hx. now left.
    + intros k' w [<-|[]] Hw. rewrite Ev in Hw. injection Hw as <-.
      exists v'. split; [exact Hfind | exact Rv].
  - destruct fuel as [|fuel]; [cbn [List.length] in Hfuel; lia|].
    destruct (Hk k (or_introl eq_refl)) as (Kk & v & Ev & Wv).
    assert (Hks : forall k', In k' (k2 :: ks) ->
              exists v, map_find k' data = Some v /\ json_writable v).
    { intros k' Hk'. destruct (Hk k' (or_intror Hk')) as (_ & H). exact H. }
    destruct (obj_entries_step fuel self order0 data0 ch k v
                (entries_tail format_lf data (k2 :: ks)) next Hch Kk Ev Wv)
      as (v' & Rv & Hfind & Hok' & E).
    { now apply entries_tail_follows. }
    { apply entries_tail_head. }
    { exact Hok. }
    { apply Hfresh. now left. }
    rewrite E. rewrite entries_tail_cons. cbn [first_char].
    change (("," =? ",")%char) with true. cbv iota. rewrite drop_S, drop_0.
    inversion Hnd as [|? ? Hkn Hnd']; subst.
    destruct (IH k2 self (order0 ++ [k]) (map_insert k v' data0) ","%char
                (next + 1)%N fuel) as (data' & E' & Hok2 & Hother & Hread).
    + reflexivity.
    + intros k' Hk'. apply Hk. now right.
    + exact Hnd'.
    + intros k' Hk' Hin. apply in_app_iff in Hin as [Hin|[<-|[]]].
      * apply (Hfresh k'); [now right | exact Hin].
      * contradiction.
    + exact Hok'.
    + cbn [List.length] in *. lia.
    + exists data'. rewrite E'. rewrite <- app_assoc. cbn [app].
      split; [do 2 f_equal; cbn [List.length]; lia|].
      split; [rewrite <- app_assoc in Hok2; exact Hok2|].
      split.
      * intros x Hx. rewrite Hother by (intros Hin; apply Hx; now right).
        apply map_find_insert_other. intros ->. apply Hx. now left.
      * intros k' w [<-|Hk'] Hw.
        -- rewrite Ev in Hw. injection Hw as <-.
           exists v'. split; [|exact Rv].
           rewrite Hother by exact Hkn. exact Hfind.
        -- now apply Hread.
Qed.

End FlatJson.

Lemma compact_text (format_lf : Z -> float -> string) (self : ptr)
    (k : string) (ks : list string) (data : list (string * CppON)) :
  (forall k', In k' (k :: ks) -> In k' (keys data)) ->
  toCompactJsonString format_lf (COMap self (k :: ks) data) =
    String "{" (compact_entry format_lf data k ++ entries_tail format_lf data ks).
Proof.
  intros Hb. rewrite toCompactJsonString_map by exact Hb.
  cbn [List.map]. rewrite concat_sep, List.map_map.
  unfold entries_tail. rewrite !append_assoc. reflexivity.
Qed.

Lemma entries_length (format_lf : Z -> float -> string)
    (data : list (string * CppON)) (ks : list string) :
  (List.length ks <= String.length (entries_tail format_lf data ks))%nat.
Proof.
  induction ks as [|k ks IH]; [cbn; lia|].
  rewrite entries_tail_cons. cbn [String.length List.length].
  rewrite length_append. lia.
Qed.

(** [GetObj] on the compact JSON text of a flat map. *)
Lemma GetObj_flat_map (format_lf : Z -> float -> string)
    (strtod : string -> float * string) (fuel : nat) (k : string)
    (ks : list string) (data : list (string * CppON)) (next : ptr) :
  (forall k', In k' (k :: ks) ->
     json_key k' /\ exists v, map_find k' data = Some v /\ json_writable v) ->
  NoDup (k :: ks) ->
  (List.length (k :: ks) <= S fuel)%nat ->
  exists data',
    GetObj strtod (S (S fuel))
      (String "{" (compact_entry format_lf data k ++
                   entries_tail format_lf data ks)) next =
      Returns ((Some (COMap next (k :: ks) data'), At EmptyString),
               (next + 1 + N.of_nat (List.length (k :: ks)))%N) /\
    order_ok (COMap next (k :: ks) data') /\
    (forall k' v, In k' (k :: ks) -> map_find k' data = Some v ->
       exists v', map_find k' data' = Some v' /\ json_read_back v v').
Proof.
  intros Hk Hnd Hfuel.
  destruct (obj_entries_flat format_lf _ (value_reads_json format_lf strtod fuel)
              data ks k next [] [] "034"%char (next + 1)%N (S fuel) eq_refl Hk Hnd)
    as (data' & E & Hok & _ & Hread).
  { intros k' _ []. }
  { cbn [order_ok keys List.map]. repeat split; try constructor; intros []. }
  { exact Hfuel. }
  cbn [app] in E, Hok.
  exists data'. split; [|split; [exact Hok | exact Hread]].
  assert (Hks : forall k', In k' ks ->
            exists v, map_find k' data = Some v /\ json_writable v).
  { intros k' Hk'. destruct (Hk k' (or_intror Hk')) as (_ & H). exact H. }
  destruct (Hk k (or_introl eq_refl)) as (_ & Hkv).
  set (nc := (compact_entry format_lf data k ++
              entries_tail format_lf data ks)%string) in *.
  assert (Pnc : plain nc).
  { apply plain_append; [now apply compact_entry_plain|].
    now apply entries_tail_follows. }
  assert (Hq : exists tl, nc = String "034" tl).
  { subst nc. destruct Hkv as (v & Ev & _). unfold compact_entry. rewrite Ev.
    unfold quote. cbn [String.append]. eexists. reflexivity. }
  assert (Dnc : DumpWhiteSpace nc = nc /\ first_char nc = "034"%char).
  { destruct Hq as (tl & Eq). rewrite Eq in *. cbn [DumpWhiteSpace first_char].
    change (is_dump_space "034") with false. cbv iota.
    now rewrite (c_str_plain _ Pnc). }
  destruct Dnc as [D1 F1].
  remember (S fuel) as f1 eqn:Ef in |- *.
  cbn [GetObj DumpWhiteSpace]. change (is_dump_space "{") with false. cbv iota.
  cbn [c_str]. change (("{" =? NUL)%char) with false. cbv iota.
  rewrite (c_str_plain nc Pnc). cbn [first_char]. rewrite drop_S, drop_0.
  change (("{" =? "{")%char) with true. cbv iota.
  rewrite D1, F1. subst f1.
  unfold bind at 1. unfold new at 1. unfold bind at 1. rewrite E.
  reflexivity.
Qed.

(** The compact JSON text of a flat map, parsed. *)
Lemma parseJson_of_json_map (format_lf : Z -> float -> string)
    (strtod : string -> float * string) (self : ptr) (order : list string)
    (data : list (string * CppON)) (next : ptr) :
  order_ok (COMap self order data) ->
  (forall k, In k order -> json_key k) ->
  (forall k v, map_find k data = Some v -> json_writable v) ->
  exists data',
    parseJson strtod (toCompactJsonString format_lf (COMap self order data)) next =
      Returns (Some (COMap next order data'),
               (next + 1 + N.of_nat (List.length order))%N) /\
    order_ok (COMap next order data') /\
    (forall k v, map_find k data = Some v ->
       exists v', map_find k data' = Some v' /\ json_read_back v v').
Proof.
  intros (Ho & Hd & Hiff) Hkey Hw.
  destruct order as [|k ks].
  - exists []. split.
    { cbn [toCompactJsonString fold_left snd String.append List.length N.of_nat].
      rewrite N.add_0_r. reflexivity. }
    split.
    + cbn [order_ok keys List.map]. repeat split; try constructor; intros [].
    + intros k v Ev. exfalso. apply (proj2 (Hiff k)).
      exact (map_find_in k data v Ev).
  - assert (Hk : forall k', In k' (k :: ks) ->
              json_key k' /\ exists v, map_find k' data = Some v /\ json_writable v).
    { intros k' Hin. split; [now apply Hkey|].
      destruct (map_find_bound k' data) as (v & E); [now apply Hiff|].
      exists v. split; [exact E | exact (Hw k' v E)]. }
    rewrite compact_text by (intros k' Hin; now apply Hiff).
    set (nc := (compact_entry format_lf data k ++
                entries_tail format_lf data ks)%string).
    assert (Pnc : plain nc).
    { apply plain_append; [apply compact_entry_plain; apply Hk; now left|].
      apply entries_tail_follows. intros k' Hk'.
      destruct (Hk k' (or_intror Hk')) as (_ & H). exact H. }
    assert (Hlen : (List.length (k :: ks) <= S (String.length nc))%nat).
    { subst nc. rewrite length_append. cbn [List.length].
      pose proof (entries_length format_lf data ks). lia. }
    destruct (GetObj_flat_map format_lf strtod (String.length nc) k ks data next
                Hk Ho Hlen) as (data' & E & Hok & Hread).
    fold nc in E. exists data'. split; [|split; [exact Hok|]].
    + unfold parseJson. cbn [skip_json_space].
      change (is_json_space "{") with false. cbv iota.
      cbn [c_str]. change (("{" =? NUL)%char) with false. cbv iota.
      rewrite (c_str_plain nc Pnc). cbn [first_char].
      change (isdigit "{") with false. cbv iota.
      change (nonempty (String "{" nc)) with true. cbv iota.
      cbn [String.length]. unfold bind at 1. rewrite E. reflexivity.
    + intros k' v Ev. apply Hread; [|exact Ev].
      apply Hiff. exact (map_find_in k' data v Ev).
Qed.

(** X23.  A map whose keys hold no NUL, slash or quote and whose values
    are Strings without a NUL, Integers of two, four or eight bytes above
    the least 64-bit value and Booleans comes back from its compact JSON
    text: [parseJson] returns a map with the same keys in the same order,
    and every key is bound to what the parser reads for its value, the
    String with the escapes of [toJsonString] left in, the Integer in eight
    bytes with the same value, the same Boolean.  One node is allocated for
    the map and one for every entry. *)
Theorem X23_flat_map_through_compact_json (format_lf : Z -> float -> string)
    (strtod : string -> float * string) (self : ptr) (order : list string)
    (data : list (string * CppON)) (next : ptr) :
  order_ok (COMap self order data) ->
  (forall k, In k order -> json_key k) ->
  (forall k v, map_find k data = Some v -> json_writable v) ->
  exists data',
    parseJson strtod (toCompactJsonString format_lf (COMap self order data)) next =
      Returns (Some (COMap next order data'),
               (next + 1 + N.of_nat (List.length order))%N) /\
    order_ok (COMap next order data') /\
    (forall k v, map_find k data = Some v ->
       exists v', map_find k data' = Some v' /\ json_read_back v v').
Proof.
  exact (parseJson_of_json_map format_lf strtod self order data next).
Qed.

Lemma X23_flat_map_through_compact_json_witness :
  (exists data',
    parseJson c_strtod
      (toCompactJsonString printf_lf
         (COMap 1 ["a"; "b"]%string (bindings map_a1_bx))) 10%N =
      Returns (Some (COMap 10 ["a"; "b"]%string data'),
               (10 + 1 + N.of_nat (List.length ["a"; "b"]%string))%N) /\
    order_ok (COMap 10 ["a"; "b"]%string data') /\
    (forall k v, map_find k (bindings map_a1_bx) = Some v ->
       exists v', map_find k data' = Some v' /\ json_read_back v v')) /\
  toCompactJsonString printf_lf map_a1_bx =
    String "{" (quote ++ "a" ++ quote ++ ":1," ++ quote ++ "b" ++ quote ++ ":" ++
                quote ++ "x" ++ quote ++ "}").
Proof.
  split; [|reflexivity].
  apply (X23_flat_map_through_compact_json printf_lf c_strtod 1%N
           ["a"; "b"]%string (bindings map_a1_bx) 10%N).
  - cbn. repeat split.
    + repeat constructor; cbn; intuition discriminate.
    + repeat constructor; cbn; intuition discriminate.
    + tauto.
    + tauto.
  - intros k [<-|[<-|[]]]; repeat split.
  - intros k v. cbn [bindings map_a1_bx map_find].
    destruct (String.eqb "a" k).
    + intros H. injection H as <-. cbn. split; [tauto | vm_compute; reflexivity].
    + destruct (String.eqb "b" k); [|discriminate].
      intros H. injection H as <-. reflexivity.
Defined.

(** ** The difference of a tree with itself *)

Lemma diffable_child (self : ptr) (order : list string)
    (data : list (string * CppON)) (k : string) (c : CppON) :
  diffable (COMap self order data) -> In (k, c) data -> diffable c.
Proof.
  intros (_ & _ & H) Hin. induction data as [|[k' c'] data IH]; [contradiction|].
  destruct H as [Hc H]. destruct Hin as [E|Hin].
  - injection E as _ <-. exact Hc.
  - now apply IH.
Qed.

Lemma diffable_element (self : ptr) (v : list CppON) (c : CppON) :
  diffable (COArray self (Some v)) -> In c v -> diffable c.
Proof.
  cbn [diffable]. intros H Hin. induction v as [|c' v IH]; [contradiction|].
  destruct H as [Hc H]. destruct Hin as [<-|Hin]; [exact Hc | now apply IH].
Qed.

Lemma depth_element (self : ptr) (v : list CppON) (c : CppON) :
  In c v -> (depth c < depth (COArray self (Some v)))%nat.
Proof.
  cbn [depth]. intros Hin. induction v as [|c' v IH]; [contradiction|].
  destruct Hin as [<-|Hin]; [lia|]. specialize (IH Hin). lia.
Qed.

(** A leaf has no difference with itself. *)
Lemma appendTag_self (strtod : string -> float * string) (k : string)
    (n rtn : CppON) (next : ptr) :
  is_leaf n = true -> diffable n ->
  appendTag strtod k n rtn n next = Returns (rtn, next).
Proof.
  intros Hl Hd.
  destruct n as [self siz u data|self prec data|self data|self|self data
                |self order data|self data]; try discriminate Hl;
    cbn [appendTag].
  - now rewrite Z.eqb_refl.
  - destruct Hd as (d & -> & Hd). cbn [doubleValue]. unfold float_neq.
    now rewrite Hd.
  - cbn [diffable] in Hd. unfold COString_eq.
    rewrite (c_str_plain data Hd), String.eqb_refl. reflexivity.
  - reflexivity.
  - now rewrite Bool.eqb_reflx.
Qed.

Lemma leaf_same (n : CppON) :
  is_leaf n = true -> diffable n -> leaf_differs n n = false.
Proof.
  intros Hl Hd.
  destruct n as [self siz u data|self prec data|self data|self|self data
                |self order data|self data]; try discriminate Hl;
    cbn [leaf_differs].
  - unfold COInteger_eq. rewrite Z.eqb_refl.
    repeat match goal with |- context [if ?b then _ else _] => destruct b end;
      now rewrite Z.eqb_refl.
  - destruct Hd as (d & -> & Hd). cbn [CODouble_eq]. now rewrite Hd.
  - cbn [diffable] in Hd. unfold COString_eq.
    now rewrite (c_str_plain data Hd), String.eqb_refl.
  - reflexivity.
  - now rewrite Bool.eqb_reflx.
Qed.

(** Every binding of a map with segments as keys is found by
    [findElement] under its key. *)
Lemma find_own_binding (self : ptr) (order : list string)
    (data : list (string * CppON)) (k : string) (c : CppON) :
  diffable (COMap self order data) -> In (k, c) data ->
  COMap_findElement (COMap self order data) (c_str k) = Some c.
Proof.
  intros (Hn & Hs & _) Hin.
  assert (Hk : segment k).
  { rewrite Forall_forall in Hs. apply Hs. apply in_map_iff.
    exists (k, c). now split. }
  assert (Hpl : Forall plain (keys data)).
  { rewrite Forall_forall in *. intros x Hx. apply segment_plain. now apply Hs. }
  rewrite (c_str_plain k (segment_plain k Hk)).
  unfold COMap_findElement. rewrite findElement_segment by assumption.
  rewrite find_strcmp_plain by (try assumption; now apply segment_plain).
  exact (map_find_In k c data Hn Hin).
Qed.

Lemma bind_eq {A B : Type} (m : M A) (k : A -> M B) (next mid : ptr) (a : A) :
  m next = Returns (a, mid) -> bind m k next = k a mid.
Proof. intros H. unfold bind. now rewrite H. Qed.

Lemma skipn_cons_nth {A : Type} (v : list A) (it : nat) (x : A) (tl : list A) :
  skipn it v = x :: tl ->
  nth_error v it = Some x /\ skipn (S it) v = tl /\ In x v.
Proof.
  revert it. induction v as [|y v IH]; intros it H.
  - destruct it; discriminate H.
  - destruct it as [|it].
    + cbn in H. injection H as -> ->. repeat split. now left.
    + cbn [skipn] in H. destruct (IH it H) as (H1 & H2 & H3).
      repeat split; [exact H1 | exact H2 | now right].
Qed.

Ltac leaf_turn :=
  match goal with
  | Hdc : diffable ?c, IHl : forall rtn nxt, _ -> exists nxt', _ |-
      context [appendTag ?strtod ?k ?c ?rtn ?c] =>
      match goal with
      | |- exists _, bind _ _ ?nxt = _ =>
          rewrite (bind_eq _ _ _ _ _
                     (appendTag_self strtod k c rtn nxt eq_refl Hdc));
          now apply IHl
      end
  end.

Lemma diff_self (strtod : string -> float * string) (fuel : nat) :
  forall (n : CppON) (next : ptr),
    (depth n < fuel)%nat -> diffable n -> is_leaf n = false ->
    exists next', diff strtod fuel n n None next = Returns (None, next').
Proof.
  induction fuel as [|fuel IH]; intros n next Hdep Hd Hl; [lia|].
  destruct n as [self siz u data|self prec data|self data|self|self data
                |self order data|self [v|]]; try discriminate Hl.
  - cbn [diff]. unfold bind at 1. unfold new at 1. cbv beta iota.
    match goal with
    | |- context [bind (?F data (COMap next [] [])) _] => set (first_loop := F)
    end.
    match goal with
    | |- context [bind (?F data _) (fun rtn0 => if _ then _ else _)] =>
        set (second_loop := F)
    end.
    assert (H1 : forall l rtn nxt,
               (forall k c, In (k, c) l -> In (k, c) data) ->
               exists nxt', first_loop l rtn nxt = Returns (rtn, nxt')).
    { induction l as [|[k c] l IHl]; intros rtn nxt Hin.
      - exists nxt. reflexivity.
      - assert (Hkc : In (k, c) data) by (apply Hin; now left).
        assert (Hl' : forall k' c', In (k', c') l -> In (k', c') data)
          by (intros k' c' H; apply Hin; now right).
        pose proof (find_own_binding self order data k c Hd Hkc) as Ef.
        pose proof (diffable_child self order data k c Hd Hkc) as Hdc.
        pose proof (depth_child self order data k c Hkc) as Hdp.
        unfold first_loop at 1. cbv beta iota fix. fold first_loop.
        rewrite Ef.
        destruct c as [cs siz u d|cs prec d|cs d|cs|cs d|cs o m|cs [w|]].
        + leaf_turn.
        + leaf_turn.
        + leaf_turn.
        + leaf_turn.
        + leaf_turn.
        + destruct (IH (COMap cs o m) nxt ltac:(lia) Hdc eq_refl) as (nxt1 & E).
          erewrite bind_eq; [|erewrite bind_eq; [|exact E]; reflexivity].
          now apply IHl.
        + destruct (IH (COArray cs (Some w)) nxt ltac:(lia) Hdc eq_refl) as (nxt1 & E).
          erewrite bind_eq; [|erewrite bind_eq; [|exact E]; reflexivity].
          now apply IHl.
        + contradiction. }
    assert (H2 : forall l rtn nxt,
               (forall k c, In (k, c) l -> In (k, c) data) ->
               second_loop l rtn nxt = Returns (rtn, nxt)).
    { induction l as [|[k c] l IHl]; intros rtn nxt Hin.
      - reflexivity.
      - assert (Hkc : In (k, c) data) by (apply Hin; now left).
        pose proof (find_own_binding self order data k c Hd Hkc) as Ef.
        unfold second_loop at 1. cbv beta iota fix. fold second_loop.
        rewrite Ef. apply IHl. intros k' c' H; apply Hin; now right. }
    destruct (H1 data (COMap next [] []) (next + 1)%N ltac:(auto)) as (nxt1 & E1).
    exists nxt1.
    rewrite (bind_eq _ _ _ _ _ E1).
    rewrite (bind_eq _ _ _ _ _ (H2 data (COMap next [] []) nxt1 ltac:(auto))).
    reflexivity.
  - cbn [diff]. unfold bind at 1. unfold new at 1. cbv beta iota.
    match goal with
    | |- context [bind (?F v (COArray next (Some []), O)) _] => set (for_nt := F)
    end.
    assert (HA : forall l it rtn nxt,
               skipn it v = l ->
               exists nxt',
                 for_nt l (rtn, it) nxt =
                 Returns ((rtn, (it + List.length l)%nat), nxt')).
    { induction l as [|obj l IHl]; intros it rtn nxt Hs.
      - exists nxt. cbn [List.length]. rewrite Nat.add_0_r. reflexivity.
      - destruct (skipn_cons_nth v it obj l Hs) as (Hnth & Hs' & Hin).
        pose proof (diffable_element self v obj Hd Hin) as Hdc.
        pose proof (depth_element self v obj Hin) as Hdp.
        unfold for_nt at 1. cbv beta iota fix. fold for_nt.
        rewrite Hnth.
        assert (Et : CppONType_eqb (type obj) (type obj) = true)
          by now destruct obj.
        rewrite Et.
        assert (Hturn : exists nxt1,
                  (match obj with
                   | CONull _ => ret rtn
                   | COMap _ _ _ | COArray _ _ =>
                       nv <- diff strtod fuel obj obj None ;;
                       match nv with
                       | Some _ => c0 <- clone obj ;; push_back rtn c0
                       | None => ret rtn
                       end
                   | _ =>
                       if leaf_differs obj obj
                       then c <- clone obj ;; push_back rtn c
                       else ret rtn
                   end) nxt = Returns (rtn, nxt1)).
        { destruct obj as [cs siz u d|cs prec d|cs d|cs|cs d|cs o m|cs [w|]];
            try (rewrite leaf_same by (try reflexivity; exact Hdc);
                 eexists; reflexivity);
            try (eexists; reflexivity).
          - destruct (IH (COMap cs o m) nxt ltac:(lia) Hdc eq_refl) as (nxt1 & E).
            exists nxt1. now rewrite (bind_eq _ _ _ _ _ E).
          - destruct (IH (COArray cs (Some w)) nxt ltac:(lia) Hdc eq_refl)
              as (nxt1 & E).
            exists nxt1. now rewrite (bind_eq _ _ _ _ _ E).
          - contradiction. }
        destruct Hturn as (nxt1 & Eturn).
        erewrite bind_eq; [|erewrite bind_eq; [|exact Eturn]; reflexivity].
        destruct (IHl (S it) rtn nxt1 Hs') as (nxt2 & E2).
        exists nxt2. rewrite E2. cbn [List.length]. do 3 f_equal. lia. }
    destruct (HA v O (COArray next (Some [])) (next + 1)%N eq_refl) as (nxt1 & E1).
    exists nxt1. rewrite (bind_eq _ _ _ _ _ E1). reflexivity.
  - contradiction.
Qed.

(** X24.  The difference of a tree with itself is [NULL], whatever the
    nesting, when the keys of its maps are segments, its arrays have
    their vector, its Strings hold no NUL and its Doubles hold numbers:
    [diff( A, A )] finds every key again and no leaf differs from itself.
    (The map with the key [x:1] has a difference with itself.) *)
Theorem X24_no_difference_with_itself (strtod : string -> float * string)
    (n : CppON) (next : ptr) :
  diffable n ->
  exists next', CppON_diff strtod n n None next = Returns (None, next').
Proof.
  intros Hd. unfold CppON_diff.
  assert (Et : CppONType_eqb (type n) (type n) = true) by now destruct n.
  rewrite Et.
  destruct n as [self siz u data|self prec data|self data|self|self data
                |self order data|self data];
    try (rewrite leaf_same by (try reflexivity; exact Hd));
    try (eexists; reflexivity);
    unfold COMap_diff; apply diff_self; try lia; try exact Hd; reflexivity.
Qed.

Lemma X24_no_difference_with_itself_witness :
  (exists next',
     CppON_diff c_strtod map_a1_bx map_a1_bx None 100%N = Returns (None, next')) /\
  CppON_diff c_strtod map_a1_bx map_a1_bx None 100%N = Returns (None, 101%N).
Proof.
  split; [|reflexivity].
  apply (X24_no_difference_with_itself c_strtod map_a1_bx 100%N).
  cbn. repeat split.
  - repeat constructor; cbn; intuition discriminate.
  - repeat constructor; try discriminate; reflexivity.
Defined.

(** ** The copy of a flat map *)

Lemma find_strcasecmp_own {A : Type} (k : string) (v : A)
    (data : list (string * A)) :
  case_distinct data -> Forall plain (keys data) -> In (k, v) data ->
  map_find_strcasecmp k data = Some v.
Proof.
  unfold case_distinct. induction data as [|[k' v'] data IH]; [contradiction|].
  cbn [keys List.map fst]. intros Hn Hp Hin.
  inversion Hn as [|? ? Hnot Hn']; subst. inversion Hp as [|? ? Hk' Hp']; subst.
  cbn [map_find_strcasecmp]. destruct Hin as [E|Hin].
  - injection E as -> ->. unfold strcasecmp_eq. now rewrite String.eqb_refl.
  - assert (Hk : plain k).
    { rewrite Forall_forall in Hp'. apply Hp'. apply in_map_iff.
      exists (k, v). now split. }
    unfold strcasecmp_eq. rewrite (c_str_plain k' Hk'), (c_str_plain k Hk).
    destruct (String.eqb_spec (lower k') (lower k)) as [E|_].
    + exfalso. apply Hnot. rewrite E. apply in_map. apply in_map_iff.
      exists (k, v). now split.
    + now apply IH.
Qed.

(** Every binding of a map whose keys are segments, no two of them the
    same but for the case, is found by [findCaseElement] under its key. *)
Lemma find_case_own (self : ptr) (order : list string)
    (data : list (string * CppON)) (k : string) (c : CppON) :
  case_distinct data -> Forall segment (keys data) -> In (k, c) data ->
  COMap_findCaseElement (COMap self order data) (c_str k) = Some c.
Proof.
  intros Hn Hs Hin.
  assert (Hk : segment k).
  { rewrite Forall_forall in Hs. apply Hs. apply in_map_iff.
    exists (k, c). now split. }
  assert (Hpl : Forall plain (keys data)).
  { rewrite Forall_forall in *. intros x Hx. apply segment_plain. now apply Hs. }
  destruct Hk as (_ & Hsl & Hco & Hp).
  rewrite (c_str_plain k Hp).
  unfold COMap_findCaseElement. cbn [findCaseElement].
  rewrite splitPath_last, path_head_segment by assumption.
  rewrite (find_strcasecmp_own k c data Hn Hpl Hin).
  destruct c as [| | | | | |]; reflexivity.
Qed.

Lemma find_own (self : ptr) (order : list string)
    (data : list (string * CppON)) (k : string) (c : CppON) :
  NoDup (keys data) -> Forall segment (keys data) -> In (k, c) data ->
  COMap_findElement (COMap self order data) (c_str k) = Some c.
Proof.
  intros Hn Hs Hin.
  assert (Hk : segment k).
  { rewrite Forall_forall in Hs. apply Hs. apply in_map_iff.
    exists (k, c). now split. }
  assert (Hpl : Forall plain (keys data)).
  { rewrite Forall_forall in *. intros x Hx. apply segment_plain. now apply Hs. }
  rewrite (c_str_plain k (segment_plain k Hk)).
  unfold COMap_findElement. rewrite findElement_segment by assumption.
  rewrite find_strcmp_plain by (try assumption; now apply segment_plain).
  exact (map_find_In k c data Hn Hin).
Qed.

Lemma in_insert {A : Type} (k key : string) (c c0 : A) (m : list (string * A)) :
  In (k, c) (map_insert key c0 m) -> (k, c) = (key, c0) \/ In (k, c) m.
Proof.
  induction m as [|[k' v'] m IH]; cbn [map_insert In].
  - intros [E|[]]. left. now symmetry.
  - destruct (String.compare key k'); cbn [In].
    + tauto.
    + intros [E|H]; [left; now symmetry | tauto].
    + intros [E|H]; [tauto|]. apply IH in H. tauto.
Qed.

Lemma in_keys_bound {A : Type} (k : string) (m : list (string * A)) :
  In k (keys m) -> exists v, In (k, v) m.
Proof.
  intros H. apply in_map_iff in H as ([k' v] & E & H). cbn in E. subst k'.
  now exists v.
Qed.

Lemma binding_unique {A : Type} (k : string) (v v' : A) (m : list (string * A)) :
  NoDup (keys m) -> In (k, v) m -> In (k, v') m -> v = v'.
Proof.
  intros Hn H H'. pose proof (map_find_In k v m Hn H) as E.
  rewrite (map_find_In k v' m Hn H') in E. congruence.
Qed.

Lemma copy_leaf_fuel (fuel : nat) (n : CppON) :
  is_leaf n = true -> copy (S fuel) n = clone n.
Proof. destruct n; try discriminate; reflexivity. Qed.

Lemma CppON_eq_leaf_fuel (f g : nat) (a b : CppON) :
  is_leaf a = true -> CppON_eq (S f) a b = CppON_eq (S g) a b.
Proof. destruct a; try discriminate; destruct b; reflexivity. Qed.

Lemma type_eqb_refl (t : CppONType) : CppONType_eqb t t = true.
Proof. now destruct t. Qed.

(** The copy constructor of a map on a flat map. *)
Lemma copy_flat (self : ptr) (order : list string)
    (data : list (string * CppON)) (next : ptr) (fuel : nat) :
  order_ok (COMap self order data) -> Forall segment order ->
  case_distinct data ->
  (forall k v, In (k, v) data -> copyable v) ->
  exists dm,
    copy (S (S fuel)) (COMap self order data) next =
      Returns (COMap next order dm, (next + 1 + N.of_nat (List.length order))%N) /\
    NoDup (keys dm) /\ (forall k, In k (keys dm) <-> In k order) /\
    Forall (copied data) dm.
Proof.
  intros (Ho & Hd & Hiff) Hseg Hcase Hcopy.
  assert (Hsegd : Forall segment (keys data)).
  { rewrite Forall_forall in *. intros k Hk. apply Hseg. now apply Hiff. }
  remember (S fuel) as f1 eqn:Ef. cbn [copy]. unfold bind at 1. unfold new at 1.
  cbv beta iota.
  match goal with
  | |- context [bind (?F order []) _] => set (each := F)
  end.
  assert (HL : forall ks dm nxt,
             NoDup ks -> (forall k, In k ks -> In k order) ->
             (forall k, In k ks -> ~ In k (keys dm)) ->
             NoDup (keys dm) -> Forall (copied data) dm ->
             exists dm',
               each ks dm nxt = Returns (dm', (nxt + N.of_nat (List.length ks))%N) /\
               NoDup (keys dm') /\
               (forall k, In k (keys dm') <-> In k (keys dm) \/ In k ks) /\
               Forall (copied data) dm').
  { induction ks as [|key ks IHk]; intros dm nxt Hnd Hin Hfresh Hndm HP.
    - exists dm. cbn [List.length N.of_nat]. rewrite N.add_0_r.
      split; [reflexivity|]. split; [exact Hndm|]. split; [|exact HP].
      intros k. cbn [In]. tauto.
    - inversion Hnd as [|? ? Hkn Hnd']; subst.
      destruct (in_keys_bound key data) as (v & Hv);
        [apply Hiff, Hin; now left|].
      destruct (Hcopy key v Hv) as (Hl & Hc & Hw).
      destruct (copy_of_leaf v nxt Hl Hc) as (c & Ec & Ac & Tc & E1 & E2).
      { intros s z u d ->. exact Hw. }
      assert (Hlc : is_leaf c = true).
      { destruct (clone_leaf v nxt Hl) as (c' & Ec' & _ & _ & Hlc').
        rewrite Ec in Ec'. injection Ec' as <-. exact Hlc'. }
      unfold each at 1. cbv beta iota fix. fold each.
      rewrite (find_case_own self order data key v Hcase Hsegd Hv).
      rewrite copy_leaf_fuel by exact Hl.
      rewrite (bind_eq _ _ _ _ _ Ec).
      unfold map_assign.
      rewrite (erase_unbound key dm) by (apply Hfresh; now left).
      destruct (IHk (map_insert key c dm) (nxt + 1)%N Hnd')
        as (dm' & E & Hn' & Hk' & HP').
      + intros k Hk. apply Hin. now right.
      + intros k Hk Hkin. apply keys_insert_any in Hkin as [->|Hkin].
        * contradiction.
        * apply (Hfresh k); [now right | exact Hkin].
      + apply insert_nodup; [exact Hndm | apply Hfresh; now left].
      + apply Forall_forall. intros [k c'] Hkc.
        apply in_insert in Hkc as [Eq|Hkc].
        * injection Eq as -> ->. exists v. cbn [fst snd]. now repeat split.
        * rewrite Forall_forall in HP. now apply HP.
      + exists dm'. rewrite E. cbn [List.length].
        split; [do 2 f_equal; lia|]. split; [exact Hn'|]. split; [|exact HP'].
        intros k. rewrite Hk', keys_insert_any. cbn [In].
        split; [intros [[->|H]|H] | intros [H|[->|H]]]; tauto. }
  destruct (HL order [] (next + 1)%N Ho) as (dm & E & Hn & Hk & HP);
    [auto | intros k _ [] | constructor | constructor |].
  exists dm. rewrite (bind_eq _ _ _ _ _ E). split; [reflexivity|].
  split; [exact Hn|]. split; [|exact HP].
  intros k. rewrite Hk. cbn [keys List.map In]. tauto.
Qed.

(** X25.  The copy that the copy constructor makes of a flat map is [==]
    to the map, in both directions, and lists the same keys in the same
    order, when the keys are segments, no two of them the same but for the
    case of their letters, and the values leaves that can be copied.  One
    node is allocated for the map and one for every key.  (The constructor
    looks every key up with [findCaseElement]: of two keys that differ by
    the case only, both get a copy of the value of the first.) *)
Theorem X25_copy_of_a_flat_map (self : ptr) (order : list string)
    (data : list (string * CppON)) (next : ptr) :
  order_ok (COMap self order data) -> Forall segment order ->
  case_distinct data ->
  (forall k v, In (k, v) data -> copyable v) ->
  exists c,
    clone (COMap self order data) next =
      Returns (c, (next + 1 + N.of_nat (List.length order))%N) /\
    address c = next /\ getKeys c = order /\
    CppON_equal c (COMap self order data) = true /\
    CppON_equal (COMap self order data) c = true.
Proof.
  intros Hok Hseg Hcase Hcopy.
  assert (Hdep : exists f, depth (COMap self order data) = S f)
    by (cbn [depth]; eexists; reflexivity).
  destruct Hdep as (f & Ef). unfold clone. rewrite Ef.
  destruct (copy_flat self order data next f Hok Hseg Hcase Hcopy)
    as (dm & E & Hn & Hk & HP).
  destruct Hok as (Ho & Hd & Hiff).
  assert (Hsegd : Forall segment (keys data)).
  { rewrite Forall_forall in *. intros k Hkd. apply Hseg. now apply Hiff. }
  assert (Hsegm : Forall segment (keys dm)).
  { rewrite Forall_forall in *. intros k Hkd. apply Hseg. now apply Hk. }
  exists (COMap next order dm). split; [exact E|].
  split; [reflexivity|]. split; [reflexivity|].
  rewrite Forall_forall in HP. unfold CppON_equal. split.
  - assert (Hdc : exists g, depth (COMap next order dm) = S g)
      by (cbn [depth]; eexists; reflexivity).
    destruct Hdc as (g & Eg). cbn [CppON_eq]. rewrite Eg.
    apply forallb_forall. intros [k c] Hkc.
    destruct (HP (k, c) Hkc) as (v & Hv & Hlv & Hlc & Ht & E1 & E2).
    cbn [fst snd] in *.
    rewrite (find_own self order data k v Hd Hsegd Hv).
    rewrite Ht, type_eqb_refl. cbn [negb].
    rewrite (CppON_eq_leaf_fuel g (depth v) v c Hlv). exact E2.
  - cbn [CppON_eq]. rewrite Ef.
    apply forallb_forall. intros [k v] Hv.
    destruct (in_keys_bound k dm) as (c & Hc).
    { apply Hk, Hiff. apply in_map_iff. exists (k, v). now split. }
    destruct (HP (k, c) Hc) as (v' & Hv' & Hlv & Hlc & Ht & E1 & E2).
    cbn [fst snd] in *.
    rewrite (binding_unique k v' v data Hd Hv' Hv) in *.
    rewrite (find_own next order dm k c Hn Hsegm Hc).
    rewrite Ht, type_eqb_refl. cbn [negb].
    rewrite (CppON_eq_leaf_fuel f (depth c) c v Hlc). exact E1.
Qed.

Lemma X25_copy_of_a_flat_map_witness :
  (exists c,
    clone (COMap 1 ["a"; "b"]%string (bindings map_a1_bx)) 100%N =
      Returns (c, (100 + 1 + N.of_nat (List.length ["a"; "b"]%string))%N) /\
    address c = 100%N /\ getKeys c = ["a"; "b"]%string /\
    CppON_equal c (COMap 1 ["a"; "b"]%string (bindings map_a1_bx)) = true /\
    CppON_equal (COMap 1 ["a"; "b"]%string (bindings map_a1_bx)) c = true) /\
  clone map_A1_a2 100%N =
    Returns (COMap 100 ["A"; "a"]%string
               [("A"%string, COInteger 101 4 false 1);
                ("a"%string, COInteger 102 4 false 1)], 103%N).
Proof.
  split; [|reflexivity].
  apply (X25_copy_of_a_flat_map 1%N ["a"; "b"]%string (bindings map_a1_bx) 100%N).
  - cbn. repeat split.
    + repeat constructor; cbn; intuition discriminate.
    + repeat constructor; cbn; intuition discriminate.
    + tauto.
    + tauto.
  - repeat constructor; try discriminate; reflexivity.
  - unfold case_distinct. cbn. repeat constructor; cbn; intuition discriminate.
  - intros k v [E|[E|[]]]; injection E as <- <-; repeat split.
    cbn [In]. right. right. left. reflexivity.
Defined.

(** ** [guessDataType] on the text of a number *)

Lemma all_digits_uint (d : Decimal.uint) :
  all_digits (NilEmpty.string_of_uint d) = true.
Proof. induction d; cbn; auto. Qed.

(** The decimal text of a number that is not negative is guessed to be
    an Integer, and read as that number. *)
Lemma guessDataType_decimal (strtod : string -> float * string) (v : Z)
    (next : ptr) :
  0 <= v <= 2 ^ 63 - 1 ->
  guessDataType strtod (Some (decimal v)) next =
    Returns (COInteger next 8 true (wrap 64 v), (next + 1)%N).
Proof.
  intros Hv.
  assert (Hr : - 2 ^ 63 <= v <= 2 ^ 63 - 1)
    by (change (2 ^ 63) with 9223372036854775808 in *; lia).
  pose proof (strtol_decimal v "" Hr eq_refl) as Hs.
  rewrite append_nil_r in Hs.
  pose proof (plain_decimal v) as Hp.
  destruct (decimal_uint v ltac:(lia)) as (d & Hn & Ed).
  assert (Ha : all_digits (decimal v) = true)
    by (rewrite Ed; apply all_digits_uint).
  assert (Hne : nonempty (decimal v) = true).
  { apply c_str_nonempty. rewrite (c_str_plain _ Hp), Ed.
    destruct d; [congruence| | | | | | | | | |]; discriminate. }
  destruct (proj1 (all_digits_dots (decimal v)) Ha) as [Hdd Hcount].
  assert (Hw : strcasecmp_eq (decimal v) "true" ||
               strcasecmp_eq (decimal v) "false" = false).
  { destruct (strcasecmp_eq (decimal v) "true" ||
              strcasecmp_eq (decimal v) "false") eqn:E; [|reflexivity].
    apply boolean_word_not_number in E.
    rewrite (c_str_plain _ Hp) in E. congruence. }
  unfold guessDataType, guessed_type. rewrite Hne, Hw.
  rewrite guess_loop_spec by (now left).
  rewrite (c_str_plain _ Hp), Hdd, Hcount. cbn [CppONType_eqb Nat.add].
  unfold strtoll. rewrite Hs. reflexivity.
Qed.

(** X26.  [guessDataType] reads the decimal text of a number from 0 to
    [2^63 - 1] as an Integer of eight bytes that holds the number, and
    [toLongInt] gives the number back; the text of a negative number is
    kept as a String. *)
Theorem X26_guessDataType_reads_a_number (strtod : string -> float * string)
    (v : Z) (next : ptr) :
  - 2 ^ 63 <= v <= 2 ^ 63 - 1 ->
  exists n,
    guessDataType strtod (Some (decimal v)) next = Returns (n, (next + 1)%N) /\
    (0 <= v -> n = COInteger next 8 true (wrap 64 v) /\ toLongInt n = v) /\
    (v < 0 -> n = COString next (decimal v)).
Proof.
  intros Hv. destruct (Z_lt_le_dec v 0) as [Hneg|Hpos].
  - exists (COString next (decimal v)). split; [|split; [lia | reflexivity]].
    destruct v as [|p|p]; try lia.
    assert (E : decimal (Z.neg p) = String "-" (decimal (Z.pos p))) by reflexivity.
    pose proof (plain_decimal (Z.neg p)) as Hp. rewrite E in *.
    unfold guessDataType, guessed_type.
    change (nonempty (String "-" (decimal (Z.pos p)))) with true. cbv iota.
    assert (Hw : strcasecmp_eq (String "-" (decimal (Z.pos p))) "true" ||
                 strcasecmp_eq (String "-" (decimal (Z.pos p))) "false" = false).
    { unfold strcasecmp_eq. cbn [c_str]. change (("-" =? NUL)%char) with false.
      cbv iota. cbn [lower]. change (tolower "-") with "-"%char.
      reflexivity. }
    rewrite Hw. cbn [guess_loop]. change (("-" =? NUL)%char) with false.
    change (("-" =? ".")%char) with false. change (isdigit "-") with false.
    cbn [negb]. cbv iota. unfold new_COString, bind, new, ret.
    now rewrite (c_str_plain _ Hp).
  - exists (COInteger next 8 true (wrap 64 v)).
    split; [apply guessDataType_decimal; lia|]. split; [|lia].
    intros _. split; [reflexivity|]. cbn [toLongInt].
    now apply longValue_wrap_64.
Qed.

Lemma X26_guessDataType_reads_a_number_witness :
  exists n,
    guessDataType c_strtod (Some (decimal 1234)) 7%N = Returns (n, (7 + 1)%N) /\
    (0 <= 1234 -> n = COInteger 7 8 true (wrap 64 1234) /\ toLongInt n = 1234) /\
    (1234 < 0 -> n = COString 7 (decimal 1234)).
Proof.
  apply (X26_guessDataType_reads_a_number c_strtod 1234 7%N).
  vm_compute. split; discriminate.
Defined.

(** ** A flat array through its compact JSON text *)

Lemma compact_array_loop (format_lf : Z -> float -> string)
    (v : list CppON) (rtn : string) :
  Forall json_writable v ->
  (fix each (l : list CppON) (first : bool) (rtn : string) : string :=
     match l with
     | [] => rtn
     | c :: tl =>
         let rtn := if first then rtn else (rtn ++ ",")%string in
         match c with
         | CONull _ => each tl false rtn
         | _ => each tl false (rtn ++ toCompactJsonString format_lf c)%string
         end
     end) v false rtn =
  (rtn ++ concat_all
            (List.map (fun c => "," ++ toCompactJsonString format_lf c) v))%string.
Proof.
  intros H. revert rtn. induction H as [|c v Hc Hv IH]; intros rtn.
  - cbn. now rewrite append_nil_r.
  - destruct c; try contradiction; cbv zeta beta iota;
      cbn [List.map concat_all fold_right]; rewrite IH;
      rewrite !append_assoc; reflexivity.
Qed.

Lemma compact_array_text (format_lf : Z -> float -> string) (self : ptr)
    (x : CppON) (xs : list CppON) :
  Forall json_writable (x :: xs) ->
  toCompactJsonString format_lf (COArray self (Some (x :: xs))) =
    String "[" (toCompactJsonString format_lf x ++ elements_tail format_lf xs).
Proof.
  intros H. inversion H as [|? ? Hx Hxs]; subst.
  unfold elements_tail.
  destruct x; try contradiction; cbn [toCompactJsonString String.append];
    rewrite (compact_array_loop format_lf xs _ Hxs);
    rewrite !append_assoc; reflexivity.
Qed.

Lemma elements_tail_cons (format_lf : Z -> float -> string) (x : CppON)
    (xs : list CppON) :
  elements_tail format_lf (x :: xs) =
    String "," (toCompactJsonString format_lf x ++ elements_tail format_lf xs).
Proof.
  unfold elements_tail. cbn [List.map concat_all fold_right].
  rewrite !append_assoc. reflexivity.
Qed.

Lemma elements_tail_follows (format_lf : Z -> float -> string)
    (xs : list CppON) :
  Forall json_writable xs ->
  follows (elements_tail format_lf xs) /\
  (first_char (elements_tail format_lf xs) =? "}")%char = false.
Proof.
  intros H. split; [split; [|split]|].
  - induction H as [|x xs Hx Hxs IH]; [reflexivity|].
    rewrite elements_tail_cons.
    apply (plain_append ","); [reflexivity|].
    apply plain_append; [now apply json_text_plain | exact IH].
  - destruct xs as [|x xs]; [reflexivity|]. rewrite elements_tail_cons. reflexivity.
  - destruct xs as [|x xs]; [reflexivity|]. rewrite elements_tail_cons. reflexivity.
  - destruct xs as [|x xs]; [reflexivity|]. rewrite elements_tail_cons. reflexivity.
Qed.

Section FlatArray.

Variable format_lf : Z -> float -> string.
Variable value : string -> M (option CppON * cptr).
Hypothesis Hval : reads_json_leaves format_lf value.

(** One turn of the loop of [GetObj] over the elements of an array: the
    element is stored, and the character after it decides how the loop
    goes on. *)
Lemma obj_elements_turn (fuel : nat) (self : ptr) (w : list CppON)
    (ch : ascii) (x : CppON) (TT : string) (next : ptr) :
  (ch =? NUL)%char || (ch =? "]")%char = false ->
  json_writable x -> follows TT ->
  exists x',
    json_read_back x x' /\
    obj_elements value (S fuel) (COArray self (Some w)) ch
      (toCompactJsonString format_lf x ++ TT) next =
    (if (first_char TT =? ",")%char
     then obj_elements value fuel (COArray self (Some (w ++ [x'])))
            (first_char TT) (drop 1 TT)
     else if negb (first_char TT =? NUL)%char &&
             negb (first_char TT =? "]")%char
     then ret (true, COArray self (Some (w ++ [x'])), At TT)
     else obj_elements value fuel (COArray self (Some (w ++ [x'])))
            (first_char TT) TT) (next + 1)%N.
Proof.
  intros Hch Wx Hf.
  destruct (follows_stays TT Hf) as (Hd & _).
  destruct (Hval x TT next Wx Hf) as (x' & Eval & Rx).
  exists x'. split; [exact Rx|].
  cbn [obj_elements]. rewrite Hch.
  unfold bind at 1. rewrite Eval. rewrite Hd.
  unfold bind at 1. cbn [push_back]. unfold ret at 1. reflexivity.
Qed.

(** One turn of the loop when a comma or the closing bracket follows the
    element. *)
Lemma obj_elements_step (fuel : nat) (self : ptr) (w : list CppON)
    (ch : ascii) (x : CppON) (TT : string) (next : ptr) :
  (ch =? NUL)%char || (ch =? "]")%char = false ->
  json_writable x -> follows TT -> (first_char TT =? "}")%char = false ->
  exists x',
    json_read_back x x' /\
    obj_elements value (S fuel) (COArray self (Some w)) ch
      (toCompactJsonString format_lf x ++ TT) next =
    obj_elements value fuel (COArray self (Some (w ++ [x']))) (first_char TT)
      (if (first_char TT =? ",")%char then drop 1 TT else TT) (next + 1)%N.
Proof.
  intros Hch Wx Hf Hnb.
  destruct (obj_elements_turn fuel self w ch x TT next Hch Wx Hf)
    as (x' & Rx & E).
  exists x'. split; [exact Rx|]. rewrite E.
  destruct Hf as (_ & Hfc & _).
  destruct (first_char TT =? ",")%char eqn:Ec; [reflexivity|].
  rewrite Hnb in Hfc. cbn [orb] in Hfc. rewrite Hfc. cbn [negb].
  rewrite andb_false_r. reflexivity.
Qed.


(** The loop of [GetObj] over the elements of an array, on the text that
    [COArray::toCompactJsonString] writes for the elements [x :: xs]. *)
Lemma obj_elements_flat (xs : list CppON) :
  forall (x : CppON) (self : ptr) (w : list CppON) (ch : ascii) (next : ptr)
         (fuel : nat),
    (ch =? NUL)%char || (ch =? "]")%char = false ->
    Forall json_writable (x :: xs) ->
    (List.length (x :: xs) <= fuel)%nat ->
    exists ys,
      obj_elements value fuel (COArray self (Some w)) ch
        (toCompactJsonString format_lf x ++ elements_tail format_lf xs) next =
        Returns ((false, COArray self (Some (w ++ ys)), At "]"%string),
                 (next + N.of_nat (List.length (x :: xs)))%N) /\
      Forall2 json_read_back (x :: xs) ys.
Proof.
  induction xs as [|x2 xs IH]; intros x self w ch next fuel Hch Hw Hfuel;
    inversion Hw as [|? ? Hx Hxs]; subst;
    (destruct fuel as [|fuel]; [cbn [List.length] in Hfuel; lia|]).
  - destruct (elements_tail_follows format_lf [] Hxs) as [Hf Hnb].
    destruct (obj_elements_step fuel self w ch x _ next Hch Hx Hf Hnb)
      as (x' & Rx & E).
    exists [x']. rewrite E.
    change (elements_tail format_lf []) with "]"%string.
    cbn [first_char]. change (("]" =? ",")%char) with false. cbv iota.
    assert (E2 : forall arr nx,
               obj_elements value fuel arr "]" "]" nx =
               Returns ((false, arr, At "]"%string), nx))
      by (intros arr nx; destruct fuel; reflexivity).
    rewrite E2. split; [reflexivity|]. constructor; [exact Rx | constructor].
  - destruct (elements_tail_follows format_lf (x2 :: xs) Hxs) as [Hf Hnb].
    destruct (obj_elements_step fuel self w ch x _ next Hch Hx Hf Hnb)
      as (x' & Rx & E).
    rewrite E. rewrite elements_tail_cons. cbn [first_char].
    change (("," =? ",")%char) with true. cbv iota. rewrite drop_S, drop_0.
    destruct (IH x2 self (w ++ [x']) ","%char (next + 1)%N fuel eq_refl Hxs)
      as (ys & E' & Hys).
    { cbn [List.length] in *. lia. }
    exists (x' :: ys). rewrite E'. rewrite <- app_assoc. cbn [app].
    split; [do 2 f_equal; cbn [List.length]; lia|].
    constructor; [exact Rx | exact Hys].
Qed.

End FlatArray.

Lemma elements_length (format_lf : Z -> float -> string) (xs : list CppON) :
  (List.length xs <= String.length (elements_tail format_lf xs))%nat.
Proof.
  induction xs as [|x xs IH]; [cbn; lia|].
  rewrite elements_tail_cons. cbn [String.length List.length].
  rewrite length_append. lia.
Qed.

(** [GetObj] on the compact JSON text of a flat array. *)
Lemma GetObj_flat_array (format_lf : Z -> float -> string)
    (strtod : string -> float * string) (fuel : nat) (x : CppON)
    (xs : list CppON) (next : ptr) :
  Forall json_writable (x :: xs) ->
  (List.length (x :: xs) <= S fuel)%nat ->
  exists ys,
    GetObj strtod (S (S fuel))
      (String "[" (toCompactJsonString format_lf x ++
                   elements_tail format_lf xs)) next =
      Returns ((Some (COArray next (Some ys)), At EmptyString),
               (next + 1 + N.of_nat (List.length (x :: xs)))%N) /\
    Forall2 json_read_back (x :: xs) ys.
Proof.
  intros Hw Hfuel.
  destruct (obj_elements_flat format_lf _ (value_reads_json format_lf strtod fuel)
              xs x next [] "["%char (next + 1)%N (S fuel) eq_refl Hw Hfuel)
    as (ys & E & Hys).
  cbn [app] in E. exists ys. split; [|exact Hys].
  inversion Hw as [|? ? Hx Hxs]; subst.
  destruct (elements_tail_follows format_lf xs Hxs) as [Hf _].
  set (nc := (toCompactJsonString format_lf x ++
              elements_tail format_lf xs)%string) in *.
  assert (Pnc : plain nc).
  { apply plain_append; [now apply json_text_plain | apply Hf]. }
  assert (D1 : DumpWhiteSpace nc = nc)
    by (apply json_text_head; [exact Hx | apply Hf]).
  remember (S fuel) as f1 eqn:Ef in |- *.
  cbn [GetObj DumpWhiteSpace]. change (is_dump_space "[") with false. cbv iota.
  cbn [c_str]. change (("[" =? NUL)%char) with false. cbv iota.
  rewrite (c_str_plain nc Pnc). cbn [first_char]. rewrite drop_S, drop_0.
  change (("[" =? "{")%char) with false. change (("[" =? "[")%char) with true.
  cbv iota. rewrite D1. subst f1.
  unfold bind at 1. unfold new at 1. unfold bind at 1. rewrite E.
  reflexivity.
Qed.

(** The compact JSON text of a flat array, parsed. *)
Lemma parseJson_of_json_array (format_lf : Z -> float -> string)
    (strtod : string -> float * string) (self : ptr) (v : list CppON)
    (next : ptr) :
  Forall json_writable v -> v <> [] ->
  exists ys,
    parseJson strtod
      (toCompactJsonString format_lf (COArray self (Some v))) next =
      Returns (Some (COArray next (Some ys)),
               (next + 1 + N.of_nat (List.length v))%N) /\
    Forall2 json_read_back v ys.
Proof.
  intros Hw Hne. destruct v as [|x xs]; [congruence|].
  rewrite compact_array_text by exact Hw.
  inversion Hw as [|? ? Hx Hxs]; subst.
  destruct (elements_tail_follows format_lf xs Hxs) as [Hf _].
  set (nc := (toCompactJsonString format_lf x ++
              elements_tail format_lf xs)%string).
  assert (Pnc : plain nc).
  { apply plain_append; [now apply json_text_plain | apply Hf]. }
  assert (Hlen : (List.length (x :: xs) <= S (String.length nc))%nat).
  { subst nc. rewrite length_append. cbn [List.length].
    pose proof (elements_length format_lf xs). lia. }
  destruct (GetObj_flat_array format_lf strtod (String.length nc) x xs next
              Hw Hlen) as (ys & E & Hys).
  fold nc in E. exists ys. split; [|exact Hys].
  unfold parseJson. cbn [skip_json_space].
  change (is_json_space "[") with false. cbv iota.
  cbn [c_str]. change (("[" =? NUL)%char) with false. cbv iota.
  rewrite (c_str_plain nc Pnc). cbn [first_char].
  change (isdigit "[") with false. cbv iota.
  change (nonempty (String "[" nc)) with true. cbv iota.
  cbn [String.length]. unfold bind at 1. rewrite E. reflexivity.
Qed.

(** X27.  An array with at least one element, its elements Strings
    without a NUL, Integers of two, four or eight bytes above the least
    64-bit value and Booleans, comes back from its compact JSON text:
    [parseJson] returns an array of the same length that holds, index by
    index, what the parser reads for the element: the String with the
    escapes of [toJsonString] left in, the Integer in eight bytes with the
    same value, the same Boolean.  (The text of the array without elements
    ends the process.) *)
Theorem X27_flat_array_through_compact_json (format_lf : Z -> float -> string)
    (strtod : string -> float * string) (self : ptr) (v : list CppON)
    (next : ptr) :
  Forall json_writable v -> v <> [] ->
  exists ys,
    parseJson strtod
      (toCompactJsonString format_lf (COArray self (Some v))) next =
      Returns (Some (COArray next (Some ys)),
               (next + 1 + N.of_nat (List.length v))%N) /\
    Forall2 json_read_back v ys.
Proof. exact (parseJson_of_json_array format_lf strtod self v next). Qed.

Lemma X27_flat_array_through_compact_json_witness :
  (exists ys,
    parseJson c_strtod
      (toCompactJsonString printf_lf
         (COArray 1 (Some [COInteger 2 4 false 7; COBoolean 3 false]))) 10%N =
      Returns (Some (COArray 10 (Some ys)),
               (10 + 1 + N.of_nat (List.length
                                      [COInteger 2 4 false 7; COBoolean 3 false]))%N) /\
    Forall2 json_read_back [COInteger 2 4 false 7; COBoolean 3 false] ys) /\
  toCompactJsonString printf_lf
    (COArray 1 (Some [COInteger 2 4 false 7; COBoolean 3 false])) =
    "[7,false]"%string /\
  parseJson c_strtod "[]" 10%N = Exits.
Proof.
  split; [|split; reflexivity].
  apply (X27_flat_array_through_compact_json printf_lf c_strtod 1%N
           [COInteger 2 4 false 7; COBoolean 3 false] 10%N).
  - constructor; [|constructor; [exact I | constructor]].
    split; [cbn [In]; right; left; reflexivity | vm_compute; reflexivity].
  - discriminate.
Defined.

Lemma array_payload_cons (format_lf : Z -> float -> string) (x : CppON)
    (xs : list CppON) :
  array_payload format_lf (x :: xs) =
    ((match x with
      | CONull _ => EmptyString
      | _ => opt_str (toNetString format_lf x)
      end) ++ array_payload format_lf xs)%string.
Proof. reflexivity. Qed.

Lemma array_payload_net (format_lf : Z -> float -> string) (v : list CppON) :
  array_payload format_lf v = array_payload format_lf (net_elements v).
Proof.
  induction v as [|x xs IH]; [reflexivity|].
  rewrite array_payload_cons. destruct x; cbn [net_elements filter];
    fold (net_elements xs); try rewrite array_payload_cons; rewrite IH;
    reflexivity.
Qed.

Lemma net_elements_written (v : list CppON) :
  Forall writable v -> Forall written (net_elements v).
Proof.
  induction 1 as [|x xs Hx Hxs IH]; [constructor|].
  destruct x; cbn [net_elements filter]; fold (net_elements xs);
    try exact IH; constructor; try exact IH; split; solve [exact Hx | exact I].
Qed.

Lemma written_payload_cons (format_lf : Z -> float -> string) (x : CppON)
    (xs : list CppON) :
  written x ->
  array_payload format_lf (x :: xs) =
    (opt_str (toNetString format_lf x) ++ array_payload format_lf xs)%string.
Proof.
  intros [_ H]. rewrite array_payload_cons. destruct x; try contradiction;
    reflexivity.
Qed.

Lemma elements_plain (format_lf : Z -> float -> string) (xs : list CppON) :
  Forall written xs -> plain (array_payload format_lf xs).
Proof.
  induction 1 as [|x xs Hx Hxs IH]; [reflexivity|].
  rewrite written_payload_cons by exact Hx.
  apply plain_append; [apply net_plain; apply Hx | exact IH].
Qed.

Lemma elements_head (format_lf : Z -> float -> string) (xs : list CppON) :
  Forall written xs -> xs <> [] ->
  isdigit (first_char (array_payload format_lf xs)) = true.
Proof.
  intros H Hne. destruct H as [|x xs Hx Hxs]; [congruence|].
  rewrite written_payload_cons by exact Hx.
  apply net_head_digit. apply Hx.
Qed.

Lemma digit_not_comma (ch : ascii) :
  isdigit ch = true -> (ch =? ",")%char = false.
Proof.
  destruct ch as [[] [] [] [] [] [] [] []]; vm_compute; intros H;
    try discriminate H; reflexivity.
Qed.

Lemma written_length (format_lf : Z -> float -> string) (x : CppON) :
  written x -> (1 <= String.length (opt_str (toNetString format_lf x)))%nat.
Proof.
  intros [W N]. destruct x; try contradiction; cbn [toNetString opt_str];
    unfold CppON_toNetString; rewrite !length_append; cbn [String.length]; lia.
Qed.

Lemma elements_payload_length (format_lf : Z -> float -> string)
    (xs : list CppON) :
  Forall written xs ->
  (List.length xs <= String.length (array_payload format_lf xs))%nat.
Proof.
  induction 1 as [|x xs Hx Hxs IH]; [cbn; lia|].
  rewrite written_payload_cons by exact Hx.
  rewrite length_append. pose proof (written_length format_lf x Hx).
  cbn [List.length]. lia.
Qed.

Section FlatNetArray.

Variable format_lf : Z -> float -> string.
Variable value : string -> M (option CppON * cptr).
Hypothesis Hval : reads_leaves format_lf value.

(** The loop of [GetTNetstring] over the elements of an array, on the
    payload that [COArray::toNetString] writes for the elements [xs]. *)
Lemma tnet_elements_flat (xs : list CppON) :
  forall (self : ptr) (w : list CppON) (next : ptr) (fuel : nat),
    Forall written xs ->
    Z.of_nat (String.length (array_payload format_lf xs)) < 2 ^ 31 ->
    (List.length xs <= fuel)%nat ->
    exists ys,
      tnet_elements value fuel (COArray self (Some w))
        (array_payload format_lf xs) next =
        Returns (Some (COArray self (Some (w ++ ys))),
                 (next + N.of_nat (List.length xs))%N) /\
      Forall2 read_back xs ys.
Proof.
  induction xs as [|x xs IH]; intros self w next fuel Hw Hlen Hfuel.
  - exists []. change (array_payload format_lf []) with EmptyString.
    assert (E : tnet_elements value fuel (COArray self (Some w)) "" next =
                Returns (Some (COArray self (Some w)), next))
      by (destruct fuel; reflexivity).
    rewrite E, app_nil_r. cbn [List.length N.of_nat]. rewrite N.add_0_r.
    split; [reflexivity | constructor].
  - destruct fuel as [|fuel]; [cbn [List.length] in Hfuel; lia|].
    inversion Hw as [|? ? Hx Hxs]; subst.
    pose proof (elements_plain format_lf xs Hxs) as PT.
    pose proof (net_plain format_lf x (proj1 Hx)) as PV.
    rewrite (written_payload_cons format_lf x xs Hx) in *.
    set (NV := opt_str (toNetString format_lf x)) in *.
    set (T := array_payload format_lf xs) in *.
    rewrite length_append in Hlen.
    destruct (DumpWhiteSpace_digit (NV ++ T)) as [D1 N1];
      [apply plain_append; assumption
      | apply (net_head_digit format_lf x); apply Hx |].
    destruct (Hval x T next (proj1 Hx)) as (x' & Ex & Rx); [fold NV; lia|].
    fold NV in Ex.
    destruct (IH self (w ++ [x']) (next + 1)%N fuel Hxs) as (ys & E & Hys).
    { fold T. lia. }
    { cbn [List.length] in Hfuel. lia. }
    fold T in E.
    exists (x' :: ys). split; [|constructor; [exact Rx | exact Hys]].
    cbn [tnet_elements]. rewrite N1. cbn [negb]. rewrite D1.
    unfold bind at 1. rewrite Ex.
    unfold bind at 1. cbn [push_back]. unfold ret at 1.
    rewrite (c_str_plain T PT).
    replace (w ++ x' :: ys) with ((w ++ [x']) ++ ys)
      by (rewrite <- app_assoc; reflexivity).
    replace (next + N.of_nat (List.length (x :: xs)))%N
      with (next + 1 + N.of_nat (List.length xs))%N
      by (cbn [List.length]; lia).
    destruct (nonempty T) eqn:NT; [|exact E].
    assert (Hne : xs <> []).
    { intros ->. discriminate NT. }
    pose proof (elements_head format_lf xs Hxs Hne) as HT. fold T in HT.
    destruct (DumpWhiteSpace_digit T PT HT) as [D2 _].
    rewrite D2, (digit_not_comma _ HT), HT. cbn [negb].
    exact E.
Qed.

End FlatNetArray.

(** [GetTNetstring] on the net string of a flat array. *)
Lemma GetTNetstring_flat_array (format_lf : Z -> float -> string)
    (strtod : string -> float * string) (fuel : nat) (xs : list CppON)
    (next : ptr) :
  Forall written xs ->
  Z.of_nat (String.length (array_payload format_lf xs)) < 2 ^ 31 ->
  (List.length xs <= S fuel)%nat ->
  exists ys,
    GetTNetstring strtod (S (S fuel))
      (CppON_toNetString (array_payload format_lf xs) "]") next =
      Returns ((Some (COArray next (Some ys)), At EmptyString),
               (next + 1 + N.of_nat (List.length xs))%N) /\
    Forall2 read_back xs ys.
Proof.
  intros Hw Hl Hfuel.
  set (P := array_payload format_lf xs) in *.
  pose proof (elements_plain format_lf xs Hw) as Hp. fold P in Hp.
  destruct (tnet_elements_flat format_lf _
              (value_reads_leaves format_lf strtod fuel)
              xs next [] (next + 1)%N (S fuel) Hw Hl Hfuel) as (ys & E & Hys).
  fold P in E. cbn [app] in E.
  exists ys. split; [|exact Hys].
  unfold CppON_toNetString, strlen. rewrite (c_str_plain P Hp).
  destruct (tnet_head P (String "]" "") Hl) as [H1 H2].
  destruct (tnet_bounds P "]" "" Hp eq_refl) as [G1 G2].
  remember (S fuel) as f1 eqn:Ef in |- *.
  cbn [GetTNetstring]. rewrite H1, H2.
  cbn [String.append skip_json_space].
  change (is_json_space ":") with false. cbv iota.
  cbn [c_str]. change ((":" =? NUL)%char) with false. cbv iota.
  rewrite (c_str_append P _ Hp). cbn [c_str].
  change (("]" =? NUL)%char) with false. cbv iota.
  cbn [first_char]. change ((":" =? NUL)%char) with false. cbv iota.
  rewrite drop_S, drop_0.
  change ((":" =? ":")%char) with true. cbv iota.
  rewrite G1, G2.
  rewrite (char_at_append P "]" _ Hp eq_refl).
  change (("]" =? ",")%char) with false. change (("]" =? "#")%char) with false.
  change (("]" =? "^")%char) with false. change (("]" =? "!")%char) with false.
  change (("]" =? "~")%char) with false. change (("]" =? "}")%char) with false.
  change (("]" =? "]")%char) with true.
  cbv iota.
  rewrite substring_append_prefix. rewrite (c_str_plain P Hp).
  rewrite (drop_append P _ 1). rewrite drop_S, drop_0.
  unfold bind at 1. unfold bind at 1. unfold new at 1.
  subst f1. rewrite E. reflexivity.
Qed.

(** The net string of a flat array, parsed. *)
Lemma parseJson_of_flat_array (format_lf : Z -> float -> string)
    (strtod : string -> float * string) (self : ptr) (v : list CppON)
    (text : string) (next : ptr) :
  Forall writable v ->
  toNetString format_lf (COArray self (Some v)) = Some text ->
  Z.of_nat (String.length text) < 2 ^ 31 ->
  exists ys,
    parseJson strtod text next =
      Returns (Some (COArray next (Some ys)),
               (next + 1 + N.of_nat (List.length (net_elements v)))%N) /\
    Forall2 read_back (net_elements v) ys.
Proof.
  intros Hw Ht Hl.
  rewrite toNetString_array in Ht. injection Ht as <-.
  rewrite array_payload_net in *.
  pose proof (net_elements_written v Hw) as Hxs.
  set (xs := net_elements v) in *.
  pose proof (elements_plain format_lf xs Hxs) as Hp.
  pose proof (elements_payload_length format_lf xs Hxs) as Hlen.
  set (P := array_payload format_lf xs) in *.
  assert (Ltext : String.length (CppON_toNetString P "]") =
                  S (String.length (decimal (strlen P)) + String.length P + 1)).
  { unfold CppON_toNetString. rewrite (c_str_plain P Hp).
    rewrite !length_append. cbn [String.length]. lia. }
  rewrite Ltext in Hl.
  destruct (GetTNetstring_flat_array format_lf strtod
              (String.length (decimal (strlen P)) + String.length P + 1)
              xs next Hxs) as (ys & E & Hys).
  { fold P. lia. }
  { lia. }
  fold P in E.
  exists ys. split; [|exact Hys].
  rewrite parseJson_digit;
    [| apply plain_toNetString; reflexivity
     | rewrite <- (append_nil_r (CppON_toNetString P "]"));
       apply toNetString_head].
  rewrite Ltext. unfold bind at 1. rewrite E. reflexivity.
Qed.

(** X28.  An array whose elements are Strings without a NUL, Integers of
    two, four or eight bytes and Nulls comes back from its net string
    without its Nulls: [COArray::toNetString] drops them, and [parseJson]
    returns an array that holds, in the same order, what the parser reads
    for every other element, the String with its quotes and percent signs
    escaped, the Integer in eight bytes with the same value.  One node is
    allocated for the array and one for every element read. *)
Theorem X28_flat_array_through_net_string (format_lf : Z -> float -> string)
    (strtod : string -> float * string) (self : ptr) (v : list CppON)
    (text : string) (next : ptr) :
  Forall writable v ->
  toNetString format_lf (COArray self (Some v)) = Some text ->
  Z.of_nat (String.length text) < 2 ^ 31 ->
  exists ys,
    parseJson strtod text next =
      Returns (Some (COArray next (Some ys)),
               (next + 1 + N.of_nat (List.length (net_elements v)))%N) /\
    Forall2 read_back (net_elements v) ys.
Proof.
  exact (parseJson_of_flat_array format_lf strtod self v text next).
Qed.

Lemma X28_flat_array_through_net_string_witness :
  (exists ys,
    parseJson c_strtod "8:1:7#1:x,]" 10%N =
      Returns (Some (COArray 10 (Some ys)),
               (10 + 1 + N.of_nat (List.length (net_elements
                  [COInteger 2 4 false 7; CONull 3; COString 4 "x"])))%N) /\
    Forall2 read_back
      (net_elements [COInteger 2 4 false 7; CONull 3; COString 4 "x"]) ys) /\
  toNetString printf_lf
    (COArray 1 (Some [COInteger 2 4 false 7; CONull 3; COString 4 "x"])) =
    Some "8:1:7#1:x,]"%string /\
  parseJson c_strtod "8:1:7#1:x,]" 10%N =
    Returns (Some (COArray 10 (Some [COInteger 11 8 true 7; COString 12 "x"])),
             13%N).
Proof.
  split; [|split; reflexivity].
  apply (X28_flat_array_through_net_string printf_lf c_strtod 1%N
           [COInteger 2 4 false 7; CONull 3; COString 4 "x"]
           "8:1:7#1:x,]" 10%N).
  - constructor; [|constructor; [exact I | constructor; [reflexivity | constructor]]].
    cbn [writable In]. right. left. reflexivity.
  - reflexivity.
  - vm_compute. reflexivity.
Defined.





(** ** The failure paths of the parsers *)








Section WrongCloser.

Variable format_lf : Z -> float -> string.
Variable value : string -> M (option CppON * cptr).
Hypothesis Hval : reads_json_leaves format_lf value.



End WrongCloser.










